(** * Resume parser and LaTeX renderer (services/resumeParser.ts)

    A shallow embedding of the [ResumeParser] class: the heuristic
    extractor ([extractResumeData] and its section scanners), the
    validator ([validateResumeData]) and the LaTeX renderer
    ([generateLatexFromResume] and the section builders), followed by the
    properties of the specification that are stated about them.

    JavaScript strings are sequences of UTF-16 code units; they are
    modelled as [list N].  Objects whose properties may be absent at run
    time are records of [option]s.  The one builtin that can throw in this
    code, [encodeURI], returns a [result]. *)

From Stdlib Require Import Ascii String.
From Stdlib Require Import List NArith Bool Lia PeanoNat.
From Stdlib Require Floats Permutation.
Import ListNotations.

Set Implicit Arguments.

(* ================================================================== *)
(** * JavaScript strings *)
(* ================================================================== *)

Module JS.

Definition jsstring := list N.

(** An ASCII literal as a JavaScript string. *)
Definition lit (s : string) : jsstring :=
  map N_of_ascii (list_ascii_of_string s).

Definition LF : N := 10.
Definition CR : N := 13.
(** U+2022 BULLET and U+2013 EN DASH, the two non-ASCII characters of the
    source text. *)
Definition BULLET : N := 8226.
Definition ENDASH : N := 8211.

Definition nl : jsstring := [LF].

Definition str_eqb (a b : jsstring) : bool :=
  if list_eq_dec N.eq_dec a b then true else false.

(** [s.startsWith(p)] *)
Fixpoint startsWith (p s : jsstring) : bool :=
  match p, s with
  | [], _ => true
  | _ :: _, [] => false
  | a :: p', b :: s' => N.eqb a b && startsWith p' s'
  end.

(** [s.includes(p)] *)
Fixpoint includes (p s : jsstring) : bool :=
  startsWith p s ||
  match s with
  | [] => false
  | _ :: s' => includes p s'
  end.

(** Number of positions of [s] at which [p] occurs. *)
Fixpoint occurrences (p s : jsstring) : nat :=
  (if startsWith p s then 1 else 0) +
  match s with
  | [] => 0
  | _ :: s' => occurrences p s'
  end.

(** WhiteSpace and LineTerminator code units of ECMAScript: what [trim]
    strips and what [\s] matches. *)
Definition isWhite (c : N) : bool :=
  ((9 <=? c) && (c <=? 13) || (c =? 32) || (c =? 160) || (c =? 5760)
   || (8192 <=? c) && (c <=? 8202) || (c =? 8232) || (c =? 8233)
   || (c =? 8239) || (c =? 8287) || (c =? 12288) || (c =? 65279))%N.

Fixpoint trimStart (s : jsstring) : jsstring :=
  match s with
  | c :: s' => if isWhite c then trimStart s' else s
  | [] => []
  end.

Definition trimEnd (s : jsstring) : jsstring := rev (trimStart (rev s)).

(** [s.trim()] *)
Definition trim (s : jsstring) : jsstring := trimEnd (trimStart s).

(** [s.toLowerCase()].  The letters of Basic Latin are mapped to their
    lower case.  Two code units outside of it have a lower case with a
    Basic Latin letter in it, U+0130 (an [i] and U+0307) and U+212A (a
    [k]), and are mapped as Unicode maps them.  Every other unit from 128
    on is left as it is: its lower case is made of units from 128 on, the
    engine takes it from the Unicode tables, and since this code only
    looks for Basic Latin words in a lower-cased line, which units those
    are makes no difference to it. *)
Definition lowerUnit (c : N) : jsstring :=
  if ((65 <=? c) && (c <=? 90))%N then [(c + 32)%N]
  else if (c =? 304)%N then [105; 775]%N
  else if (c =? 8490)%N then [107]%N
  else [c].

Definition toLowerCase (s : jsstring) : jsstring := flat_map lowerUnit s.

(** [parts.join(sep)] *)
Fixpoint join (sep : jsstring) (parts : list jsstring) : jsstring :=
  match parts with
  | [] => []
  | [p] => p
  | p :: rest => p ++ sep ++ join sep rest
  end.

(** [s.split(sep)] for a string separator.  The scan walks over [s]; at a
    position where [sep] starts the pending piece is closed and the
    remaining [length sep - 1] units of the separator are skipped. *)
Fixpoint split_go (sep : jsstring) (skip : nat) (acc s : jsstring)
  : list jsstring :=
  match s with
  | [] => [rev acc]
  | c :: s' =>
      match skip with
      | S k => split_go sep k acc s'
      | O =>
          if startsWith sep s
          then rev acc :: split_go sep (length sep - 1) [] s'
          else split_go sep 0 (c :: acc) s'
      end
  end.

Definition split (sep s : jsstring) : list jsstring :=
  match sep with
  | [] => map (fun c => [c]) s
  | _ => split_go sep 0 [] s
  end.

(** Truthiness of a string value, and of a possibly absent one. *)
Definition nonEmpty (s : jsstring) : bool :=
  match s with [] => false | _ => true end.

Definition truthy (o : option jsstring) : bool :=
  match o with Some s => nonEmpty s | None => false end.

(** [o || d] for a possibly absent string. *)
Definition orElse (o : option jsstring) (d : jsstring) : jsstring :=
  match o with
  | Some s => if nonEmpty s then s else d
  | None => d
  end.

(** [o?.trim()] *)
Definition trimOpt (o : option jsstring) : option jsstring :=
  option_map trim o.

(** [a.filter(Boolean)] on an array of strings. *)
Definition filterTruthy (l : list jsstring) : list jsstring :=
  filter nonEmpty l.

End JS.
Import JS.

(* ================================================================== *)
(** * Regular expressions *)
(* ================================================================== *)

(** A backtracking matcher in continuation-passing style, after the
    pattern semantics of ECMAScript (non-unicode mode): alternatives are
    tried left to right, quantifiers are greedy or lazy, an iteration of
    an unbounded quantifier that consumes nothing is rejected, and the
    captures of a quantified group are reset when an iteration starts. *)

Module Regex.

Inductive regex :=
| Eps                                   (* the empty pattern *)
| Chr (c : N)                           (* a literal character *)
| Cls (neg : bool) (ranges : list (N * N))  (* [...] and [^...] *)
| Dot                                   (* . *)
| Seq (r1 r2 : regex)
| Alt (r1 r2 : regex)
| Rep (greedy : bool) (min : nat) (max : option nat) (r : regex)
| Group (i : nat) (r : regex)           (* the i-th capturing group *)
| Bol                                   (* ^ *)
| Eol                                   (* $ *)
| WordB.                                (* \b *)

(** Position of a match attempt: the units already passed (last one
    first), the units ahead, and the captures so far. *)
Record mstate := MState {
  before : jsstring;
  ahead : jsstring;
  caps : list (nat * jsstring)
}.

Definition cont := mstate -> option mstate.

Definition inRanges (ranges : list (N * N)) (c : N) : bool :=
  existsb (fun r => (fst r <=? c) && (c <=? snd r))%N ranges.

Definition upperUnit (c : N) : N :=
  if ((97 <=? c) && (c <=? 122))%N then (c - 32)%N else c.

Definition lowerLetter (c : N) : N :=
  if ((65 <=? c) && (c <=? 90))%N then (c + 32)%N else c.

(** Character comparison; under the [i] flag both sides are
    canonicalised.  Every pattern of this code base that carries the flag
    is written in Basic Latin, and no code unit from 128 on canonicalises
    into Basic Latin, so folding the Basic Latin letters is exact. *)
Definition chrMatch (ic : bool) (p c : N) : bool :=
  if ic then (upperUnit p =? upperUnit c)%N else (p =? c)%N.

Definition clsMatch (ic : bool) (neg : bool) (ranges : list (N * N)) (c : N)
  : bool :=
  let found :=
    if ic
    then inRanges ranges c || inRanges ranges (upperUnit c)
         || inRanges ranges (lowerLetter c)
    else inRanges ranges c in
  xorb neg found.

Definition isLineTerminator (c : N) : bool :=
  ((c =? 10) || (c =? 13) || (c =? 8232) || (c =? 8233))%N.

Definition isWordChar (c : N) : bool :=
  ((48 <=? c) && (c <=? 57) || (65 <=? c) && (c <=? 90)
   || (97 <=? c) && (c <=? 122) || (c =? 95))%N.

Definition wordAt (s : jsstring) : bool :=
  match s with c :: _ => isWordChar c | [] => false end.

(** Consume one unit satisfying [p]. *)
Definition step (p : N -> bool) (x : mstate) (k : cont) : option mstate :=
  match ahead x with
  | c :: s' => if p c then k (MState (c :: before x) s' (caps x)) else None
  | [] => None
  end.

Fixpoint groupsOf (r : regex) : list nat :=
  match r with
  | Seq a b | Alt a b => groupsOf a ++ groupsOf b
  | Rep _ _ _ a => groupsOf a
  | Group i a => i :: groupsOf a
  | _ => []
  end.

Definition resetCaps (gs : list nat) (cs : list (nat * jsstring))
  : list (nat * jsstring) :=
  filter (fun e => negb (existsb (Nat.eqb (fst e)) gs)) cs.

Definition setCap (i : nat) (v : jsstring) (cs : list (nat * jsstring))
  : list (nat * jsstring) :=
  (i, v) :: resetCaps [i] cs.

Definition getCap (i : nat) (cs : list (nat * jsstring)) : option jsstring :=
  option_map snd (find (fun e => Nat.eqb (fst e) i) cs).

Definition decMax (max : option nat) : option nat := option_map pred max.

(** The loop of a quantifier, over the matcher [body] of the quantified
    pattern, whose groups are [gs].  The fuel bounds the number of
    iterations: an iteration lowers [min] or, once [min] is 0, must
    consume a unit, so [min + length (ahead x)] iterations are the most
    there can be and the fuel given by [m] is never used up
    ([RegexFacts.rep_fuel_enough]). *)
Fixpoint repLoop (body : mstate -> cont -> option mstate) (gs : list nat)
  (greedy : bool) (fuel min : nat) (max : option nat) (x : mstate) (k : cont)
  {struct fuel} : option mstate :=
  match fuel with
  | O => None
  | S fuel' =>
      match max with
      | Some O => k x
      | _ =>
          let again :=
            body (MState (before x) (ahead x) (resetCaps gs (caps x)))
              (fun y =>
                 if Nat.eqb min 0
                    && Nat.eqb (length (ahead y)) (length (ahead x))
                 then None
                 else repLoop body gs greedy fuel' (pred min) (decMax max) y k) in
          if negb (Nat.eqb min 0) then again
          else if greedy then
            match again with
            | Some z => Some z
            | None => k x
            end
          else
            match k x with
            | Some z => Some z
            | None => again
            end
      end
  end.

(** The matcher. *)
Fixpoint m (ic : bool) (r : regex) (x : mstate) (k : cont) {struct r}
  : option mstate :=
  match r with
  | Eps => k x
  | Chr c => step (chrMatch ic c) x k
  | Cls neg ranges => step (clsMatch ic neg ranges) x k
  | Dot => step (fun c => negb (isLineTerminator c)) x k
  | Seq r1 r2 => m ic r1 x (fun y => m ic r2 y k)
  | Alt r1 r2 =>
      match m ic r1 x k with
      | Some z => Some z
      | None => m ic r2 x k
      end
  | Rep greedy min max r1 =>
      repLoop (m ic r1) (groupsOf r1) greedy
        (S (min + length (ahead x))) min max x k
  | Group i r1 =>
      m ic r1 x (fun y =>
        let n := length (before y) - length (before x) in
        k (MState (before y) (ahead y)
             (setCap i (rev (firstn n (before y))) (caps y))))
  | Bol => match before x with [] => k x | _ => None end
  | Eol => match ahead x with [] => k x | _ => None end
  | WordB =>
      if xorb (wordAt (before x)) (wordAt (ahead x)) then k x else None
  end.

(** A match attempt anchored at the current position: the matched text
    and the captures. *)
Definition matchHere (ic : bool) (r : regex) (bef s : jsstring)
  : option (jsstring * list (nat * jsstring)) :=
  match m ic r (MState bef s []) Some with
  | Some y =>
      Some (rev (firstn (length (before y) - length bef) (before y)), caps y)
  | None => None
  end.

(** The first match that starts at the current position or after it: the
    matched text and the captures. *)
Fixpoint searchFrom (ic : bool) (r : regex) (bef s : jsstring)
  : option (jsstring * list (nat * jsstring)) :=
  match matchHere ic r bef s with
  | Some res => Some res
  | None =>
      match s with
      | [] => None
      | c :: s' => searchFrom ic r (c :: bef) s'
      end
  end.

(** [re.test(s)] (no [g] flag) *)
Definition test (ic : bool) (r : regex) (s : jsstring) : bool :=
  match searchFrom ic r [] s with Some _ => true | None => false end.

(** [s.match(re)] without the [g] flag: the whole match and the
    captures, or [None] for [null]. *)
Definition exec (ic : bool) (r : regex) (s : jsstring)
  : option (jsstring * list (nat * jsstring)) :=
  searchFrom ic r [] s.

(** Left-to-right scan for the successive matches of a [g] pattern.  The
    result lists the stretches between matches ([inl]) and the matched
    texts ([inr]).  After a match of [n > 0] units the next [n - 1] units
    are skipped; after an empty match the scan moves on by one unit. *)
Fixpoint scan (ic : bool) (r : regex) (skip : nat) (bef acc s : jsstring)
  : list (jsstring + jsstring) :=
  match s with
  | [] =>
      match skip, matchHere ic r bef [] with
      | O, Some (w, _) => [inl (rev acc); inr w]
      | _, _ => [inl (rev acc)]
      end
  | c :: s' =>
      match skip with
      | S j => scan ic r j (c :: bef) acc s'
      | O =>
          match matchHere ic r bef s with
          | Some (w, _) =>
              match w with
              | [] => inl (rev acc) :: inr w :: scan ic r 0 (c :: bef) [c] s'
              | _ :: w' =>
                  inl (rev acc) :: inr w :: scan ic r (length w') (c :: bef) [] s'
              end
          | None => scan ic r 0 (c :: bef) (c :: acc) s'
          end
      end
  end.

Definition matchesOf (l : list (jsstring + jsstring)) : list jsstring :=
  flat_map (fun e => match e with inr w => [w] | inl _ => [] end) l.

(** [s.match(re)] with the [g] flag: all matches, [None] when there is
    none. *)
Definition matchAll (ic : bool) (r : regex) (s : jsstring)
  : option (list jsstring) :=
  match matchesOf (scan ic r 0 [] [] s) with
  | [] => None
  | l => Some l
  end.

(** [s.replace(re, f)] with the [g] flag, [f] computing the replacement
    from the matched text. *)
Definition replaceAll (ic : bool) (r : regex) (f : jsstring -> jsstring)
  (s : jsstring) : jsstring :=
  flat_map (fun e => match e with inl t => t | inr w => f w end)
    (scan ic r 0 [] [] s).

(** [s.split(re)] for a pattern without capturing groups whose matches
    are never empty (all the separators of this code base): the pieces
    between the successive matches.  On the empty string the result is
    the one empty piece. *)
Definition splitRe (ic : bool) (r : regex) (s : jsstring) : list jsstring :=
  flat_map (fun e => match e with inl t => [t] | inr _ => [] end)
    (scan ic r 0 [] [] s).

(** Pattern builders. *)
Definition str (s : string) : regex :=
  fold_right (fun c r => Seq (Chr c) r) Eps (lit s).

Definition star (r : regex) : regex := Rep true 0 None r.
Definition plus (r : regex) : regex := Rep true 1 None r.
Definition lazyPlus (r : regex) : regex := Rep false 1 None r.
Definition opt (r : regex) : regex := Rep true 0 (Some 1) r.
Definition times (n : nat) (r : regex) : regex := Rep true n (Some n) r.
Definition atLeast (n : nat) (r : regex) : regex := Rep true n None r.

Fixpoint seqs (l : list regex) : regex :=
  match l with
  | [] => Eps
  | [r] => r
  | r :: l' => Seq r (seqs l')
  end.

Fixpoint alts (l : list regex) : regex :=
  match l with
  | [] => Eps
  | [r] => r
  | r :: l' => Alt r (alts l')
  end.

Definition one (c : N) : N * N := (c, c).
Definition chars (s : string) : list (N * N) := map one (lit s).

(** The ranges of [\s]. *)
Definition spaceRanges : list (N * N) :=
  [(9, 13); one 32; one 160; one 5760; (8192, 8202); one 8232; one 8233;
   one 8239; one 8287; one 12288; one 65279]%N.
Definition space : regex := Cls false spaceRanges.
Definition digitRanges : list (N * N) := [(48, 57)]%N.
Definition upperRanges : list (N * N) := [(65, 90)]%N.
Definition lowerRanges : list (N * N) := [(97, 122)]%N.

End Regex.
Import Regex.

(* ================================================================== *)
(** * Data model (types/index.ts) *)
(* ================================================================== *)

(** The interfaces of the resume record.  A property is an [option]: the
    type annotations are not checked at run time, the extractor builds
    entries without some of the fields the interfaces call required, the
    validator is there for records that lack them, and the renderer tests
    every property it reads for absence. *)

Module PersonalInfo.
Record t := mk {
  name : option jsstring;
  email : option jsstring;
  phone : option jsstring;
  location : option jsstring;
  linkedin : option jsstring;
  github : option jsstring;
  website : option jsstring
}.
End PersonalInfo.

Module Experience.
Record t := mk {
  company : option jsstring;
  position : option jsstring;
  location : option jsstring;
  startDate : option jsstring;
  endDate : option jsstring;
  bullets : option (list jsstring)
}.
End Experience.

Module Education.
Record t := mk {
  institution : option jsstring;
  degree : option jsstring;
  field : option jsstring;
  graduationDate : option jsstring;
  gpa : option jsstring;
  honors : option (list jsstring)
}.
End Education.

Module Skill.
Record t := mk {
  category : option jsstring;
  skills : option (list jsstring)
}.
End Skill.

Module Project.
Record t := mk {
  name : option jsstring;
  description : option jsstring;
  technologies : option (list jsstring);
  url : option jsstring;
  startDate : option jsstring;
  endDate : option jsstring
}.
End Project.

Module Certification.
Record t := mk {
  name : option jsstring;
  issuer : option jsstring;
  date : option jsstring;
  expiryDate : option jsstring;
  credentialId : option jsstring
}.
End Certification.

Module Award.
Record t := mk {
  name : option jsstring;
  issuer : option jsstring;
  date : option jsstring;
  description : option jsstring
}.
End Award.

Module ResumeData.
Record t := mk {
  personalInfo : option PersonalInfo.t;
  summary : option jsstring;
  experience : option (list Experience.t);
  education : option (list Education.t);
  skills : option (list Skill.t);
  projects : option (list Project.t);
  certifications : option (list Certification.t);
  awards : option (list Award.t)
}.
End ResumeData.

(* ================================================================== *)
(** * The extractor *)
(* ================================================================== *)

Module Extractor.

Definition chr (a : ascii) : regex := Chr (N_of_ascii a).

(** [/\d/] *)
Definition digitRe : regex := Cls false digitRanges.

(** [/\b[A-Za-z0-9._%+-]+@[A-Za-z0-9.-]+\.[A-Z|a-z]{2,}\b/g] *)
Definition emailRe : regex :=
  seqs [WordB;
        plus (Cls false (upperRanges ++ lowerRanges ++ digitRanges ++ chars "._%+-"));
        chr "@";
        plus (Cls false (upperRanges ++ lowerRanges ++ digitRanges ++ chars ".-"));
        chr ".";
        atLeast 2 (Cls false (upperRanges ++ chars "|" ++ lowerRanges));
        WordB].

(** [/(\+?1?[-.\s]?)?\(?([0-9]{3})\)?[-.\s]?([0-9]{3})[-.\s]?([0-9]{4})\b/g] *)
Definition phoneSep : regex := Cls false (chars "-." ++ spaceRanges).
Definition phoneRe : regex :=
  seqs [opt (Group 1 (seqs [opt (chr "+"); opt (chr "1"); opt phoneSep]));
        opt (chr "(");
        Group 2 (times 3 (Cls false digitRanges));
        opt (chr ")");
        opt phoneSep;
        Group 3 (times 3 (Cls false digitRanges));
        opt phoneSep;
        Group 4 (times 4 (Cls false digitRanges));
        WordB].

Definition handleRanges : list (N * N) :=
  upperRanges ++ lowerRanges ++ digitRanges ++ chars "_-".

(** [/linkedin\.com\/in\/[A-Za-z0-9_-]+/gi] *)
Definition linkedinRe : regex :=
  seqs [str "linkedin.com/in/"; plus (Cls false handleRanges)].

(** [/github\.com\/[A-Za-z0-9_-]+/gi] *)
Definition githubRe : regex :=
  seqs [str "github.com/"; plus (Cls false handleRanges)].

(** [/^(.+?)\s*(?:at|@)\s*(.+?)(?:\s*\|.* )?$/i], written here with a blank
    before the parenthesis that closes the last group. *)
Definition jobRe : regex :=
  seqs [Bol; Group 1 (lazyPlus Dot); star space;
        Alt (str "at") (chr "@"); star space;
        Group 2 (lazyPlus Dot);
        opt (seqs [star space; chr "|"; star Dot]);
        Eol].

(** [/[|\-]/] *)
Definition barDashRe : regex := Cls false (chars "|-").

(** [/^(.+?),\s*(.+?)(?:,\s*(.+?))?$/] *)
Definition eduRe : regex :=
  seqs [Bol; Group 1 (lazyPlus Dot); chr ","; star space;
        Group 2 (lazyPlus Dot);
        opt (seqs [chr ","; star space; Group 3 (lazyPlus Dot)]);
        Eol].

(** [/[•,\n]/] *)
Definition skillSepRe : regex := Cls false [one BULLET; one 44%N; one LF].

(** [/\b(javascript|python|java|react|node|sql|html|css|aws|docker|git)\b/i] *)
Definition technicalRe : regex :=
  seqs [WordB;
        Group 1 (alts (map str
          ["javascript"; "python"; "java"; "react"; "node"; "sql"; "html";
           "css"; "aws"; "docker"; "git"]%string));
        WordB].

(** [/\b(communication|leadership|teamwork|problem.solving|analytical)\b/i] *)
Definition softRe : regex :=
  seqs [WordB;
        Group 1 (alts
          [str "communication"; str "leadership"; str "teamwork";
           seqs [str "problem"; Dot; str "solving"]; str "analytical"]);
        WordB].

(** [/^[A-Z\s]+$/] *)
Definition capsRe : regex :=
  seqs [Bol; plus (Cls false (upperRanges ++ spaceRanges)); Eol].

(** [keywords.some(keyword => line.includes(keyword))] *)
Definition someIncluded (keywords : list jsstring) (line : jsstring) : bool :=
  existsb (fun keyword => includes keyword line) keywords.

Definition sectionHeaders : list jsstring :=
  map lit ["experience"; "education"; "skills"; "projects"; "certifications";
           "awards"; "summary"; "objective"; "professional"; "academic"]%string.

Definition isSectionHeader (line : jsstring) : bool :=
  let lowerLine := toLowerCase line in
  someIncluded sectionHeaders lowerLine
  || ((length line <? 30) && test false capsRe line).

(** The heading scan shared by the section extractors: the loop

      for (i = 0; i < lines.length; i++)
        if (keywords.some(k => lines[i].toLowerCase().includes(k)))
          { start = i + 1; break; }

    followed by a loop over [lines[start..]].  [afterHeading] returns the
    lines from [start] on, [None] when [start] stays -1. *)
Fixpoint afterHeading (keywords : list jsstring) (lines : list jsstring)
  : option (list jsstring) :=
  match lines with
  | [] => None
  | l :: rest =>
      if someIncluded keywords (toLowerCase l) then Some rest
      else afterHeading keywords rest
  end.

(** ** extractPersonalInfo *)

Definition isNameLine (line : jsstring) : bool :=
  (0 <? length line) && (length line <? 50)
  && negb (includes (lit "@") line) && negb (test false digitRe line)
  && (negb (includes (lit "|") line) && negb (includes [BULLET] line)
      && negb (includes (lit " - ") line)).

Definition isLocationLine (line : jsstring) : bool :=
  includes (lit ",") line && (length line <? 50)
  && negb (includes (lit "@") line)
  && (length (split (lit ",") line) =? 2).

(** [fullText.match(re)] followed by [if (m) field = m[0]], on a field
    that holds the empty string. *)
Definition firstMatchOr (ic : bool) (r : regex) (fullText dflt : jsstring)
  : jsstring :=
  match matchAll ic r fullText with
  | Some (w :: _) => w
  | _ => dflt
  end.

Definition extractPersonalInfo (lines : list jsstring) : PersonalInfo.t :=
  let name :=
    match find isNameLine (firstn (Nat.min 5 (length lines)) lines) with
    | Some line => line
    | None => []
    end in
  let fullText := join (lit " ") lines in
  let location :=
    match find isLocationLine (firstn 10 lines) with
    | Some line => line
    | None => []
    end in
  PersonalInfo.mk
    (Some name)
    (Some (firstMatchOr false emailRe fullText []))
    (Some (firstMatchOr false phoneRe fullText []))
    (Some location)
    (Some (firstMatchOr true linkedinRe fullText []))
    (Some (firstMatchOr true githubRe fullText []))
    (Some []).

(** ** extractSummary *)

Definition summaryKeywords : list jsstring :=
  map lit ["summary"; "objective"; "profile"; "about"]%string.

Fixpoint summaryLoop (summaryLines : list jsstring) (lines : list jsstring)
  : list jsstring :=
  match lines with
  | [] => summaryLines
  | line :: rest =>
      if isSectionHeader line then summaryLines
      else
        let summaryLines' :=
          if 10 <? length line then summaryLines ++ [line] else summaryLines in
        if 3 <=? length summaryLines' then summaryLines'
        else summaryLoop summaryLines' rest
  end.

Definition extractSummary (lines : list jsstring) : jsstring :=
  match afterHeading summaryKeywords lines with
  | None => []
  | Some rest => join (lit " ") (summaryLoop [] rest)
  end.

(** ** extractExperience *)

Definition experienceKeywords : list jsstring :=
  map lit ["experience"; "work"; "employment"; "professional"]%string.

(** The loop keeps [currentExp] as a reference: the object it names may
    already sit in [experience] (a heading line that matches neither
    format pushes the current entry and keeps it current), and a bullet
    pushed later changes that entry too.  The objects therefore live in a
    store, addressed by their allocation index, and [experience] holds
    addresses. *)
Record expState := ExpState {
  objects : list Experience.t;
  currentExp : nat;
  collectingBullets : bool;
  experience : list nat
}.

Definition emptyEntry : Experience.t :=
  Experience.mk None None None None None None.

Definition newEntry (position company : option jsstring) : Experience.t :=
  Experience.mk company position None None None (Some []).

Definition deref (objects : list Experience.t) (a : nat) : Experience.t :=
  nth a objects emptyEntry.

Fixpoint update (a : nat) (f : Experience.t -> Experience.t)
  (objects : list Experience.t) : list Experience.t :=
  match objects, a with
  | [], _ => []
  | o :: rest, O => f o :: rest
  | o :: rest, S a' => o :: update a' f rest
  end.

(** [currentExp.position && currentExp.company] *)
Definition complete (e : Experience.t) : bool :=
  truthy (Experience.position e) && truthy (Experience.company e).

(** [if (complete) experience.push(currentExp)] *)
Definition commit (st : expState) : expState :=
  if complete (deref (objects st) (currentExp st))
  then ExpState (objects st) (currentExp st) (collectingBullets st)
         (experience st ++ [currentExp st])
  else st.

(** [currentExp = { position, company, bullets: [] }] *)
Definition startEntry (position company : option jsstring) (st : expState)
  : expState :=
  ExpState (objects st ++ [newEntry position company])
    (length (objects st)) (collectingBullets st) (experience st).

Definition isBulletLine (line : jsstring) : bool :=
  startsWith [BULLET] line || startsWith (lit "-") line.

(** [currentExp.bullets = currentExp.bullets || []; currentExp.bullets.push(b)] *)
Definition pushBullet (bullet : jsstring) (e : Experience.t) : Experience.t :=
  Experience.mk (Experience.company e) (Experience.position e)
    (Experience.location e) (Experience.startDate e) (Experience.endDate e)
    (Some (match Experience.bullets e with Some l => l | None => [] end
           ++ [bullet])).

(** The parse of a heading line.  The two groups of [jobRe] take part in
    every match, so [getCap] finds them. *)
Definition parseHeading (line : jsstring) (st : expState) : expState :=
  match exec true jobRe line with
  | Some (_, cs) =>
      startEntry (option_map trim (getCap 1 cs)) (option_map trim (getCap 2 cs)) st
  | None =>
      if includes (lit "|") line || includes (lit " - ") line then
        let parts := map trim (splitRe false barDashRe line) in
        if 2 <=? length parts
        then startEntry (nth_error parts 0) (nth_error parts 1) st
        else st
      else st
  end.

(** One turn of the loop body, for a line that did not end the loop. *)
Definition experienceStep (line : jsstring) (st : expState) : expState :=
  if negb (startsWith [BULLET] line) && negb (startsWith (lit "-") line)
     && (5 <? length line)
  then
    let st1 := parseHeading line (commit st) in
    ExpState (objects st1) (currentExp st1) false (experience st1)
  else if isBulletLine line
          && truthy (Experience.position (deref (objects st) (currentExp st)))
  then
    let bullet := trim (skipn 1 line) in
    let objects' :=
      if 0 <? length bullet
      then update (currentExp st) (pushBullet bullet) (objects st)
      else objects st in
    ExpState objects' (currentExp st) true (experience st)
  else st.

Fixpoint experienceLoop (lines : list jsstring) (st : expState) : expState :=
  match lines with
  | [] => st
  | line :: rest =>
      if isSectionHeader line
         && negb (str_eqb (toLowerCase line) (lit "experience"))
      then st
      else experienceLoop rest (experienceStep line st)
  end.

Definition extractExperience (lines : list jsstring) : list Experience.t :=
  match afterHeading experienceKeywords lines with
  | None => []
  | Some rest =>
      let st := commit (experienceLoop rest (ExpState [emptyEntry] 0 false [])) in
      map (deref (objects st)) (experience st)
  end.

(** ** extractEducation *)

Definition educationKeywords : list jsstring :=
  map lit ["education"; "academic"; "university"; "college"]%string.

Definition educationEntry (degree institution field : option jsstring)
  : Education.t :=
  Education.mk institution degree field None None None.

Definition parseEducation (line : jsstring) : list Education.t :=
  match exec false eduRe line with
  | Some (_, cs) =>
      [educationEntry (option_map trim (getCap 1 cs))
         (option_map trim (getCap 2 cs))
         (Some (orElse (option_map trim (getCap 3 cs)) []))]
  | None =>
      let parts := map trim (split (lit ",") line) in
      if 2 <=? length parts
      then [educationEntry (nth_error parts 0) (nth_error parts 1)
              (Some (join (lit ", ") (skipn 2 parts)))]
      else []
  end.

Fixpoint educationLoop (lines : list jsstring) : list Education.t :=
  match lines with
  | [] => []
  | line :: rest =>
      if isSectionHeader line
         && negb (someIncluded educationKeywords (toLowerCase line))
      then []
      else
        (if (10 <? length line) && negb (startsWith [BULLET] line)
            && negb (startsWith (lit "-") line)
         then parseEducation line else [])
        ++ educationLoop rest
  end.

Definition extractEducation (lines : list jsstring) : list Education.t :=
  match afterHeading educationKeywords lines with
  | None => []
  | Some rest => educationLoop rest
  end.

(** ** extractSkills *)

Definition skillsKeywords : list jsstring :=
  map lit ["skills"; "technologies"; "competencies"]%string.

Fixpoint skillsLoop (lines : list jsstring) : list jsstring :=
  match lines with
  | [] => []
  | line :: rest =>
      if isSectionHeader line then []
      else (if 0 <? length line then [line] else []) ++ skillsLoop rest
  end.

Definition isTechnical (skill : jsstring) : bool := test true technicalRe skill.
Definition isSoft (skill : jsstring) : bool := test true softRe skill.

(** [a.includes(x)] on an array of strings. *)
Definition member (x : jsstring) (a : list jsstring) : bool :=
  existsb (str_eqb x) a.

Definition technicalOf (skillItems : list jsstring) : list jsstring :=
  filter isTechnical skillItems.
Definition softOf (skillItems : list jsstring) : list jsstring :=
  filter isSoft skillItems.
Definition otherOf (skillItems : list jsstring) : list jsstring :=
  filter (fun skill => negb (member skill (technicalOf skillItems))
                       && negb (member skill (softOf skillItems)))
    skillItems.

Definition skillGroup (category : string) (items : list jsstring)
  : list Skill.t :=
  if 0 <? length items
  then [Skill.mk (Some (lit category)) (Some items)]
  else [].

(** The grouping of the tokens, the part of [extractSkills] after the
    split. *)
Definition categorize (skillItems : list jsstring) : list Skill.t :=
  skillGroup "Technical Skills" (technicalOf skillItems)
  ++ skillGroup "Soft Skills" (softOf skillItems)
  ++ skillGroup "Other Skills" (otherOf skillItems).

Definition skillTokens (skillsText : list jsstring) : list jsstring :=
  filter (fun s => 0 <? length s)
    (map trim (splitRe false skillSepRe (join (lit " ") skillsText))).

Definition extractSkills (lines : list jsstring) : list Skill.t :=
  match afterHeading skillsKeywords lines with
  | None => []
  | Some rest => categorize (skillTokens (skillsLoop rest))
  end.

(** ** extractResumeData *)

(** [text.split('\n').map(line => line.trim()).filter(line => line.length > 0)] *)
Definition normalize (text : jsstring) : list jsstring :=
  filter (fun line => 0 <? length line) (map trim (split nl text)).

Definition extractResumeData (text : jsstring) : ResumeData.t :=
  let lines := normalize text in
  ResumeData.mk
    (Some (extractPersonalInfo lines))
    (Some (extractSummary lines))
    (Some (extractExperience lines))
    (Some (extractEducation lines))
    (Some (extractSkills lines))
    (Some [])
    (Some [])
    (Some []).

End Extractor.

(* ================================================================== *)
(** * Exceptions *)
(* ================================================================== *)

Module Exn.

Inductive error := URIError | TypeError.

Inductive result (A : Type) : Type :=
| Ok (a : A)
| Throw (e : error).
Arguments Ok {A} a.
Arguments Throw {A} e.

Definition bind {A B : Type} (c : result A) (k : A -> result B) : result B :=
  match c with
  | Ok a => k a
  | Throw e => Throw e
  end.

Definition rmap {A B : Type} (f : A -> B) (c : result A) : result B :=
  bind c (fun a => Ok (f a)).

Declare Scope result_scope.
Delimit Scope result_scope with result.
Notation "x <- c ;; k" := (bind c (fun x => k))
  (at level 61, c at next level, right associativity) : result_scope.

(** [l.map(f)] for a callback that may throw: the elements are visited in
    order and the first exception ends the traversal. *)
Fixpoint mapM {A B : Type} (f : A -> result B) (l : list A) : result (list B) :=
  match l with
  | [] => Ok []
  | a :: l' => bind (f a) (fun b => bind (mapM f l') (fun bs => Ok (b :: bs)))
  end.

End Exn.
Import Exn.

(* ================================================================== *)
(** * The renderer *)
(* ================================================================== *)

Module Renderer.

Local Open Scope result_scope.

(** ** encodeURI *)

(** The units [encodeURI] leaves as they are: letters, digits and
    [; / ? : @ & = + $ , - _ . ! ~ * ' ( ) #]. *)
Definition uriUnescaped (c : N) : bool :=
  ((48 <=? c) && (c <=? 57) || (65 <=? c) && (c <=? 90)
   || (97 <=? c) && (c <=? 122))%N
  || existsb (N.eqb c) (lit ";/?:@&=+$,-_.!~*'()#").

Definition hexDigit (d : N) : N :=
  if (d <? 10)%N then (48 + d)%N else (55 + d)%N.

Definition percent (octet : N) : jsstring :=
  [37%N; hexDigit (octet / 16); hexDigit (octet mod 16)].

Definition utf8 (cp : N) : list N :=
  (if cp <? 128 then [cp]
   else if cp <? 2048 then [192 + cp / 64; 128 + cp mod 64]
   else if cp <? 65536 then
     [224 + cp / 4096; 128 + (cp / 64) mod 64; 128 + cp mod 64]
   else
     [240 + cp / 262144; 128 + (cp / 4096) mod 64; 128 + (cp / 64) mod 64;
      128 + cp mod 64])%N.

Definition isLead (c : N) : bool := ((55296 <=? c) && (c <=? 56319))%N.
Definition isTrail (c : N) : bool := ((56320 <=? c) && (c <=? 57343))%N.

(** [encodeURI(s)]: a unit outside the unescaped set is replaced by the
    percent-encoded UTF-8 octets of its code point; a surrogate that is
    not part of a pair raises [URIError]. *)
Fixpoint encodeURI (s : jsstring) : result jsstring :=
  match s with
  | [] => Ok []
  | c :: s' =>
      if uriUnescaped c then rmap (cons c) (encodeURI s')
      else if isTrail c then Throw URIError
      else if isLead c then
        match s' with
        | d :: s'' =>
            if isTrail d
            then rmap (app (flat_map percent
                              (utf8 ((c - 55296) * 1024 + (d - 56320) + 65536)%N)))
                   (encodeURI s'')
            else Throw URIError
        | [] => Throw URIError
        end
      else rmap (app (flat_map percent (utf8 c))) (encodeURI s')
  end.

(** ** Formatting utilities *)

(** [/^https?:\/\//i] *)
Definition httpRe : regex :=
  seqs [Bol; str "http"; opt (Extractor.chr "s"); str "://"].

Definition normalizeUrl (url : option jsstring) : result (option jsstring) :=
  if negb (truthy url) then Ok None
  else
    let trimmed := trim (orElse url []) in
    if negb (nonEmpty trimmed) then Ok None
    else if startsWith (lit "mailto:") trimmed then rmap Some (encodeURI trimmed)
    else if test true httpRe trimmed then rmap Some (encodeURI trimmed)
    else rmap Some (encodeURI (lit "https://" ++ trimmed)).

Definition formatDateRange (start end_ : option jsstring) : jsstring :=
  let trimmedStart := trimOpt start in
  let trimmedEnd := trimOpt end_ in
  if truthy trimmedStart && truthy trimmedEnd
  then orElse trimmedStart [] ++ [32; ENDASH; 32]%N ++ orElse trimmedEnd []
  else if truthy trimmedStart && negb (truthy trimmedEnd)
  then orElse trimmedStart [] ++ [32; ENDASH; 32]%N ++ lit "Present"
  else if negb (truthy trimmedStart) && truthy trimmedEnd
  then orElse trimmedEnd []
  else lit "Present".

Definition getDefaultPreamble : jsstring :=
  lit "\documentclass[letterpaper,11pt]{article}" ++ nl.

(** ** escapeLatex *)

(** [/\r?\n/g], [/\\/g], [/[&%$#_{}~^]/g], [/</g], [/>/g] *)
Definition newlineRe : regex := Seq (opt (Chr CR)) (Chr LF).
Definition backslashRe : regex := Extractor.chr "\".
Definition reservedRe : regex := Cls false (chars "&%$#_{}~^").
Definition lessRe : regex := Extractor.chr "<".
Definition greaterRe : regex := Extractor.chr ">".

(** The chain of replacements on a string. *)
Definition escapeText (text : jsstring) : jsstring :=
  replaceAll false greaterRe (fun _ => lit "\textgreater{}")
    (replaceAll false lessRe (fun _ => lit "\textless{}")
       (replaceAll false reservedRe (fun w => lit "\" ++ w)
          (replaceAll false backslashRe (fun _ => lit "\textbackslash{}")
             (replaceAll false newlineRe (fun _ => lit " ") text)))).

Definition escapeLatex (text : option jsstring) : jsstring :=
  match text with
  | None => []
  | Some t => escapeText t
  end.

(** ** Section builders *)

Definition hasItems {A : Type} (o : option (list A)) : bool :=
  match o with
  | Some (_ :: _) => true
  | _ => false
  end.

Definition itemsOf {A : Type} (o : option (list A)) : list A :=
  match o with
  | Some l => l
  | None => []
  end.

Definition bulletLine (item : jsstring) : jsstring :=
  lit "        \resumeItem{" ++ escapeLatex (Some item) ++ lit "}".

Definition toBulletLines (items : list jsstring) (fallback : jsstring)
  : jsstring :=
  let normalized := filterTruthy (map trim items) in
  let normalized :=
    if length normalized =? 0 then normalized ++ [fallback] else normalized in
  join nl (map bulletLine normalized).

Definition href (target label : jsstring) : jsstring :=
  lit "\href{" ++ target ++ lit "}{" ++ label ++ lit "}".

(** [if (field) { const u = this.normalizeUrl(field); if (u) parts.push(...) }] *)
Definition linkPart (field : option jsstring) (label : string)
  : result (list jsstring) :=
  if truthy field then
    u <- normalizeUrl field ;;
    Ok (if truthy u then [href (orElse u []) (lit label)] else [])
  else Ok [].

Definition buildHeader (personalInfo : option PersonalInfo.t) : result jsstring :=
  match personalInfo with
  | None => Throw TypeError
  | Some p =>
      let name :=
        if truthy (trimOpt (PersonalInfo.name p))
        then orElse (trimOpt (PersonalInfo.name p)) []
        else lit "Your Name" in
      let location :=
        if truthy (PersonalInfo.location p)
        then [escapeLatex (PersonalInfo.location p)] else [] in
      let phone :=
        if truthy (PersonalInfo.phone p)
        then [escapeLatex (PersonalInfo.phone p)] else [] in
      let email :=
        if truthy (PersonalInfo.email p)
        then
          let email := trim (orElse (PersonalInfo.email p) []) in
          [href (lit "mailto:" ++ email) (escapeLatex (Some email))]
        else [] in
      linkedin <- linkPart (PersonalInfo.linkedin p) "LinkedIn" ;;
      github <- linkPart (PersonalInfo.github p) "GitHub" ;;
      website <- linkPart (PersonalInfo.website p) "Portfolio" ;;
      let contactParts := location ++ phone ++ email ++ linkedin ++ github ++ website in
      let contactParts :=
        if length contactParts =? 0
        then contactParts ++ [lit "Add your preferred contact details"]
        else contactParts in
      Ok (lit "\begin{center}" ++ nl
          ++ lit "    {\Huge \scshape " ++ escapeLatex (Some name)
          ++ lit "} \ \vspace{1pt}" ++ nl
          ++ lit "    " ++ join (lit " $|$ ") contactParts ++ lit " \" ++ nl
          ++ lit "\end{center}")
  end.

Definition buildSummary (summary : option jsstring) : jsstring :=
  let trimmedSummary := trimOpt summary in
  if negb (truthy trimmedSummary) then []
  else lit "\section{Professional Summary}" ++ nl
       ++ lit "\small{" ++ escapeLatex trimmedSummary ++ lit "}".

Definition experienceFallback : jsstring :=
  lit "Describe your impact with quantified achievements and relevant skills.".

Definition experienceEntry (exp : Experience.t) : jsstring :=
  let bullets := toBulletLines (itemsOf (Experience.bullets exp)) experienceFallback in
  let dateRange := formatDateRange (Experience.startDate exp) (Experience.endDate exp) in
  let company := escapeLatex (Some (orElse (Experience.company exp) (lit "Company Name"))) in
  let role := escapeLatex (Some (orElse (Experience.position exp) (lit "Role Title"))) in
  let location := escapeLatex (Some (orElse (Experience.location exp) [])) in
  lit "    \resumeSubheading" ++ nl
  ++ lit "      {" ++ role ++ lit "}{" ++ escapeLatex (Some dateRange) ++ lit "}" ++ nl
  ++ lit "      {" ++ company ++ lit "}{" ++ location ++ lit "}" ++ nl
  ++ lit "      \resumeItemListStart" ++ nl
  ++ bullets ++ nl
  ++ lit "      \resumeItemListEnd".

Definition buildExperienceSection (experience : option (list Experience.t))
  : jsstring :=
  if negb (hasItems experience) then []
  else
    let entries :=
      join (nl ++ lit "\vspace{-16pt}" ++ nl)
        (map experienceEntry (itemsOf experience)) in
    lit "%-----------PROFESSIONAL EXPERIENCE-----------" ++ nl
    ++ lit "\section{Professional Experience}" ++ nl
    ++ lit "  \resumeSubHeadingListStart" ++ nl
    ++ entries ++ nl
    ++ lit "  \resumeSubHeadingListEnd" ++ nl
    ++ lit "\vspace{-16pt}".

Definition projectFallback : jsstring :=
  lit "Summarize the project outcome, your contribution, and measurable impact.".

(** [/\n+/] *)
Definition newlinesRe : regex := plus (Chr LF).

Definition projectEntry (project : Project.t) : result jsstring :=
  let projectName :=
    escapeLatex (Some (orElse (Project.name project) (lit "Project Name"))) in
  let techStack :=
    if hasItems (Project.technologies project)
    then lit " $|$ \emph{"
         ++ escapeLatex (Some (join (lit ", ") (itemsOf (Project.technologies project))))
         ++ lit "}"
    else [] in
  let dates :=
    if truthy (Project.startDate project) || truthy (Project.endDate project)
    then [escapeLatex (Some (formatDateRange (Project.startDate project)
                               (Project.endDate project)))]
    else [] in
  link <- linkPart (Project.url project) "Link" ;;
  let rightColumn := join (lit " $|$ ") (dates ++ link) in
  let descriptionLines :=
    if truthy (Project.description project)
    then filterTruthy
           (map trim (splitRe false newlinesRe (orElse (Project.description project) [])))
    else [] in
  let bullets := toBulletLines descriptionLines projectFallback in
  Ok (lit "      \resumeProjectHeading" ++ nl
      ++ lit "          {\textbf{" ++ projectName ++ lit "}" ++ techStack
      ++ lit "}{" ++ rightColumn ++ lit "}" ++ nl
      ++ lit "          \resumeItemListStart" ++ nl
      ++ bullets ++ nl
      ++ lit "          \resumeItemListEnd" ++ nl
      ++ lit "          \vspace{-13pt}").

Definition buildProjectsSection (projects : option (list Project.t))
  : result jsstring :=
  if negb (hasItems projects) then Ok []
  else
    parts <- mapM projectEntry (itemsOf projects) ;;
    let entries := join nl parts in
    Ok (lit "%-----------PROJECTS-----------" ++ nl
        ++ lit "\section{Projects}" ++ nl
        ++ lit "    \vspace{-5pt}" ++ nl
        ++ lit "    \resumeSubHeadingListStart" ++ nl
        ++ entries ++ nl
        ++ lit "    \resumeSubHeadingListEnd" ++ nl
        ++ lit "\vspace{-15pt}").

Definition skillLine (skillGroup : Skill.t) : jsstring :=
  let skillsText :=
    if hasItems (Skill.skills skillGroup)
    then join (lit ", ") (itemsOf (Skill.skills skillGroup))
    else lit "Update this section with your core competencies." in
  lit "     \textbf{"
  ++ escapeLatex (Some (orElse (Skill.category skillGroup) (lit "Skills")))
  ++ lit "}{: " ++ escapeLatex (Some skillsText) ++ lit "}".

(** The template literal of the source reads [\\small{\item{]: the first
    escape is a backslash, the second one, a backslash before [i], stands
    for the letter alone. *)
Definition buildSkillsSection (skills : option (list Skill.t)) : jsstring :=
  if negb (hasItems skills) then []
  else
    let skillLines := map skillLine (itemsOf skills) in
    lit "%-----------TECHNICAL SKILLS-----------" ++ nl
    ++ lit "\section{Technical Skills}" ++ nl
    ++ lit " \begin{itemize}[leftmargin=0.15in, label={}]" ++ nl
    ++ lit "    \small{item{" ++ nl
    ++ join (lit " \" ++ nl) skillLines ++ lit " \" ++ nl
    ++ lit "    }}" ++ nl
    ++ lit " \end{itemize}" ++ nl
    ++ lit " \vspace{-16pt}".

Definition educationEntry (edu : Education.t) : jsstring :=
  let degreeLine :=
    orElse (Education.degree edu) (lit "Degree")
    ++ (if truthy (Education.field edu)
        then lit " in " ++ orElse (Education.field edu) [] else []) in
  let dateLine :=
    if truthy (Education.graduationDate edu)
    then escapeLatex (Education.graduationDate edu) else [] in
  let institution :=
    escapeLatex (Some (orElse (Education.institution edu) (lit "Institution"))) in
  let trailing :=
    if hasItems (Education.honors edu)
    then escapeLatex (Some (join (lit ", ") (itemsOf (Education.honors edu))))
    else if truthy (Education.gpa edu)
    then escapeLatex (Some (lit "GPA: " ++ orElse (Education.gpa edu) []))
    else [] in
  lit "    \resumeSubheading" ++ nl
  ++ lit "      {" ++ escapeLatex (Some degreeLine) ++ lit "}{" ++ dateLine ++ lit "}" ++ nl
  ++ lit "      {" ++ institution ++ lit "}{" ++ trailing ++ lit "}".

Definition buildEducationSection (education : option (list Education.t))
  : jsstring :=
  if negb (hasItems education) then []
  else
    let entries := join nl (map educationEntry (itemsOf education)) in
    lit "%-----------EDUCATION-----------" ++ nl
    ++ lit "\section{Education}" ++ nl
    ++ lit "  \resumeSubHeadingListStart" ++ nl
    ++ entries ++ nl
    ++ lit "  \resumeSubHeadingListEnd".

(** [if (field) meta.push(prefix + field)] *)
Definition metaPart (prefix : string) (field : option jsstring) : list jsstring :=
  if truthy field then [lit prefix ++ orElse field []] else [].

(** [meta.length ? ` (${meta.map(m => this.escapeLatex(m)).join('; ')})` : ''] *)
Definition metaText (meta : list jsstring) : jsstring :=
  if 0 <? length meta
  then lit " (" ++ join (lit "; ") (map (fun m => escapeLatex (Some m)) meta) ++ lit ")"
  else [].

Definition certificationItem (cert : Certification.t) : jsstring :=
  let meta :=
    metaPart "Issued by " (Certification.issuer cert)
    ++ metaPart "" (Certification.date cert)
    ++ metaPart "Expires " (Certification.expiryDate cert)
    ++ metaPart "ID " (Certification.credentialId cert) in
  lit "    \item " ++ escapeLatex (Certification.name cert) ++ metaText meta.

Definition buildCertificationsSection
  (certifications : option (list Certification.t)) : jsstring :=
  if negb (hasItems certifications) then []
  else
    let items := map certificationItem (itemsOf certifications) in
    lit "%-----------CERTIFICATIONS-----------" ++ nl
    ++ lit "\section{Certifications}" ++ nl
    ++ lit "  \begin{itemize}[leftmargin=0.15in]" ++ nl
    ++ join nl items ++ nl
    ++ lit "  \end{itemize}".

Definition awardItem (award : Award.t) : jsstring :=
  let meta :=
    metaPart "" (Award.issuer award) ++ metaPart "" (Award.date award) in
  let description :=
    if truthy (Award.description award)
    then lit " -- " ++ escapeLatex (Award.description award) else [] in
  lit "    \item " ++ escapeLatex (Award.name award) ++ metaText meta ++ description.

Definition buildAwardsSection (awards : option (list Award.t)) : jsstring :=
  if negb (hasItems awards) then []
  else
    let items := map awardItem (itemsOf awards) in
    lit "%-----------AWARDS-----------" ++ nl
    ++ lit "\section{Awards}" ++ nl
    ++ lit "  \begin{itemize}[leftmargin=0.15in]" ++ nl
    ++ join nl items ++ nl
    ++ lit "  \end{itemize}".

(** ** buildLatexBody and generateLatexFromResume *)

(** [if (section) sections.push(section)] *)
Definition pushIf (section : jsstring) : list jsstring :=
  if nonEmpty section then [section] else [].

Definition buildLatexBody (resumeData : ResumeData.t) : result jsstring :=
  header <- buildHeader (ResumeData.personalInfo resumeData) ;;
  let summarySection := buildSummary (ResumeData.summary resumeData) in
  let experienceSection := buildExperienceSection (ResumeData.experience resumeData) in
  projectsSection <- buildProjectsSection (ResumeData.projects resumeData) ;;
  let skillsSection := buildSkillsSection (ResumeData.skills resumeData) in
  let educationSection := buildEducationSection (ResumeData.education resumeData) in
  let certificationsSection :=
    buildCertificationsSection (ResumeData.certifications resumeData) in
  let awardsSection := buildAwardsSection (ResumeData.awards resumeData) in
  let sections :=
    [header] ++ pushIf summarySection ++ pushIf experienceSection
    ++ pushIf projectsSection ++ pushIf skillsSection
    ++ pushIf educationSection ++ pushIf certificationsSection
    ++ pushIf awardsSection in
  Ok (join (nl ++ nl) (filterTruthy sections)).

Definition beginDelimiter : jsstring := lit "\begin{document}".
Definition endDelimiter : jsstring := lit "\end{document}".

Definition generateLatexFromResume (resumeData : ResumeData.t)
  (templateLatex : jsstring) : result jsstring :=
  let hasBegin := includes beginDelimiter templateLatex in
  let hasEnd := includes endDelimiter templateLatex in
  let pieces :=
    if hasBegin then split beginDelimiter templateLatex
    else [getDefaultPreamble; []] in
  let preambleSection := nth_error pieces 0 in
  let bodyAndAfter := nth_error pieces 1 in
  let afterBegin := orElse bodyAndAfter [] in
  let postDocument :=
    if hasEnd
    then join endDelimiter (skipn 1 (split endDelimiter afterBegin))
    else [] in
  latexBody <- buildLatexBody resumeData ;;
  let preamble :=
    if hasBegin then match preambleSection with Some s => s | None => [] end
    else getDefaultPreamble in
  let documentCore :=
    preamble ++ beginDelimiter ++ nl ++ latexBody ++ nl ++ endDelimiter in
  Ok (if nonEmpty postDocument then documentCore ++ postDocument
      else documentCore).

End Renderer.

(* ================================================================== *)
(** * The renderer over a store *)
(* ================================================================== *)

(** The renderer calls one mutator, [push], always on an array of
    strings.  To see which arrays a call can change, the same code is
    written here over a store that holds the record passed in and the
    arrays created during the call.  An array of strings is named by a
    reference; the one array of the record that is handed to another
    method is [exp.bullets], in [toBulletLines(exp.bullets || [], ...)]. *)

Module Store.

Inductive aref :=
| Bullets (i : nat)   (* resumeData.experience[i].bullets *)
| Local (n : nat).    (* the n-th array created during the call *)

Record store := mkStore {
  input : ResumeData.t;
  locals : list (list jsstring)
}.

Definition M (A : Type) : Type := store -> result A * store.

Definition ret {A : Type} (a : A) : M A := fun s => (Ok a, s).

Definition bind {A B : Type} (c : M A) (k : A -> M B) : M B :=
  fun s =>
    match c s with
    | (Ok a, s') => k a s'
    | (Throw e, s') => (Throw e, s')
    end.

Declare Scope store_scope.
Delimit Scope store_scope with store.
Notation "x <- c ;; k" := (bind c (fun x => k))
  (at level 61, c at next level, right associativity) : store_scope.
Notation "c ;;; k" := (bind c (fun _ => k))
  (at level 61, right associativity) : store_scope.
Local Open Scope store_scope.

(** A computation that only throws or returns. *)
Definition liftR {A : Type} (c : result A) : M A := fun s => (c, s).

(** A read of the record. *)
Definition gets {A : Type} (f : ResumeData.t -> A) : M A :=
  fun s => (Ok (f (input s)), s).

Fixpoint setNth {A : Type} (n : nat) (f : A -> A) (l : list A) : list A :=
  match l, n with
  | [], _ => []
  | a :: l', O => f a :: l'
  | a :: l', S n' => a :: setNth n' f l'
  end.

Definition pushInput (i : nat) (x : jsstring) (r : ResumeData.t) : ResumeData.t :=
  ResumeData.mk (ResumeData.personalInfo r) (ResumeData.summary r)
    (option_map (setNth i (Extractor.pushBullet x)) (ResumeData.experience r))
    (ResumeData.education r) (ResumeData.skills r) (ResumeData.projects r)
    (ResumeData.certifications r) (ResumeData.awards r).

Definition entryAt (r : ResumeData.t) (i : nat) : Experience.t :=
  nth i (Renderer.itemsOf (ResumeData.experience r)) Extractor.emptyEntry.

(** An array literal, or the fresh array that [map] and [filter] return. *)
Definition alloc (l : list jsstring) : M aref :=
  fun s => (Ok (Local (length (locals s))),
            mkStore (input s) (locals s ++ [l])).

(** The elements of an array: what [length], [map] and [join] see. *)
Definition read (a : aref) : M (list jsstring) :=
  fun s =>
    (Ok match a with
        | Bullets i => Renderer.itemsOf (Experience.bullets (entryAt (input s) i))
        | Local n => nth n (locals s) []
        end, s).

(** [a.push(x)] *)
Definition push (a : aref) (x : jsstring) : M unit :=
  fun s =>
    (Ok tt,
     match a with
     | Bullets i => mkStore (pushInput i x (input s)) (locals s)
     | Local n => mkStore (input s) (setNth n (fun l => l ++ [x]) (locals s))
     end).

(** [if (b) a.push(x)] *)
Definition pushWhen (b : bool) (a : aref) (x : jsstring) : M unit :=
  if b then push a x else ret tt.

Fixpoint mapM {A B : Type} (f : A -> M B) (l : list A) : M (list B) :=
  match l with
  | [] => ret []
  | a :: l' => b <- f a ;; bs <- mapM f l' ;; ret (b :: bs)
  end.

Definition toBulletLines (items : aref) (fallback : jsstring) : M jsstring :=
  xs <- read items ;;
  normalized <- alloc (filterTruthy (map trim xs)) ;;
  n <- read normalized ;;
  pushWhen (length n =? 0) normalized fallback ;;;
  n' <- read normalized ;;
  ret (join nl (map Renderer.bulletLine n')).

(** [if (field) { const u = this.normalizeUrl(field); if (u) parts.push(...) }] *)
Definition pushLink (parts : aref) (field : option jsstring) (label : string)
  : M unit :=
  if truthy field then
    u <- liftR (Renderer.normalizeUrl field) ;;
    pushWhen (truthy u) parts (Renderer.href (orElse u []) (lit label))
  else ret tt.

Definition buildHeader : M jsstring :=
  personalInfo <- gets ResumeData.personalInfo ;;
  match personalInfo with
  | None => liftR (Throw TypeError)
  | Some p =>
      let name :=
        if truthy (trimOpt (PersonalInfo.name p))
        then orElse (trimOpt (PersonalInfo.name p)) []
        else lit "Your Name" in
      contactParts <- alloc [] ;;
      pushWhen (truthy (PersonalInfo.location p)) contactParts
        (Renderer.escapeLatex (PersonalInfo.location p)) ;;;
      pushWhen (truthy (PersonalInfo.phone p)) contactParts
        (Renderer.escapeLatex (PersonalInfo.phone p)) ;;;
      pushWhen (truthy (PersonalInfo.email p)) contactParts
        (let email := trim (orElse (PersonalInfo.email p) []) in
         Renderer.href (lit "mailto:" ++ email) (Renderer.escapeLatex (Some email))) ;;;
      pushLink contactParts (PersonalInfo.linkedin p) "LinkedIn" ;;;
      pushLink contactParts (PersonalInfo.github p) "GitHub" ;;;
      pushLink contactParts (PersonalInfo.website p) "Portfolio" ;;;
      parts <- read contactParts ;;
      pushWhen (length parts =? 0) contactParts
        (lit "Add your preferred contact details") ;;;
      parts <- read contactParts ;;
      ret (lit "\begin{center}" ++ nl
           ++ lit "    {\Huge \scshape " ++ Renderer.escapeLatex (Some name)
           ++ lit "} \ \vspace{1pt}" ++ nl
           ++ lit "    " ++ join (lit " $|$ ") parts ++ lit " \" ++ nl
           ++ lit "\end{center}")
  end.

(** The callback of [experience.map], for the entry at index [i]. *)
Definition experienceEntry (i : nat) : M jsstring :=
  exp <- gets (fun r => entryAt r i) ;;
  items <- match Experience.bullets exp with
           | Some _ => ret (Bullets i)
           | None => alloc []
           end ;;
  bullets <- toBulletLines items Renderer.experienceFallback ;;
  let dateRange :=
    Renderer.formatDateRange (Experience.startDate exp) (Experience.endDate exp) in
  let company :=
    Renderer.escapeLatex (Some (orElse (Experience.company exp) (lit "Company Name"))) in
  let role :=
    Renderer.escapeLatex (Some (orElse (Experience.position exp) (lit "Role Title"))) in
  let location :=
    Renderer.escapeLatex (Some (orElse (Experience.location exp) [])) in
  ret (lit "    \resumeSubheading" ++ nl
       ++ lit "      {" ++ role ++ lit "}{" ++ Renderer.escapeLatex (Some dateRange)
       ++ lit "}" ++ nl
       ++ lit "      {" ++ company ++ lit "}{" ++ location ++ lit "}" ++ nl
       ++ lit "      \resumeItemListStart" ++ nl
       ++ bullets ++ nl
       ++ lit "      \resumeItemListEnd").

Definition buildExperienceSection : M jsstring :=
  experience <- gets ResumeData.experience ;;
  if negb (Renderer.hasItems experience) then ret []
  else
    parts <- mapM experienceEntry (seq 0 (length (Renderer.itemsOf experience))) ;;
    let entries := join (nl ++ lit "\vspace{-16pt}" ++ nl) parts in
    ret (lit "%-----------PROFESSIONAL EXPERIENCE-----------" ++ nl
         ++ lit "\section{Professional Experience}" ++ nl
         ++ lit "  \resumeSubHeadingListStart" ++ nl
         ++ entries ++ nl
         ++ lit "  \resumeSubHeadingListEnd" ++ nl
         ++ lit "\vspace{-16pt}").

Definition projectEntry (project : Project.t) : M jsstring :=
  let projectName :=
    Renderer.escapeLatex (Some (orElse (Project.name project) (lit "Project Name"))) in
  let techStack :=
    if Renderer.hasItems (Project.technologies project)
    then lit " $|$ \emph{"
         ++ Renderer.escapeLatex
              (Some (join (lit ", ") (Renderer.itemsOf (Project.technologies project))))
         ++ lit "}"
    else [] in
  metaParts <- alloc [] ;;
  pushWhen (truthy (Project.startDate project) || truthy (Project.endDate project))
    metaParts
    (Renderer.escapeLatex
       (Some (Renderer.formatDateRange (Project.startDate project)
                (Project.endDate project)))) ;;;
  pushLink metaParts (Project.url project) "Link" ;;;
  parts <- read metaParts ;;
  let rightColumn := join (lit " $|$ ") parts in
  descriptionLines <-
    alloc (if truthy (Project.description project)
           then filterTruthy
                  (map trim (splitRe false Renderer.newlinesRe
                               (orElse (Project.description project) [])))
           else []) ;;
  bullets <- toBulletLines descriptionLines Renderer.projectFallback ;;
  ret (lit "      \resumeProjectHeading" ++ nl
       ++ lit "          {\textbf{" ++ projectName ++ lit "}" ++ techStack
       ++ lit "}{" ++ rightColumn ++ lit "}" ++ nl
       ++ lit "          \resumeItemListStart" ++ nl
       ++ bullets ++ nl
       ++ lit "          \resumeItemListEnd" ++ nl
       ++ lit "          \vspace{-13pt}").

Definition buildProjectsSection : M jsstring :=
  projects <- gets ResumeData.projects ;;
  if negb (Renderer.hasItems projects) then ret []
  else
    parts <- mapM projectEntry (Renderer.itemsOf projects) ;;
    let entries := join nl parts in
    ret (lit "%-----------PROJECTS-----------" ++ nl
         ++ lit "\section{Projects}" ++ nl
         ++ lit "    \vspace{-5pt}" ++ nl
         ++ lit "    \resumeSubHeadingListStart" ++ nl
         ++ entries ++ nl
         ++ lit "    \resumeSubHeadingListEnd" ++ nl
         ++ lit "\vspace{-15pt}").

(** [if (field) meta.push(prefix + field)] *)
Definition pushMeta (meta : aref) (prefix : string) (field : option jsstring)
  : M unit :=
  pushWhen (truthy field) meta (lit prefix ++ orElse field []).

Definition certificationItem (cert : Certification.t) : M jsstring :=
  meta <- alloc [] ;;
  pushMeta meta "Issued by " (Certification.issuer cert) ;;;
  pushMeta meta "" (Certification.date cert) ;;;
  pushMeta meta "Expires " (Certification.expiryDate cert) ;;;
  pushMeta meta "ID " (Certification.credentialId cert) ;;;
  parts <- read meta ;;
  ret (lit "    \item " ++ Renderer.escapeLatex (Certification.name cert)
       ++ Renderer.metaText parts).

Definition buildCertificationsSection : M jsstring :=
  certifications <- gets ResumeData.certifications ;;
  if negb (Renderer.hasItems certifications) then ret []
  else
    items <- mapM certificationItem (Renderer.itemsOf certifications) ;;
    ret (lit "%-----------CERTIFICATIONS-----------" ++ nl
         ++ lit "\section{Certifications}" ++ nl
         ++ lit "  \begin{itemize}[leftmargin=0.15in]" ++ nl
         ++ join nl items ++ nl
         ++ lit "  \end{itemize}").

Definition awardItem (award : Award.t) : M jsstring :=
  meta <- alloc [] ;;
  pushMeta meta "" (Award.issuer award) ;;;
  pushMeta meta "" (Award.date award) ;;;
  parts <- read meta ;;
  let description :=
    if truthy (Award.description award)
    then lit " -- " ++ Renderer.escapeLatex (Award.description award) else [] in
  ret (lit "    \item " ++ Renderer.escapeLatex (Award.name award)
       ++ Renderer.metaText parts ++ description).

Definition buildAwardsSection : M jsstring :=
  awards <- gets ResumeData.awards ;;
  if negb (Renderer.hasItems awards) then ret []
  else
    items <- mapM awardItem (Renderer.itemsOf awards) ;;
    ret (lit "%-----------AWARDS-----------" ++ nl
         ++ lit "\section{Awards}" ++ nl
         ++ lit "  \begin{itemize}[leftmargin=0.15in]" ++ nl
         ++ join nl items ++ nl
         ++ lit "  \end{itemize}").

(** The builders of the summary, the skills and the education sections
    call no mutator: they read the record. *)
Definition buildSummary : M jsstring :=
  gets (fun r => Renderer.buildSummary (ResumeData.summary r)).
Definition buildSkillsSection : M jsstring :=
  gets (fun r => Renderer.buildSkillsSection (ResumeData.skills r)).
Definition buildEducationSection : M jsstring :=
  gets (fun r => Renderer.buildEducationSection (ResumeData.education r)).

(** [const section = build(); if (section) sections.push(section)] *)
Definition pushSection (sections : aref) (build : M jsstring) : M unit :=
  section <- build ;;
  pushWhen (nonEmpty section) sections section.

Definition buildLatexBody : M jsstring :=
  sections <- alloc [] ;;
  header <- buildHeader ;;
  push sections header ;;;
  pushSection sections buildSummary ;;;
  pushSection sections buildExperienceSection ;;;
  pushSection sections buildProjectsSection ;;;
  pushSection sections buildSkillsSection ;;;
  pushSection sections buildEducationSection ;;;
  pushSection sections buildCertificationsSection ;;;
  pushSection sections buildAwardsSection ;;;
  parts <- read sections ;;
  ret (join (nl ++ nl) (filterTruthy parts)).

Definition generateLatexFromResume (templateLatex : jsstring) : M jsstring :=
  let hasBegin := includes Renderer.beginDelimiter templateLatex in
  let hasEnd := includes Renderer.endDelimiter templateLatex in
  let pieces :=
    if hasBegin then split Renderer.beginDelimiter templateLatex
    else [Renderer.getDefaultPreamble; []] in
  let preambleSection := nth_error pieces 0 in
  let bodyAndAfter := nth_error pieces 1 in
  let afterBegin := orElse bodyAndAfter [] in
  let postDocument :=
    if hasEnd
    then join Renderer.endDelimiter (skipn 1 (split Renderer.endDelimiter afterBegin))
    else [] in
  latexBody <- buildLatexBody ;;
  let preamble :=
    if hasBegin then match preambleSection with Some s => s | None => [] end
    else Renderer.getDefaultPreamble in
  let documentCore :=
    preamble ++ Renderer.beginDelimiter ++ nl ++ latexBody ++ nl
    ++ Renderer.endDelimiter in
  ret (if nonEmpty postDocument then documentCore ++ postDocument
       else documentCore).

(** The store at the start of a call on [resumeData]. *)
Definition initial (resumeData : ResumeData.t) : store := mkStore resumeData [].

End Store.

(* ================================================================== *)
(** * The validator *)
(* ================================================================== *)

Module Validator.

Definition emptyPersonalInfo : PersonalInfo.t :=
  PersonalInfo.mk (Some []) (Some []) (Some []) (Some []) (Some []) (Some [])
    (Some []).

(** [a || []] for a possibly absent array (an array, even an empty one,
    is truthy). *)
Definition orEmpty {A : Type} (a : option (list A)) : option (list A) :=
  match a with
  | Some l => Some l
  | None => Some []
  end.

(** [validateResumeData] assigns to the properties of the object it is
    given and returns that object; the function gives the value of the
    object after the assignments. *)
Definition validateResumeData (data : ResumeData.t) : ResumeData.t :=
  let personalInfo :=
    match ResumeData.personalInfo data with
    | None => Some emptyPersonalInfo
    | Some p => Some p
    end in
  ResumeData.mk personalInfo (ResumeData.summary data)
    (orEmpty (ResumeData.experience data))
    (orEmpty (ResumeData.education data))
    (orEmpty (ResumeData.skills data))
    (orEmpty (ResumeData.projects data))
    (orEmpty (ResumeData.certifications data))
    (orEmpty (ResumeData.awards data)).

(** The call itself, on a reference: the object at the address [data] is
    updated where it is and the address is returned. *)
Definition validateResumeDataAt (data : nat) (objects : list ResumeData.t)
  : nat * list ResumeData.t :=
  (data, Store.setNth data validateResumeData objects).

End Validator.

(* ================================================================== *)
(** * Notions of the specification and sample inputs *)
(* ================================================================== *)

Module Notions.
Import Validator Extractor Renderer.

(** What claim C3 asks of the [personalInfo] of a validated record: the
    object is there and each of its seven keys holds a string. *)
Definition fullyKeyed (data : ResumeData.t) : Prop :=
  exists p, ResumeData.personalInfo data = Some p
    /\ PersonalInfo.name p <> None /\ PersonalInfo.email p <> None
    /\ PersonalInfo.phone p <> None /\ PersonalInfo.location p <> None
    /\ PersonalInfo.linkedin p <> None /\ PersonalInfo.github p <> None
    /\ PersonalInfo.website p <> None.

(** A record whose [personalInfo] has a name and nothing else. *)
Definition nameOnly : ResumeData.t :=
  ResumeData.mk
    (Some (PersonalInfo.mk (Some (lit "John Doe")) None None None None None None))
    None None None None None None None.

(** The skills lines of the parser test. *)
Definition skillsExample : list jsstring :=
  [lit "Skills"; lit "JavaScript, Python, React, Node.js, SQL, Git, Docker, AWS"].

(** A token that names a language and a soft skill. *)
Definition bothKinds : jsstring := lit "Java leadership".

(** The text before the first occurrence of [p] in [s] (all of [s] when
    there is none), and the text after it. *)
Fixpoint beforeFirst (p s : jsstring) : jsstring :=
  if startsWith p s then []
  else match s with
       | [] => []
       | c :: s' => c :: beforeFirst p s'
       end.

Fixpoint afterFirst (p s : jsstring) : jsstring :=
  if startsWith p s then skipn (length p) s
  else match s with
       | [] => []
       | _ :: s' => afterFirst p s'
       end.

(** The document that [generateLatexFromResume] assembles around a body. *)
Definition document (preamble body postamble : jsstring) : jsstring :=
  preamble ++ beginDelimiter ++ nl ++ body ++ nl ++ endDelimiter ++ postamble.

(** Well-formed UTF-16: every surrogate is part of a pair. *)
Fixpoint wellFormed (s : jsstring) : bool :=
  match s with
  | [] => true
  | c :: s' =>
      if isTrail c then false
      else if isLead c then
        match s' with
        | d :: s'' => isTrail d && wellFormed s''
        | [] => false
        end
      else wellFormed s'
  end.

Definition wellFormedOpt (o : option jsstring) : Prop :=
  wellFormed (orElse o []) = true.

(** The records on which the renderer returns: [personalInfo] is there
    and the strings handed to [encodeURI] are well-formed. *)
Definition renderable (r : ResumeData.t) : Prop :=
  (exists p, ResumeData.personalInfo r = Some p
     /\ wellFormedOpt (PersonalInfo.linkedin p)
     /\ wellFormedOpt (PersonalInfo.github p)
     /\ wellFormedOpt (PersonalInfo.website p))
  /\ Forall (fun project => wellFormedOpt (Project.url project))
       (itemsOf (ResumeData.projects r)).

Definition surrogate (c : N) : bool := isLead c || isTrail c.

(** A small record that the interfaces accept. *)
Definition janeDoe : PersonalInfo.t :=
  PersonalInfo.mk (Some (lit "Jane Doe")) (Some (lit "jane@example.com"))
    None None None None None.

Definition sampleRecord : ResumeData.t :=
  ResumeData.mk (Some janeDoe) None (Some []) (Some []) (Some []) None None None.

(** The same record with a LinkedIn address that is a lone surrogate, the
    string ["\uD800"]. *)
Definition brokenLink : ResumeData.t :=
  ResumeData.mk
    (Some (PersonalInfo.mk (Some (lit "Jane Doe")) (Some (lit "jane@example.com"))
             None None (Some [55296%N]) None None))
    None (Some []) (Some []) (Some []) None None None.

(** A pattern that matches exactly one unit, those that satisfy [p]. *)
Definition unitMatch (p : N -> bool) (s : jsstring)
  : option (jsstring * list (nat * jsstring)) :=
  match s with
  | x :: _ => if p x then Some ([x], []) else None
  | [] => None
  end.

Definition pieceText (f : jsstring -> jsstring) (e : jsstring + jsstring)
  : jsstring :=
  match e with
  | inl t => t
  | inr w => f w
  end.

(** The first replacement, [/\r?\n/g] by a blank: a line feed becomes a
    blank, and a carriage return goes when a line feed follows it. *)
Fixpoint collapseNewlines (s : jsstring) : jsstring :=
  match s with
  | [] => []
  | c :: s' =>
      if (c =? LF)%N then 32%N :: collapseNewlines s'
      else if (c =? CR)%N && match s' with
                             | d :: _ => (d =? LF)%N
                             | [] => false
                             end
      then collapseNewlines s'
      else c :: collapseNewlines s'
  end.

(** The image of one unit under the four replacements that follow. *)
Definition escapeUnit (c : N) : jsstring :=
  if (c =? 92)%N then lit "\textbackslash\{\}"
  else if inRanges (chars "&%$#_{}~^") c then [92%N; c]
  else if (c =? 60)%N then lit "\textless{}"
  else if (c =? 62)%N then lit "\textgreater{}"
  else [c].

Definition stage2 (x : N) : jsstring :=
  if (92 =? x)%N then lit "\textbackslash{}" else [x].
Definition stage3 (x : N) : jsstring :=
  if inRanges (chars "&%$#_{}~^") x then lit "\" ++ [x] else [x].
Definition stage4 (x : N) : jsstring :=
  if (60 =? x)%N then lit "\textless{}" else [x].
Definition stage5 (x : N) : jsstring :=
  if (62 =? x)%N then lit "\textgreater{}" else [x].

Definition stages (x : N) : jsstring :=
  flat_map stage5 (flat_map stage4 (flat_map stage3 (stage2 x))).

Definition newlineMatch (s : jsstring)
  : option (jsstring * list (nat * jsstring)) :=
  match s with
  | [] => None
  | c :: s' =>
      if (c =? LF)%N then Some ([LF], [])
      else if (c =? CR)%N && match s' with
                             | d :: _ => (d =? LF)%N
                             | [] => false
                             end
      then Some ([CR; LF], [])
      else None
  end.

(** The name under which the header shows a person. *)
Definition displayName (p : PersonalInfo.t) : jsstring :=
  if truthy (trimOpt (PersonalInfo.name p))
  then orElse (trimOpt (PersonalInfo.name p)) []
  else lit "Your Name".

Definition headerAround (name contacts : jsstring) : jsstring :=
  lit "\begin{center}" ++ nl
  ++ lit "    {\Huge \scshape " ++ name ++ lit "} \ \vspace{1pt}" ++ nl
  ++ lit "    " ++ contacts ++ lit " \" ++ nl
  ++ lit "\end{center}".

(** The record of the specification's example and two templates. *)
Definition associates : ResumeData.t :=
  ResumeData.mk
    (Some (PersonalInfo.mk (Some (lit "50% & Associates"))
             (Some (lit "office@example.com")) None None None None None))
    None (Some []) (Some []) (Some []) None None None.

Definition templateOne : jsstring :=
  lit "\documentclass{article}" ++ nl ++ beginDelimiter ++ endDelimiter.
Definition templateTwo : jsstring :=
  lit "\documentclass[11pt]{letter}" ++ nl ++ beginDelimiter ++ nl
  ++ endDelimiter ++ nl.

Definition escapedOnce : jsstring := lit "{\Huge \scshape 50\% \& Associates}".

(** Rendering [associates] with [templateOne] and then, in the store the
    first call leaves, with [templateTwo]. *)
Definition renderedTwice : (result jsstring * result jsstring) * Store.store :=
  let (out1, s1) := Store.generateLatexFromResume templateOne (Store.initial associates) in
  let (out2, s2) := Store.generateLatexFromResume templateTwo s1 in
  ((out1, out2), s2).

Definition countIn (p : jsstring) (out : result jsstring) : option nat :=
  match out with
  | Ok s => Some (occurrences p s)
  | Throw _ => None
  end.

(** The heading lines of an experience entry, before its item list. *)
Definition entryHeading (exp : Experience.t) : jsstring :=
  lit "    \resumeSubheading" ++ nl
  ++ lit "      {"
  ++ escapeLatex (Some (orElse (Experience.position exp) (lit "Role Title")))
  ++ lit "}{"
  ++ escapeLatex (Some (formatDateRange (Experience.startDate exp)
                          (Experience.endDate exp)))
  ++ lit "}" ++ nl
  ++ lit "      {"
  ++ escapeLatex (Some (orElse (Experience.company exp) (lit "Company Name")))
  ++ lit "}{" ++ escapeLatex (Some (orElse (Experience.location exp) []))
  ++ lit "}" ++ nl.

Definition fallbackItem : jsstring :=
  lit "        \resumeItem{Describe your impact with quantified achievements and relevant skills.}".

(** One entry without bullets, and one group of skills. *)
Definition withSkills : ResumeData.t :=
  ResumeData.mk
    (Some (PersonalInfo.mk (Some (lit "Jane Doe")) (Some (lit "jane@example.com"))
             None None None None None))
    None
    (Some [Experience.mk (Some (lit "Tech Corp")) (Some (lit "Developer")) None
             (Some (lit "2020")) None (Some [])])
    (Some [])
    (Some [Skill.mk (Some (lit "Languages")) (Some [lit "Rocq"; lit "OCaml"])])
    None None None.

Definition plainTemplate : jsstring := beginDelimiter ++ nl ++ endDelimiter.

(** The list environment of the skills section of [withSkills]. *)
Definition skillsList : jsstring :=
  lit " \begin{itemize}[leftmargin=0.15in, label={}]" ++ nl
  ++ lit "    \small{item{" ++ nl
  ++ lit "     \textbf{Languages}{: Rocq, OCaml} \" ++ nl
  ++ lit "    }}" ++ nl
  ++ lit " \end{itemize}".

Definition headingLine : jsstring :=
  lit "Senior Developer at Tech Corp | Jan 2020 - Present".

(** The lines of claim C5, for the texts [t1] and [t2] of the two bullets. *)
Definition seniorDeveloper (t1 t2 : jsstring) : list jsstring :=
  [lit "Experience"; headingLine; BULLET :: t1; BULLET :: t2].

Definition seniorEntry (bullets : list jsstring) : Experience.t :=
  Experience.mk (Some (lit "Tech Corp")) (Some (lit "Senior Developer"))
    None None None (Some bullets).

Definition developed : jsstring :=
  lit " Developed web applications using React and Node.js".
Definition ledTeam : jsstring := lit " Led a team of 5 developers".
Definition ledServices : jsstring := lit " Led professional services".

(** A computation that behaves like the pure [v]: it returns what [v]
    returns on the record, leaves the record and the arrays that exist as
    they are, and may create arrays. *)
Definition pureLike {A : Type} (c : Store.M A) (v : ResumeData.t -> result A)
  : Prop :=
  forall r ls, exists extra,
    c (Store.mkStore r ls) = (v r, Store.mkStore r (ls ++ extra)).

(** A matcher is local when it calls its continuation only on positions
    that are not before its own: two continuations that agree there give
    the same result. *)
Definition localMatcher (b : mstate -> cont -> option mstate) : Prop :=
  forall x k1 k2,
    (forall y, length (ahead y) <= length (ahead x) -> k1 y = k2 y) ->
    b x k1 = b x k2.

End Notions.
Import Notions.

(* ================================================================== *)
(** * Shapes of the rendered text *)
(* ================================================================== *)

Module Shapes.
Import Renderer.

(** No unit of [s] is one of [l]. *)
Definition noneOf (l : list N) (s : jsstring) : bool :=
  forallb (fun c => negb (existsb (N.eqb c) l)) s.

(** The characters [& % $ # _ ~ ^], which LaTeX reads as commands unless a
    backslash precedes them. *)
Definition special : list (N * N) := chars "&%$#_~^".

(** Every special character of [s] directly follows a backslash;
    [afterBackslash] tells whether the unit before [s] is one. *)
Fixpoint guarded (afterBackslash : bool) (s : jsstring) : bool :=
  match s with
  | [] => true
  | c :: s' =>
      (negb (inRanges special c) || afterBackslash) && guarded (c =? 92)%N s'
  end.

(** A unit that none of the five replacements of [escapeLatex] touches. *)
Definition plainUnit (c : N) : bool :=
  negb (existsb (N.eqb c) [10; 92; 60; 62]%N)
  && negb (inRanges (chars "&%$#_{}~^") c).

(** The items that [toBulletLines] renders: the trimmed items that are
    not empty, or the fallback when there is none. *)
Definition renderedItems (items : list jsstring) (fallback : jsstring)
  : list jsstring :=
  match filterTruthy (map trim items) with
  | [] => [fallback]
  | l => l
  end.

(** A JavaScript string holds 16-bit units. *)
Definition sixteenBit (s : jsstring) : Prop :=
  Forall (fun c => (c < 65536)%N) s.

(** What [encodeURI] can put out: an unescaped unit or a percent sign. *)
Definition uriUnit (c : N) : bool := uriUnescaped c || (c =? 37)%N.

(** [/^https?:\/\//i.test(s)], read off the first units of [s]. *)
Definition hasHttpScheme (s : jsstring) : bool :=
  match s with
  | h :: t1 :: t2 :: p :: rest =>
      chrMatch true 104 h && chrMatch true 116 t1 && chrMatch true 116 t2
      && chrMatch true 112 p
      && (match rest with
          | c :: rest' =>
              chrMatch true 115 c && startsWith (lit "://") rest'
              || startsWith (lit "://") rest
          | [] => false
          end)
  | _ => false
  end.

(** A string without white space at either end. *)
Definition trimmed (s : jsstring) : Prop := trim s = s.

(** A string that does not begin with white space. *)
Definition headOK (s : jsstring) : Prop :=
  match s with c :: _ => isWhite c = false | [] => True end.

(** A date that counts: an empty string is as good as none. *)
Definition present (o : option jsstring) : option jsstring :=
  if truthy o then o else None.

(** The end of [httpRe], the pattern of [://], as a matcher. *)
Definition schemeTail (y : mstate) : option mstate :=
  step (chrMatch true 58) y
    (fun y0 => step (chrMatch true 47) y0
       (fun y1 => step (chrMatch true 47) y1 (fun y2 => Some y2))).

End Shapes.
Import Shapes.

(* ================================================================== *)
(** * What a match is made of *)
(* ================================================================== *)

Module Consumption.

(** Every unit that an atom of [r] accepts satisfies [P]. *)
Fixpoint atomsIn (ic : bool) (P : N -> bool) (r : regex) : Prop :=
  match r with
  | Chr c => forall d, chrMatch ic c d = true -> P d = true
  | Cls neg ranges => forall d, clsMatch ic neg ranges d = true -> P d = true
  | Dot => forall d, isLineTerminator d = false -> P d = true
  | Seq a b | Alt a b => atomsIn ic P a /\ atomsIn ic P b
  | Rep _ _ _ a | Group _ a => atomsIn ic P a
  | Eps | Bol | Eol | WordB => True
  end.

(** The position [y] is reached from [x] by passing the units [w], which
    satisfy [P]. *)
Definition passes (P : N -> bool) (x y : mstate) : Prop :=
  exists w, before y = rev w ++ before x /\ ahead x = w ++ ahead y
            /\ forallb P w = true.

(** A matcher that hands to its continuation only positions reached by
    passing units that satisfy [P]. *)
Definition soundMatcher (P : N -> bool) (b : mstate -> cont -> option mstate)
  : Prop :=
  forall x k z, b x k = Some z -> exists y, passes P x y /\ k y = Some z.

(** The units of Basic Latin. *)
Definition ascii (c : N) : bool := (c <? 128)%N.

(** The least number of units that a match of [r] has. *)
Fixpoint minLen (r : regex) : nat :=
  match r with
  | Chr _ | Cls _ _ | Dot => 1
  | Seq a b => minLen a + minLen b
  | Alt a b => Nat.min (minLen a) (minLen b)
  | Rep _ min max a =>
      match max with Some most => Nat.min min most | None => min end * minLen a
  | Group _ a => minLen a
  | Eps | Bol | Eol | WordB => 0
  end.

(** A matcher that hands on a position [n] units further at least. *)
Definition consuming (n : nat) (b : mstate -> cont -> option mstate) : Prop :=
  forall x k z, b x k = Some z ->
    exists y, k y = Some z /\ length (ahead y) + n <= length (ahead x).

End Consumption.
Import Consumption.

(* ================================================================== *)
(** * What the extractor keeps *)
(* ================================================================== *)

Module Kept.
Import Extractor.

(** A bullet as the parser keeps it: not empty, no white space around. *)
Definition keptBullet (b : jsstring) : Prop := b <> [] /\ trimmed b.

(** An entry as [extractExperience] returns it: a position and a company
    that are not empty, no location and no dates, and bullets. *)
Definition keptEntry (e : Experience.t) : Prop :=
  truthy (Experience.position e) = true
  /\ truthy (Experience.company e) = true
  /\ Experience.location e = None
  /\ Experience.startDate e = None
  /\ Experience.endDate e = None
  /\ exists bs, Experience.bullets e = Some bs /\ Forall keptBullet bs.

(** An object of the loop of [extractExperience]: the one the loop starts
    with has no position and no bullets, the others have an array of
    bullets. *)
Definition shaped (o : Experience.t) : Prop :=
  Experience.location o = None /\ Experience.startDate o = None
  /\ Experience.endDate o = None
  /\ match Experience.bullets o with
     | Some bs => Forall keptBullet bs
     | None => truthy (Experience.position o) = false
     end.

(** The invariant of the loop: the objects are shaped, [currentExp] and
    the entries pushed so far are addresses of objects, and a pushed entry
    is complete. *)
Definition expInvariant (st : expState) : Prop :=
  Forall shaped (objects st)
  /\ currentExp st < length (objects st)
  /\ Forall (fun a => a < length (objects st)
                      /\ complete (deref (objects st) a) = true)
       (experience st).

(** A line that [extractSummary] may take from [lines]. *)
Definition summaryLine (lines : list jsstring) (l : jsstring) : Prop :=
  In l lines /\ 10 < length l /\ isSectionHeader l = false.

End Kept.
Import Kept.

(* ================================================================== *)
(** * Job analysis (routes/conversation.ts) *)
(* ================================================================== *)

Module JobAnalysis.
Import BinInt.

(** ** Builtins *)

(** The syntax characters of a pattern. *)
Definition syntaxChar (c : N) : bool :=
  existsb (N.eqb c) (lit "^$\.*+?()[]{}|").

Definition quantifiable (a : regex) : bool :=
  match a with
  | Chr _ | Dot => true
  | _ => false
  end.

(** The atoms of a pattern source, for the syntax that the tables of this
    file give rise to: a character that is not a syntax character stands
    for itself, [.] is the wildcard, a backslash before a syntax character
    makes it a literal, [\b] is the word boundary, and [+] repeats the
    atom before it.  [None] is for a source with any other syntax, and for
    the sources that are a [SyntaxError].  [esc] tells that the unit
    before was a backslash; [acc] holds the atoms read, last one first. *)
Fixpoint atoms (esc : bool) (acc : list regex) (source : jsstring)
  : option (list regex) :=
  match source with
  | [] => if esc then None else Some (rev acc)
  | c :: rest =>
      if esc then
        if (c =? 98)%N then atoms false (WordB :: acc) rest
        else if syntaxChar c then atoms false (Chr c :: acc) rest
        else None
      else if (c =? 92)%N then atoms true acc rest
      else if (c =? 46)%N then atoms false (Dot :: acc) rest
      else if (c =? 43)%N then
        match acc with
        | a :: acc' =>
            if quantifiable a then atoms false (plus a :: acc') rest else None
        | [] => None
        end
      else if syntaxChar c then None
      else atoms false (Chr c :: acc) rest
  end.

(** [new RegExp(source, 'i')] *)
Definition RegExp (source : jsstring) : option regex :=
  option_map seqs (atoms false [] source).

(** [new RegExp(source, 'i').test(text)].  No source that the tables give
    is outside of the syntax of [atoms]
    ([JobFacts.technical_patterns_compile],
    [JobFacts.soft_patterns_compile]). *)
Definition testSource (source text : jsstring) : bool :=
  match RegExp source with
  | Some r => test true r text
  | None => false
  end.

(** [s.replace(pattern, replacement)] for a string [pattern] and a
    [replacement] without [$]: the first occurrence is replaced. *)
Definition replaceFirst (pattern replacement s : jsstring) : jsstring :=
  if includes pattern s
  then beforeFirst pattern s ++ replacement ++ afterFirst pattern s
  else s.

(** [[...new Set(a)]]: the elements of [a] in the order of their first
    occurrence. *)
Fixpoint distinct (a : list jsstring) : list jsstring :=
  match a with
  | [] => []
  | x :: a' => x :: filter (fun y => negb (str_eqb x y)) (distinct a')
  end.

(** ** extractTechnicalSkills and extractSoftSkills *)

(** The table of [extractTechnicalSkills]. *)
Definition technicalSkills : list jsstring :=
  map lit
    ["javascript"; "python"; "java"; "c\+\+"; "c#"; "go"; "rust"; "php";
     "ruby"; "swift"; "kotlin"; "scala"; "r"; "matlab"; "perl"; "react";
     "angular"; "vue"; "node"; "express"; "django"; "flask"; "spring";
     "laravel"; "asp.net"; "html"; "css"; "sass"; "less"; "typescript";
     "jquery"; "bootstrap"; "tailwind"; "webpack"; "babel"; "sql"; "mysql";
     "postgresql"; "mongodb"; "redis"; "elasticsearch"; "oracle"; "sqlite";
     "cassandra"; "dynamodb"; "firebase"; "aws"; "azure"; "gcp"; "heroku";
     "digitalocean"; "vercel"; "netlify"; "cloudflare"; "lambda"; "ec2"; "s3";
     "docker"; "kubernetes"; "jenkins"; "gitlab"; "github"; "terraform";
     "ansible"; "circleci"; "travis"; "github actions"; "pandas"; "numpy";
     "scikit-learn"; "tensorflow"; "pytorch"; "keras"; "jupyter"; "spark";
     "hadoop"; "kafka"; "ios"; "android"; "react native"; "flutter"; "xamarin";
     "ionic"; "cordova"; "git"; "linux"; "ubuntu"; "centos"; "graphql"; "rest";
     "api"; "microservices"; "agile"; "scrum"; "kanban"; "jira"; "confluence";
     "jest"; "mocha"; "chai"; "cypress"; "selenium"; "junit"; "pytest"; "rspec"]%string.

(** The table of [extractSoftSkills]. *)
Definition softSkills : list jsstring :=
  map lit
    ["communication"; "leadership"; "teamwork"; "collaboration";
     "problem.solving"; "analytical"; "adaptability"; "flexibility";
     "creativity"; "innovation"; "time.management"; "organization";
     "project.management"; "critical.thinking"; "decision.making";
     "strategic.thinking"; "interpersonal"; "mentoring"; "coaching";
     "presentation"; "public.speaking"; "emotional.intelligence"; "empathy";
     "conflict.resolution"; "negotiation"; "customer.focus";
     "client.relations"; "stakeholder.management"; "relationship.building"]%string.


(** The pattern source and the reported name of a technical skill. *)
Definition technicalSource (skill : jsstring) : jsstring :=
  lit "\b" ++ replaceFirst (lit "+") (lit "\+") skill ++ lit "\b".

Definition technicalName (skill : jsstring) : jsstring :=
  replaceFirst (lit "\+\+") (lit "c++") skill.

Definition extractTechnicalSkills (text : jsstring) : list jsstring :=
  let foundSkills :=
    flat_map (fun skill =>
                if testSource (technicalSource skill) text
                then [technicalName skill] else [])
      technicalSkills in
  distinct foundSkills.

Definition softSource (skill : jsstring) : jsstring :=
  replaceFirst (lit ".") (lit "\.") skill.

Definition softName (skill : jsstring) : jsstring :=
  replaceFirst (lit ".") (lit " ") skill.

Definition extractSoftSkills (text : jsstring) : list jsstring :=
  let foundSkills :=
    flat_map (fun skill =>
                if testSource (softSource skill) text
                then [softName skill] else [])
      softSkills in
  distinct foundSkills.

(** ** determineExperienceLevel *)

Definition seniorLevel : jsstring := lit "Senior (5+ years)".
Definition midLevel : jsstring := lit "Mid-level (3-5 years)".
Definition juniorLevel : jsstring := lit "Junior (0-2 years)".

Definition digits : regex := plus (Cls false digitRanges).

(** [/(\d+)\+?\s*years?/i], [/(\d+)\+?\s*yrs?/i] and
    [/minimum\s+(\d+)\s+years?/i] *)
Definition yearPatterns : list regex :=
  [seqs [Group 1 digits; opt (Extractor.chr "+"); star space; str "year";
         opt (Extractor.chr "s")];
   seqs [Group 1 digits; opt (Extractor.chr "+"); star space; str "yr";
         opt (Extractor.chr "s")];
   seqs [str "minimum"; plus space; Group 1 digits; plus space; str "year";
         opt (Extractor.chr "s")]].

Definition isDigit (c : N) : bool := ((48 <=? c) && (c <=? 57))%N.

(** The value of the decimal digits that [s] begins with, [None] when it
    begins with none. *)
Fixpoint leadingDigits (acc : option N) (s : jsstring) : option N :=
  match s with
  | c :: s' =>
      if isDigit c
      then leadingDigits
             (Some (10 * match acc with Some n => n | None => 0 end
                    + (c - 48))%N) s'
      else acc
  | [] => acc
  end.

(** [parseInt(s)] for a string that does not begin with white space, a
    sign or [0x], as the strings are that the group [(\d+)] captures:
    [None] stands for [NaN].  The number is the exact one; [parseInt]
    gives the double next to it, and since 1, 3 and 5 are doubles the
    comparisons with them come out the same. *)
Definition parseInt (s : jsstring) : option N := leadingDigits None s.

(** The three tests on [years]; [None] when none of them returns. *)
Definition levelOfYears (years : option N) : option jsstring :=
  match years with
  | Some y =>
      if (5 <=? y)%N then Some seniorLevel
      else if (3 <=? y)%N then Some midLevel
      else if (1 <=? y)%N then Some juniorLevel
      else None
  | None => None
  end.

(** The loop over [yearPatterns]: [Some] for a [return] from inside it. *)
Fixpoint yearsLoop (patterns : list regex) (text : jsstring)
  : option jsstring :=
  match patterns with
  | [] => None
  | pattern :: rest =>
      match exec true pattern text with
      | Some (_, cs) =>
          match levelOfYears (parseInt (orElse (getCap 1 cs) [])) with
          | Some level => Some level
          | None => yearsLoop rest text
          end
      | None => yearsLoop rest text
      end
  end.

Definition determineExperienceLevel (text : jsstring) (title : option jsstring)
  : jsstring :=
  let lowerText := toLowerCase text in
  let lowerTitle := orElse (option_map toLowerCase title) [] in
  if includes (lit "senior") lowerText || includes (lit "lead") lowerText
     || includes (lit "principal") lowerText
     || includes (lit "senior") lowerTitle || includes (lit "lead") lowerTitle
     || includes (lit "principal") lowerTitle
  then seniorLevel
  else if includes (lit "junior") lowerText || includes (lit "entry") lowerText
          || includes (lit "graduate") lowerText
          || includes (lit "junior") lowerTitle
          || includes (lit "entry") lowerTitle
  then juniorLevel
  else
    match yearsLoop yearPatterns text with
    | Some level => level
    | None =>
        if includes (lit "architect") lowerText
           || includes (lit "manager") lowerText
        then seniorLevel
        else midLevel
    end.

(** ** generateRecommendations *)

(** [a.some(skill => names.includes(skill))] *)
Definition someIn (names : list string) (a : list jsstring) : bool :=
  existsb (fun skill => Extractor.member skill (map lit names)) a.

Definition frontendAdvice : jsstring :=
  lit "For frontend roles, include responsive design and modern framework experience".
Definition backendAdvice : jsstring :=
  lit "For backend/fullstack roles, emphasize system design and scalability".
Definition cloudAdvice : jsstring :=
  lit "For cloud roles, highlight infrastructure as code and automation experience".

(** The recommendations on the technical skills, on the soft skills, for
    the experience level, the general ones and the ones by industry, in
    the order in which they are pushed. *)
Definition technicalAdvice (technicalSkills : list jsstring) : list jsstring :=
  if length technicalSkills =? 0 then
    [lit "Add a technical skills section with relevant technologies from the job description"]
  else if length technicalSkills <? 3 then
    [lit "Expand technical skills section - this job requires expertise in multiple technologies";
     lit "Prioritize these key skills: " ++ join (lit ", ") technicalSkills]
  else
    [lit "Lead with these critical technical skills: "
     ++ join (lit ", ") (firstn 4 technicalSkills)].

Definition softAdvice (softSkills : list jsstring) : list jsstring :=
  if length softSkills =? 0 then
    [lit "Include relevant soft skills that demonstrate cultural fit for this role"]
  else
    [lit "Highlight these soft skills: " ++ join (lit ", ") (firstn 3 softSkills)].

Definition levelAdvice (experienceLevel : jsstring) : list jsstring :=
  if includes (lit "Senior") experienceLevel then
    [lit "Emphasize leadership, architecture decisions, and mentoring experience";
     lit "Include metrics showing impact on team performance and project outcomes";
     lit "Highlight complex problem-solving and strategic thinking"]
  else if includes (lit "Mid-level") experienceLevel then
    [lit "Show progression of responsibilities and increasing complexity of projects";
     lit "Include both individual contributions and team collaboration examples";
     lit "Demonstrate technical depth alongside practical application"]
  else if includes (lit "Junior") experienceLevel then
    [lit "Focus on relevant projects, coursework, and eagerness to learn";
     lit "Highlight transferable skills and quick learning ability";
     lit "Include academic achievements and relevant certifications"]
  else [].

Definition generalAdvice : list jsstring :=
  [lit "Incorporate exact keywords from job description naturally throughout resume";
   lit "Use quantifiable achievements (numbers, percentages, scale) wherever possible";
   lit "Ensure consistent formatting and avoid complex graphics or tables"].

Definition industryAdvice (technicalSkills : list jsstring) : list jsstring :=
  (if someIn ["react"; "angular"; "vue"; "javascript"; "typescript"]%string
        technicalSkills
   then [frontendAdvice] else [])
  ++ (if someIn ["node"; "python"; "java"; "docker"; "kubernetes"]%string
           technicalSkills
      then [backendAdvice] else [])
  ++ (if someIn ["aws"; "azure"; "gcp"; "terraform"]%string technicalSkills
      then [cloudAdvice] else []).

Definition generateRecommendations
  (technicalSkills softSkills : list jsstring) (experienceLevel : jsstring)
  : list jsstring :=
  let recommendations :=
    technicalAdvice technicalSkills ++ softAdvice softSkills
    ++ levelAdvice experienceLevel ++ generalAdvice
    ++ industryAdvice technicalSkills in
  firstn 8 recommendations.

(** ** extractRequirements and extractResponsibilities *)

(** The loop [while ((match = pattern.exec(text)) !== null)] for a
    pattern with the [g] flag: the successive matches, each with its
    captures.  The search for the next match starts where the last one
    ended ([skip] counts the units of the match that are still to be
    passed).  The patterns of this file match one unit at least
    ([JobFacts.sentence_patterns_consume]); a pattern with an empty match
    would make the loop of the source run for ever, which this function
    does not model. *)
Fixpoint execLoop (ic : bool) (r : regex) (skip : nat) (bef s : jsstring)
  : list (jsstring * list (nat * jsstring)) :=
  match s with
  | [] => []
  | c :: s' =>
      match skip with
      | S j => execLoop ic r j (c :: bef) s'
      | O =>
          match matchHere ic r bef s with
          | Some (w, cs) => (w, cs) :: execLoop ic r (length w - 1) (c :: bef) s'
          | None => execLoop ic r 0 (c :: bef) s'
          end
      end
  end.

(** [([^.!?]+[.!?])], the group of every pattern below. *)
Definition sentence : regex :=
  Group 1 (Seq (plus (Cls true (chars ".!?"))) (Cls false (chars ".!?"))).

Definition colon : regex := opt (Extractor.chr ":").
Definition esses : regex := star (Extractor.chr "s").

(** [/requirements?:?\s*([^.!?]+[.!?])/gi],
    [/qualifications?:?\s*([^.!?]+[.!?])/gi],
    [/must have:?s*\s*([^.!?]+[.!?])/gi] and
    [/required:?s*\s*([^.!?]+[.!?])/gi] *)
Definition requirementPatterns : list regex :=
  [seqs [str "requirement"; opt (Extractor.chr "s"); colon; star space; sentence];
   seqs [str "qualification"; opt (Extractor.chr "s"); colon; star space; sentence];
   seqs [str "must have"; colon; esses; star space; sentence];
   seqs [str "required"; colon; esses; star space; sentence]].

(** [/responsibilities?:?\s*([^.!?]+[.!?])/gi],
    [/will:?s*\s*([^.!?]+[.!?])/gi] and [/duties?:?\s*([^.!?]+[.!?])/gi] *)
Definition responsibilityPatterns : list regex :=
  [seqs [str "responsibilitie"; opt (Extractor.chr "s"); colon; star space; sentence];
   seqs [str "will"; colon; esses; star space; sentence];
   seqs [str "dutie"; opt (Extractor.chr "s"); colon; star space; sentence]].

(** The body of [patterns.forEach]: the trimmed first group of every
    match, kept when it has more than 10 and less than 200 units. *)
Definition sentencesOf (patterns : list regex) (text : jsstring)
  : list jsstring :=
  flat_map (fun pattern =>
              flat_map (fun res =>
                          let sentence := trim (orElse (getCap 1 (snd res)) []) in
                          if (10 <? length sentence) && (length sentence <? 200)
                          then [sentence] else [])
                (execLoop true pattern 0 [] text))
    patterns.

(** [/^[-•*]\s/] *)
Definition bulletRe : regex :=
  seqs [Bol; Cls false [one 45%N; one BULLET; one 42%N]; space].

Definition extractRequirements (text : jsstring) : list jsstring :=
  let requirements := sentencesOf requirementPatterns text in
  let bulletRequirements :=
    firstn 5
      (filter (fun line => (10 <? length line) && (length line <? 150))
         (map (fun line => trim (skipn 1 (trim line)))
            (filter (fun line => test false bulletRe (trim line))
               (split nl text)))) in
  requirements ++ bulletRequirements.

Definition extractResponsibilities (text : jsstring) : list jsstring :=
  firstn 5 (sentencesOf responsibilityPatterns text).

(** ** extractKeywords *)

(** [/\b\w+\b/g] *)
Definition wordRanges : list (N * N) :=
  digitRanges ++ upperRanges ++ [one 95%N] ++ lowerRanges.
Definition wordRe : regex := seqs [WordB; plus (Cls false wordRanges); WordB].

(** The stop words of [extractKeywords]. *)
Definition stopWords : list jsstring :=
  map lit
    ["that"; "with"; "have"; "this"; "will"; "your"; "from"; "they"; "know";
     "want"; "been"; "good"; "much"; "some"; "time"; "very"; "when"; "come";
     "here"; "just"; "like"; "long"; "make"; "many"; "over"; "such"; "take";
     "than"; "them"; "well"; "were"; "what"; "where"; "which"; "their"; "said";
     "each"; "also"; "about"; "would"; "there"; "could"; "other"; "after";
     "first"; "never"; "these"; "work"; "being"; "through"; "before"; "great";
     "looking"; "join"; "team"; "company"; "looking"; "candidate"; "ideal";
     "role"; "position"; "responsibilities"; "requirements"; "qualifications";
     "skills"; "experience"; "ability"; "knowledge"; "understanding"; "strong";
     "excellent"; "proven"; "track"; "record"]%string.

(** The technical terms of [extractKeywords]. *)
Definition technicalTerms : list jsstring :=
  map lit
    ["javascript"; "python"; "java"; "react"; "node"; "aws"; "docker";
     "kubernetes"; "api"; "database"; "sql"; "nosql"; "rest"; "graphql";
     "microservices"; "agile"; "scrum"; "ci/cd"; "testing"; "automation";
     "security"; "performance"; "scalability"; "architecture"; "design";
     "patterns"; "algorithms"; "data"; "structures"; "machine"; "learning";
     "artificial"; "intelligence"; "cloud"; "infrastructure"; "devops";
     "monitoring"; "logging"; "debugging"; "optimization"; "frontend";
     "backend"; "fullstack"; "mobile"; "web"; "application"; "software";
     "engineering"; "development"; "programming"; "coding"; "deployment";
     "maintenance"; "support"; "integration"; "implementation"; "configuration"]%string.

(** [word.includes('-') || word.includes('_') || /\d/.test(word)] *)
Definition compound (word : jsstring) : bool :=
  includes (lit "-") word || includes (lit "_") word
  || test false Extractor.digitRe word.

(** The callback of [words.filter]. *)
Definition potentialKeyword (word : jsstring) : bool :=
  if length word <? 4 then false
  else if Extractor.member word stopWords then false
  else if Extractor.member word technicalTerms then true
  else if compound word then true
  else if 6 <? length word then true
  else false.

(** [keywordFreq[word] = (keywordFreq[word] || 0) + 1] on the entries of
    [keywordFreq], kept in the order in which the keys were created. *)
Fixpoint bump (word : jsstring) (freq : list (jsstring * nat))
  : list (jsstring * nat) :=
  match freq with
  | [] => [(word, 1)]
  | (w, n) :: rest =>
      if str_eqb w word then (w, S n) :: rest else (w, n) :: bump word rest
  end.

(** [keywordFreq] is an object literal, so it inherits [constructor] and
    [__proto__].  For the word [__proto__] the assignment above calls the
    inherited setter with a string, which does nothing: the word gets no
    entry.  For the word [constructor] see [scored] below. *)
Definition count (potentialKeywords : list jsstring) : list (jsstring * nat) :=
  fold_left (fun freq word =>
               if str_eqb word (lit "__proto__") then freq else bump word freq)
    potentialKeywords [].

(** The keys that an object lists first, in the order of their values:
    the decimal form of a number below [2^32 - 1]. *)
Definition isArrayIndex (key : jsstring) : bool :=
  forallb isDigit key
  && match key with
     | [] => false
     | [c] => true
     | c :: _ => negb (c =? 48)%N
     end
  && match parseInt key with
     | Some n => (n <=? 4294967294)%N
     | None => false
     end.

Definition indexOf (key : jsstring) : N :=
  match parseInt key with Some n => n | None => 0%N end.

Fixpoint insertIndex (e : jsstring * nat) (l : list (jsstring * nat))
  : list (jsstring * nat) :=
  match l with
  | [] => [e]
  | f :: l' =>
      if (indexOf (fst e) <? indexOf (fst f))%N then e :: l
      else f :: insertIndex e l'
  end.

(** [Object.entries(keywordFreq)] *)
Definition entries (freq : list (jsstring * nat)) : list (jsstring * nat) :=
  fold_right insertIndex [] (filter (fun e => isArrayIndex (fst e)) freq)
  ++ filter (fun e => negb (isArrayIndex (fst e))) freq.

(** An element of [scoredKeywords].  [score4] is four times the score:
    the score is [freq] times 2, 1.5 and 1.5 or some of these, a multiple
    of a quarter that a double holds as it is.

    [keywordFreq] is an object literal, so for the word [constructor] the
    count that the loop finds at first is the inherited function: the
    count becomes a string, the text of that function and a [1] for each
    occurrence of the word, and the score, a product with that string, is
    [NaN].  In the element of that word [freq] is the number of these
    [1]s, and [score4] is not read. *)
Record scored := Scored { word : jsstring; score4 : nat; freq : nat }.

Definition scoreOf (e : jsstring * nat) : scored :=
  let (word, freq) := e in
  Scored word
    (freq * (if Extractor.member word technicalTerms then 2 else 1)
     * (if 8 <? length word then 3 else 2)
     * (if compound word then 3 else 2))
    freq.

(** The comparison function is negative on [(a, b)]: [a] goes before
    [b]. *)
Definition goesBefore (a b : scored) : bool :=
  if negb (score4 a =? score4 b) then score4 b <? score4 a
  else freq b <? freq a.

(** [a.sort(compare)]: the sort is stable, and the comparison function
    is a consistent one, so the result is the one of an insertion sort
    that puts every element behind the elements that are not to go after
    it. *)
Fixpoint insertScored (x : scored) (l : list scored) : list scored :=
  match l with
  | [] => [x]
  | y :: l' => if goesBefore x y then x :: l else y :: insertScored x l'
  end.

Definition sortScored (l : list scored) : list scored :=
  fold_left (fun sorted x => insertScored x sorted) l [].

(** With the word [constructor] among the keywords the comparison
    function returns [NaN] on that word and any other one, which [sort]
    reads as 0: it is not a consistent comparison function any more, and
    the order of the sorted array is left to the engine.  [sortNaN]
    stands for what the [sort] of the engine does with the comparison
    function of the source on such an array. *)
Definition extractKeywords (sortNaN : list scored -> list scored)
  (text : jsstring) : list jsstring :=
  let words :=
    match matchAll false wordRe (toLowerCase text) with
    | Some l => l
    | None => []
    end in
  let potentialKeywords := filter potentialKeyword words in
  let scoredKeywords := map scoreOf (entries (count potentialKeywords)) in
  let sorted :=
    if Extractor.member (lit "constructor") potentialKeywords
    then sortNaN scoredKeywords
    else sortScored scoredKeywords in
  map word (firstn 25 sorted).

(** ** calculateATSScore *)

(** The numbers of this function are doubles ([PrimFloat.float], the
    binary64 numbers of the kernel). *)
Fixpoint ofNat (n : nat) : PrimFloat.float :=
  match n with
  | O => PrimFloat.zero
  | S n' => PrimFloat.add (ofNat n') PrimFloat.one
  end.

(** The literal [1.4]: the double next to 14/10. *)
Definition onePointFour : PrimFloat.float := PrimFloat.div (ofNat 14) (ofNat 10).

(** [Math.min] and [Math.max] on numbers that are not [NaN]. *)
Definition fmin (a b : PrimFloat.float) : PrimFloat.float :=
  if PrimFloat.ltb a b then a else b.
Definition fmax (a b : PrimFloat.float) : PrimFloat.float :=
  if PrimFloat.ltb a b then b else a.

(** [Math.round] on a finite number, the integer [floor (x + 1/2)],
    computed from the binary form [m * 2^e] of [x] without rounding.
    [None] is for an infinity and for [NaN]. *)
Definition round (x : PrimFloat.float) : option Z :=
  match FloatOps.Prim2SF x with
  | SpecFloat.S754_zero _ => Some Z0
  | SpecFloat.S754_finite s m e =>
      let v := if s then Zneg m else Zpos m in
      Some (if Z.leb Z0 e then Z.mul v (Z.pow 2 e)
            else Z.div (Z.add (Z.mul 2 v) (Z.pow 2 (Z.opp e)))
                   (Z.pow 2 (Z.sub 1 e)))
  | _ => None
  end.

(** The score before it is rounded. *)
Definition rawScore (keywords technicalSkills : nat) : PrimFloat.float :=
  let score := PrimFloat.zero in
  let score :=
    if 0 <? keywords then PrimFloat.add score (ofNat 15) else score in
  let keywordScore :=
    fmin (PrimFloat.mul (ofNat keywords) onePointFour) (ofNat 35) in
  let score := PrimFloat.add score keywordScore in
  let skillScore :=
    fmin (PrimFloat.mul (ofNat technicalSkills) (ofNat 2)) (ofNat 30) in
  let score := PrimFloat.add score skillScore in
  let score :=
    if 15 <? keywords then PrimFloat.add score (ofNat 5) else score in
  let score :=
    if 20 <? keywords then PrimFloat.add score (ofNat 5) else score in
  let score :=
    if 5 <? technicalSkills then PrimFloat.add score (ofNat 5) else score in
  let score :=
    if 8 <? technicalSkills then PrimFloat.add score (ofNat 5) else score in
  if keywords <? 3
  then fmax (PrimFloat.sub score (ofNat 10)) PrimFloat.zero
  else score.

(** [Math.min(Math.round(score), 100)] *)
Definition calculateATSScore (keywords technicalSkills : list jsstring)
  : option Z :=
  option_map (fun rounded => Z.min rounded 100)
    (round (rawScore (length keywords) (length technicalSkills))).

(** ** analyzeJobDescription *)

Record analysis := Analysis {
  skills : list jsstring;
  requirements : list jsstring;
  keywords : list jsstring;
  experienceLevel : jsstring;
  atsScore : option Z;
  recommendations : list jsstring
}.

(** The function returns parts of the lower-cased description, the
    requirements.  [toLowerCase] of [JS] gives the units of Basic Latin
    their lower case, which is all that the patterns of this module
    read, and leaves other capital letters as they are; [lowerCase]
    stands for [String.prototype.toLowerCase] of the engine on any
    text. *)
Definition analyzeJobDescription (lowerCase : jsstring -> jsstring)
  (sortNaN : list scored -> list scored) (description : jsstring)
  (title : option jsstring) : analysis :=
  let text := lowerCase description in
  let technicalSkills := extractTechnicalSkills text in
  let softSkills := extractSoftSkills text in
  let requirements := extractRequirements text in
  let responsibilities := extractResponsibilities text in
  let experienceLevel := determineExperienceLevel text title in
  let keywords := extractKeywords sortNaN text in
  let atsScore := calculateATSScore keywords technicalSkills in
  let recommendations :=
    generateRecommendations technicalSkills softSkills experienceLevel in
  Analysis (technicalSkills ++ softSkills) requirements keywords
    experienceLevel atsScore recommendations.

End JobAnalysis.

(* ================================================================== *)
(** * The PDF routes (routes/pdf.ts) *)
(* ================================================================== *)

Module Pdf.

Local Open Scope result_scope.

(** [a.length] on a possibly absent array: reading a property of
    [undefined] throws. *)
Definition lengthOf {A : Type} (a : option (list A)) : result nat :=
  match a with
  | Some l => Ok (length l)
  | None => Throw TypeError
  end.

(** [if (test) sections.push(name)] *)
Definition pushName (test : bool) (name : string) : list jsstring :=
  if test then [lit name] else [].

(** [a && a.length > 0] *)
Definition hasAny {A : Type} (a : option (list A)) : bool :=
  match a with
  | Some l => 0 <? length l
  | None => false
  end.

Definition getResumeSections (resume : ResumeData.t) : result (list jsstring) :=
  let summary := pushName (truthy (ResumeData.summary resume)) "summary" in
  experience <- lengthOf (ResumeData.experience resume) ;;
  education <- lengthOf (ResumeData.education resume) ;;
  skills <- lengthOf (ResumeData.skills resume) ;;
  Ok (summary
      ++ pushName (0 <? experience) "experience"
      ++ pushName (0 <? education) "education"
      ++ pushName (0 <? skills) "skills"
      ++ pushName (hasAny (ResumeData.projects resume)) "projects"
      ++ pushName (hasAny (ResumeData.certifications resume)) "certifications"
      ++ pushName (hasAny (ResumeData.awards resume)) "awards").

(** [/[^\w\s-]/g] and [/\s+/g] *)
Definition unsafeRe : regex :=
  Cls true (JobAnalysis.wordRanges ++ spaceRanges ++ chars "-").
Definition spacesRe : regex := plus space.

(** [raw.replace(/[^\w\s-]/g, '').trim().replace(/\s+/g, '_') || dflt],
    the expression that the source writes for the name and for the
    company. *)
Definition sanitized (raw : jsstring) (dflt : string) : jsstring :=
  orElse
    (Some (replaceAll false spacesRe (fun _ => lit "_")
             (trim (replaceAll false unsafeRe (fun _ => []) raw))))
    (lit dflt).

(** [timestamp] stands for [new Date().toISOString().slice(0, 10)], the
    day at which the function is called. *)
Definition buildPdfFilename (timestamp : jsstring) (resume : ResumeData.t)
  (company : jsstring) : result jsstring :=
  match ResumeData.personalInfo resume with
  | None => Throw TypeError
  | Some personalInfo =>
      let rawName := orElse (PersonalInfo.name personalInfo) (lit "Resume") in
      let sanitizedName := sanitized rawName "Resume" in
      let sanitizedCompany := sanitized company "General" in
      Ok (sanitizedName ++ lit "_Resume_" ++ sanitizedCompany ++ lit "_"
          ++ timestamp ++ lit ".pdf")
  end.

End Pdf.

(* ================================================================== *)
(** * Notions for the job analysis *)
(* ================================================================== *)

Module JobNotions.
Import JobAnalysis BinInt.

(** The three recommendations by industry. *)
Definition industry : list jsstring :=
  [frontendAdvice; backendAdvice; cloudAdvice].

(** Not an upper-case letter of Basic Latin. *)
Definition notUpper (c : N) : bool := negb ((65 <=? c) && (c <=? 90))%N.

(** The units of [p] match the first units of [s], one by one. *)
Fixpoint literalAt (ic : bool) (p s : jsstring) : bool :=
  match p with
  | [] => true
  | c :: p' =>
      match s with
      | d :: s' => chrMatch ic c d && literalAt ic p' s'
      | [] => false
      end
  end.

(** [f] holds of [s] or of one of the strings left when units are taken
    off its beginning. *)
Fixpoint anySuffix (f : jsstring -> bool) (s : jsstring) : bool :=
  f s || match s with
         | [] => false
         | _ :: s' => anySuffix f s'
         end.

Definition isSome {A : Type} (o : option A) : bool :=
  match o with Some _ => true | None => false end.

(** The pattern that [extractTechnicalSkills] builds for the entry
    [c\+\+] of its table: the first [+] of the entry gets a second
    backslash, so the source reads [\bc\\+\+\b], a [c], backslashes and a
    plus sign. *)
Definition cppRe : regex :=
  seqs [WordB; Chr 99; plus (Chr 92); Chr 43; WordB].

(** The second unit of [s] is a backslash. *)
Definition backslashSecond (s : jsstring) : bool :=
  match s with
  | _ :: c :: _ => (c =? 92)%N
  | _ => false
  end.

(** [.], [!] or [?] *)
Definition terminator (c : N) : bool := inRanges (chars ".!?") c.

(** One sentence: units that end no sentence, and then one that does. *)
Definition oneSentence (v : jsstring) : Prop :=
  exists u e, v = u ++ [e] /\ terminator e = true
              /\ forallb (fun c => negb (terminator c)) u = true.

(** A sentence as [sentencesOf] keeps it, and a bullet line as
    [extractRequirements] keeps it. *)
Definition keptSentence (r : jsstring) : Prop :=
  oneSentence r /\ trimmed r /\ 10 < length r < 200.

Definition keptLine (b : jsstring) : Prop := trimmed b /\ 10 < length b < 150.

(** A unit of a keyword: a lower-case letter, a digit or [_]. *)
Definition keywordUnit (c : N) : bool := isWordChar c && notUpper c.

(** A keyword as [extractKeywords] returns it. *)
Definition keptKeyword (w : jsstring) : Prop :=
  potentialKeyword w = true /\ forallb keywordUnit w = true.

(** The score of [calculateATSScore] for [k] keywords and [t] technical
    skills. *)
Definition scoreFor (k t : nat) : option Z :=
  option_map (fun rounded => Z.min rounded 100) (round (rawScore k t)).

(** The same score in exact arithmetic, on tenths: 15 points for having
    keywords, 1.4 for each keyword up to 35, 2 for each skill up to 30,
    the four bonuses of 5, and 10 off below three keywords; then the
    rounding to the next integer, halves upwards, and the cap at 100. *)
Definition exactTenths (k t : nat) : nat :=
  let score :=
    (if 0 <? k then 150 else 0) + Nat.min (14 * k) 350 + Nat.min (20 * t) 300
    + (if 15 <? k then 50 else 0) + (if 20 <? k then 50 else 0)
    + (if 5 <? t then 50 else 0) + (if 8 <? t then 50 else 0) in
  if k <? 3 then score - 100 else score.

Definition exactScore (k t : nat) : Z :=
  Z.of_nat (Nat.min ((exactTenths k t + 5) / 10) 100).

Definition agrees (k t : nat) : bool :=
  match scoreFor k t with
  | Some s => Z.eqb s (exactScore k t)
  | None => false
  end.

End JobNotions.
Import JobNotions.

(* ================================================================== *)
(** * Notions for the PDF routes *)
(* ================================================================== *)

Module PdfNotions.

(** A unit of a file name part: a letter, a digit, [_] or [-]. *)
Definition fileUnit (c : N) : bool := isWordChar c || (c =? 45)%N.

(** A unit that the first replacement of [Pdf.sanitized] leaves: a word
    unit, white space or [-]. *)
Definition safeUnit (c : N) : bool :=
  inRanges (JobAnalysis.wordRanges ++ spaceRanges ++ chars "-") c.

Definition notSpace (c : N) : bool := negb (inRanges spaceRanges c).

(** A piece of a scan: the text between two matches satisfies [P]. *)
Definition pieceUnits (P : N -> bool) (e : jsstring + jsstring) : Prop :=
  match e with
  | inl t => forallb P t = true
  | inr _ => True
  end.

(** The names that [Pdf.getResumeSections] can list, in its order. *)
Definition sectionNames : list jsstring :=
  map lit ["summary"; "experience"; "education"; "skills"; "projects";
           "certifications"; "awards"]%string.

(** [name] is among the listed sections. *)
Definition listed (name : string) (sections : list jsstring) : bool :=
  Extractor.member (lit name) sections.

(** A record that has a name, a blank summary and one experience entry. *)
Definition blankSummary : ResumeData.t :=
  ResumeData.mk
    (Some (PersonalInfo.mk (Some (lit "Ada Lovelace, Ph.D.")) None None None
             None None None))
    (Some (lit "  "))
    (Some [Experience.mk (Some (lit "Analyst")) None None None None None])
    (Some []) (Some []) None None None.

End PdfNotions.
Import PdfNotions.

(* ================================================================== *)
(** * The leaf strings of a record in its document *)
(* ================================================================== *)

Module Leaves.
Import Renderer.

(** The result of [build], as a function of the string [s], is one text
    [pre], then [shown s], then one text [post], the two texts being the
    same for every [s] that is [ok]; or it is one exception for every
    such [s]. *)
Definition writtenAs (shown : jsstring -> jsstring) (ok : jsstring -> bool)
  (build : jsstring -> result jsstring) : Prop :=
  (exists e, forall s, ok s = true -> build s = Throw e)
  \/ (exists pre post,
        forall s, ok s = true -> build s = Ok (pre ++ shown s ++ post)).

(** The same for a builder that does not throw. *)
Definition shownIn (shown : jsstring -> jsstring) (ok : jsstring -> bool)
  (f : jsstring -> jsstring) : Prop :=
  exists pre post, forall s, ok s = true -> f s = pre ++ shown s ++ post.

(** The leaves that the code takes as they are, and the ones that it
    takes when they are not blank, or not empty ([nonEmpty]). *)
Definition any (s : jsstring) : bool := true.
Definition notBlank (s : jsstring) : bool := nonEmpty (trim s).

(** What the code hands to the escaper: the leaf as it is, or trimmed. *)
Definition same (s : jsstring) : jsstring := s.

(** The leaf escaped once. *)
Definition escaped (norm : jsstring -> jsstring) (s : jsstring) : jsstring :=
  escapeText (norm s).

(** The e-mail address in its link: the address, the end of the target,
    and the address escaped once as the label. *)
Definition linked (s : jsstring) : jsstring :=
  trim s ++ lit "}{" ++ escapeText (trim s).

(** The document for the record [R s] and any template holds [s] escaped
    once. *)
Definition writtenOnce (norm : jsstring -> jsstring) (ok : jsstring -> bool)
  (R : jsstring -> ResumeData.t) : Prop :=
  forall T, writtenAs (escaped norm) ok
              (fun s => generateLatexFromResume (R s) T).

(** The seams at which [/\r?\n/] could match across two texts. *)
Definition headLF (s : jsstring) : bool :=
  match s with c :: _ => (c =? LF)%N | [] => false end.

Fixpoint lastCR (s : jsstring) : bool :=
  match s with
  | [] => false
  | [c] => (c =? CR)%N
  | _ :: s' => lastCR s'
  end.

Fixpoint noLF (s : jsstring) : bool :=
  match s with
  | [] => true
  | c :: s' => negb (c =? LF)%N && noLF s'
  end.

(** A line of a description: no line feed in it, and not blank. *)
Definition oneLine (s : jsstring) : bool := notBlank s && noLF s.

(** The pieces of a text between its line feeds. *)
Fixpoint lfLines (acc s : jsstring) : list jsstring :=
  match s with
  | [] => [rev acc]
  | c :: s' =>
      if (c =? LF)%N then rev acc :: lfLines [] s' else lfLines (c :: acc) s'
  end.

(** The text that has [s] as one of its lines, under the text [above]
    and over the text [below], if there are such. *)
Definition onLine (above : option jsstring) (s : jsstring)
  (below : option jsstring) : jsstring :=
  match above with Some a => a ++ [LF] | None => [] end
  ++ s
  ++ match below with Some b => LF :: b | None => [] end.

(** The stretches between the matches of a scan. *)
Definition texts (l : list (jsstring + jsstring)) : list jsstring :=
  flat_map (fun e => match e with inl t => [t] | inr _ => [] end) l.

(** The record [r] with another header, another summary, or with the
    entry [e] between the entries [l1] and [l2] as one of its six
    collections. *)
Definition putHeader (r : ResumeData.t) (p : PersonalInfo.t) : ResumeData.t :=
  ResumeData.mk (Some p) (ResumeData.summary r) (ResumeData.experience r)
    (ResumeData.education r) (ResumeData.skills r) (ResumeData.projects r)
    (ResumeData.certifications r) (ResumeData.awards r).

Definition putSummary (r : ResumeData.t) (s : jsstring) : ResumeData.t :=
  ResumeData.mk (ResumeData.personalInfo r) (Some s) (ResumeData.experience r)
    (ResumeData.education r) (ResumeData.skills r) (ResumeData.projects r)
    (ResumeData.certifications r) (ResumeData.awards r).

Definition putExperience (r : ResumeData.t) (l1 : list Experience.t)
  (e : Experience.t) (l2 : list Experience.t) : ResumeData.t :=
  ResumeData.mk (ResumeData.personalInfo r) (ResumeData.summary r)
    (Some (l1 ++ e :: l2))
    (ResumeData.education r) (ResumeData.skills r) (ResumeData.projects r)
    (ResumeData.certifications r) (ResumeData.awards r).

Definition putEducation (r : ResumeData.t) (l1 : list Education.t)
  (e : Education.t) (l2 : list Education.t) : ResumeData.t :=
  ResumeData.mk (ResumeData.personalInfo r) (ResumeData.summary r)
    (ResumeData.experience r) (Some (l1 ++ e :: l2))
    (ResumeData.skills r) (ResumeData.projects r)
    (ResumeData.certifications r) (ResumeData.awards r).

Definition putSkill (r : ResumeData.t) (l1 : list Skill.t)
  (g : Skill.t) (l2 : list Skill.t) : ResumeData.t :=
  ResumeData.mk (ResumeData.personalInfo r) (ResumeData.summary r)
    (ResumeData.experience r) (ResumeData.education r)
    (Some (l1 ++ g :: l2)) (ResumeData.projects r)
    (ResumeData.certifications r) (ResumeData.awards r).

Definition putProject (r : ResumeData.t) (l1 : list Project.t)
  (p : Project.t) (l2 : list Project.t) : ResumeData.t :=
  ResumeData.mk (ResumeData.personalInfo r) (ResumeData.summary r)
    (ResumeData.experience r) (ResumeData.education r)
    (ResumeData.skills r) (Some (l1 ++ p :: l2))
    (ResumeData.certifications r) (ResumeData.awards r).

Definition putCertification (r : ResumeData.t) (l1 : list Certification.t)
  (c : Certification.t) (l2 : list Certification.t) : ResumeData.t :=
  ResumeData.mk (ResumeData.personalInfo r) (ResumeData.summary r)
    (ResumeData.experience r) (ResumeData.education r)
    (ResumeData.skills r) (ResumeData.projects r)
    (Some (l1 ++ c :: l2)) (ResumeData.awards r).

Definition putAward (r : ResumeData.t) (l1 : list Award.t)
  (a : Award.t) (l2 : list Award.t) : ResumeData.t :=
  ResumeData.mk (ResumeData.personalInfo r) (ResumeData.summary r)
    (ResumeData.experience r) (ResumeData.education r)
    (ResumeData.skills r) (ResumeData.projects r)
    (ResumeData.certifications r) (Some (l1 ++ a :: l2)).

End Leaves.
Import Leaves.

(* ================================================================== *)
(** * The fuel of the matcher *)
(* ================================================================== *)

Module RegexFacts.

Lemma step_local (p : N -> bool) : localMatcher (step p).
Proof.
  intros x k1 k2 H. unfold step.
  destruct (ahead x) as [| c s] eqn:E; [reflexivity |].
  destruct (p c); [| reflexivity].
  apply H. cbn [ahead length]. lia.
Qed.

Lemma repLoop_local (body : mstate -> cont -> option mstate) (gs : list nat)
  (greedy : bool) :
  localMatcher body ->
  forall fuel min max, localMatcher (repLoop body gs greedy fuel min max).
Proof.
  intros Hb. induction fuel as [| fuel IH]; intros min max x k1 k2 H.
  - reflexivity.
  - cbn [repLoop].
    assert (Hx : k1 x = k2 x) by (apply H; lia).
    assert (Hagain :
      body (MState (before x) (ahead x) (resetCaps gs (caps x)))
        (fun y => if Nat.eqb min 0 && Nat.eqb (length (ahead y)) (length (ahead x))
                  then None
                  else repLoop body gs greedy fuel (pred min) (decMax max) y k1)
      = body (MState (before x) (ahead x) (resetCaps gs (caps x)))
          (fun y => if Nat.eqb min 0 && Nat.eqb (length (ahead y)) (length (ahead x))
                    then None
                    else repLoop body gs greedy fuel (pred min) (decMax max) y k2)).
    { apply Hb. intros y Hy. cbn [ahead] in Hy.
      destruct (Nat.eqb min 0 && Nat.eqb (length (ahead y)) (length (ahead x)));
        [reflexivity |].
      apply IH. intros z Hz. apply H. lia. }
    destruct max as [[| n] |]; [exact Hx | |]; rewrite Hagain, Hx; reflexivity.
Qed.

Lemma m_local (ic : bool) (r : regex) : localMatcher (m ic r).
Proof.
  induction r as [| c | neg ranges | | r1 IH1 r2 IH2 | r1 IH1 r2 IH2
                  | greedy min max r1 IH1 | i r1 IH1 | | |];
    intros x k1 k2 H; cbn [m].
  - apply H. lia.
  - now apply step_local.
  - now apply step_local.
  - now apply step_local.
  - apply IH1. intros y Hy. apply IH2. intros z Hz. apply H. lia.
  - rewrite (IH1 x k1 k2 H), (IH2 x k1 k2 H). reflexivity.
  - now apply repLoop_local.
  - apply IH1. intros y Hy. apply H. cbn [ahead]. exact Hy.
  - destruct (before x); [apply H; lia | reflexivity].
  - destruct (ahead x) eqn:E; [apply H; rewrite E; cbn; lia | reflexivity].
  - destruct (xorb _ _); [apply H; lia | reflexivity].
Qed.

(** The fuel of a quantifier loop is enough once it exceeds [min] plus
    the number of units ahead: more fuel gives the same result. *)
Lemma repLoop_fuel (body : mstate -> cont -> option mstate) (gs : list nat)
  (greedy : bool) :
  localMatcher body ->
  forall fuel fuel' min max x k,
    min + length (ahead x) < fuel -> min + length (ahead x) < fuel' ->
    repLoop body gs greedy fuel min max x k
    = repLoop body gs greedy fuel' min max x k.
Proof.
  intros Hb. induction fuel as [| fuel IH]; intros fuel' min max x k H1 H2;
    [lia |].
  destruct fuel' as [| fuel']; [lia |].
  cbn [repLoop].
  assert (Hagain :
    body (MState (before x) (ahead x) (resetCaps gs (caps x)))
      (fun y => if Nat.eqb min 0 && Nat.eqb (length (ahead y)) (length (ahead x))
                then None
                else repLoop body gs greedy fuel (pred min) (decMax max) y k)
    = body (MState (before x) (ahead x) (resetCaps gs (caps x)))
        (fun y => if Nat.eqb min 0 && Nat.eqb (length (ahead y)) (length (ahead x))
                  then None
                  else repLoop body gs greedy fuel' (pred min) (decMax max) y k)).
  { apply Hb. intros y Hy. cbn [ahead] in Hy.
    destruct (Nat.eqb min 0 && Nat.eqb (length (ahead y)) (length (ahead x)))
      eqn:E; [reflexivity |].
    apply andb_false_iff in E.
    apply IH.
    - destruct E as [E | E]; apply Nat.eqb_neq in E; lia.
    - destruct E as [E | E]; apply Nat.eqb_neq in E; lia. }
  destruct max as [[| n] |]; [reflexivity | |]; rewrite Hagain; reflexivity.
Qed.

(** The fuel that [m] gives to a quantifier is never used up: any larger
    amount gives the same match. *)
Lemma rep_fuel_enough (ic greedy : bool) (min : nat) (max : option nat)
  (r : regex) (x : mstate) (k : cont) (fuel : nat) :
  min + length (ahead x) < fuel ->
  m ic (Rep greedy min max r) x k
  = repLoop (m ic r) (groupsOf r) greedy fuel min max x k.
Proof.
  intros H. cbn [m]. apply repLoop_fuel; [apply m_local | lia | exact H].
Qed.

End RegexFacts.

(* ================================================================== *)
(** * Properties of the validator *)
(* ================================================================== *)

Module ValidatorFacts.
Import Validator.

(** C3, as stated, fails: the validator does not fill in the fields that
    a present [personalInfo] object lacks.  On [nameOnly] the result has
    no [email]. *)
Lemma C3_missing_fields_not_filled :
  ~ fullyKeyed (validateResumeData nameOnly)
  /\ option_map PersonalInfo.email
       (ResumeData.personalInfo (validateResumeData nameOnly)) = Some None.
Proof.
  split; [| reflexivity].
  intros [p [Hp [_ [He _]]]]. cbn in Hp. injection Hp as <-.
  apply He. reflexivity.
Qed.

(** C3, amended: for every record [x], the result of [validateResumeData]
    has a [personalInfo] (the object with the seven keys set to the empty
    string when [x] had none, the object of [x] as it is otherwise), has
    each of the six collections (that of [x] when it was there, the empty
    sequence otherwise), and keeps the summary. *)
Theorem C3_validate_fills_absent_parts (x : ResumeData.t) :
  let y := validateResumeData x in
  ResumeData.personalInfo y =
    Some (match ResumeData.personalInfo x with
          | Some p => p
          | None => emptyPersonalInfo
          end)
  /\ (ResumeData.personalInfo x = None -> fullyKeyed y)
  /\ ResumeData.experience y = Some (Renderer.itemsOf (ResumeData.experience x))
  /\ ResumeData.education y = Some (Renderer.itemsOf (ResumeData.education x))
  /\ ResumeData.skills y = Some (Renderer.itemsOf (ResumeData.skills x))
  /\ ResumeData.projects y = Some (Renderer.itemsOf (ResumeData.projects x))
  /\ ResumeData.certifications y
     = Some (Renderer.itemsOf (ResumeData.certifications x))
  /\ ResumeData.awards y = Some (Renderer.itemsOf (ResumeData.awards x))
  /\ ResumeData.summary y = ResumeData.summary x.
Proof.
  destruct x as [pinfo su ex ed sk pr ce aw]; cbn.
  repeat split.
  - destruct pinfo; reflexivity.
  - intros ->. exists emptyPersonalInfo. cbn. repeat split; discriminate.
  - destruct ex; reflexivity.
  - destruct ed; reflexivity.
  - destruct sk; reflexivity.
  - destruct pr; reflexivity.
  - destruct ce; reflexivity.
  - destruct aw; reflexivity.
Qed.

Lemma C3_witness :
  fullyKeyed
    (validateResumeData
       (ResumeData.mk None None None None None None None None)).
Proof.
  apply (C3_validate_fills_absent_parts
           (ResumeData.mk None None None None None None None None)).
  reflexivity.
Defined.

Lemma validate_twice (x : ResumeData.t) :
  validateResumeData (validateResumeData x) = validateResumeData x.
Proof.
  destruct x as [pinfo su ex ed sk pr ce aw].
  unfold validateResumeData; cbn.
  destruct pinfo, ex, ed, sk, pr, ce, aw; reflexivity.
Qed.

Lemma setNth_twice {A : Type} (f : A -> A) (n : nat) (l : list A) :
  (forall a, f (f a) = f a) ->
  Store.setNth n f (Store.setNth n f l) = Store.setNth n f l.
Proof.
  intros Hf. revert n. induction l as [| a l IH]; intros n.
  - destruct n; reflexivity.
  - destruct n as [| n]; cbn.
    + now rewrite Hf.
    + now rewrite IH.
Qed.

(** C8: validation is idempotent: the value of a validated record does
    not change when it is validated again, and a second call on the
    reference that the first call returns gives back the same reference
    and leaves every object as the first call left it. *)
Theorem C8_validate_idempotent (x : ResumeData.t) :
  validateResumeData (validateResumeData x) = validateResumeData x
  /\ forall (data : nat) (objects : list ResumeData.t),
      validateResumeDataAt (fst (validateResumeDataAt data objects))
        (snd (validateResumeDataAt data objects))
      = validateResumeDataAt data objects.
Proof.
  split; [apply validate_twice |].
  intros data objects. unfold validateResumeDataAt. cbn [fst snd].
  f_equal. apply setNth_twice. exact validate_twice.
Qed.

End ValidatorFacts.

(* ================================================================== *)
(** * Properties of the extractor *)
(* ================================================================== *)

Module ExtractorFacts.
Import Extractor.

(** C10: whatever the text, the extracted record has empty [projects],
    [certifications] and [awards]. *)
Theorem C10_auxiliary_collections_empty (text : jsstring) :
  ResumeData.projects (extractResumeData text) = Some []
  /\ ResumeData.certifications (extractResumeData text) = Some []
  /\ ResumeData.awards (extractResumeData text) = Some [].
Proof. repeat split. Qed.

Lemma str_eqb_eq (a b : jsstring) : str_eqb a b = true <-> a = b.
Proof.
  unfold str_eqb. destruct (list_eq_dec N.eq_dec a b); split; congruence.
Qed.

Lemma member_In (x : jsstring) (a : list jsstring) :
  member x a = true <-> In x a.
Proof.
  unfold member. rewrite existsb_exists. split.
  - intros [y [Hy He]]. apply str_eqb_eq in He. now subst.
  - intros H. exists x. split; [assumption | now apply str_eqb_eq].
Qed.

Lemma skillGroup_spec (category : string) (items : list jsstring) :
  skillGroup category items =
    match items with
    | [] => []
    | _ :: _ => [Skill.mk (Some (lit category)) (Some items)]
    end.
Proof. destruct items; reflexivity. Qed.

(** C4, as stated, fails: the groups are not disjoint.  The token
    ["Java leadership"] matches the technical and the soft pattern and is
    placed in both groups. *)
Lemma C4_token_in_two_groups :
  In bothKinds (technicalOf [bothKinds]) /\ In bothKinds (softOf [bothKinds])
  /\ extractSkills [lit "Skills"; bothKinds]
     = [Skill.mk (Some (lit "Technical Skills")) (Some [bothKinds]);
        Skill.mk (Some (lit "Soft Skills")) (Some [bothKinds])].
Proof. vm_compute. repeat split; left; reflexivity. Qed.

(** C4, amended: every token is placed in at least one group: in the
    technical group exactly when it matches the technical pattern, in the
    soft group exactly when it matches the soft pattern (a token that
    matches both is in both), and in "Other Skills" exactly when it
    matches neither.  Each non-empty group becomes one SkillGroup, in the
    order technical, soft, other; on the lines of the parser test the one
    group is the technical one and it holds "JavaScript" and "React". *)
Theorem C4_skill_groups (skillItems : list jsstring) :
  (forall t,
      (In t (technicalOf skillItems) <-> In t skillItems /\ isTechnical t = true)
      /\ (In t (softOf skillItems) <-> In t skillItems /\ isSoft t = true)
      /\ (In t (otherOf skillItems)
          <-> In t skillItems /\ isTechnical t = false /\ isSoft t = false)
      /\ (In t skillItems <->
          In t (technicalOf skillItems) \/ In t (softOf skillItems)
          \/ In t (otherOf skillItems)))
  /\ categorize skillItems =
       match technicalOf skillItems with
       | [] => []
       | l => [Skill.mk (Some (lit "Technical Skills")) (Some l)]
       end
       ++ match softOf skillItems with
          | [] => []
          | l => [Skill.mk (Some (lit "Soft Skills")) (Some l)]
          end
       ++ match otherOf skillItems with
          | [] => []
          | l => [Skill.mk (Some (lit "Other Skills")) (Some l)]
          end
  /\ (exists l, extractSkills skillsExample
                = [Skill.mk (Some (lit "Technical Skills")) (Some l)]
                /\ In (lit "JavaScript") l /\ In (lit "React") l).
Proof.
  assert (Htech : forall t, In t (technicalOf skillItems)
                            <-> In t skillItems /\ isTechnical t = true)
    by (intros t; apply filter_In).
  assert (Hsoft : forall t, In t (softOf skillItems)
                            <-> In t skillItems /\ isSoft t = true)
    by (intros t; apply filter_In).
  assert (Hother : forall t, In t (otherOf skillItems)
            <-> In t skillItems /\ isTechnical t = false /\ isSoft t = false).
  { intros t. unfold otherOf. rewrite filter_In, andb_true_iff, !negb_true_iff.
    split.
    - intros [Hin [H1 H2]]. split; [assumption |]. split.
      + destruct (isTechnical t) eqn:E; [| reflexivity].
        assert (member t (technicalOf skillItems) = true)
          by (apply member_In, Htech; auto).
        congruence.
      + destruct (isSoft t) eqn:E; [| reflexivity].
        assert (member t (softOf skillItems) = true)
          by (apply member_In, Hsoft; auto).
        congruence.
    - intros [Hin [H1 H2]]. split; [assumption |]. split.
      + destruct (member t (technicalOf skillItems)) eqn:E; [| reflexivity].
        apply member_In, Htech in E. destruct E; congruence.
      + destruct (member t (softOf skillItems)) eqn:E; [| reflexivity].
        apply member_In, Hsoft in E. destruct E; congruence. }
  split; [| split].
  - intros t.
    split; [apply Htech |]. split; [apply Hsoft |]. split; [apply Hother |].
    split.
    + intros Hin. destruct (isTechnical t) eqn:E1.
      * left. apply Htech; auto.
      * destruct (isSoft t) eqn:E2.
        -- right; left. apply Hsoft; auto.
        -- right; right. apply Hother; auto.
    + intros [H | [H | H]];
        [apply Htech in H | apply Hsoft in H | apply Hother in H]; tauto.
  - unfold categorize. rewrite !skillGroup_spec.
    destruct (technicalOf skillItems), (softOf skillItems),
      (otherOf skillItems); reflexivity.
  - eexists. split; [vm_compute; reflexivity |].
    split; [left; reflexivity | right; right; left; reflexivity].
Qed.

End ExtractorFacts.

(* ================================================================== *)
(** * Facts about strings *)
(* ================================================================== *)

Module StringFacts.

Lemma startsWith_app (p s : jsstring) : startsWith p (p ++ s) = true.
Proof.
  induction p as [| a p IH]; [reflexivity |].
  cbn. now rewrite N.eqb_refl, IH.
Qed.

Lemma startsWith_inv (p s : jsstring) :
  startsWith p s = true -> exists s', s = p ++ s'.
Proof.
  revert s. induction p as [| a p IH]; intros s H.
  - now exists s.
  - destruct s as [| b s]; [discriminate |].
    cbn in H. apply andb_true_iff in H as [Hab Hp].
    apply N.eqb_eq in Hab. subst b.
    destruct (IH _ Hp) as [s' ->]. now exists s'.
Qed.

Lemma includes_occurrences (p s : jsstring) :
  includes p s = true <-> 0 < occurrences p s.
Proof.
  induction s as [| c s IH]; cbn.
  - destruct (startsWith p []); cbn; split; (lia || discriminate || auto).
  - destruct (startsWith p (c :: s)); cbn.
    + split; [lia | reflexivity].
    + exact IH.
Qed.

Lemma includes_false_occurrences (p s : jsstring) :
  includes p s = false <-> occurrences p s = 0.
Proof.
  destruct (includes p s) eqn:E.
  - apply includes_occurrences in E. split; [discriminate | lia].
  - split; [intros _ | reflexivity].
    destruct (occurrences p s) eqn:En; [reflexivity |].
    assert (includes p s = true) by (apply includes_occurrences; lia).
    congruence.
Qed.

Lemma includes_app (p a b : jsstring) : includes p (a ++ p ++ b) = true.
Proof.
  induction a as [| c a IH].
  - cbn [app]. destruct (p ++ b) eqn:E.
    + destruct p; [reflexivity | discriminate].
    + cbn [includes]. now rewrite <- E, startsWith_app.
  - change ((c :: a) ++ p ++ b) with (c :: (a ++ p ++ b)).
    cbn [includes]. rewrite IH. apply orb_true_r.
Qed.

Lemma occurrences_suffix (p a s : jsstring) :
  occurrences p s <= occurrences p (a ++ s).
Proof.
  induction a as [| c a IH]; cbn; [lia |].
  destruct (startsWith p (c :: a ++ s)); lia.
Qed.

Lemma occurrences_at_hit (p b : jsstring) :
  p <> [] -> 1 + occurrences p b <= occurrences p (p ++ b).
Proof.
  intros Hp. destruct p as [| x p]; [congruence |].
  change ((x :: p) ++ b) with (x :: (p ++ b)).
  cbn [occurrences].
  change (x :: p ++ b) with ((x :: p) ++ b).
  rewrite startsWith_app.
  pose proof (occurrences_suffix (x :: p) p b). lia.
Qed.

(** The scan of [split] when the separator does not occur. *)
Lemma split_go_none (sep acc s : jsstring) :
  occurrences sep s = 0 -> split_go sep 0 acc s = [rev acc ++ s].
Proof.
  revert acc. induction s as [| c s IH]; intros acc H.
  - cbn. now rewrite app_nil_r.
  - cbn [occurrences] in H. cbn [split_go].
    destruct (startsWith sep (c :: s)); [discriminate |].
    rewrite IH by exact H. cbn. now rewrite <- app_assoc.
Qed.

Lemma split_go_skip (sep x acc b : jsstring) :
  split_go sep (length x) acc (x ++ b) = split_go sep 0 acc b.
Proof.
  induction x as [| c x IH]; [reflexivity |].
  cbn. exact IH.
Qed.

(** The scan of [split] on a string in which the separator occurs once. *)
Lemma split_go_once (sep a b acc : jsstring) :
  sep <> [] -> occurrences sep (a ++ sep ++ b) = 1 ->
  split_go sep 0 acc (a ++ sep ++ b) = [rev acc ++ a; b].
Proof.
  intros Hsep. revert acc. induction a as [| c a IH]; intros acc H.
  - cbn [app] in *. pose proof (occurrences_at_hit b Hsep) as Hhit.
    assert (Hb : occurrences sep b = 0) by lia.
    destruct sep as [| x sep]; [congruence |].
    change ((x :: sep) ++ b) with (x :: (sep ++ b)).
    cbn [split_go].
    change (x :: sep ++ b) with ((x :: sep) ++ b).
    rewrite startsWith_app.
    cbn [length]. rewrite Nat.sub_succ, Nat.sub_0_r, split_go_skip.
    rewrite split_go_none by exact Hb. now rewrite app_nil_r.
  - change ((c :: a) ++ sep ++ b) with (c :: (a ++ sep ++ b)) in *.
    cbn [occurrences] in H. cbn [split_go].
    pose proof (occurrences_suffix sep a (sep ++ b)) as Hsuf.
    pose proof (occurrences_at_hit b Hsep) as Hhit.
    destruct (startsWith sep (c :: a ++ sep ++ b)); [lia |].
    rewrite IH by exact H. cbn. now rewrite <- app_assoc.
Qed.

Lemma split_once (sep a b : jsstring) :
  sep <> [] -> occurrences sep (a ++ sep ++ b) = 1 ->
  split sep (a ++ sep ++ b) = [a; b].
Proof.
  intros Hsep H. unfold split.
  destruct sep as [| x sep]; [congruence |].
  now rewrite split_go_once.
Qed.

Lemma first_occurrence (p s : jsstring) :
  includes p s = true -> s = beforeFirst p s ++ p ++ afterFirst p s.
Proof.
  induction s as [| c s IH]; intros H.
  - cbn in *. rewrite orb_false_r in H. rewrite H.
    apply startsWith_inv in H as [s' Hs].
    symmetry in Hs. apply app_eq_nil in Hs as [-> ->]. reflexivity.
  - cbn [includes] in H. cbn [beforeFirst afterFirst].
    destruct (startsWith p (c :: s)) eqn:E.
    + apply startsWith_inv in E as [s' Hs]. rewrite Hs.
      rewrite skipn_app, skipn_all, Nat.sub_diag. reflexivity.
    + cbn in H. cbn. f_equal. now apply IH.
Qed.

Lemma beforeFirst_least (p a b : jsstring) :
  length (beforeFirst p (a ++ p ++ b)) <= length a.
Proof.
  induction a as [| c a IH].
  - cbn [app]. destruct (p ++ b) eqn:E; cbn.
    + destruct (startsWith p []); cbn; lia.
    + rewrite <- E, startsWith_app. cbn. lia.
  - change ((c :: a) ++ p ++ b) with (c :: (a ++ p ++ b)).
    cbn [beforeFirst]. destruct (startsWith p (c :: a ++ p ++ b)); cbn; lia.
Qed.

(** The first piece of a split is the text before the first separator. *)
Lemma split_go_head (sep acc s : jsstring) :
  nth_error (split_go sep 0 acc s) 0 = Some (rev acc ++ beforeFirst sep s).
Proof.
  revert acc. induction s as [| c s IH]; intros acc.
  - cbn. destruct (startsWith sep []); now rewrite app_nil_r.
  - cbn [split_go beforeFirst].
    destruct (startsWith sep (c :: s)).
    + cbn. now rewrite app_nil_r.
    + rewrite IH. cbn. now rewrite <- app_assoc.
Qed.

Lemma split_head (sep s : jsstring) :
  sep <> [] -> nth_error (split sep s) 0 = Some (beforeFirst sep s).
Proof.
  intros Hsep. unfold split. destruct sep; [congruence |].
  apply split_go_head.
Qed.

End StringFacts.

(* ================================================================== *)
(** * Template splicing *)
(* ================================================================== *)

Module SpliceFacts.
Import Renderer StringFacts.

Lemma beginDelimiter_nonempty : beginDelimiter <> [].
Proof. discriminate. Qed.

Lemma endDelimiter_nonempty : endDelimiter <> [].
Proof. discriminate. Qed.

Lemma orElse_some (s : jsstring) : orElse (Some s) [] = s.
Proof. destruct s; reflexivity. Qed.

(** Splicing into a template that has no end marker: the outcome is that
    of body generation; when a body is generated, the output is the text
    before the first begin marker (the default preamble when there is no
    begin marker), the begin marker, the body between two newlines and
    the end marker, and nothing after it. *)
Lemma splice_without_end_marker (r : ResumeData.t) (T : jsstring) :
  includes endDelimiter T = false ->
  generateLatexFromResume r T =
    rmap (fun body =>
            document (if includes beginDelimiter T
                      then beforeFirst beginDelimiter T
                      else getDefaultPreamble) body [])
      (buildLatexBody r).
Proof.
  intros Hend. unfold generateLatexFromResume, document, rmap.
  rewrite Hend. cbn [nonEmpty].
  destruct (buildLatexBody r) as [body | e]; [| reflexivity].
  cbn [bind]. f_equal.
  rewrite app_nil_r.
  destruct (includes beginDelimiter T) eqn:Hb; [| reflexivity].
  now rewrite (split_head T beginDelimiter_nonempty).
Qed.

(** Splicing into a template with one begin marker and, after it, one end
    marker. *)
Lemma splice_between_markers (r : ResumeData.t) (pre mid post : jsstring) :
  let T := pre ++ beginDelimiter ++ mid ++ endDelimiter ++ post in
  occurrences beginDelimiter T = 1 ->
  occurrences endDelimiter T = 1 ->
  generateLatexFromResume r T =
    rmap (fun body => document pre body post) (buildLatexBody r).
Proof.
  intros T Hb He. subst T. unfold generateLatexFromResume, document, rmap.
  rewrite includes_app.
  assert (HiE : includes endDelimiter
                  (pre ++ beginDelimiter ++ mid ++ endDelimiter ++ post) = true).
  { rewrite !app_assoc, <- (app_assoc _ endDelimiter post).
    apply includes_app. }
  rewrite HiE.
  rewrite (split_once pre (mid ++ endDelimiter ++ post)
             beginDelimiter_nonempty Hb).
  cbn [nth_error]. rewrite orElse_some.
  assert (He' : occurrences endDelimiter (mid ++ endDelimiter ++ post) = 1).
  { pose proof (occurrences_suffix endDelimiter (pre ++ beginDelimiter)
                  (mid ++ endDelimiter ++ post)) as H1.
    rewrite <- app_assoc in H1.
    pose proof (occurrences_suffix endDelimiter mid (endDelimiter ++ post)).
    pose proof (occurrences_at_hit post endDelimiter_nonempty).
    lia. }
  rewrite (split_once mid post endDelimiter_nonempty He').
  cbn [skipn join].
  destruct (buildLatexBody r) as [body | e]; [| reflexivity].
  cbn [bind]. f_equal.
  destruct post as [| c post]; cbn [nonEmpty].
  - now rewrite !app_nil_r.
  - now rewrite <- !app_assoc.
Qed.

End SpliceFacts.

(* ================================================================== *)
(** * When the renderer returns *)
(* ================================================================== *)

Module TotalityFacts.
Import Renderer.

Lemma uriUnescaped_plain (c : N) : uriUnescaped c = true -> surrogate c = false.
Proof.
  unfold uriUnescaped, surrogate, isLead, isTrail. intros H.
  assert (Hc : (c < 128)%N).
  { apply orb_true_iff in H as [H | H].
    - repeat (apply orb_true_iff in H as [H | H]);
        apply andb_true_iff in H as [_ H]; apply N.leb_le in H; lia.
    - apply existsb_exists in H as [x [Hx Hcx]]. apply N.eqb_eq in Hcx. subst x.
      cbn in Hx. repeat (destruct Hx as [Hx | Hx]; [subst c; lia |]).
      contradiction. }
  apply orb_false_iff. split; apply andb_false_iff; left; apply N.leb_gt; lia.
Qed.

Lemma isWhite_plain (c : N) : isWhite c = true -> surrogate c = false.
Proof.
  unfold isWhite, surrogate, isLead, isTrail. intros H.
  assert (Hc : (c < 55296 \/ 57343 < c)%N).
  { repeat (apply orb_true_iff in H as [H | H]);
      try (apply andb_true_iff in H as [H1 H2]; apply N.leb_le in H1, H2; lia);
      try (apply N.eqb_eq in H; lia). }
  apply orb_false_iff. split; apply andb_false_iff.
  - destruct Hc; [left | right]; apply N.leb_gt; lia.
  - destruct Hc; [left | right]; apply N.leb_gt; lia.
Qed.

Lemma rmap_ok {A B : Type} (f : A -> B) (c : result A) :
  (exists a, c = Ok a) -> exists b, rmap f c = Ok b.
Proof. intros [a ->]. now eexists. Qed.

Lemma encodeURI_wellFormed_len (n : nat) (s : jsstring) :
  length s <= n -> wellFormed s = true -> exists u, encodeURI s = Ok u.
Proof.
  revert s. induction n as [| n IH]; intros s Hlen Hwf.
  - destruct s; [now eexists | cbn in Hlen; lia].
  - destruct s as [| c s]; [now eexists |].
    cbn [encodeURI]. cbn [wellFormed] in Hwf. cbn [length] in Hlen.
    destruct (uriUnescaped c) eqn:Eu.
    + apply uriUnescaped_plain in Eu. apply orb_false_iff in Eu as [El Et].
      rewrite El, Et in Hwf. apply rmap_ok, IH; [lia | exact Hwf].
    + destruct (isTrail c); [discriminate |].
      destruct (isLead c).
      * destruct s as [| d s]; [discriminate |].
        apply andb_true_iff in Hwf as [Hd Hwf]. rewrite Hd.
        apply rmap_ok, IH; [cbn [length] in Hlen; lia | exact Hwf].
      * apply rmap_ok, IH; [lia | exact Hwf].
Qed.

Lemma encodeURI_wellFormed (s : jsstring) :
  wellFormed s = true -> exists u, encodeURI s = Ok u.
Proof. apply (encodeURI_wellFormed_len (n := length s)). lia. Qed.

Lemma wellFormed_trimStart (s : jsstring) :
  wellFormed s = true -> wellFormed (trimStart s) = true.
Proof.
  induction s as [| c s IH]; [reflexivity |].
  intros H. cbn [trimStart]. destruct (isWhite c) eqn:Ew; [| exact H].
  apply isWhite_plain in Ew. apply orb_false_iff in Ew as [El Et].
  cbn [wellFormed] in H. rewrite El, Et in H. now apply IH.
Qed.

(** Dropping plain units from the end keeps a string well-formed. *)
Lemma wellFormed_drop_plain_len (n : nat) (a w : jsstring) :
  length a <= n -> Forall (fun c => surrogate c = false) w ->
  wellFormed (a ++ w) = true -> wellFormed a = true.
Proof.
  revert a. induction n as [| n IH]; intros a Hlen Hw H.
  - destruct a; [reflexivity | cbn in Hlen; lia].
  - destruct a as [| c a]; [reflexivity |].
    cbn [app wellFormed] in *. cbn [length] in Hlen.
    destruct (isTrail c); [discriminate |].
    destruct (isLead c).
    + destruct a as [| d a].
      * cbn [app] in H. destruct w as [| d w]; [discriminate |].
        apply andb_true_iff in H as [Hd _].
        inversion Hw as [| ? ? Hd' _]. apply orb_false_iff in Hd' as [_ Hd'].
        congruence.
      * cbn [app] in H. apply andb_true_iff in H as [Hd H]. rewrite Hd.
        cbn [length] in Hlen. apply (IH a); [lia | exact Hw | exact H].
    + apply (IH a); [lia | exact Hw | exact H].
Qed.

Lemma trimStart_split (s : jsstring) :
  exists w, s = w ++ trimStart s /\ Forall (fun c => isWhite c = true) w.
Proof.
  induction s as [| c s [w [Hs Hw]]].
  - exists []. split; [reflexivity | constructor].
  - cbn [trimStart]. destruct (isWhite c) eqn:E.
    + exists (c :: w). split; [cbn; now f_equal | now constructor].
    + exists []. split; [reflexivity | constructor].
Qed.

Lemma wellFormed_trimEnd (s : jsstring) :
  wellFormed s = true -> wellFormed (trimEnd s) = true.
Proof.
  intros H. unfold trimEnd.
  destruct (trimStart_split (rev s)) as [w [Hs Hw]].
  assert (Hs' : s = rev (trimStart (rev s)) ++ rev w).
  { rewrite <- rev_app_distr, <- Hs. now rewrite rev_involutive. }
  apply wellFormed_drop_plain_len with (n := length (rev (trimStart (rev s))))
                                       (w := rev w); [lia | | now rewrite <- Hs'].
  apply Forall_forall. intros c Hc. apply in_rev in Hc.
  rewrite Forall_forall in Hw. apply isWhite_plain. now apply Hw.
Qed.

Lemma wellFormed_trim (s : jsstring) :
  wellFormed s = true -> wellFormed (trim s) = true.
Proof. intros H. now apply wellFormed_trimEnd, wellFormed_trimStart. Qed.

Lemma normalizeUrl_returns (url : option jsstring) :
  wellFormedOpt url -> exists u, normalizeUrl url = Ok u.
Proof.
  unfold wellFormedOpt, normalizeUrl. intros H.
  destruct (truthy url); cbn [negb]; [| now eexists].
  destruct (nonEmpty (trim (orElse url []))); cbn [negb]; [| now eexists].
  apply wellFormed_trim in H.
  destruct (startsWith (lit "mailto:") (trim (orElse url []))).
  - now apply rmap_ok, encodeURI_wellFormed.
  - destruct (test true httpRe (trim (orElse url []))).
    + now apply rmap_ok, encodeURI_wellFormed.
    + apply rmap_ok, encodeURI_wellFormed. exact H.
Qed.

Lemma linkPart_returns (field : option jsstring) (label : string) :
  wellFormedOpt field -> exists l, linkPart field label = Ok l.
Proof.
  intros H. unfold linkPart. destruct (truthy field); [| now eexists].
  destruct (normalizeUrl_returns H) as [u ->]. now eexists.
Qed.

Lemma buildHeader_returns (p : PersonalInfo.t) :
  wellFormedOpt (PersonalInfo.linkedin p) ->
  wellFormedOpt (PersonalInfo.github p) ->
  wellFormedOpt (PersonalInfo.website p) ->
  exists header, buildHeader (Some p) = Ok header.
Proof.
  intros H1 H2 H3. unfold buildHeader.
  destruct (linkPart_returns "LinkedIn" H1) as [l1 ->].
  destruct (linkPart_returns "GitHub" H2) as [l2 ->].
  destruct (linkPart_returns "Portfolio" H3) as [l3 ->].
  now eexists.
Qed.

Lemma projectEntry_returns (project : Project.t) :
  wellFormedOpt (Project.url project) ->
  exists entry, projectEntry project = Ok entry.
Proof.
  intros H. unfold projectEntry.
  destruct (linkPart_returns "Link" H) as [l ->]. now eexists.
Qed.

Lemma buildProjectsSection_returns (projects : option (list Project.t)) :
  Forall (fun project => wellFormedOpt (Project.url project)) (itemsOf projects) ->
  exists section, buildProjectsSection projects = Ok section.
Proof.
  intros H. unfold buildProjectsSection.
  destruct (hasItems projects); cbn [negb]; [| now eexists].
  assert (Hm : exists parts, mapM projectEntry (itemsOf projects) = Ok parts).
  { induction H as [| project l Hp _ [parts IH]]; [now eexists |].
    cbn [mapM]. destruct (projectEntry_returns _ Hp) as [entry ->].
    cbn [bind]. rewrite IH. now eexists. }
  destruct Hm as [parts ->]. now eexists.
Qed.

(** The renderer returns on every renderable record. *)
Lemma buildLatexBody_returns (r : ResumeData.t) :
  renderable r -> exists body, buildLatexBody r = Ok body.
Proof.
  intros [[p [Hp [H1 [H2 H3]]]] Hprojects]. unfold buildLatexBody.
  rewrite Hp. destruct (buildHeader_returns p H1 H2 H3) as [header ->].
  cbn [bind].
  destruct (buildProjectsSection_returns _ Hprojects) as [section ->].
  now eexists.
Qed.

End TotalityFacts.

(* ================================================================== *)
(** * Claims about template splicing *)
(* ================================================================== *)

Module SpliceClaims.
Import Renderer StringFacts SpliceFacts TotalityFacts.

Lemma sampleRecord_renderable : renderable sampleRecord.
Proof.
  split; [| constructor].
  exists janeDoe. repeat split; reflexivity.
Qed.

(** C1, as stated, fails: a template may hold its one end marker before
    its one begin marker.  On ["\end{document}\begin{document}"] the text
    before the begin marker is the end marker and the text after the end
    marker is the begin marker, but the output ends with the end marker:
    the end marker is only looked for after the begin marker. *)
Lemma C1_end_marker_before_begin_marker :
  let T := endDelimiter ++ beginDelimiter in
  occurrences beginDelimiter T = 1
  /\ occurrences endDelimiter T = 1
  /\ T = endDelimiter ++ beginDelimiter ++ []
  /\ T = [] ++ endDelimiter ++ beginDelimiter
  /\ exists body,
      buildLatexBody sampleRecord = Ok body
      /\ generateLatexFromResume sampleRecord T
         = Ok (document endDelimiter body [])
      /\ generateLatexFromResume sampleRecord T
         <> Ok (document endDelimiter body beginDelimiter).
Proof.
  cbv zeta. repeat split; try reflexivity.
  eexists. split; [vm_compute; reflexivity |].
  split; [vm_compute; reflexivity |].
  vm_compute. discriminate.
Qed.

(** C1, amended: for every record and every template [T] with exactly
    one begin marker and exactly one end marker, the end marker after the
    begin marker, say [T = pre ++ begin ++ mid ++ end ++ post], the call
    has the outcome of body generation, and when a body is generated (as
    it is on every renderable record) the output is [pre], the begin
    marker, a newline, the body, a newline, the end marker and [post]:
    [pre] and [post] are kept as they are, [mid] is dropped. *)
Theorem C1_splice_keeps_preamble_and_postamble
  (r : ResumeData.t) (pre mid post : jsstring) :
  occurrences beginDelimiter
    (pre ++ beginDelimiter ++ mid ++ endDelimiter ++ post) = 1 ->
  occurrences endDelimiter
    (pre ++ beginDelimiter ++ mid ++ endDelimiter ++ post) = 1 ->
  generateLatexFromResume r
    (pre ++ beginDelimiter ++ mid ++ endDelimiter ++ post)
  = rmap (fun body =>
            pre ++ beginDelimiter ++ nl ++ body ++ nl ++ endDelimiter ++ post)
      (buildLatexBody r)
  /\ (renderable r ->
      exists body,
        buildLatexBody r = Ok body
        /\ generateLatexFromResume r
             (pre ++ beginDelimiter ++ mid ++ endDelimiter ++ post)
           = Ok (pre ++ beginDelimiter ++ nl ++ body ++ nl ++ endDelimiter
                 ++ post)).
Proof.
  intros Hb He.
  pose proof (splice_between_markers r pre mid post Hb He) as H.
  unfold document in H. split; [exact H |].
  intros Hr. destruct (buildLatexBody_returns Hr) as [body Hbody].
  exists body. split; [exact Hbody |]. rewrite H, Hbody. reflexivity.
Qed.

Lemma C1_splice_witness :
  exists body,
    generateLatexFromResume sampleRecord
      (lit "%pre" ++ beginDelimiter ++ lit "old body" ++ endDelimiter
       ++ lit "%post")
    = Ok (lit "%pre" ++ beginDelimiter ++ nl ++ body ++ nl ++ endDelimiter
          ++ lit "%post").
Proof.
  destruct (C1_splice_keeps_preamble_and_postamble sampleRecord
              (lit "%pre") (lit "old body") (lit "%post"))
    as [_ H]; [vm_compute; reflexivity | vm_compute; reflexivity |].
  destruct (H sampleRecord_renderable) as [body [_ Hout]].
  exists body. exact Hout.
Defined.

(** C7: the renderer can fail.  [encodeURI] throws a URIError on a
    string with a lone surrogate, nothing catches it, and so the call on
    [brokenLink] throws for every template, those without an end marker
    among them. *)
Theorem C7_malformed_url_throws (T : jsstring) :
  generateLatexFromResume brokenLink T = Throw URIError.
Proof.
  unfold generateLatexFromResume.
  replace (buildLatexBody brokenLink) with (@Throw jsstring URIError)
    by (vm_compute; reflexivity).
  reflexivity.
Qed.

(** What holds of C7: on a template without an end marker every
    renderable record is rendered, with the text before the first begin
    marker (the default preamble when there is none) as preamble and
    nothing after the end marker. *)
Lemma renderable_without_end_marker (r : ResumeData.t) (T : jsstring) :
  renderable r -> includes endDelimiter T = false ->
  exists body,
    buildLatexBody r = Ok body
    /\ generateLatexFromResume r T
       = Ok ((if includes beginDelimiter T then beforeFirst beginDelimiter T
              else getDefaultPreamble)
             ++ beginDelimiter ++ nl ++ body ++ nl ++ endDelimiter).
Proof.
  intros Hr Hend. destruct (buildLatexBody_returns Hr) as [body Hbody].
  exists body. split; [exact Hbody |].
  rewrite (splice_without_end_marker r T Hend), Hbody.
  unfold document. cbn [rmap bind]. now rewrite app_nil_r.
Qed.

End SpliceClaims.

(* ================================================================== *)
(** * Facts about the escaper *)
(* ================================================================== *)

Module EscapeFacts.
Import Renderer.

Lemma one_more (n : nat) : S n - n = 1.
Proof. lia. Qed.

Lemma matchHere_Chr (c : N) (bef s : jsstring) :
  matchHere false (Chr c) bef s = unitMatch (N.eqb c) s.
Proof.
  unfold matchHere, unitMatch. cbn [m]. unfold step. cbn [ahead before caps].
  destruct s as [| x s]; [reflexivity |].
  unfold chrMatch. destruct (c =? x)%N; [| reflexivity].
  cbn [before caps length]. now rewrite one_more.
Qed.

Lemma matchHere_Cls (ranges : list (N * N)) (bef s : jsstring) :
  matchHere false (Cls false ranges) bef s = unitMatch (inRanges ranges) s.
Proof.
  unfold matchHere, unitMatch. cbn [m]. unfold step. cbn [ahead before caps].
  destruct s as [| x s]; [reflexivity |].
  unfold clsMatch. cbn [xorb]. destruct (inRanges ranges x); [| reflexivity].
  cbn [before caps length]. now rewrite one_more.
Qed.

Lemma scan_unit (r : regex) (p : N -> bool) (f : jsstring -> jsstring) :
  (forall bef s, matchHere false r bef s = unitMatch p s) ->
  forall s bef acc,
    flat_map (pieceText f) (scan false r 0 bef acc s)
    = rev acc ++ flat_map (fun x => if p x then f [x] else [x]) s.
Proof.
  intros Hr. induction s as [| x s IH]; intros bef acc.
  - cbn [scan]. rewrite Hr. cbn. now rewrite app_nil_r.
  - cbn [scan]. rewrite Hr. cbn [unitMatch flat_map].
    destruct (p x).
    + cbn [length flat_map pieceText]. rewrite IH. reflexivity.
    + rewrite IH. cbn [rev]. now rewrite <- !app_assoc.
Qed.

Lemma replaceAll_unit (r : regex) (p : N -> bool) (f : jsstring -> jsstring)
  (s : jsstring) :
  (forall bef s, matchHere false r bef s = unitMatch p s) ->
  replaceAll false r f s = flat_map (fun x => if p x then f [x] else [x]) s.
Proof.
  intros Hr. unfold replaceAll.
  change (fun e => match e with inl t => t | inr w => f w end) with (pieceText f).
  now rewrite (@scan_unit r p f Hr).
Qed.

Lemma escapeText_stages (s : jsstring) :
  escapeText s =
    flat_map stage5 (flat_map stage4 (flat_map stage3 (flat_map stage2
      (replaceAll false newlineRe (fun _ => lit " ") s)))).
Proof.
  unfold escapeText, greaterRe, lessRe, reservedRe, backslashRe, Extractor.chr.
  rewrite (@replaceAll_unit _ (N.eqb 62)) by apply matchHere_Chr.
  rewrite (@replaceAll_unit _ (N.eqb 60)) by apply matchHere_Chr.
  rewrite (@replaceAll_unit _ (inRanges (chars "&%$#_{}~^")))
    by apply matchHere_Cls.
  rewrite (@replaceAll_unit _ (N.eqb 92)) by apply matchHere_Chr.
  reflexivity.
Qed.

Lemma reserved_below_128 (c : N) :
  inRanges (chars "&%$#_{}~^") c = true -> (c < 128)%N.
Proof.
  unfold inRanges. intros H. apply existsb_exists in H as [r [Hr Hc]].
  apply andb_true_iff in Hc as [H1 H2]. apply N.leb_le in H1, H2.
  cbn in Hr. repeat (destruct Hr as [Hr | Hr]; [subst r; cbn in *; lia |]).
  contradiction.
Qed.

Lemma stages_escapeUnit (c : N) : stages c = escapeUnit c.
Proof.
  destruct (N.ltb_spec c 128) as [Hlt | Hge].
  - assert (Hall : forallb (fun n => str_eqb (stages (N.of_nat n))
                                       (escapeUnit (N.of_nat n)))
                     (seq 0 128) = true) by (vm_compute; reflexivity).
    rewrite forallb_forall in Hall.
    specialize (Hall (N.to_nat c)). rewrite N2Nat.id in Hall.
    apply ExtractorFacts.str_eqb_eq, Hall, in_seq. lia.
  - unfold stages, escapeUnit, stage2.
    destruct (N.eqb_spec 92 c) as [E | _]; [lia |].
    destruct (N.eqb_spec c 92) as [E | _]; [lia |].
    cbn [flat_map]. unfold stage3 at 1.
    destruct (inRanges (chars "&%$#_{}~^") c) eqn:E;
      [apply reserved_below_128 in E; lia |].
    cbn [flat_map app]. unfold stage4 at 1.
    destruct (N.eqb_spec 60 c) as [E1 | _]; [lia |].
    destruct (N.eqb_spec c 60) as [E1 | _]; [lia |].
    cbn [flat_map app]. unfold stage5 at 1.
    destruct (N.eqb_spec 62 c) as [E1 | _]; [lia |].
    destruct (N.eqb_spec c 62) as [E1 | _]; [lia |].
    reflexivity.
Qed.

Lemma stages_fuse (l : jsstring) :
  flat_map stage5 (flat_map stage4 (flat_map stage3 (flat_map stage2 l)))
  = flat_map stages l.
Proof.
  induction l as [| c l IH]; [reflexivity |].
  cbn [flat_map]. rewrite !flat_map_app, IH. reflexivity.
Qed.

Lemma two_more (n : nat) : S (S n) - n = 2.
Proof. lia. Qed.

Lemma shorter (n : nat) : Nat.eqb n (S n) = false.
Proof. apply Nat.eqb_neq. lia. Qed.

Lemma matchHere_newline (bef s : jsstring) :
  matchHere false newlineRe bef s = newlineMatch s.
Proof.
  unfold matchHere, newlineMatch, newlineRe, opt.
  destruct s as [| c s].
  - reflexivity.
  - cbn [m groupsOf ahead length Nat.add repLoop before caps resetCaps filter
           Nat.eqb negb andb decMax option_map pred].
    unfold step at 1. cbn [ahead before caps]. unfold chrMatch at 1.
    destruct (N.eqb_spec CR c) as [<- | Hcr].
    + rewrite shorter. cbn [repLoop]. unfold step at 1. cbn [ahead before caps].
      destruct s as [| d s].
      * reflexivity.
      * unfold chrMatch at 1. rewrite (N.eqb_sym d LF).
        destruct (N.eqb_spec LF d) as [<- | _].
        -- cbn [before caps length andb]. now rewrite two_more.
        -- reflexivity.
    + unfold step. cbn [ahead before caps].
      unfold chrMatch. rewrite (N.eqb_sym c LF), (N.eqb_sym c CR).
      destruct (N.eqb_spec LF c) as [<- | _].
      * cbn [before caps length]. now rewrite one_more.
      * destruct (N.eqb_spec CR c); [contradiction | reflexivity].
Qed.

Lemma scan_newline (s bef acc : jsstring) :
  flat_map (pieceText (fun _ => lit " ")) (scan false newlineRe 0 bef acc s)
  = rev acc ++ collapseNewlines s.
Proof.
  revert bef acc. induction s as [| c s IH]; intros bef acc.
  - cbn [scan]. rewrite matchHere_newline. cbn. now rewrite app_nil_r.
  - cbn [scan]. rewrite matchHere_newline.
    cbn [newlineMatch collapseNewlines].
    destruct (c =? LF)%N.
    + cbn [length flat_map pieceText]. rewrite IH. reflexivity.
    + destruct ((c =? CR)%N && match s with
                               | d :: _ => (d =? LF)%N
                               | [] => false
                               end) eqn:E.
      * apply andb_true_iff in E as [_ E].
        destruct s as [| d s]; [discriminate |].
        cbn [length flat_map pieceText scan].
        specialize (IH (c :: bef) []).
        cbn [scan] in IH. rewrite matchHere_newline in IH.
        cbn [newlineMatch collapseNewlines] in IH. rewrite E in IH.
        cbn [length flat_map pieceText rev app] in IH.
        cbn [collapseNewlines]. rewrite E.
        injection IH as IH. rewrite IH. reflexivity.
      * rewrite IH. cbn [rev]. now rewrite <- app_assoc.
Qed.

Lemma collapse_spec (s : jsstring) :
  replaceAll false newlineRe (fun _ => lit " ") s = collapseNewlines s.
Proof.
  unfold replaceAll.
  change (fun e : jsstring + jsstring =>
            match e with inl t => t | inr w => lit " " end)
    with (pieceText (fun _ : jsstring => lit " ")).
  now rewrite scan_newline.
Qed.

(** The escaper, unit by unit: the newlines are collapsed and then every
    unit is replaced by its image. *)
Lemma escapeText_units (s : jsstring) :
  escapeText s = flat_map escapeUnit (collapseNewlines s).
Proof.
  rewrite escapeText_stages, stages_fuse, collapse_spec.
  apply flat_map_ext. intros c. apply stages_escapeUnit.
Qed.

End EscapeFacts.

(* ================================================================== *)
(** * Claims about the escaper *)
(* ================================================================== *)

Module RendererClaims.
Import Renderer EscapeFacts.

Lemma buildHeader_name (p : PersonalInfo.t) :
  (exists e, buildHeader (Some p) = Throw e)
  \/ (exists contacts,
        buildHeader (Some p)
        = Ok (headerAround (escapeText (displayName p)) contacts)).
Proof.
  unfold buildHeader.
  destruct (linkPart (PersonalInfo.linkedin p) "LinkedIn") as [l1 | e];
    [| left; now eexists].
  destruct (linkPart (PersonalInfo.github p) "GitHub") as [l2 | e];
    [| left; now eexists].
  destruct (linkPart (PersonalInfo.website p) "Portfolio") as [l3 | e];
    [| left; now eexists].
  right. eexists. cbn [bind]. reflexivity.
Qed.

End RendererClaims.

(* ================================================================== *)
(** * Claims about the bullet fallback *)
(* ================================================================== *)

Module FallbackClaims.
Import Renderer EscapeFacts.

(** A bullet list is never empty: it has the items that are left when
    the blank ones are dropped, or else the fallback. *)
Lemma toBulletLines_items (items : list jsstring) (fallback : jsstring) :
  exists first rest,
    toBulletLines items fallback = join nl (map bulletLine (first :: rest))
    /\ first :: rest
       = match filterTruthy (map trim items) with
         | [] => [fallback]
         | l => l
         end.
Proof.
  unfold toBulletLines.
  destruct (filterTruthy (map trim items)) as [| x l].
  - exists fallback, []. split; reflexivity.
  - exists x, l. split; reflexivity.
Qed.

(** An entry without bullets gets the fallback sentence as its one item. *)
Lemma experienceEntry_fallback (exp : Experience.t) :
  itemsOf (Experience.bullets exp) = [] ->
  experienceEntry exp =
    entryHeading exp
    ++ lit "      \resumeItemListStart" ++ nl
    ++ fallbackItem ++ nl
    ++ lit "      \resumeItemListEnd".
Proof.
  intros H. unfold experienceEntry, entryHeading. rewrite H.
  replace (toBulletLines [] experienceFallback) with fallbackItem
    by (vm_compute; reflexivity).
  now rewrite <- !app_assoc.
Qed.

(** C6: body generation can emit a list without items.  For the record
    [withSkills], which has one experience entry without bullets and one
    group of skills, the output holds the fallback sentence once, as the
    claim says, but its skills section is an [itemize] environment with
    no [\item] in it: the template literal of [buildSkillsSection] has
    one backslash before [item] where the other builders have two, and
    so emits the word [item]. *)
Theorem C6_skills_list_without_item :
  exists out,
    generateLatexFromResume withSkills plainTemplate = Ok out
    /\ occurrences experienceFallback out = 1
    /\ occurrences skillsList out = 1
    /\ occurrences (lit "\item") skillsList = 0.
Proof.
  eexists. split; [vm_compute; reflexivity |].
  vm_compute. repeat split.
Qed.

End FallbackClaims.

(* ================================================================== *)
(** * Claims about experience extraction *)
(* ================================================================== *)

Module ExperienceClaims.
Import Extractor.

Lemma afterHeading_hit (keywords : list jsstring) (l : jsstring)
  (rest : list jsstring) :
  someIncluded keywords (toLowerCase l) = true ->
  afterHeading keywords (l :: rest) = Some rest.
Proof. intros H. cbn [afterHeading]. now rewrite H. Qed.

Lemma experienceLoop_go (line : jsstring) (rest : list jsstring) (st : expState) :
  isSectionHeader line = false ->
  experienceLoop (line :: rest) st = experienceLoop rest (experienceStep line st).
Proof. intros H. cbn [experienceLoop]. now rewrite H. Qed.

Lemma experienceLoop_stop (line : jsstring) (rest : list jsstring) (st : expState) :
  isSectionHeader line = true ->
  str_eqb (toLowerCase line) (lit "experience") = false ->
  experienceLoop (line :: rest) st = st.
Proof. intros H1 H2. cbn [experienceLoop]. now rewrite H1, H2. Qed.

Lemma nonEmpty_length (s : jsstring) : s <> [] -> (0 <? length s) = true.
Proof. destruct s; [congruence | reflexivity]. Qed.

(** A bullet line with some text, under an entry that has a position. *)
Lemma experienceStep_bullet (t : jsstring) (st : expState) :
  truthy (Experience.position (deref (objects st) (currentExp st))) = true ->
  trim t <> [] ->
  experienceStep (BULLET :: t) st =
    ExpState (update (currentExp st) (pushBullet (trim t)) (objects st))
      (currentExp st) true (experience st).
Proof.
  intros Hpos Ht. unfold experienceStep, isBulletLine.
  cbn [startsWith]. rewrite N.eqb_refl. cbn [andb negb orb].
  rewrite Hpos. cbn [skipn]. now rewrite (@nonEmpty_length _ Ht).
Qed.

Lemma anchored_later (r : regex) (bef s : jsstring) :
  bef <> [] -> searchFrom false (Seq Bol r) bef s = None.
Proof.
  revert bef. induction s as [| c s IH]; intros bef Hbef.
  - cbn [searchFrom]. unfold matchHere. cbn [m before].
    destruct bef; [congruence | reflexivity].
  - cbn [searchFrom]. unfold matchHere. cbn [m before].
    destruct bef as [| b bef]; [congruence |].
    apply IH. discriminate.
Qed.

(** A line that starts with the bullet marker is a section header
    exactly when it contains a heading keyword: the all-capitals test
    fails on the marker. *)
Lemma isSectionHeader_bullet (t : jsstring) :
  isSectionHeader (BULLET :: t)
  = someIncluded sectionHeaders (toLowerCase (BULLET :: t)).
Proof.
  unfold isSectionHeader.
  assert (H : test false capsRe (BULLET :: t) = false).
  { unfold test. cbn [searchFrom].
    replace (matchHere false capsRe [] (BULLET :: t)) with
      (@None (jsstring * list (nat * jsstring))).
    - unfold capsRe. cbn [seqs]. rewrite anchored_later by discriminate.
      reflexivity.
    - unfold matchHere, capsRe, plus. cbn [seqs m before ahead].
      cbn [repLoop Nat.add Nat.eqb negb]. unfold step. cbn [ahead].
      replace (clsMatch false false (upperRanges ++ spaceRanges) BULLET)
        with false by (vm_compute; reflexivity).
      reflexivity. }
  rewrite H, andb_false_r, orb_false_r. reflexivity.
Qed.

(** C5, amended: for the lines "Experience", "Senior Developer at Tech
    Corp | Jan 2020 - Present" and two lines that start with the bullet
    marker, carry some text and are not section headers (by
    [isSectionHeader_bullet], they contain none of the heading keywords,
    in whatever letter case), extraction gives one entry, with
    position "Senior Developer", company "Tech Corp" and the two trimmed
    texts as bullets. *)
Theorem C5_one_entry_two_bullets (t1 t2 : jsstring) :
  trim t1 <> [] -> trim t2 <> [] ->
  isSectionHeader (BULLET :: t1) = false ->
  isSectionHeader (BULLET :: t2) = false ->
  extractExperience (seniorDeveloper t1 t2) = [seniorEntry [trim t1; trim t2]]
  /\ length [trim t1; trim t2] = 2.
Proof.
  intros H1 H2 Hh1 Hh2. split; [| reflexivity].
  unfold extractExperience, seniorDeveloper.
  rewrite afterHeading_hit by (vm_compute; reflexivity).
  rewrite experienceLoop_go by (vm_compute; reflexivity).
  replace (experienceStep headingLine (ExpState [emptyEntry] 0 false []))
    with (ExpState [emptyEntry; seniorEntry []] 1 false [])
    by (vm_compute; reflexivity).
  rewrite (@experienceLoop_go _ _ _ Hh1).
  rewrite experienceStep_bullet by (reflexivity || assumption).
  rewrite (@experienceLoop_go _ _ _ Hh2).
  rewrite experienceStep_bullet by (reflexivity || assumption).
  cbn [experienceLoop objects currentExp experience].
  generalize (trim t1) (trim t2). intros b1 b2. reflexivity.
Qed.

Lemma C5_witness :
  extractExperience (seniorDeveloper developed ledTeam)
  = [seniorEntry [trim developed; trim ledTeam]]
  /\ length [trim developed; trim ledTeam] = 2.
Proof.
  apply C5_one_entry_two_bullets; try (vm_compute; reflexivity);
    vm_compute; discriminate.
Defined.

(** C5, as stated, fails: a bullet line that contains a heading keyword
    ends the section.  With the bullet "Led professional services" first,
    the entry is there but it has no bullets. *)
Lemma C5_bullet_with_heading_word :
  trim developed <> [] /\ trim ledServices <> []
  /\ extractExperience (seniorDeveloper ledServices developed) = [seniorEntry []].
Proof.
  split; [vm_compute; discriminate |].
  split; [vm_compute; discriminate |].
  vm_compute. reflexivity.
Qed.

End ExperienceClaims.

(* ================================================================== *)
(** * The renderer leaves its input alone *)
(* ================================================================== *)

Module StoreFacts.
Import Store.
Unset Implicit Arguments.

Lemma setNth_at {A : Type} (f : A -> A) (ls : list A) (l : A) (extra : list A) :
  setNth (length ls) f (ls ++ l :: extra) = ls ++ f l :: extra.
Proof. induction ls as [| a ls IH]; cbn; [reflexivity | now rewrite IH]. Qed.

Lemma nth_at {A : Type} (ls : list A) (l : A) (extra : list A) (d : A) :
  nth (length ls) (ls ++ l :: extra) d = l.
Proof. induction ls as [| a ls IH]; cbn; [reflexivity | exact IH]. Qed.

Lemma bind_ok {A B : Type} {c : M A} (k : A -> M B) {s s' : store} {a : A} :
  c s = (Ok a, s') -> bind c k s = k a s'.
Proof. intros H. unfold bind. now rewrite H. Qed.

Lemma bind_throw {A B : Type} {c : M A} (k : A -> M B) {s s' : store} {e : error} :
  c s = (Throw e, s') -> bind c k s = (Throw e, s').
Proof. intros H. unfold bind. now rewrite H. Qed.

Lemma read_at (r : ResumeData.t) (ls : list (list jsstring)) (l : list jsstring)
  (extra : list (list jsstring)) :
  read (Local (length ls)) (mkStore r (ls ++ l :: extra))
  = (Ok l, mkStore r (ls ++ l :: extra)).
Proof. unfold read. cbn [locals]. now rewrite nth_at. Qed.

Lemma pushWhen_at (b : bool) (x : jsstring) (r : ResumeData.t)
  (ls : list (list jsstring)) (l : list jsstring) (extra : list (list jsstring)) :
  pushWhen b (Local (length ls)) x (mkStore r (ls ++ l :: extra))
  = (Ok tt, mkStore r (ls ++ (l ++ if b then [x] else []) :: extra)).
Proof.
  unfold pushWhen, push, ret. destruct b.
  - cbn [locals input]. now rewrite setNth_at.
  - now rewrite app_nil_r.
Qed.

Lemma push_at (x : jsstring) (r : ResumeData.t)
  (ls : list (list jsstring)) (l : list jsstring) (extra : list (list jsstring)) :
  push (Local (length ls)) x (mkStore r (ls ++ l :: extra))
  = (Ok tt, mkStore r (ls ++ (l ++ [x]) :: extra)).
Proof. exact (pushWhen_at true x r ls l extra). Qed.

Lemma pushLink_at (field : option jsstring) (label : string) (r : ResumeData.t)
  (ls : list (list jsstring)) (l : list jsstring) (extra : list (list jsstring)) :
  pushLink (Local (length ls)) field label (mkStore r (ls ++ l :: extra))
  = match Renderer.linkPart field label with
    | Ok xs => (Ok tt, mkStore r (ls ++ (l ++ xs) :: extra))
    | Throw e => (Throw e, mkStore r (ls ++ l :: extra))
    end.
Proof.
  unfold pushLink, Renderer.linkPart.
  destruct (truthy field).
  - unfold bind, liftR.
    destruct (Renderer.normalizeUrl field) as [u | e]; [| reflexivity].
    cbn [Exn.bind]. apply pushWhen_at.
  - unfold ret. now rewrite app_nil_r.
Qed.

Lemma pureLike_ret {A : Type} (a : A) : pureLike (ret a) (fun _ => Ok a).
Proof. intros r ls. exists []. unfold ret. now rewrite app_nil_r. Qed.

Lemma pureLike_gets {A : Type} (f : ResumeData.t -> A) :
  pureLike (gets f) (fun r => Ok (f r)).
Proof. intros r ls. exists []. unfold gets. cbn. now rewrite app_nil_r. Qed.

Lemma pureLike_bind {A B : Type} (c : M A) (k : A -> M B)
  (v : ResumeData.t -> result A) (w : A -> ResumeData.t -> result B) :
  pureLike c v -> (forall a, pureLike (k a) (w a)) ->
  pureLike (bind c k) (fun r => Exn.bind (v r) (fun a => w a r)).
Proof.
  intros Hc Hk r ls. destruct (Hc r ls) as [extra Hrun].
  destruct (v r) as [a | e].
  - rewrite (bind_ok _ Hrun). destruct (Hk a r (ls ++ extra)) as [extra' ->].
    exists (extra ++ extra'). cbn. now rewrite app_assoc.
  - rewrite (bind_throw _ Hrun). now exists extra.
Qed.

Lemma pureLike_mapM {A B : Type} (f : A -> M B)
  (g : A -> ResumeData.t -> result B) (l : list A) :
  (forall a, pureLike (f a) (g a)) ->
  pureLike (mapM f l) (fun r => Exn.mapM (fun a => g a r) l).
Proof.
  intros Hf. induction l as [| a l IH].
  - apply pureLike_ret.
  - cbn [mapM Exn.mapM].
    apply pureLike_bind; [apply Hf |]. intros b.
    apply pureLike_bind; [exact IH |]. intros bs. apply pureLike_ret.
Qed.

(** A computation that behaves like a pure one, run while an array is
    in focus. *)
Lemma pureLike_focused {A : Type} (c : M A) (v : ResumeData.t -> result A)
  (r : ResumeData.t) (ls : list (list jsstring)) (l : list jsstring)
  (extra : list (list jsstring)) :
  pureLike c v ->
  exists extra', c (mkStore r (ls ++ l :: extra))
                 = (v r, mkStore r (ls ++ l :: extra')).
Proof.
  intros Hc. destruct (Hc r (ls ++ l :: extra)) as [extra' ->].
  exists (extra ++ extra'). now rewrite <- app_assoc.
Qed.

(** [toBulletLines] reads the array it is given and pushes on an array
    of its own. *)
Lemma toBulletLines_run (items : aref) (fallback : jsstring)
  (r : ResumeData.t) (ls : list (list jsstring)) :
  exists extra,
    toBulletLines items fallback (mkStore r ls)
    = (Ok (Renderer.toBulletLines
             (match items with
              | Bullets i => Renderer.itemsOf (Experience.bullets (entryAt r i))
              | Local n => nth n ls []
              end) fallback),
       mkStore r (ls ++ extra)).
Proof.
  unfold toBulletLines, Renderer.toBulletLines.
  set (xs := match items with
             | Bullets i => Renderer.itemsOf (Experience.bullets (entryAt r i))
             | Local n => nth n ls []
             end).
  set (normalized := filterTruthy (map trim xs)).
  eexists.
  erewrite bind_ok by (unfold read; cbn [input locals]; reflexivity).
  fold xs. fold normalized.
  erewrite bind_ok by reflexivity.
  cbn [locals input].
  change (ls ++ [normalized]) with (ls ++ normalized :: []).
  erewrite bind_ok by apply read_at.
  erewrite bind_ok by apply pushWhen_at.
  erewrite bind_ok by apply read_at.
  unfold ret. apply f_equal2; [| reflexivity].
  destruct (length normalized =? 0); [reflexivity | now rewrite app_nil_r].
Qed.

Lemma pureLike_toBulletLines_record (i : nat) (fallback : jsstring) :
  pureLike (toBulletLines (Bullets i) fallback)
    (fun r => Ok (Renderer.toBulletLines
                    (Renderer.itemsOf (Experience.bullets (entryAt r i)))
                    fallback)).
Proof. intros r ls. apply (toBulletLines_run (Bullets i)). Qed.

(** A block that creates an array and hands it to [toBulletLines]. *)
Lemma pureLike_toBulletLines_fresh (items : list jsstring) (fallback : jsstring) :
  pureLike (bind (alloc items) (fun a => toBulletLines a fallback))
    (fun _ => Ok (Renderer.toBulletLines items fallback)).
Proof.
  intros r ls. erewrite bind_ok by reflexivity. cbn [input locals].
  destruct (toBulletLines_run (Local (length ls)) fallback r (ls ++ [items]))
    as [extra ->].
  change (ls ++ [items]) with (ls ++ items :: []).
  rewrite nth_at. exists ([items] ++ extra). now rewrite app_assoc.
Qed.

Lemma map_entries (f : Experience.t -> jsstring) (l : list Experience.t) :
  map (fun i => f (nth i l Extractor.emptyEntry)) (seq 0 (length l)) = map f l.
Proof.
  induction l as [| a l IH]; [reflexivity |].
  cbn [length seq map nth]. f_equal.
  rewrite <- seq_shift, map_map. exact IH.
Qed.

Lemma mapM_total {A B : Type} (f : A -> B) (l : list A) :
  Exn.mapM (fun a => Ok (f a)) l = Ok (map f l).
Proof.
  induction l as [| a l IH]; [reflexivity |].
  cbn [Exn.mapM Exn.bind map]. now rewrite IH.
Qed.

Lemma pureLike_ext {A : Type} (c : M A) (v w : ResumeData.t -> result A) :
  (forall r, v r = w r) -> pureLike c v -> pureLike c w.
Proof.
  intros E H r ls. destruct (H r ls) as [extra Hrun].
  exists extra. now rewrite <- E.
Qed.

Lemma pureLike_experienceEntry (i : nat) :
  pureLike (experienceEntry i)
    (fun r => Ok (Renderer.experienceEntry (entryAt r i))).
Proof.
  intros r ls. unfold experienceEntry.
  erewrite bind_ok by reflexivity. cbn [input].
  unfold Renderer.experienceEntry.
  destruct (Experience.bullets (entryAt r i)) as [l |] eqn:E.
  - erewrite bind_ok by reflexivity.
    destruct (pureLike_toBulletLines_record i Renderer.experienceFallback r ls)
      as [extra Hrun].
    rewrite (bind_ok _ Hrun). exists extra. unfold ret. now rewrite E.
  - destruct (pureLike_toBulletLines_fresh [] Renderer.experienceFallback r ls)
      as [extra Hrun].
    unfold bind in Hrun |- *. cbn [alloc] in Hrun |- *.
    destruct (toBulletLines _ _ _) as [[b | e] s'] in Hrun |- *;
      [| discriminate].
    injection Hrun as -> ->. exists extra. reflexivity.
Qed.

Lemma pureLike_buildExperienceSection :
  pureLike buildExperienceSection
    (fun r => Ok (Renderer.buildExperienceSection (ResumeData.experience r))).
Proof.
  intros r ls. unfold buildExperienceSection, Renderer.buildExperienceSection.
  erewrite bind_ok by reflexivity. cbn [input].
  destruct (Renderer.hasItems (ResumeData.experience r)); cbn [negb].
  - destruct (pureLike_mapM experienceEntry _
                (seq 0 (length (Renderer.itemsOf (ResumeData.experience r))))
                pureLike_experienceEntry r ls) as [extra Hrun].
    rewrite mapM_total in Hrun. unfold entryAt in Hrun.
    rewrite map_entries in Hrun.
    rewrite (bind_ok _ Hrun). now exists extra.
  - apply pureLike_ret.
Qed.

Lemma pureLike_projectEntry (project : Project.t) :
  pureLike (projectEntry project) (fun _ => Renderer.projectEntry project).
Proof.
  intros r ls. unfold projectEntry, Renderer.projectEntry.
  erewrite bind_ok by reflexivity. cbn [input locals].
  change (ls ++ [[]]) with (ls ++ [] :: []).
  erewrite bind_ok by apply pushWhen_at.
  unfold bind at 1. rewrite pushLink_at.
  destruct (Renderer.linkPart (Project.url project) "Link") as [link | e].
  - cbn [Exn.bind]. erewrite bind_ok by apply read_at.
    set (descriptionLines :=
           if truthy (Project.description project)
           then filterTruthy
                  (map trim (splitRe false Renderer.newlinesRe
                               (orElse (Project.description project) [])))
           else []).
    erewrite bind_ok by reflexivity. cbn [input locals].
    match goal with
    | |- context [bind (toBulletLines (Local (length ?l)) ?fb) _
                    (mkStore r (?l ++ [?d]))] =>
        destruct (toBulletLines_run (Local (length l)) fb r (l ++ [d]))
          as [extra Hrun];
        change (l ++ [d]) with (l ++ d :: []) in Hrun;
        rewrite nth_at in Hrun;
        change (l ++ d :: []) with (l ++ [d]) in Hrun
    end.
    rewrite (bind_ok _ Hrun). unfold ret.
    eexists. apply f_equal2.
    + cbn [app]. reflexivity.
    + rewrite <- !app_assoc. reflexivity.
  - cbn [Exn.bind]. eexists. reflexivity.
Qed.

Lemma pureLike_buildProjectsSection :
  pureLike buildProjectsSection
    (fun r => Renderer.buildProjectsSection (ResumeData.projects r)).
Proof.
  intros r ls. unfold buildProjectsSection, Renderer.buildProjectsSection.
  erewrite bind_ok by reflexivity. cbn [input].
  destruct (Renderer.hasItems (ResumeData.projects r)); cbn [negb].
  - destruct (pureLike_mapM projectEntry _
                (Renderer.itemsOf (ResumeData.projects r))
                pureLike_projectEntry r ls) as [extra Hrun].
    destruct (Exn.mapM _ _) as [parts | e].
    + rewrite (bind_ok _ Hrun). now exists extra.
    + rewrite (bind_throw _ Hrun). now exists extra.
  - apply pureLike_ret.
Qed.

Lemma pushMeta_at (prefix : string) (field : option jsstring) (r : ResumeData.t)
  (ls : list (list jsstring)) (l : list jsstring) (extra : list (list jsstring)) :
  pushMeta (Local (length ls)) prefix field (mkStore r (ls ++ l :: extra))
  = (Ok tt, mkStore r (ls ++ (l ++ Renderer.metaPart prefix field) :: extra)).
Proof. unfold pushMeta, Renderer.metaPart. apply pushWhen_at. Qed.

Lemma pureLike_certificationItem (cert : Certification.t) :
  pureLike (certificationItem cert)
    (fun _ => Ok (Renderer.certificationItem cert)).
Proof.
  intros r ls. unfold certificationItem, Renderer.certificationItem.
  erewrite bind_ok by reflexivity. cbn [input locals].
  change (ls ++ [[]]) with (ls ++ [] :: []).
  do 4 (erewrite bind_ok by apply pushMeta_at).
  erewrite bind_ok by apply read_at.
  unfold ret. eexists. apply f_equal2; [| reflexivity].
  cbn [app]. now rewrite <- !app_assoc.
Qed.

Lemma pureLike_buildCertificationsSection :
  pureLike buildCertificationsSection
    (fun r => Ok (Renderer.buildCertificationsSection
                    (ResumeData.certifications r))).
Proof.
  intros r ls.
  unfold buildCertificationsSection, Renderer.buildCertificationsSection.
  erewrite bind_ok by reflexivity. cbn [input].
  destruct (Renderer.hasItems (ResumeData.certifications r)); cbn [negb].
  - destruct (pureLike_mapM certificationItem _
                (Renderer.itemsOf (ResumeData.certifications r))
                pureLike_certificationItem r ls) as [extra Hrun].
    rewrite mapM_total in Hrun.
    rewrite (bind_ok _ Hrun). now exists extra.
  - apply pureLike_ret.
Qed.

Lemma pureLike_awardItem (award : Award.t) :
  pureLike (awardItem award) (fun _ => Ok (Renderer.awardItem award)).
Proof.
  intros r ls. unfold awardItem, Renderer.awardItem.
  erewrite bind_ok by reflexivity. cbn [input locals].
  change (ls ++ [[]]) with (ls ++ [] :: []).
  do 2 (erewrite bind_ok by apply pushMeta_at).
  erewrite bind_ok by apply read_at.
  unfold ret. eexists. apply f_equal2; [| reflexivity].
  cbn [app]. reflexivity.
Qed.

Lemma pureLike_buildAwardsSection :
  pureLike buildAwardsSection
    (fun r => Ok (Renderer.buildAwardsSection (ResumeData.awards r))).
Proof.
  intros r ls. unfold buildAwardsSection, Renderer.buildAwardsSection.
  erewrite bind_ok by reflexivity. cbn [input].
  destruct (Renderer.hasItems (ResumeData.awards r)); cbn [negb].
  - destruct (pureLike_mapM awardItem _
                (Renderer.itemsOf (ResumeData.awards r))
                pureLike_awardItem r ls) as [extra Hrun].
    rewrite mapM_total in Hrun.
    rewrite (bind_ok _ Hrun). now exists extra.
  - apply pureLike_ret.
Qed.

Lemma pureLike_buildHeader :
  pureLike buildHeader
    (fun r => Renderer.buildHeader (ResumeData.personalInfo r)).
Proof.
  intros r ls. unfold buildHeader, Renderer.buildHeader.
  erewrite bind_ok by reflexivity. cbn [input].
  destruct (ResumeData.personalInfo r) as [p |].
  - erewrite bind_ok by reflexivity. cbn [input locals].
    change (ls ++ [[]]) with (ls ++ [] :: []).
    do 3 (erewrite bind_ok by apply pushWhen_at).
    unfold bind at 1. rewrite pushLink_at.
    destruct (Renderer.linkPart (PersonalInfo.linkedin p) "LinkedIn")
      as [l1 | e]; [| eexists; reflexivity].
    unfold bind at 1. rewrite pushLink_at.
    destruct (Renderer.linkPart (PersonalInfo.github p) "GitHub")
      as [l2 | e]; [| eexists; reflexivity].
    unfold bind at 1. rewrite pushLink_at.
    destruct (Renderer.linkPart (PersonalInfo.website p) "Portfolio")
      as [l3 | e]; [| eexists; reflexivity].
    erewrite bind_ok by apply read_at.
    erewrite bind_ok by apply pushWhen_at.
    erewrite bind_ok by apply read_at.
    unfold ret. cbn [Exn.bind]. eexists. apply f_equal2; [| reflexivity].
    cbn [app]. rewrite <- !app_assoc.
    match goal with
    | |- context [length ?l =? 0] => destruct (length l =? 0)
    end; [reflexivity | now rewrite app_nil_r].
  - unfold liftR. exists []. now rewrite app_nil_r.
Qed.

(** [pushSection] on the array in focus. *)
Lemma pushSection_at (build : M jsstring) (v : ResumeData.t -> result jsstring)
  (r : ResumeData.t) (ls : list (list jsstring)) (l : list jsstring)
  (extra : list (list jsstring)) :
  pureLike build v ->
  exists extra',
    pushSection (Local (length ls)) build (mkStore r (ls ++ l :: extra))
    = match v r with
      | Ok section =>
          (Ok tt, mkStore r (ls ++ (l ++ Renderer.pushIf section) :: extra'))
      | Throw e => (Throw e, mkStore r (ls ++ l :: extra'))
      end.
Proof.
  intros Hb. unfold pushSection.
  destruct (pureLike_focused build v r ls l extra Hb) as [extra' Hrun].
  exists extra'. destruct (v r) as [section | e].
  - rewrite (bind_ok _ Hrun). apply pushWhen_at.
  - now rewrite (bind_throw _ Hrun).
Qed.

(** One [pushSection] of [buildLatexBody], for a builder that behaves
    like the pure [v]. *)
Ltac pushSectionStep H Hrun :=
  match goal with
  | |- context [bind (pushSection (Local (length ?ls)) ?b) _
                  (mkStore ?r (?ls ++ ?l :: ?x))] =>
      let x' := fresh "x" in
      destruct (pushSection_at b _ r ls l x H) as [x' Hrun]
  end.

Lemma pureLike_buildLatexBody :
  pureLike buildLatexBody Renderer.buildLatexBody.
Proof.
  intros r ls. unfold buildLatexBody, Renderer.buildLatexBody.
  erewrite bind_ok by reflexivity. cbn [input locals].
  change (ls ++ [[]]) with (ls ++ [] :: []).
  destruct (pureLike_focused buildHeader _ r ls [] [] pureLike_buildHeader)
    as [x0 Hrun].
  destruct (Renderer.buildHeader (ResumeData.personalInfo r)) as [header | e].
  2:{ rewrite (bind_throw _ Hrun). cbn [Exn.bind].
      exists ([] :: x0). reflexivity. }
  rewrite (bind_ok _ Hrun). clear Hrun. cbn [Exn.bind].
  erewrite bind_ok by apply push_at.
  pushSectionStep (pureLike_gets
                     (fun r => Renderer.buildSummary (ResumeData.summary r))) Hrun.
  rewrite (bind_ok _ Hrun). clear Hrun.
  pushSectionStep pureLike_buildExperienceSection Hrun.
  rewrite (bind_ok _ Hrun). clear Hrun.
  pushSectionStep pureLike_buildProjectsSection Hrun.
  destruct (Renderer.buildProjectsSection (ResumeData.projects r))
    as [projectsSection | e].
  2:{ rewrite (bind_throw _ Hrun). cbn [Exn.bind].
      eexists.
      match goal with
      | |- (_, mkStore _ (ls ++ ?l :: ?x)) = _ =>
          change (ls ++ l :: x) with (ls ++ [l] ++ x)
      end. reflexivity. }
  rewrite (bind_ok _ Hrun). clear Hrun. cbn [Exn.bind].
  pushSectionStep (pureLike_gets
                     (fun r => Renderer.buildSkillsSection (ResumeData.skills r)))
    Hrun.
  rewrite (bind_ok _ Hrun). clear Hrun.
  pushSectionStep (pureLike_gets
                     (fun r => Renderer.buildEducationSection
                                 (ResumeData.education r))) Hrun.
  rewrite (bind_ok _ Hrun). clear Hrun.
  pushSectionStep pureLike_buildCertificationsSection Hrun.
  rewrite (bind_ok _ Hrun). clear Hrun.
  pushSectionStep pureLike_buildAwardsSection Hrun.
  rewrite (bind_ok _ Hrun). clear Hrun.
  erewrite bind_ok by apply read_at.
  unfold ret. eexists. apply f_equal2.
  - cbn [app]. rewrite <- !app_assoc. reflexivity.
  - match goal with
    | |- mkStore _ (ls ++ ?l :: ?x) = _ =>
        change (ls ++ l :: x) with (ls ++ [l] ++ x)
    end. reflexivity.
Qed.

Lemma pureLike_generateLatexFromResume (templateLatex : jsstring) :
  pureLike (generateLatexFromResume templateLatex)
    (fun r => Renderer.generateLatexFromResume r templateLatex).
Proof.
  intros r ls.
  unfold generateLatexFromResume, Renderer.generateLatexFromResume.
  destruct (pureLike_buildLatexBody r ls) as [extra Hrun].
  exists extra.
  destruct (Renderer.buildLatexBody r) as [latexBody | e].
  - rewrite (bind_ok _ Hrun). reflexivity.
  - rewrite (bind_throw _ Hrun). reflexivity.
Qed.

(** C9: a call of the renderer leaves the record as it was, and returns
    what the renderer over values returns. *)
Theorem C9_renderer_leaves_record (r : ResumeData.t) (T : jsstring) :
  input (snd (generateLatexFromResume T (initial r))) = r
  /\ fst (generateLatexFromResume T (initial r))
     = Renderer.generateLatexFromResume r T.
Proof.
  destruct (pureLike_generateLatexFromResume T r []) as [extra Hrun].
  unfold initial. rewrite Hrun. split; reflexivity.
Qed.

(** The store can tell a mutation: a push on the bullets of an entry
    changes the record. *)
Lemma push_on_record_changes_record :
  let r := ResumeData.mk None None
             (Some [Experience.mk None None None None None (Some [])])
             None None None None None in
  input (snd (push (Bullets 0) (lit "x") (initial r))) <> r.
Proof. cbv zeta. vm_compute. discriminate. Qed.

End StoreFacts.

(* ================================================================== *)
(** * The output of the escaper *)
(* ================================================================== *)

Module EscapeShapeFacts.
Import Renderer.
Unset Implicit Arguments.

Lemma reserved_cases (c : N) :
  inRanges (chars "&%$#_{}~^") c = true ->
  In c [38; 37; 36; 35; 95; 123; 125; 126; 94]%N.
Proof.
  unfold inRanges.
  cbn [chars lit list_ascii_of_string map existsb one fst snd N_of_ascii].
  intros H. repeat (apply orb_true_iff in H; destruct H as [H | H]);
    try discriminate H;
    apply andb_true_iff in H; destruct H as [H1 H2];
    apply N.leb_le in H1, H2; cbn in H1, H2; cbn; lia.
Qed.

Lemma special_reserved (c : N) :
  inRanges (chars "&%$#_{}~^") c = false -> inRanges special c = false.
Proof.
  intros Hr. destruct (inRanges special c) eqn:E; [| reflexivity].
  exfalso. revert Hr E. unfold inRanges, special.
  cbn [chars lit list_ascii_of_string map existsb one fst snd N_of_ascii].
  intros Hr E.
  repeat (apply orb_false_iff in Hr; destruct Hr as [? Hr]).
  repeat (apply orb_true_iff in E; destruct E as [E | E]); congruence.
Qed.

(** The image of a unit other than a line feed holds no line feed and no
    angle bracket, guards its special characters and does not end with a
    backslash. *)
Lemma escapeUnit_shape (c : N) :
  c <> LF ->
  noneOf [10; 60; 62]%N (escapeUnit c) = true
  /\ forall b rest, guarded b (escapeUnit c ++ rest) = guarded false rest.
Proof.
  intros Hc. unfold escapeUnit.
  destruct (N.eqb_spec c 92) as [-> | H92];
    [split; [reflexivity | intros [] rest; reflexivity] |].
  destruct (inRanges (chars "&%$#_{}~^") c) eqn:Hr.
  - apply reserved_cases in Hr. cbn in Hr.
    repeat (destruct Hr as [<- | Hr];
            [split; [reflexivity | intros [] rest; reflexivity] |]).
    destruct Hr.
  - destruct (N.eqb_spec c 60) as [-> | H60];
      [split; [reflexivity | intros [] rest; reflexivity] |].
    destruct (N.eqb_spec c 62) as [-> | H62];
      [split; [reflexivity | intros [] rest; reflexivity] |].
    split.
    + unfold noneOf. cbn [forallb existsb].
      destruct (N.eqb_spec c 10); [contradiction |].
      destruct (N.eqb_spec c 60); [contradiction |].
      destruct (N.eqb_spec c 62); [contradiction |]. reflexivity.
    + intros b rest. cbn [app guarded].
      rewrite (special_reserved c Hr).
      destruct (N.eqb_spec c 92); [contradiction |]. reflexivity.
Qed.

Lemma collapse_no_LF (s : jsstring) :
  Forall (fun c => c <> LF) (collapseNewlines s).
Proof.
  induction s as [| c s IH]; cbn [collapseNewlines]; [constructor |].
  destruct (N.eqb_spec c LF) as [-> | H];
    [constructor; [discriminate | exact IH] |].
  destruct ((c =? CR)%N && _); [exact IH | constructor; assumption].
Qed.

Lemma noneOf_app (l : list N) (a b : jsstring) :
  noneOf l (a ++ b) = noneOf l a && noneOf l b.
Proof. apply forallb_app. Qed.

Lemma escape_units_shape (l : jsstring) :
  Forall (fun c => c <> LF) l ->
  noneOf [10; 60; 62]%N (flat_map escapeUnit l) = true
  /\ forall b, guarded b (flat_map escapeUnit l) = true.
Proof.
  induction 1 as [| c l Hc _ IH]; [split; [reflexivity | intros b; reflexivity] |].
  destruct (escapeUnit_shape c Hc) as [H1 H2]. destruct IH as [IH1 IH2].
  cbn [flat_map]. split.
  - rewrite noneOf_app, H1, IH1. reflexivity.
  - intros b. rewrite H2. apply IH2.
Qed.

Lemma escapeText_shape (t : jsstring) :
  noneOf [10; 60; 62]%N (escapeText t) = true
  /\ guarded false (escapeText t) = true.
Proof.
  rewrite EscapeFacts.escapeText_units.
  destruct (escape_units_shape _ (collapse_no_LF t)) as [H1 H2].
  split; [exact H1 | apply H2].
Qed.

(** X1: whatever the text, the output of [escapeLatex] holds no line
    feed, no [<] and no [>], and each of its [& % $ # _ ~ ^] directly
    follows a backslash. *)
Theorem X1_escapeLatex_output_is_guarded (text : option jsstring) :
  noneOf [10; 60; 62]%N (escapeLatex text) = true
  /\ guarded false (escapeLatex text) = true.
Proof.
  destruct text as [t |]; [apply escapeText_shape | split; reflexivity].
Qed.

Lemma collapse_plain (s : jsstring) :
  forallb plainUnit s = true -> collapseNewlines s = s.
Proof.
  induction s as [| c s IH]; [reflexivity |].
  cbn [forallb collapseNewlines]. intros H.
  apply andb_true_iff in H. destruct H as [Hc Hs].
  assert (c <> LF) by (intros ->; discriminate Hc).
  destruct (N.eqb_spec c LF); [contradiction |].
  destruct (N.eqb_spec c CR) as [-> | Hcr]; cbn [andb].
  - destruct s as [| d s']; [reflexivity |].
    destruct (N.eqb_spec d LF) as [-> | Hd].
    + cbn in Hs. discriminate Hs.
    + now rewrite IH.
  - now rewrite IH.
Qed.

Lemma escapeUnit_plain (c : N) : plainUnit c = true -> escapeUnit c = [c].
Proof.
  unfold plainUnit, escapeUnit. cbn [existsb]. intros H.
  apply andb_true_iff in H. destruct H as [H1 H2].
  apply negb_true_iff in H1, H2. rewrite H2.
  repeat (apply orb_false_iff in H1; destruct H1 as [? H1]).
  now rewrite H0, H3, H4.
Qed.

(** X2: a text without line feed, backslash, angle bracket and reserved
    character comes out of [escapeLatex] as it went in. *)
Theorem X2_escapeLatex_keeps_plain_text (t : jsstring) :
  forallb plainUnit t = true -> escapeLatex (Some t) = t.
Proof.
  intros H. cbn [escapeLatex].
  rewrite EscapeFacts.escapeText_units, (collapse_plain _ H).
  induction t as [| c t IH]; [reflexivity |].
  cbn [forallb] in H. apply andb_true_iff in H. destruct H as [Hc Ht].
  cbn [flat_map]. rewrite (escapeUnit_plain _ Hc), (IH Ht). reflexivity.
Qed.

Lemma X2_witness :
  escapeLatex (Some (lit "Led a team of 5 developers"))
  = lit "Led a team of 5 developers".
Proof.
  apply (X2_escapeLatex_keeps_plain_text (lit "Led a team of 5 developers")).
  reflexivity.
Defined.

Lemma split_go_last (c : N) (p acc : jsstring) :
  noneOf [c] p = true -> split_go [c] 0 acc p = [rev acc ++ p].
Proof.
  revert acc. induction p as [| d p IH]; intros acc H.
  - cbn. now rewrite app_nil_r.
  - cbn [noneOf forallb existsb] in H.
    apply andb_true_iff in H. destruct H as [Hd Hp].
    cbn [split_go startsWith]. rewrite N.eqb_sym.
    destruct (N.eqb d c); [discriminate Hd |]. cbn [andb].
    rewrite (IH (d :: acc) Hp). cbn [rev]. now rewrite <- app_assoc.
Qed.

Lemma split_go_piece (c : N) (p acc rest : jsstring) :
  noneOf [c] p = true ->
  split_go [c] 0 acc (p ++ c :: rest)
  = (rev acc ++ p) :: split_go [c] 0 [] rest.
Proof.
  revert acc. induction p as [| d p IH]; intros acc H.
  - cbn [app split_go startsWith length Nat.sub]. rewrite N.eqb_refl.
    cbn [andb]. now rewrite app_nil_r.
  - cbn [noneOf forallb existsb] in H.
    apply andb_true_iff in H. destruct H as [Hd Hp].
    cbn [app split_go startsWith]. rewrite N.eqb_sym.
    destruct (N.eqb d c); [discriminate Hd |]. cbn [andb].
    rewrite (IH (d :: acc) Hp). cbn [rev]. now rewrite <- app_assoc.
Qed.

(** [split] undoes [join] for a separator of one unit that no part
    contains, on an array that is not empty. *)
Lemma split_join (c : N) (p : jsstring) (parts : list jsstring) :
  forallb (noneOf [c]) (p :: parts) = true ->
  split [c] (join [c] (p :: parts)) = p :: parts.
Proof.
  unfold split. revert p. induction parts as [| q parts IH]; intros p H.
  - cbn [join]. cbn [forallb] in H. apply andb_true_iff in H.
    now rewrite split_go_last.
  - cbn [forallb] in H. apply andb_true_iff in H. destruct H as [Hp H].
    change (join [c] (p :: q :: parts)) with (p ++ [c] ++ join [c] (q :: parts)).
    cbn [app]. rewrite (split_go_piece _ _ _ _ Hp). cbn [rev app].
    f_equal. apply IH. exact H.
Qed.

Lemma noneOf_weaken (c : N) (s : jsstring) :
  noneOf [10; 60; 62]%N s = true -> noneOf [LF] s = true.
Proof.
  unfold noneOf. rewrite !forallb_forall. intros H x Hx.
  specialize (H x Hx). cbn [existsb] in *.
  destruct (N.eqb x 10) eqn:E; [discriminate H |].
  unfold LF. rewrite E. reflexivity.
Qed.

Lemma bulletLine_one_line (item : jsstring) : noneOf [LF] (bulletLine item) = true.
Proof.
  unfold bulletLine. cbn [escapeLatex]. rewrite !noneOf_app.
  rewrite (noneOf_weaken LF _ (proj1 (escapeText_shape item))). reflexivity.
Qed.

(** X3: the text of [toBulletLines], cut at its line feeds, has one line
    per item that is left when the items are trimmed and the empty ones
    dropped, in their order, whatever line feeds the items hold (alone or
    after a carriage return), and the one line of the fallback when none
    is left.  Lines are counted at line feeds only: a carriage return
    without a line feed, [U+2028] and [U+2029] are not taken for line
    breaks here. *)
Theorem X3_toBulletLines_one_line_per_item
  (items : list jsstring) (fallback : jsstring) :
  split nl (toBulletLines items fallback)
  = map bulletLine (renderedItems items fallback)
  /\ renderedItems items fallback <> [].
Proof.
  destruct (FallbackClaims.toBulletLines_items items fallback)
    as (first & rest & E & Hl).
  unfold renderedItems. rewrite <- Hl, E. split; [| discriminate].
  cbn [map]. apply split_join.
  apply forallb_forall. intros x Hx.
  change (bulletLine first :: map bulletLine rest)
    with (map bulletLine (first :: rest)) in Hx.
  apply in_map_iff in Hx. destruct Hx as (i & <- & _).
  apply bulletLine_one_line.
Qed.

End EscapeShapeFacts.

(* ================================================================== *)
(** * Date ranges *)
(* ================================================================== *)

Module DateFacts.
Import Renderer.
Unset Implicit Arguments.

Lemma trimStart_fixed (s : jsstring) : headOK s -> trimStart s = s.
Proof. destruct s as [| c s]; [reflexivity |]. cbn. now intros ->. Qed.

Lemma trimStart_headOK (s : jsstring) : headOK (trimStart s).
Proof.
  induction s as [| c s IH]; [exact I |]. cbn [trimStart].
  destruct (isWhite c) eqn:E; [exact IH | exact E].
Qed.

Lemma trimEnd_fixed (s : jsstring) : headOK (rev s) -> trimEnd s = s.
Proof.
  intros H. unfold trimEnd. rewrite (trimStart_fixed _ H).
  apply rev_involutive.
Qed.

Lemma trimEnd_lastOK (s : jsstring) : headOK (rev (trimEnd s)).
Proof. unfold trimEnd. rewrite rev_involutive. apply trimStart_headOK. Qed.

Lemma trimEnd_prefix (s : jsstring) : exists w, s = trimEnd s ++ w.
Proof.
  destruct (TotalityFacts.trimStart_split (rev s)) as (w & E & _).
  exists (rev w). unfold trimEnd. rewrite <- rev_app_distr, <- E.
  symmetry. apply rev_involutive.
Qed.

Lemma headOK_prefix (a w : jsstring) : headOK (a ++ w) -> headOK a.
Proof. destruct a; [intros _; exact I | exact (fun H => H)]. Qed.

(** [trim] leaves no white space at either end. *)
Lemma trim_ends (s : jsstring) : headOK (trim s) /\ headOK (rev (trim s)).
Proof.
  unfold trim. split; [| apply trimEnd_lastOK].
  destruct (trimEnd_prefix (trimStart s)) as (w & E).
  apply (headOK_prefix _ w). rewrite <- E. apply trimStart_headOK.
Qed.

Lemma trim_fixed (s : jsstring) : headOK s -> headOK (rev s) -> trim s = s.
Proof.
  intros H1 H2. unfold trim. rewrite (trimStart_fixed _ H1).
  now apply trimEnd_fixed.
Qed.

Lemma trim_idempotent (s : jsstring) : trim (trim s) = trim s.
Proof. destruct (trim_ends s). now apply trim_fixed. Qed.

Lemma headOK_app (a b : jsstring) : a <> [] -> headOK a -> headOK (a ++ b).
Proof. destruct a; [congruence | intros _ H; exact H]. Qed.

Lemma nonEmpty_neq (s : jsstring) : nonEmpty s = true -> s <> [].
Proof. destruct s; [discriminate | discriminate]. Qed.

Lemma around_trimmed (a mid b : jsstring) :
  a <> [] -> b <> [] -> headOK a -> headOK (rev b) -> trimmed (a ++ mid ++ b).
Proof.
  intros Ha Hb H1 H2. apply trim_fixed.
  - now apply headOK_app.
  - rewrite !rev_app_distr, <- app_assoc. apply headOK_app; [| exact H2].
    intros E. apply Hb. rewrite <- (rev_involutive b), E. reflexivity.
Qed.

Ltac startedRange Es :=
  split;
  [ intros E; apply app_eq_nil in E; destruct E as [E _];
    now apply (nonEmpty_neq _ Es)
  | apply around_trimmed; try (now apply nonEmpty_neq); try apply trim_ends;
    try discriminate; try (vm_compute; reflexivity) ].

(** X4: whatever the two dates, [formatDateRange] returns a string that
    is not empty and has no white space at either end. *)
Theorem X4_formatDateRange_never_blank (start end_ : option jsstring) :
  formatDateRange start end_ <> [] /\ trimmed (formatDateRange start end_).
Proof.
  unfold formatDateRange, trimOpt.
  destruct start as [s |], end_ as [e |];
    cbn [option_map truthy orElse andb negb].
  - destruct (nonEmpty (trim s)) eqn:Es, (nonEmpty (trim e)) eqn:Ee;
      cbn [andb negb].
    + startedRange Es.
    + startedRange Es.
    + split; [now apply nonEmpty_neq | apply trim_idempotent].
    + split; [discriminate | reflexivity].
  - destruct (nonEmpty (trim s)) eqn:Es; cbn [andb negb].
    + startedRange Es.
    + split; [discriminate | reflexivity].
  - destruct (nonEmpty (trim e)) eqn:Ee; cbn [andb negb].
    + split; [now apply nonEmpty_neq | apply trim_idempotent].
    + split; [discriminate | reflexivity].
  - split; [discriminate | reflexivity].
Qed.

Lemma present_trim (o : option jsstring) :
  trimOpt (present (trimOpt o)) = present (trimOpt o).
Proof.
  destruct o as [s |]; [| reflexivity].
  unfold present, trimOpt. cbn [option_map truthy].
  destruct (nonEmpty (trim s)); [| reflexivity]. cbn [option_map].
  now rewrite trim_idempotent.
Qed.

Lemma truthy_present (o : option jsstring) : truthy (present o) = truthy o.
Proof. unfold present. destruct (truthy o) eqn:E; [exact E | reflexivity]. Qed.

Lemma orElse_present (o : option jsstring) (d : jsstring) :
  orElse (present o) d = orElse o d.
Proof.
  unfold present. destruct o as [s |]; [| reflexivity]. cbn [truthy].
  destruct (nonEmpty s) eqn:E; [reflexivity |]. cbn [orElse]. now rewrite E.
Qed.

(** X5: [formatDateRange] sees its dates through [trim] only, and a date
    that is absent, empty or all white space counts as no date: the
    result is the one for the trimmed dates, with the empty ones left
    out. *)
Theorem X5_formatDateRange_blank_is_absent (start end_ : option jsstring) :
  formatDateRange start end_
  = formatDateRange (present (trimOpt start)) (present (trimOpt end_)).
Proof.
  unfold formatDateRange.
  rewrite !present_trim, !truthy_present, !orElse_present.
  reflexivity.
Qed.

End DateFacts.

(* ================================================================== *)
(** * Link targets *)
(* ================================================================== *)

Module UrlFacts.
Import Renderer.
Unset Implicit Arguments.

Lemma rmap_inv {A B : Type} (f : A -> B) (c : result A) (b : B) :
  rmap f c = Ok b -> exists a, c = Ok a /\ b = f a.
Proof.
  destruct c as [a | e]; [| discriminate]. cbn. intros [= <-]. now exists a.
Qed.

(** [encodeURI] keeps a prefix of unescaped units. *)
Lemma encodeURI_prefix (p s : jsstring) :
  forallb uriUnescaped p = true ->
  encodeURI (p ++ s) = rmap (app p) (encodeURI s).
Proof.
  induction p as [| c p IH]; intros H.
  - cbn [app]. destruct (encodeURI s); reflexivity.
  - cbn [forallb] in H. apply andb_true_iff in H. destruct H as [Hc Hp].
    cbn [app encodeURI]. rewrite Hc, (IH Hp).
    destruct (encodeURI s); reflexivity.
Qed.

Lemma hexDigit_unescaped (d : N) :
  (d < 16)%N -> uriUnescaped (hexDigit d) = true.
Proof.
  intros H. unfold hexDigit.
  assert (E : In d [0;1;2;3;4;5;6;7;8;9;10;11;12;13;14;15]%N) by (cbn; lia).
  cbn in E. repeat (destruct E as [<- | E]; [reflexivity |]). destruct E.
Qed.

Lemma percent_units (o : N) : (o < 256)%N -> forallb uriUnit (percent o) = true.
Proof.
  intros H. unfold percent. cbn [forallb]. unfold uriUnit at 2 3.
  rewrite !hexDigit_unescaped.
  - reflexivity.
  - apply N.mod_lt. discriminate.
  - apply N.Div0.div_lt_upper_bound. exact H.
Qed.

(** The UTF-8 form of a code point is made of octets. *)
Lemma utf8_octets (cp : N) :
  (cp < 1114112)%N -> Forall (fun o => (o < 256)%N) (utf8 cp).
Proof.
  intros H. unfold utf8.
  assert (M : forall a, (a mod 64 < 64)%N)
    by (intros a; apply N.mod_lt; discriminate).
  destruct (N.ltb_spec cp 128); [repeat constructor; lia |].
  destruct (N.ltb_spec cp 2048).
  { assert (cp / 64 < 32)%N by (apply N.Div0.div_lt_upper_bound; lia).
    pose proof (M cp). repeat constructor; lia. }
  destruct (N.ltb_spec cp 65536).
  { assert (cp / 4096 < 16)%N by (apply N.Div0.div_lt_upper_bound; lia).
    pose proof (M cp). pose proof (M (cp / 64)%N). repeat constructor; lia. }
  assert (cp / 262144 < 5)%N by (apply N.Div0.div_lt_upper_bound; lia).
  pose proof (M cp). pose proof (M (cp / 64)%N). pose proof (M (cp / 4096)%N).
  repeat constructor; lia.
Qed.

Lemma escaped_units (cp : N) :
  (cp < 1114112)%N -> forallb uriUnit (flat_map percent (utf8 cp)) = true.
Proof.
  intros H. pose proof (utf8_octets cp H) as F.
  induction F as [| o l Ho _ IH]; [reflexivity |].
  cbn [flat_map]. rewrite forallb_app, (percent_units o Ho), IH. reflexivity.
Qed.

Lemma encodeURI_units_len (n : nat) (s u : jsstring) :
  length s <= n -> sixteenBit s -> encodeURI s = Ok u ->
  forallb uriUnit u = true.
Proof.
  revert s u. induction n as [| n IH]; intros s u Hn Hs E.
  - destruct s; [| cbn in Hn; lia]. cbn in E. injection E as <-. reflexivity.
  - destruct s as [| c s]; [cbn in E; injection E as <-; reflexivity |].
    cbn [length] in Hn. inversion Hs as [| ? ? Hc Hs']; subst.
    cbn [encodeURI] in E.
    destruct (uriUnescaped c) eqn:Uc.
    { apply rmap_inv in E. destruct E as (u' & E & ->).
      cbn [forallb]. unfold uriUnit at 1. rewrite Uc. cbn [orb andb].
      apply (IH s); [lia | exact Hs' | exact E]. }
    destruct (isTrail c) eqn:Tc; [discriminate E |].
    destruct (isLead c) eqn:Lc.
    + destruct s as [| d s]; [discriminate E |].
      destruct (isTrail d) eqn:Td; [| discriminate E].
      apply rmap_inv in E. destruct E as (u' & E & ->).
      inversion Hs' as [| ? ? Hd Hs'']; subst.
      rewrite forallb_app. rewrite escaped_units.
      * cbn [andb]. apply (IH s); [cbn in Hn; lia | exact Hs'' | exact E].
      * unfold isLead in Lc. unfold isTrail in Td.
        apply andb_true_iff in Lc, Td. destruct Lc as [L1 L2], Td as [T1 T2].
        apply N.leb_le in L1, L2, T1, T2. lia.
    + apply rmap_inv in E. destruct E as (u' & E & ->).
      rewrite forallb_app, escaped_units; [| lia].
      cbn [andb]. apply (IH s); [lia | exact Hs' | exact E].
Qed.

Lemma sixteenBit_trimStart (s : jsstring) :
  sixteenBit s -> sixteenBit (trimStart s).
Proof.
  induction 1 as [| c s Hc Hs IH]; [constructor |].
  cbn [trimStart]. destruct (isWhite c); [exact IH | now constructor].
Qed.

Lemma sixteenBit_trim (s : jsstring) : sixteenBit s -> sixteenBit (trim s).
Proof.
  intros H. unfold trim, trimEnd, sixteenBit.
  apply Forall_rev. apply sixteenBit_trimStart. apply Forall_rev.
  now apply sixteenBit_trimStart.
Qed.

(** X6: a link target that [normalizeUrl] returns for a string of 16-bit
    units is made of the units that [encodeURI] leaves alone and of
    percent signs: letters, digits and [; / ? : @ & = + $ , - _ . ! ~ * '
    ( ) # %].  No blank, brace or backslash is in a target that
    [normalizeUrl] returns (the [mailto:] target of the header does not
    come from [normalizeUrl]). *)
Theorem X6_normalizeUrl_output_alphabet (url u : jsstring) :
  sixteenBit url -> normalizeUrl (Some url) = Ok (Some u) ->
  forallb uriUnit u = true.
Proof.
  intros Hs. unfold normalizeUrl. cbn [truthy orElse].
  destruct (nonEmpty url) eqn:En; cbn [negb]; [| discriminate].
  destruct (nonEmpty (trim url)); cbn [negb]; [| discriminate].
  assert (Ht : sixteenBit (trim url)) by now apply sixteenBit_trim.
  assert (Hh : sixteenBit (lit "https://" ++ trim url)).
  { apply Forall_app. split; [| exact Ht]. repeat constructor. }
  destruct (startsWith (lit "mailto:") (trim url));
    [| destruct (test true httpRe (trim url))];
    intros E; apply rmap_inv in E; destruct E as (v & E & [= ->]);
    first [ exact (encodeURI_units_len _ _ _ (le_n _) Ht E)
          | exact (encodeURI_units_len _ _ _ (le_n _) Hh E) ].
Qed.

Lemma X6_witness :
  forallb uriUnit (lit "https://example.com/a%20b%7Bc%7D") = true.
Proof.
  apply (X6_normalizeUrl_output_alphabet (lit " example.com/a b{c} ")).
  - repeat constructor.
  - vm_compute. reflexivity.
Defined.

Lemma anchored_later_ic (ic : bool) (r : regex) (bef s : jsstring) :
  bef <> [] -> searchFrom ic (Seq Bol r) bef s = None.
Proof.
  revert bef. induction s as [| c s IH]; intros bef H.
  - cbn. destruct bef; [congruence | reflexivity].
  - cbn [searchFrom]. unfold matchHere. cbn [m before].
    destruct bef; [congruence |]. apply IH. discriminate.
Qed.

(** A pattern that begins with [^] is tried at the start only. *)
Lemma test_anchored (ic : bool) (r : regex) (s : jsstring) :
  test ic (Seq Bol r) s
  = match matchHere ic (Seq Bol r) [] s with Some _ => true | None => false end.
Proof.
  unfold test. destruct s as [| c s]; cbn [searchFrom].
  - destruct (matchHere ic (Seq Bol r) [] []); reflexivity.
  - destruct (matchHere ic (Seq Bol r) [] (c :: s)); [reflexivity |].
    rewrite anchored_later_ic; [reflexivity | discriminate].
Qed.

Lemma chrMatch_exact (p c : N) :
  ((p <? 65) || (90 <? p) && (p <? 97) || (122 <? p))%N = true ->
  chrMatch true p c = true -> c = p.
Proof.
  unfold chrMatch, upperUnit. intros Hp H. apply N.eqb_eq in H.
  assert (Hp' : (p < 65 \/ (90 < p /\ p < 97) \/ 122 < p)%N).
  { destruct (N.ltb_spec p 65); [lia |].
    destruct (N.ltb_spec 90 p), (N.ltb_spec p 97), (N.ltb_spec 122 p);
      cbn in Hp; try discriminate Hp; lia. }
  clear Hp. revert H.
  destruct (N.leb_spec 97 p), (N.leb_spec p 122), (N.leb_spec 97 c),
    (N.leb_spec c 122); cbn [andb]; intros E; lia.
Qed.

Lemma chrMatch_refl (p : N) : chrMatch true p p = true.
Proof. unfold chrMatch. apply N.eqb_refl. Qed.

(** Under the [i] flag a character that is not a letter matches itself
    only. *)
Lemma chrMatch_nonletter (p c : N) :
  ((p <? 65) || (90 <? p) && (p <? 97) || (122 <? p))%N = true ->
  chrMatch true p c = (p =? c)%N.
Proof.
  intros Hp. destruct (chrMatch true p c) eqn:E.
  - apply chrMatch_exact in E; [subst c | exact Hp]. symmetry. apply N.eqb_refl.
  - destruct (N.eqb_spec p c) as [<- | ]; [| reflexivity].
    now rewrite chrMatch_refl in E.
Qed.

(** Under the [i] flag a lower-case letter matches itself and its upper
    case. *)
Lemma chrMatch_letter (p c : N) :
  (97 <= p)%N -> (p <= 122)%N ->
  chrMatch true p c = true -> c = p \/ c = (p - 32)%N.
Proof.
  unfold chrMatch, upperUnit. intros H1 H2 H. apply N.eqb_eq in H. revert H.
  destruct (N.leb_spec 97 p), (N.leb_spec p 122), (N.leb_spec 97 c),
    (N.leb_spec c 122); cbn [andb]; intros E; lia.
Qed.

Lemma schemeTail_spec (y : mstate) :
  match schemeTail y with Some _ => true | None => false end
  = startsWith (lit "://") (ahead y).
Proof.
  unfold schemeTail, step. destruct y as [bef s cs]. cbn [ahead before caps].
  change (lit "://") with [58; 47; 47]%N.
  destruct s as [| a [| b [| c s]]]; cbn [startsWith];
    rewrite ?chrMatch_nonletter by reflexivity.
  - reflexivity.
  - destruct (N.eqb 58 a); reflexivity.
  - destruct (N.eqb 58 a); [| reflexivity]. cbn [ahead andb].
    rewrite ?chrMatch_nonletter by reflexivity.
    destruct (N.eqb 47 b); reflexivity.
  - destruct (N.eqb 58 a); [| reflexivity]. cbn [ahead andb].
    rewrite ?chrMatch_nonletter by reflexivity.
    destruct (N.eqb 47 b); [| reflexivity]. cbn [ahead andb].
    rewrite ?chrMatch_nonletter by reflexivity.
    destruct (N.eqb 47 c); reflexivity.
Qed.

Lemma isSome_matchHere (o : option mstate) (bef : jsstring) :
  match
    match o with
    | Some y =>
        Some (rev (firstn (length (before y) - length bef) (before y)), caps y)
    | None => None
    end
  with Some _ => true | None => false end
  = match o with Some _ => true | None => false end.
Proof. destruct o; reflexivity. Qed.

(** The test of [normalizeUrl] for an http scheme, spelled out. *)
Lemma test_httpRe (s : jsstring) : test true httpRe s = hasHttpScheme s.
Proof.
  unfold httpRe. cbn [seqs]. rewrite test_anchored. unfold matchHere.
  rewrite isSome_matchHere.
  cbn [m before str lit list_ascii_of_string map fold_right N_of_ascii].
  destruct s as [| h [| t1 [| t2 [| p rest]]]]; cbn [step ahead hasHttpScheme];
    try reflexivity;
    try (destruct (chrMatch true _ h); cbn [andb]; [| reflexivity]);
    try reflexivity;
    try (destruct (chrMatch true _ t1); cbn [andb]; [| reflexivity]);
    try reflexivity;
    try (destruct (chrMatch true _ t2); cbn [andb]; [| reflexivity]);
    try reflexivity.
  destruct (chrMatch true _ p); cbn [andb]; [| reflexivity].
  cbn [before caps ahead].
  change (fun y : mstate => step _ y _) with schemeTail.
  unfold opt.
  cbn [m ahead Nat.add repLoop Nat.eqb negb before caps groupsOf Extractor.chr].
  destruct rest as [| c rest'].
  - cbn. reflexivity.
  - cbn [step ahead before caps length andb repLoop pred decMax option_map].
    change (N_of_ascii "s") with 115%N.
    destruct (chrMatch true 115 c); cbn [andb orb].
    + rewrite EscapeFacts.shorter.
      pose proof (schemeTail_spec
        {| before := c :: [p; t2; t1; h]; ahead := rest';
           caps := resetCaps [] [] |}) as H1.
      pose proof (schemeTail_spec
        {| before := [p; t2; t1; h]; ahead := c :: rest'; caps := [] |}) as H2.
      cbn [ahead] in H1, H2. rewrite <- H1, <- H2.
      destruct (schemeTail _); reflexivity.
    + pose proof (schemeTail_spec
        {| before := [p; t2; t1; h]; ahead := c :: rest'; caps := [] |}) as H2.
      cbn [ahead] in H2. rewrite <- H2. reflexivity.
Qed.

(** A string with an http scheme begins with units that [encodeURI]
    keeps and that make up the scheme by themselves. *)
Lemma hasHttpScheme_prefix (t : jsstring) :
  hasHttpScheme t = true ->
  exists p rest, t = p ++ rest /\ forallb uriUnescaped p = true
    /\ forall rest', hasHttpScheme (p ++ rest') = true.
Proof.
  destruct t as [| h [| t1 [| t2 [| p rest]]]]; try discriminate.
  cbn [hasHttpScheme]. intros H.
  apply andb_true_iff in H. destruct H as [H Htail].
  apply andb_true_iff in H. destruct H as [H Hp].
  apply andb_true_iff in H. destruct H as [H Ht2].
  apply andb_true_iff in H. destruct H as [Hh Ht1].
  apply chrMatch_letter in Hh; [| lia | lia].
  apply chrMatch_letter in Ht1; [| lia | lia].
  apply chrMatch_letter in Ht2; [| lia | lia].
  apply chrMatch_letter in Hp; [| lia | lia].
  destruct rest as [| c rest']; [discriminate |].
  apply orb_true_iff in Htail. destruct Htail as [H3 | H3].
  - apply andb_true_iff in H3. destruct H3 as [Hc Hr].
    apply chrMatch_letter in Hc; [| lia | lia].
    apply StringFacts.startsWith_inv in Hr. destruct Hr as (r' & ->).
    exists ([h; t1; t2; p; c] ++ lit "://"), r'.
    split; [reflexivity |].
    destruct Hh as [-> | ->], Ht1 as [-> | ->], Ht2 as [-> | ->],
      Hp as [-> | ->], Hc as [-> | ->];
      split; try reflexivity; intros rest'; reflexivity.
  - apply StringFacts.startsWith_inv in H3. destruct H3 as (r' & E).
    exists ([h; t1; t2; p] ++ lit "://"), r'.
    split; [cbn [app]; now rewrite E |].
    destruct Hh as [-> | ->], Ht1 as [-> | ->], Ht2 as [-> | ->],
      Hp as [-> | ->];
      split; try reflexivity; intros rest'; reflexivity.
Qed.

(** X7: every link target that [normalizeUrl] returns begins with
    [mailto:] or with [http://] or [https://] in some letter case: a
    target that has none of these schemes is given [https://], and
    [encodeURI] leaves the scheme as it is. *)
Theorem X7_normalizeUrl_result_has_scheme (url : option jsstring) (u : jsstring) :
  normalizeUrl url = Ok (Some u) ->
  startsWith (lit "mailto:") u = true \/ test true httpRe u = true.
Proof.
  unfold normalizeUrl.
  destruct (truthy url); cbn [negb]; [| discriminate].
  destruct (nonEmpty (trim (orElse url []))); cbn [negb]; [| discriminate].
  destruct (startsWith (lit "mailto:") (trim (orElse url []))) eqn:Em.
  - intros E. left.
    apply StringFacts.startsWith_inv in Em. destruct Em as (r & Er).
    rewrite Er, encodeURI_prefix in E by reflexivity.
    apply rmap_inv in E. destruct E as (v & E & [= ->]).
    apply rmap_inv in E. destruct E as (w & _ & ->).
    apply StringFacts.startsWith_app.
  - rewrite !test_httpRe.
    destruct (hasHttpScheme (trim (orElse url []))) eqn:Eh; intros E; right.
    + apply hasHttpScheme_prefix in Eh. destruct Eh as (p & r & Er & Hp & Hs).
      rewrite Er, (encodeURI_prefix _ _ Hp) in E.
      apply rmap_inv in E. destruct E as (v & E & [= ->]).
      apply rmap_inv in E. destruct E as (w & _ & ->). apply Hs.
    + rewrite encodeURI_prefix in E by reflexivity.
      apply rmap_inv in E. destruct E as (v & E & [= ->]).
      apply rmap_inv in E. destruct E as (w & _ & ->). reflexivity.
Qed.

Lemma X7_witness :
  startsWith (lit "mailto:") (lit "https://linkedin.com/in/jane-doe") = true
  \/ test true httpRe (lit "https://linkedin.com/in/jane-doe") = true.
Proof.
  apply (X7_normalizeUrl_result_has_scheme (Some (lit "linkedin.com/in/jane-doe"))).
  vm_compute. reflexivity.
Defined.

(** X8: [normalizeUrl] returns [null] exactly for a link that is absent,
    empty or all white space; for any other it returns a string or
    throws. *)
Theorem X8_normalizeUrl_null_iff_blank (url : option jsstring) :
  normalizeUrl url = Ok None <-> trim (orElse url []) = [].
Proof.
  unfold normalizeUrl. destruct url as [s |]; cbn [truthy orElse negb].
  - destruct (nonEmpty s) eqn:Es; cbn [negb].
    + destruct (trim s) eqn:Et; cbn [nonEmpty negb]; [tauto |].
      split; [| discriminate].
      destruct (startsWith _ _); [| destruct (test _ _ _)];
        intros E; apply rmap_inv in E; destruct E as (v & _ & [=]).
    + destruct s; [| discriminate]. split; reflexivity.
  - split; reflexivity.
Qed.

End UrlFacts.

(* ================================================================== *)
(** * The text of a match *)
(* ================================================================== *)

Module ConsumptionFacts.
Unset Implicit Arguments.

Lemma passes_refl (P : N -> bool) (x : mstate) : passes P x x.
Proof. exists []. repeat split. Qed.

Lemma passes_trans (P : N -> bool) (x y z : mstate) :
  passes P x y -> passes P y z -> passes P x z.
Proof.
  intros (w1 & B1 & A1 & F1) (w2 & B2 & A2 & F2). exists (w1 ++ w2).
  rewrite B2, B1, A1, A2, rev_app_distr, <- !app_assoc, forallb_app, F1, F2.
  repeat split.
Qed.

Lemma passes_same (P : N -> bool) (x x' y : mstate) :
  before x' = before x -> ahead x' = ahead x -> passes P x' y -> passes P x y.
Proof. intros B A (w & Hb & Ha & F). exists w. now rewrite <- B, <- A. Qed.

Lemma passes_to (P : N -> bool) (x y y' : mstate) :
  before y' = before y -> ahead y' = ahead y -> passes P x y -> passes P x y'.
Proof. intros B A (w & Hb & Ha & F). exists w. now rewrite B, A. Qed.

Lemma step_sound (P p : N -> bool) :
  (forall d, p d = true -> P d = true) -> soundMatcher P (step p).
Proof.
  intros H x k z. unfold step.
  destruct (ahead x) as [| c s] eqn:E; [discriminate |].
  destruct (p c) eqn:Ep; [| discriminate]. intros Hk.
  eexists. split; [| exact Hk]. exists [c]. cbn [before ahead rev app forallb].
  rewrite (H c Ep). split; [reflexivity | split; [exact E | reflexivity]].
Qed.

Lemma repLoop_sound (P : N -> bool) (body : mstate -> cont -> option mstate)
  (gs : list nat) (greedy : bool) :
  soundMatcher P body ->
  forall fuel min max, soundMatcher P (repLoop body gs greedy fuel min max).
Proof.
  intros Hb. induction fuel as [| fuel IH]; intros min max x k z;
    [discriminate |].
  cbn [repLoop].
  set (again := body _ _).
  assert (Hagain : again = Some z -> exists y, passes P x y /\ k y = Some z).
  { subst again. intros H. apply Hb in H. destruct H as (y & Hy & H).
    destruct (Nat.eqb min 0 && _); [discriminate |].
    apply IH in H. destruct H as (y' & Hy' & H). exists y'. split; [| exact H].
    apply (passes_trans P x y y'); [| exact Hy'].
    revert Hy. apply passes_same; reflexivity. }
  assert (Hk : k x = Some z -> exists y, passes P x y /\ k y = Some z).
  { intros H. exists x. split; [apply passes_refl | exact H]. }
  destruct max as [[| n] |]; [exact Hk | |];
    (destruct (negb (Nat.eqb min 0)); [exact Hagain |];
     destruct greedy;
     [ destruct again; [exact Hagain | exact Hk]
     | destruct (k x); [exact Hk | exact Hagain] ]).
Qed.

(** Whatever the pattern does, by alternatives, loops and backtracking,
    the position it hands on is reached through units that its atoms
    accept. *)
Lemma m_sound (ic : bool) (P : N -> bool) (r : regex) :
  atomsIn ic P r -> soundMatcher P (m ic r).
Proof.
  induction r as [| c | neg ranges | | r1 IH1 r2 IH2 | r1 IH1 r2 IH2
                  | greedy min max r1 IH1 | i r1 IH1 | | |];
    cbn [atomsIn]; intros H x k z; cbn [m].
  - intros Hk. exists x. split; [apply passes_refl | exact Hk].
  - now apply step_sound.
  - now apply step_sound.
  - apply step_sound. intros d Hd. apply H. now apply negb_true_iff.
  - destruct H as [H1 H2]. intros Hm.
    apply (IH1 H1) in Hm. destruct Hm as (y & Hy & Hm).
    apply (IH2 H2) in Hm. destruct Hm as (y' & Hy' & Hm).
    exists y'. split; [now apply (passes_trans P x y y') | exact Hm].
  - destruct H as [H1 H2].
    destruct (m ic r1 x k) eqn:E.
    + intros [= <-]. now apply (IH1 H1) in E.
    + now apply IH2.
  - now apply repLoop_sound, IH1.
  - intros Hm. apply (IH1 H) in Hm. destruct Hm as (y & Hy & Hm).
    eexists. split; [| exact Hm]. revert Hy. now apply passes_to.
  - destruct (before x); [| discriminate]. intros Hk.
    exists x. split; [apply passes_refl | exact Hk].
  - destruct (ahead x); [| discriminate]. intros Hk.
    exists x. split; [apply passes_refl | exact Hk].
  - destruct (xorb _ _); [| discriminate]. intros Hk.
    exists x. split; [apply passes_refl | exact Hk].
Qed.

(** The text of a match is a prefix of the text ahead, made of units
    that the atoms accept. *)
Lemma matchHere_sound (ic : bool) (P : N -> bool) (r : regex)
  (bef s w : jsstring) (cs : list (nat * jsstring)) :
  atomsIn ic P r -> matchHere ic r bef s = Some (w, cs) ->
  forallb P w = true /\ exists rest, s = w ++ rest.
Proof.
  intros H. unfold matchHere.
  destruct (m ic r (MState bef s []) Some) as [y |] eqn:E; [| discriminate].
  apply (m_sound ic P r H) in E.
  destruct E as (y' & (v & B & A & F) & [= ->]).
  cbn [before ahead] in B, A. intros [= <- <-].
  assert (Ew : rev (firstn (length (before y) - length bef) (before y)) = v).
  { rewrite B, length_app, length_rev, Nat.add_sub.
    rewrite <- (length_rev v), firstn_app, Nat.sub_diag, firstn_all.
    cbn [firstn]. now rewrite app_nil_r, rev_involutive. }
  rewrite Ew. split; [exact F |]. now exists (ahead y).
Qed.

Lemma scan_sound (ic : bool) (P : N -> bool) (r : regex) :
  atomsIn ic P r ->
  forall s skip bef acc,
    Forall (fun w => forallb P w = true) (matchesOf (scan ic r skip bef acc s)).
Proof.
  intros H. induction s as [| c s IH]; intros skip bef acc; cbn [scan].
  - destruct skip; [| constructor].
    destruct (matchHere ic r bef []) as [[w cs] |] eqn:E; [| constructor].
    apply (matchHere_sound ic P r _ _ _ _ H) in E. destruct E as [E _].
    cbn. now constructor.
  - destruct skip as [| j]; [| apply IH].
    destruct (matchHere ic r bef (c :: s)) as [[w cs] |] eqn:E; [| apply IH].
    apply (matchHere_sound ic P r _ _ _ _ H) in E. destruct E as [E _].
    destruct w as [| a w']; cbn [matchesOf flat_map app]; constructor;
      try exact E; apply IH.
Qed.

Lemma matchAll_sound (ic : bool) (P : N -> bool) (r : regex)
  (s : jsstring) (l : list jsstring) :
  atomsIn ic P r -> matchAll ic r s = Some l ->
  Forall (fun w => forallb P w = true) l.
Proof.
  intros H. unfold matchAll. pose proof (scan_sound ic P r H s 0 [] []) as F.
  destruct (matchesOf _); [discriminate |]. now intros [= <-].
Qed.

End ConsumptionFacts.

(* ================================================================== *)
(** * From the parser to the renderer *)
(* ================================================================== *)

Module PipelineFacts.
Import Extractor Renderer Validator ConsumptionFacts.
Unset Implicit Arguments.

Lemma chrMatch_ascii (ic : bool) (c d : N) :
  ascii c = true -> chrMatch ic c d = true -> ascii d = true.
Proof.
  unfold ascii, chrMatch, upperUnit. intros Hc H. apply N.ltb_lt in Hc.
  apply N.ltb_lt. destruct ic; apply N.eqb_eq in H; [| lia]. revert H.
  destruct (N.leb_spec 97 c), (N.leb_spec c 122), (N.leb_spec 97 d),
    (N.leb_spec d 122); cbn [andb]; intros E; lia.
Qed.

Lemma inRanges_ascii (ranges : list (N * N)) (e : N) :
  forallb (fun r => ascii (snd r)) ranges = true ->
  inRanges ranges e = true -> ascii e = true.
Proof.
  unfold inRanges. intros H E. apply existsb_exists in E.
  destruct E as (r & Hr & E). rewrite forallb_forall in H. specialize (H r Hr).
  apply andb_true_iff in E. destruct E as [_ E]. apply N.leb_le in E.
  unfold ascii in *. apply N.ltb_lt in H. apply N.ltb_lt. lia.
Qed.

(** A class of Basic Latin ranges accepts Basic Latin units only, with
    the [i] flag too. *)
Lemma clsMatch_ascii (ic : bool) (ranges : list (N * N)) (d : N) :
  forallb (fun r => ascii (snd r)) ranges = true ->
  clsMatch ic false ranges d = true -> ascii d = true.
Proof.
  intros H. unfold clsMatch. cbn [xorb]. destruct ic.
  - intros E. apply orb_true_iff in E. destruct E as [E | E];
      [apply orb_true_iff in E; destruct E as [E | E] |];
      apply (inRanges_ascii _ _ H) in E; [exact E | |];
      revert E; unfold ascii, upperUnit, lowerLetter;
      [ destruct (N.leb_spec 97 d), (N.leb_spec d 122)
      | destruct (N.leb_spec 65 d), (N.leb_spec d 90) ];
      cbn [andb]; intros E; apply N.ltb_lt in E; apply N.ltb_lt; lia.
  - now apply inRanges_ascii.
Qed.

Lemma linkedinRe_ascii : atomsIn true ascii linkedinRe.
Proof.
  unfold linkedinRe, str, plus.
  cbn [seqs lit list_ascii_of_string map fold_right atomsIn].
  repeat split; try (intros d; apply chrMatch_ascii; reflexivity).
  intros d. apply clsMatch_ascii. reflexivity.
Qed.

Lemma githubRe_ascii : atomsIn true ascii githubRe.
Proof.
  unfold githubRe, str, plus.
  cbn [seqs lit list_ascii_of_string map fold_right atomsIn].
  repeat split; try (intros d; apply chrMatch_ascii; reflexivity).
  intros d. apply clsMatch_ascii. reflexivity.
Qed.

Lemma ascii_wellFormed (w : jsstring) :
  forallb ascii w = true -> wellFormed w = true.
Proof.
  induction w as [| c w IH]; [reflexivity |]. cbn [forallb wellFormed].
  intros H. apply andb_true_iff in H. destruct H as [Hc Hw].
  unfold ascii in Hc. apply N.ltb_lt in Hc.
  unfold isTrail, isLead.
  destruct (N.leb_spec 56320 c); [lia |]. cbn [andb].
  destruct (N.leb_spec 55296 c); [lia |]. cbn [andb]. now apply IH.
Qed.

Lemma firstMatchOr_ascii (r : regex) (fullText : jsstring) :
  atomsIn true ascii r ->
  wellFormedOpt (Some (firstMatchOr true r fullText [])).
Proof.
  intros H. unfold wellFormedOpt, firstMatchOr.
  destruct (matchAll true r fullText) as [[| w l] |] eqn:E; try reflexivity.
  apply (matchAll_sound _ _ _ _ _ H) in E. inversion E as [| ? ? Hw _]; subst.
  unfold orElse. destruct (nonEmpty w); [| reflexivity].
  now apply ascii_wellFormed.
Qed.

(** The links that the parser finds are Basic Latin text, whatever
    surrounds them in the resume. *)
Lemma extracted_renderable (text : jsstring) :
  renderable (extractResumeData text).
Proof.
  unfold renderable, extractResumeData.
  cbn [ResumeData.personalInfo ResumeData.projects itemsOf].
  split; [| constructor].
  eexists. split; [reflexivity |].
  unfold extractPersonalInfo.
  cbn [PersonalInfo.linkedin PersonalInfo.github PersonalInfo.website].
  split; [apply firstMatchOr_ascii, linkedinRe_ascii |].
  split; [apply firstMatchOr_ascii, githubRe_ascii | reflexivity].
Qed.

(** X9: the record that the parser extracts from a text, any text, is
    left as it is by [validateResumeData] and is rendered by
    [generateLatexFromResume] with any template: the renderer returns a
    document, it does not throw.  (The only links in such a record are the
    matches of the LinkedIn and GitHub patterns, which [encodeURI]
    accepts.) *)
Theorem X9_parsed_resume_renders (text templateLatex : jsstring) :
  validateResumeData (extractResumeData text) = extractResumeData text
  /\ exists out,
       generateLatexFromResume
         (validateResumeData (extractResumeData text)) templateLatex
       = Ok out.
Proof.
  split; [reflexivity |].
  change (validateResumeData (extractResumeData text))
    with (extractResumeData text).
  destruct (TotalityFacts.buildLatexBody_returns (extracted_renderable text))
    as (body & E).
  unfold generateLatexFromResume. rewrite E. cbn [bind]. eexists. reflexivity.
Qed.

Lemma hasItems_orEmpty {A : Type} (o : option (list A)) :
  hasItems (orEmpty o) = hasItems o.
Proof. destruct o as [[| a l] |]; reflexivity. Qed.

Lemma itemsOf_orEmpty {A : Type} (o : option (list A)) :
  itemsOf (orEmpty o) = itemsOf o.
Proof. destruct o; reflexivity. Qed.

(** The section builders do not tell an absent collection from an empty
    one. *)
Lemma buildLatexBody_validated (r : ResumeData.t) (p : PersonalInfo.t) :
  ResumeData.personalInfo r = Some p ->
  buildLatexBody (validateResumeData r) = buildLatexBody r.
Proof.
  intros Hp. unfold buildLatexBody, validateResumeData.
  cbn [ResumeData.personalInfo ResumeData.summary ResumeData.experience
       ResumeData.education ResumeData.skills ResumeData.projects
       ResumeData.certifications ResumeData.awards].
  rewrite Hp.
  unfold buildExperienceSection, buildProjectsSection, buildSkillsSection,
    buildEducationSection, buildCertificationsSection, buildAwardsSection.
  rewrite !hasItems_orEmpty, !itemsOf_orEmpty. reflexivity.
Qed.

Lemma rmap_throw {A B : Type} (f : A -> B) (c : result A) (e : error) :
  rmap f c = Throw e -> c = Throw e.
Proof. destruct c; [discriminate | cbn; intros [= ->]; reflexivity]. Qed.

Lemma bind_throws {A B : Type} (c : result A) (k : A -> result B) (e : error) :
  Exn.bind c k = Throw e -> c = Throw e \/ exists a, c = Ok a /\ k a = Throw e.
Proof.
  destruct c as [a | e']; cbn [Exn.bind]; intros E;
    [right; exists a; now split | left; now injection E as ->].
Qed.

(** [encodeURI] throws nothing but [URIError]. *)
Lemma encodeURI_throws_len (n : nat) (s : jsstring) (e : error) :
  length s <= n -> encodeURI s = Throw e -> e = URIError.
Proof.
  revert s. induction n as [| n IH]; intros s Hn E.
  - destruct s; [discriminate E | cbn in Hn; lia].
  - destruct s as [| c s]; [discriminate E |]. cbn [length] in Hn.
    cbn [encodeURI] in E.
    destruct (uriUnescaped c).
    { apply rmap_throw in E. apply (IH s); [lia | exact E]. }
    destruct (isTrail c); [now injection E |].
    destruct (isLead c).
    + destruct s as [| d s]; [now injection E |].
      destruct (isTrail d); [| now injection E].
      apply rmap_throw in E. apply (IH s); [cbn in Hn; lia | exact E].
    + apply rmap_throw in E. apply (IH s); [lia | exact E].
Qed.

Lemma normalizeUrl_throws (url : option jsstring) (e : error) :
  normalizeUrl url = Throw e -> e = URIError.
Proof.
  unfold normalizeUrl.
  destruct (negb (truthy url)); [discriminate |].
  destruct (negb (nonEmpty _)); [discriminate |].
  destruct (startsWith _ _); [| destruct (test _ _ _)];
    intros E; apply rmap_throw in E;
    exact (encodeURI_throws_len _ _ _ (le_n _) E).
Qed.

Lemma linkPart_throws (field : option jsstring) (label : string) (e : error) :
  linkPart field label = Throw e -> e = URIError.
Proof.
  unfold linkPart. destruct (truthy field); [| discriminate].
  intros E. apply bind_throws in E. destruct E as [E | (u & _ & E)];
    [now apply normalizeUrl_throws in E | discriminate].
Qed.

Lemma buildHeader_throws (p : PersonalInfo.t) (e : error) :
  buildHeader (Some p) = Throw e -> e = URIError.
Proof.
  unfold buildHeader. intros E.
  apply bind_throws in E. destruct E as [E | (l1 & _ & E)];
    [now apply linkPart_throws in E |].
  apply bind_throws in E. destruct E as [E | (l2 & _ & E)];
    [now apply linkPart_throws in E |].
  apply bind_throws in E. destruct E as [E | (l3 & _ & E)];
    [now apply linkPart_throws in E | discriminate].
Qed.

Lemma projectEntry_throws (project : Project.t) (e : error) :
  projectEntry project = Throw e -> e = URIError.
Proof.
  unfold projectEntry. intros E.
  apply bind_throws in E. destruct E as [E | (l1 & _ & E)];
    [now apply linkPart_throws in E | discriminate].
Qed.

Lemma mapM_throws {A B : Type} (f : A -> result B) (l : list A) (e : error) :
  (forall a e', f a = Throw e' -> e' = URIError) ->
  Exn.mapM f l = Throw e -> e = URIError.
Proof.
  intros H. induction l as [| a l IH]; [discriminate |]. cbn [Exn.mapM].
  intros E.
  apply bind_throws in E. destruct E as [E | (b & _ & E)]; [now apply H in E |].
  apply bind_throws in E. destruct E as [E | (bs & _ & E)];
    [now apply IH | discriminate].
Qed.

Lemma buildProjectsSection_throws (projects : option (list Project.t))
  (e : error) :
  buildProjectsSection projects = Throw e -> e = URIError.
Proof.
  unfold buildProjectsSection.
  destruct (negb (hasItems projects)); [discriminate |].
  intros E. apply bind_throws in E. destruct E as [E | (parts & _ & E)];
    [| discriminate].
  revert E. apply mapM_throws. apply projectEntry_throws.
Qed.

(** With a [personalInfo] in the record the renderer throws nothing but
    the [URIError] of [encodeURI]. *)
Lemma generate_throws (r : ResumeData.t) (p : PersonalInfo.t) (T : jsstring)
  (e : error) :
  ResumeData.personalInfo r = Some p ->
  generateLatexFromResume r T = Throw e -> e = URIError.
Proof.
  intros Hp. unfold generateLatexFromResume. intros E.
  apply bind_throws in E. destruct E as [E | (b & _ & E)]; [| discriminate].
  unfold buildLatexBody in E. rewrite Hp in E.
  apply bind_throws in E. destruct E as [E | (h & _ & E)];
    [now apply buildHeader_throws in E |].
  apply bind_throws in E. destruct E as [E | (ps & _ & E)];
    [now apply buildProjectsSection_throws in E | discriminate].
Qed.

(** X10: after [validateResumeData] the renderer cannot fail on a missing
    part of the record: for every record and template it returns a
    document or throws the [URIError] of a malformed link, never a
    [TypeError]; on a record without [personalInfo] that has not been
    validated it throws a [TypeError]. *)
Theorem X10_validated_record_has_no_TypeError (r : ResumeData.t) (T : jsstring) :
  ((exists out, generateLatexFromResume (validateResumeData r) T = Ok out)
   \/ generateLatexFromResume (validateResumeData r) T = Throw URIError)
  /\ forall summary experience education skills projects certifications awards,
       generateLatexFromResume
         (ResumeData.mk None summary experience education skills projects
            certifications awards) T
       = Throw TypeError.
Proof.
  split; [| reflexivity].
  destruct (generateLatexFromResume (validateResumeData r) T) as [out | e] eqn:E;
    [left; now exists out | right].
  assert (Hp : exists p,
             ResumeData.personalInfo (validateResumeData r) = Some p).
  { unfold validateResumeData. cbn [ResumeData.personalInfo].
    destruct (ResumeData.personalInfo r) as [p |]; eexists; reflexivity. }
  destruct Hp as (p & Hp).
  now rewrite (generate_throws _ p T e Hp E).
Qed.

(** X11: validation does not change what is rendered: for a record that
    has a [personalInfo], rendering the validated record gives what
    rendering the record itself gives, document or exception. *)
Theorem X11_validation_keeps_the_rendering
  (r : ResumeData.t) (p : PersonalInfo.t) (T : jsstring) :
  ResumeData.personalInfo r = Some p ->
  generateLatexFromResume (validateResumeData r) T
  = generateLatexFromResume r T.
Proof.
  intros Hp. unfold generateLatexFromResume.
  now rewrite (buildLatexBody_validated r p Hp).
Qed.

Lemma X11_witness :
  generateLatexFromResume (validateResumeData nameOnly) plainTemplate
  = generateLatexFromResume nameOnly plainTemplate.
Proof.
  apply (X11_validation_keeps_the_rendering nameOnly
           (PersonalInfo.mk (Some (lit "John Doe")) None None None None None None)).
  reflexivity.
Defined.

End PipelineFacts.

(* ================================================================== *)
(** * Invariants of the extractor *)
(* ================================================================== *)

Module ExtractorInvariants.
Import Extractor.
Unset Implicit Arguments.

Lemma deref_app (objs : list Experience.t) (o : Experience.t) (a : nat) :
  a < length objs -> deref (objs ++ [o]) a = deref objs a.
Proof. intros H. unfold deref. now apply app_nth1. Qed.

Lemma commit_inv (st : expState) : expInvariant st -> expInvariant (commit st).
Proof.
  intros (H1 & H2 & H3). unfold commit.
  destruct (complete _) eqn:E; [| now repeat split].
  repeat split; cbn [objects currentExp experience]; try assumption.
  apply Forall_app. split; [exact H3 |]. constructor; [| constructor].
  now split.
Qed.

Lemma startEntry_inv (position company : option jsstring) (st : expState) :
  expInvariant st -> expInvariant (startEntry position company st).
Proof.
  intros (H1 & H2 & H3). unfold startEntry.
  repeat split; cbn [objects currentExp experience].
  - apply Forall_app. split; [exact H1 |]. constructor; [| constructor].
    unfold shaped, newEntry. cbn. repeat split. constructor.
  - rewrite length_app. cbn. lia.
  - revert H3. apply Forall_impl. intros a [Ha Hc].
    rewrite length_app, deref_app by exact Ha. split; [cbn; lia | exact Hc].
Qed.

Lemma parseHeading_inv (line : jsstring) (st : expState) :
  expInvariant st -> expInvariant (parseHeading line st).
Proof.
  intros H. unfold parseHeading.
  destruct (exec true jobRe line) as [[w cs] |]; [now apply startEntry_inv |].
  destruct (includes _ _ || includes _ _); [| exact H].
  destruct (2 <=? _); [now apply startEntry_inv | exact H].
Qed.

Lemma length_update (a : nat) (f : Experience.t -> Experience.t)
  (objs : list Experience.t) : length (update a f objs) = length objs.
Proof.
  revert a. induction objs as [| o objs IH]; intros a;
    [destruct a; reflexivity |].
  destruct a; cbn [update length]; [reflexivity | now rewrite IH].
Qed.

Lemma deref_update (a b : nat) (f : Experience.t -> Experience.t)
  (objs : list Experience.t) :
  b < length objs ->
  deref (update a f objs) b
  = if Nat.eqb a b then f (deref objs b) else deref objs b.
Proof.
  unfold deref. revert a b. induction objs as [| o objs IH]; intros a b Hb;
    [cbn in Hb; lia |].
  destruct a, b; cbn [update nth Nat.eqb]; try reflexivity.
  apply IH. cbn in Hb. lia.
Qed.

Lemma Forall_update (P : Experience.t -> Prop) (a : nat)
  (f : Experience.t -> Experience.t) (objs : list Experience.t) :
  (forall o, P o -> P (f o)) -> Forall P objs -> Forall P (update a f objs).
Proof.
  intros Hf. revert a. induction objs as [| o objs IH]; intros a H;
    [destruct a; constructor |].
  inversion H; subst. destruct a; cbn [update]; constructor; auto.
Qed.

Lemma pushBullet_shaped (b : jsstring) (o : Experience.t) :
  keptBullet b -> shaped o -> shaped (pushBullet b o).
Proof.
  intros Hb (L & S & E & B). unfold shaped, pushBullet. cbn.
  repeat split; try assumption.
  apply Forall_app. split; [| now constructor].
  destruct (Experience.bullets o); [exact B | constructor].
Qed.

Lemma pushBullet_complete (b : jsstring) (o : Experience.t) :
  complete (pushBullet b o) = complete o.
Proof. reflexivity. Qed.

Lemma flags_inv (st : expState) (b : bool) :
  expInvariant st ->
  expInvariant (ExpState (objects st) (currentExp st) b (experience st)).
Proof. exact (fun H => H). Qed.

Lemma experienceStep_inv (line : jsstring) (st : expState) :
  expInvariant st -> expInvariant (experienceStep line st).
Proof.
  intros H. unfold experienceStep.
  destruct (negb _ && negb _ && _).
  { apply flags_inv. now apply parseHeading_inv, commit_inv. }
  destruct (isBulletLine line && _); [| exact H].
  destruct (0 <? length (trim (skipn 1 line))) eqn:E; [| exact H].
  destruct H as (H1 & H2 & H3).
  assert (Hb : keptBullet (trim (skipn 1 line))).
  { split; [| apply DateFacts.trim_idempotent].
    intros E'. rewrite E' in E. discriminate E. }
  repeat split; cbn [objects currentExp experience].
  - apply Forall_update; [| exact H1]. intros o. now apply pushBullet_shaped.
  - now rewrite length_update.
  - revert H3. apply Forall_impl. intros a [Ha Hc].
    rewrite length_update, deref_update by exact Ha. split; [exact Ha |].
    destruct (Nat.eqb _ a); [now rewrite pushBullet_complete | exact Hc].
Qed.

Lemma experienceLoop_inv (lines : list jsstring) (st : expState) :
  expInvariant st -> expInvariant (experienceLoop lines st).
Proof.
  revert st. induction lines as [| line rest IH]; intros st H; [exact H |].
  cbn [experienceLoop]. destruct (isSectionHeader line && _); [exact H |].
  now apply IH, experienceStep_inv.
Qed.

Lemma Forall_nth (P : Experience.t -> Prop) (objs : list Experience.t) (a : nat) :
  Forall P objs -> a < length objs -> P (deref objs a).
Proof.
  intros H Ha. rewrite Forall_forall in H. apply H. unfold deref.
  now apply nth_In.
Qed.

(** X12: every entry that [extractExperience] returns, for any lines, has a
    position and a company that are not empty, no location, no start date
    and no end date (the dates of a heading line are dropped), and an
    array of bullets each of which is not empty and has no white space at
    either end. *)
Theorem X12_extracted_entries_are_complete (lines : list jsstring) :
  Forall keptEntry (extractExperience lines).
Proof.
  unfold extractExperience.
  destruct (afterHeading experienceKeywords lines) as [rest |]; [| constructor].
  set (st := commit _).
  assert (H : expInvariant st).
  { apply commit_inv, experienceLoop_inv. repeat split.
    - constructor; [| constructor]. repeat split.
    - cbn. lia.
    - constructor. }
  destruct H as (H1 & _ & H3). cbn zeta.
  apply Forall_map. revert H3. apply Forall_impl. intros a [Ha Hc].
  pose proof (Forall_nth _ _ _ H1 Ha) as (L & S & E & B).
  unfold complete in Hc. apply andb_true_iff in Hc. destruct Hc as [Hp Hco].
  repeat split; try assumption.
  destruct (Experience.bullets (deref (objects st) a)) as [bs |].
  - now exists bs.
  - rewrite Hp in B. discriminate B.
Qed.

Lemma afterHeading_suffix (keywords lines rest : list jsstring) :
  afterHeading keywords lines = Some rest -> exists pre, lines = pre ++ rest.
Proof.
  induction lines as [| l lines IH]; [discriminate |]. cbn [afterHeading].
  destruct (someIncluded _ _).
  - intros [= ->]. now exists [l].
  - intros H. destruct (IH H) as (pre & ->). now exists (l :: pre).
Qed.

Lemma summaryLoop_inv (all rest acc : list jsstring) :
  (forall l, In l rest -> In l all) ->
  Forall (summaryLine all) acc -> length acc <= 2 ->
  Forall (summaryLine all) (summaryLoop acc rest)
  /\ length (summaryLoop acc rest) <= 3.
Proof.
  revert acc. induction rest as [| line rest IH]; intros acc Hin Hacc Hlen.
  - cbn. split; [exact Hacc | lia].
  - cbn [summaryLoop]. destruct (isSectionHeader line) eqn:Eh.
    { split; [exact Hacc | lia]. }
    set (acc' := if 10 <? length line then acc ++ [line] else acc).
    assert (Hacc' : Forall (summaryLine all) acc' /\ length acc' <= 3).
    { subst acc'. destruct (10 <? length line) eqn:El.
      - split.
        + apply Forall_app. split; [exact Hacc |]. constructor; [| constructor].
          apply Nat.ltb_lt in El. repeat split; try assumption.
          apply Hin. now left.
        + rewrite length_app. cbn. lia.
      - split; [exact Hacc | lia]. }
    destruct Hacc' as [F L].
    destruct (3 <=? length acc') eqn:E3; [now split |].
    apply Nat.leb_gt in E3. apply IH; [| exact F | lia].
    intros l Hl. apply Hin. now right.
Qed.

(** X13: the summary that [extractSummary] returns is made of at most
    three of the given lines joined by blanks, each longer than ten units
    and none of them a section header. *)
Theorem X13_summary_has_at_most_three_lines (lines : list jsstring) :
  exists ls,
    extractSummary lines = join (lit " ") ls
    /\ length ls <= 3
    /\ Forall (summaryLine lines) ls.
Proof.
  unfold extractSummary.
  destruct (afterHeading summaryKeywords lines) as [rest |] eqn:E.
  - exists (summaryLoop [] rest). split; [reflexivity |].
    apply afterHeading_suffix in E. destruct E as (pre & ->).
    destruct (summaryLoop_inv (pre ++ rest) rest []) as [F L].
    + intros l Hl. apply in_or_app. now right.
    + constructor.
    + cbn. lia.
    + now split.
  - exists []. repeat split; [cbn; lia | constructor].
Qed.

End ExtractorInvariants.

(* ================================================================== *)
(** * Properties of the job analysis *)
(* ================================================================== *)

Module JobFacts.
Import JobAnalysis ConsumptionFacts Permutation BinInt.
Unset Implicit Arguments.

Lemma technical_patterns_compile :
  forallb (fun skill =>
             match RegExp (technicalSource skill) with
             | Some _ => true
             | None => false
             end) technicalSkills = true.
Proof. vm_compute. reflexivity. Qed.

Lemma soft_patterns_compile :
  forallb (fun skill =>
             match RegExp (softSource skill) with
             | Some _ => true
             | None => false
             end) softSkills = true.
Proof. vm_compute. reflexivity. Qed.

Lemma levelOfYears_range (years : option N) (level : jsstring) :
  levelOfYears years = Some level ->
  level = seniorLevel \/ level = midLevel \/ level = juniorLevel.
Proof.
  unfold levelOfYears. destruct years as [y |]; [| discriminate].
  destruct (5 <=? y)%N; [intros [= <-]; now left |].
  destruct (3 <=? y)%N; [intros [= <-]; right; now left |].
  destruct (1 <=? y)%N; [intros [= <-]; right; now right | discriminate].
Qed.

Lemma yearsLoop_range (patterns : list regex) (text level : jsstring) :
  yearsLoop patterns text = Some level ->
  level = seniorLevel \/ level = midLevel \/ level = juniorLevel.
Proof.
  induction patterns as [| p rest IH]; [discriminate |]. cbn [yearsLoop].
  destruct (exec true p text) as [[w cs] |]; [| exact IH].
  destruct (levelOfYears _) as [l |] eqn:E; [| exact IH].
  intros [= <-]. now apply levelOfYears_range in E.
Qed.

Lemma level_range (text : jsstring) (title : option jsstring) :
  determineExperienceLevel text title = seniorLevel
  \/ determineExperienceLevel text title = midLevel
  \/ determineExperienceLevel text title = juniorLevel.
Proof.
  unfold determineExperienceLevel.
  destruct (_ || _ || _ || _ || _ || _); [now left |].
  destruct (_ || _ || _ || _ || _); [right; now right |].
  destruct (yearsLoop yearPatterns text) as [level |] eqn:E.
  - now apply yearsLoop_range in E.
  - destruct (_ || _); [now left | right; now left].
Qed.

(** X14: whatever the description and the title,
    [determineExperienceLevel] returns one of its three labels, Senior,
    Mid-level or Junior; the loop over the year patterns can only return
    one of them too. *)
Theorem X14_level_is_one_of_three (text : jsstring) (title : option jsstring) :
  (determineExperienceLevel text title = seniorLevel
   \/ determineExperienceLevel text title = midLevel
   \/ determineExperienceLevel text title = juniorLevel)
  /\ match yearsLoop yearPatterns text with
     | Some level => Extractor.member level [seniorLevel; midLevel; juniorLevel]
     | None => true
     end = true.
Proof.
  split; [apply level_range |].
  destruct (yearsLoop yearPatterns text) as [level |] eqn:E; [| reflexivity].
  apply yearsLoop_range in E. destruct E as [-> | [-> | ->]]; reflexivity.
Qed.

Lemma member_app (x : jsstring) (a b : list jsstring) :
  Extractor.member x (a ++ b) = Extractor.member x a || Extractor.member x b.
Proof. apply existsb_app. Qed.

Lemma member_firstn (x : jsstring) (n : nat) (a : list jsstring) :
  Extractor.member x a = false -> Extractor.member x (firstn n a) = false.
Proof.
  revert n. induction a as [| y a IH]; intros n H; [now destruct n |].
  destruct n; [reflexivity |]. cbn [firstn Extractor.member existsb] in *.
  apply orb_false_iff in H. destruct H as [H1 H2].
  rewrite H1. now apply IH.
Qed.

Lemma differs_by_prefix (a p x : jsstring) :
  startsWith p a = false -> str_eqb a (p ++ x) = false.
Proof.
  intros H. destruct (str_eqb a (p ++ x)) eqn:E; [| reflexivity].
  apply ExtractorFacts.str_eqb_eq in E. subst a.
  now rewrite StringFacts.startsWith_app in H.
Qed.

Lemma technicalAdvice_shape (ts : list jsstring) (adv : jsstring) :
  In adv industry ->
  1 <= length (technicalAdvice ts)
  /\ Extractor.member adv (technicalAdvice ts) = false.
Proof.
  intros Ha. unfold technicalAdvice.
  destruct (length ts =? 0).
  { split; [cbn; lia |].
    cbn in Ha. destruct Ha as [<- | [<- | [<- | []]]]; reflexivity. }
  destruct (length ts <? 3).
  - split; [cbn; lia |]. cbn [Extractor.member existsb].
    rewrite differs_by_prefix.
    + cbn in Ha. destruct Ha as [<- | [<- | [<- | []]]]; reflexivity.
    + cbn in Ha. destruct Ha as [<- | [<- | [<- | []]]]; reflexivity.
  - split; [cbn; lia |]. cbn [Extractor.member existsb].
    rewrite differs_by_prefix; [reflexivity |].
    cbn in Ha. destruct Ha as [<- | [<- | [<- | []]]]; reflexivity.
Qed.

Lemma softAdvice_shape (ss : list jsstring) (adv : jsstring) :
  In adv industry ->
  length (softAdvice ss) = 1 /\ Extractor.member adv (softAdvice ss) = false.
Proof.
  intros Ha. unfold softAdvice. destruct (length ss =? 0).
  - split; [reflexivity |].
    cbn in Ha. destruct Ha as [<- | [<- | [<- | []]]]; reflexivity.
  - split; [reflexivity |]. cbn [Extractor.member existsb].
    rewrite differs_by_prefix; [reflexivity |].
    cbn in Ha. destruct Ha as [<- | [<- | [<- | []]]]; reflexivity.
Qed.

Lemma levelAdvice_shape (level adv : jsstring) :
  level = seniorLevel \/ level = midLevel \/ level = juniorLevel ->
  In adv industry ->
  length (levelAdvice level) = 3 /\ Extractor.member adv (levelAdvice level) = false.
Proof.
  intros [-> | [-> | ->]] Ha; (split; [reflexivity |]);
    cbn in Ha; destruct Ha as [<- | [<- | [<- | []]]]; reflexivity.
Qed.

Lemma generalAdvice_shape (adv : jsstring) :
  In adv industry -> Extractor.member adv generalAdvice = false.
Proof. intros Ha. cbn in Ha. destruct Ha as [<- | [<- | [<- | []]]]; reflexivity. Qed.




Lemma core_shape (ts ss : list jsstring) (level adv : jsstring) :
  level = seniorLevel \/ level = midLevel \/ level = juniorLevel ->
  In adv industry ->
  let core :=
    technicalAdvice ts ++ softAdvice ss ++ levelAdvice level ++ generalAdvice in
  8 <= length core /\ Extractor.member adv core = false.
Proof.
  intros Hl Ha core. subst core.
  destruct (technicalAdvice_shape ts adv Ha) as [T1 T2].
  destruct (softAdvice_shape ss adv Ha) as [S1 S2].
  destruct (levelAdvice_shape level adv Hl Ha) as [L1 L2].
  pose proof (generalAdvice_shape adv Ha) as G2.
  rewrite !length_app, !member_app, S1, L1, T2, S2, L2, G2.
  split; [cbn; lia | reflexivity].
Qed.

Lemma recommendations_core (ts ss : list jsstring) (level : jsstring) :
  level = seniorLevel \/ level = midLevel \/ level = juniorLevel ->
  generateRecommendations ts ss level
  = firstn 8 (technicalAdvice ts ++ softAdvice ss ++ levelAdvice level
              ++ generalAdvice).
Proof.
  intros Hl. unfold generateRecommendations.
  destruct (core_shape ts ss level frontendAdvice Hl (or_introl eq_refl))
    as [Hlen _].
  cbn zeta in Hlen.
  replace (technicalAdvice ts ++ softAdvice ss ++ levelAdvice level
           ++ generalAdvice ++ industryAdvice ts)
    with ((technicalAdvice ts ++ softAdvice ss ++ levelAdvice level
           ++ generalAdvice) ++ industryAdvice ts)
    by now rewrite <- !app_assoc.
  rewrite firstn_app.
  replace (8 - _) with 0 by lia. cbn [firstn]. apply app_nil_r.
Qed.

(** X15: for a level that [determineExperienceLevel] returns,
    [generateRecommendations] returns exactly eight recommendations,
    whatever the skills: the ones on the technical skills, on the soft
    skills, for the level and the general ones fill the eight places (the
    last general one is cut off when there are one or two technical
    skills), and none of the recommendations by industry, for frontend,
    backend or cloud roles, is ever among them. *)
Theorem X15_eight_recommendations (ts ss : list jsstring) (text : jsstring)
  (title : option jsstring) :
  let recs :=
    generateRecommendations ts ss (determineExperienceLevel text title) in
  length recs = 8
  /\ Extractor.member frontendAdvice recs = false
  /\ Extractor.member backendAdvice recs = false
  /\ Extractor.member cloudAdvice recs = false.
Proof.
  intros recs. subst recs.
  pose proof (level_range text title) as Hl.
  rewrite (recommendations_core ts ss _ Hl).
  split.
  - destruct (core_shape ts ss _ frontendAdvice Hl (or_introl eq_refl))
      as [Hlen _].
    cbn zeta in Hlen. rewrite length_firstn. lia.
  - repeat split; apply member_firstn;
      apply (core_shape ts ss _ _ Hl); cbn; tauto.
Qed.

Lemma In_distinct (x : jsstring) (a : list jsstring) :
  In x (distinct a) <-> In x a.
Proof.
  induction a as [| y a IH]; [reflexivity |]. cbn [distinct In].
  rewrite filter_In, IH. split.
  - intros [H | [H _]]; [now left | now right].
  - intros [H | H]; [now left |].
    destruct (str_eqb y x) eqn:E.
    + left. now apply ExtractorFacts.str_eqb_eq in E.
    + right. now split.
Qed.

Lemma NoDup_distinct (a : list jsstring) : NoDup (distinct a).
Proof.
  induction a as [| y a IH]; [constructor |]. cbn [distinct]. constructor.
  - rewrite filter_In. intros [_ H].
    assert (E : str_eqb y y = true) by now apply ExtractorFacts.str_eqb_eq.
    rewrite E in H. discriminate H.
  - now apply NoDup_filter.
Qed.

Lemma In_found (source name : jsstring -> jsstring) (table : list jsstring)
  (text x : jsstring) :
  In x (flat_map (fun skill =>
                    if testSource (source skill) text then [name skill] else [])
          table)
  <-> exists skill, In skill table /\ testSource (source skill) text = true
                    /\ x = name skill.
Proof.
  rewrite in_flat_map. split.
  - intros (skill & Hs & Hx). exists skill. split; [exact Hs |].
    destruct (testSource _ _); [| destruct Hx].
    destruct Hx as [<- | []]. now split.
  - intros (skill & Hs & Ht & ->). exists skill. split; [exact Hs |].
    rewrite Ht. now left.
Qed.

Lemma searchFrom_somewhere (ic : bool) (r : regex) (f : jsstring -> bool) :
  (forall bef s, isSome (matchHere ic r bef s) = true -> f s = true) ->
  forall s bef, isSome (searchFrom ic r bef s) = true -> anySuffix f s = true.
Proof.
  intros H. induction s as [| c s IH]; intros bef; cbn [searchFrom anySuffix].
  - destruct (matchHere ic r bef []) eqn:E; [| discriminate].
    intros _. rewrite (H bef []); [reflexivity | now rewrite E].
  - destruct (matchHere ic r bef (c :: s)) eqn:E.
    + intros _. rewrite (H bef (c :: s)); [reflexivity | now rewrite E].
    + intros Hs. rewrite (IH _ Hs). apply orb_true_r.
Qed.

Lemma cpp_source : RegExp (technicalSource (lit "c\+\+")) = Some cppRe.
Proof. reflexivity. Qed.

(** A match of the pattern for C++ begins with a [c] and a backslash. *)
Lemma cpp_needs_backslash (bef s : jsstring) :
  isSome (matchHere true cppRe bef s) = true ->
  backslashSecond s = true.
Proof.
  unfold matchHere, cppRe. cbn [seqs m before ahead].
  destruct (xorb _ _); [| discriminate].
  unfold step at 1. cbn [ahead].
  destruct s as [| c1 s1]; [discriminate |].
  destruct (chrMatch true 99 c1); [| discriminate].
  unfold plus. cbn [m repLoop ahead Nat.add Nat.eqb negb before caps].
  unfold step at 1. cbn [ahead].
  destruct s1 as [| c2 s2]; [discriminate |].
  destruct (chrMatch true 92 c2) eqn:E; [| discriminate].
  intros _. apply UrlFacts.chrMatch_exact in E; [| reflexivity].
  subst c2. reflexivity.
Qed.

Lemma backslash_somewhere (s : jsstring) :
  anySuffix backslashSecond s = true ->
  includes (lit "\") s = true.
Proof.
  induction s as [| a s IH]; [discriminate |]. cbn [anySuffix includes].
  intros H. apply orb_true_iff in H. destruct H as [H | H].
  - destruct s as [| c s']; [discriminate |].
    apply N.eqb_eq in H. subst c.
    apply orb_true_iff. right. cbn. reflexivity.
  - rewrite (IH H). apply orb_true_r.
Qed.

Lemma name_cc (skill : jsstring) :
  In skill technicalSkills -> technicalName skill = lit "cc++" ->
  skill = lit "c\+\+".
Proof.
  intros Hs Hn.
  assert (H : forallb (fun skill =>
                         negb (str_eqb (technicalName skill) (lit "cc++"))
                         || str_eqb skill (lit "c\+\+")) technicalSkills = true)
    by (vm_compute; reflexivity).
  rewrite forallb_forall in H. specialize (H skill Hs).
  apply orb_true_iff in H. destruct H as [H | H].
  - apply negb_true_iff in H.
    assert (E : str_eqb (technicalName skill) (lit "cc++") = true)
      by now apply ExtractorFacts.str_eqb_eq.
    rewrite E in H. discriminate H.
  - now apply ExtractorFacts.str_eqb_eq.
Qed.

Lemma found_in_table (text : jsstring) :
  incl (extractTechnicalSkills text) (map technicalName technicalSkills).
Proof.
  intros x Hx. apply In_distinct, In_found in Hx.
  destruct Hx as (skill & Hs & _ & ->). now apply in_map.
Qed.

(** X16: the names that [extractTechnicalSkills] returns are distinct and
    are names of its table, and [c++] is never one of them: the table
    gives C++ the name [cc++]. *)
Theorem X16_technical_skills_never_cpp (text : jsstring) :
  NoDup (extractTechnicalSkills text)
  /\ incl (extractTechnicalSkills text) (map technicalName technicalSkills)
  /\ Extractor.member (lit "c++") (extractTechnicalSkills text) = false
  /\ length (extractTechnicalSkills text) <= 105.
Proof.
  split; [apply NoDup_distinct |]. split; [apply found_in_table |]. split.
  - destruct (Extractor.member (lit "c++") _) eqn:E; [| reflexivity].
    apply ExtractorFacts.member_In, found_in_table in E.
    assert (N : Extractor.member (lit "c++") (map technicalName technicalSkills)
                = false) by (vm_compute; reflexivity).
    apply ExtractorFacts.member_In in E. rewrite E in N. discriminate N.
  - change 105 with (length (map technicalName technicalSkills)).
    apply NoDup_incl_length; [apply NoDup_distinct | apply found_in_table].
Qed.

(** X17: for C++ to be reported (as [cc++]) the text must hold a
    backslash: the pattern built for the entry asks for a [c], one or more
    backslashes and a plus sign.  A text that writes C++ as it is written
    does not have the skill found. *)
Theorem X17_cpp_needs_a_backslash (text : jsstring) :
  Extractor.member (lit "cc++") (extractTechnicalSkills text) = true ->
  includes (lit "\") text = true.
Proof.
  intros E. apply ExtractorFacts.member_In, In_distinct, In_found in E.
  destruct E as (skill & Hs & Ht & Hn).
  symmetry in Hn. apply (name_cc skill Hs) in Hn. subst skill.
  unfold testSource in Ht. rewrite cpp_source in Ht.
  apply backslash_somewhere.
  unfold test in Ht.
  apply (searchFrom_somewhere true cppRe _ cpp_needs_backslash text []).
  destruct (searchFrom true cppRe [] text); [reflexivity | discriminate Ht].
Qed.

Lemma X17_witness : includes (lit "\") (lit "c\+x") = true.
Proof.
  apply (X17_cpp_needs_a_backslash (lit "c\+x")).
  vm_compute. reflexivity.
Defined.

Lemma advance_eta (x : mstate) : MState (before x) (ahead x) (caps x) = x.
Proof. now destruct x. Qed.

(** A pattern of literal characters hands on the position behind them,
    when they are there. *)
Lemma m_literal (ic : bool) (p : jsstring) (x : mstate) (k : cont) :
  m ic (seqs (map Chr p)) x k
  = if literalAt ic p (ahead x)
    then k (MState (rev (firstn (length p) (ahead x)) ++ before x)
              (skipn (length p) (ahead x)) (caps x))
    else None.
Proof.
  revert x. induction p as [| c p IH]; intros x.
  - cbn. now rewrite advance_eta.
  - assert (Hstep : m ic (Seq (Chr c) (seqs (map Chr p))) x k
                    = m ic (seqs (map Chr (c :: p))) x k).
    { destruct p; [| reflexivity]. cbn [map seqs m]. unfold step.
      destruct (ahead x); [reflexivity |].
      destruct (chrMatch ic c n); [| reflexivity]. reflexivity. }
    rewrite <- Hstep. cbn [m]. unfold step. cbn [literalAt].
    destruct (ahead x) as [| d s] eqn:E; [reflexivity |].
    destruct (chrMatch ic c d); [| reflexivity]. cbn [andb].
    rewrite IH. cbn [ahead before caps length firstn skipn rev].
    destruct (literalAt ic p s); [| reflexivity].
    now rewrite <- app_assoc.
Qed.

Lemma matchHere_literal (ic : bool) (p bef s : jsstring) :
  isSome (matchHere ic (seqs (map Chr p)) bef s) = literalAt ic p s.
Proof.
  unfold matchHere. rewrite m_literal. cbn [ahead].
  destruct (literalAt ic p s); reflexivity.
Qed.

Lemma searchFrom_anySuffix (ic : bool) (r : regex) (f : jsstring -> bool) :
  (forall bef s, isSome (matchHere ic r bef s) = f s) ->
  forall s bef, isSome (searchFrom ic r bef s) = anySuffix f s.
Proof.
  intros H. induction s as [| c s IH]; intros bef; cbn [searchFrom anySuffix].
  - rewrite <- (H bef []). destruct (matchHere ic r bef []); reflexivity.
  - rewrite <- (H bef (c :: s)), <- (IH (c :: bef)).
    destruct (matchHere ic r bef (c :: s)); reflexivity.
Qed.

Lemma chrMatch_lowered (c d : N) :
  notUpper c = true -> notUpper d = true -> chrMatch true c d = (c =? d)%N.
Proof.
  unfold notUpper, chrMatch, upperUnit. intros Hc Hd.
  apply negb_true_iff in Hc, Hd.
  destruct (N.eqb_spec c d) as [-> | Hne]; [apply N.eqb_refl |].
  apply N.eqb_neq. revert Hc Hd.
  destruct (N.leb_spec 97 c), (N.leb_spec c 122), (N.leb_spec 97 d),
    (N.leb_spec d 122), (N.leb_spec 65 c), (N.leb_spec c 90),
    (N.leb_spec 65 d), (N.leb_spec d 90); cbn [andb]; intros; try discriminate;
    lia.
Qed.

Lemma literalAt_lowered (p s : jsstring) :
  forallb notUpper p = true -> forallb notUpper s = true ->
  literalAt true p s = startsWith p s.
Proof.
  revert s. induction p as [| c p IH]; intros s Hp Hs; [reflexivity |].
  destruct s as [| d s]; [reflexivity |]. cbn [literalAt startsWith].
  cbn [forallb] in Hp, Hs. apply andb_true_iff in Hp, Hs.
  destruct Hp as [Hc Hp], Hs as [Hd Hs].
  now rewrite chrMatch_lowered, IH.
Qed.

Lemma anySuffix_lowered (p s : jsstring) :
  forallb notUpper p = true -> forallb notUpper s = true ->
  anySuffix (literalAt true p) s = includes p s.
Proof.
  intros Hp. induction s as [| d s IH]; intros Hs; cbn [anySuffix includes].
  - now rewrite literalAt_lowered.
  - rewrite literalAt_lowered by assumption.
    cbn [forallb] in Hs. apply andb_true_iff in Hs. destruct Hs as [_ Hs].
    now rewrite IH.
Qed.

Lemma toLowerCase_lowered (s : jsstring) : forallb notUpper (toLowerCase s) = true.
Proof.
  unfold toLowerCase. induction s as [| c s IH]; [reflexivity |].
  cbn [flat_map]. rewrite forallb_app, IH, andb_true_r.
  unfold lowerUnit.
  destruct (N.leb_spec 65 c), (N.leb_spec c 90); cbn [andb];
    try (destruct (N.eqb_spec c 304); [reflexivity |];
         destruct (N.eqb_spec c 8490); [reflexivity |]);
    cbn [forallb]; unfold notUpper; rewrite andb_true_r; apply negb_true_iff;
    apply andb_false_iff.
  - right. apply N.leb_gt. lia.
  - right. apply N.leb_gt. lia.
  - left. apply N.leb_gt. lia.
  - left. apply N.leb_gt. lia.
Qed.

Lemma soft_sources :
  Forall (fun skill => RegExp (softSource skill) = Some (seqs (map Chr skill))
                       /\ forallb notUpper skill = true)
    softSkills.
Proof. unfold softSkills. cbn [map]. repeat constructor. Qed.

(** On a text in lower case the test for a soft skill is a search for
    the entry of the table as it is written. *)
Lemma soft_test (skill description : jsstring) :
  In skill softSkills ->
  testSource (softSource skill) (toLowerCase description)
  = includes skill (toLowerCase description).
Proof.
  intros Hs. pose proof soft_sources as F. rewrite Forall_forall in F.
  destruct (F skill Hs) as [E Hp]. unfold testSource. rewrite E.
  unfold test.
  pose proof (searchFrom_anySuffix true (seqs (map Chr skill))
                (literalAt true skill) (fun bef s => matchHere_literal true skill bef s)
                (toLowerCase description) []) as H.
  unfold isSome in H. rewrite H.
  apply anySuffix_lowered; [exact Hp | apply toLowerCase_lowered].
Qed.

(** X18: on a description in lower case, as [analyzeJobDescription]
    hands it over, [extractSoftSkills] reports a skill exactly when the
    description contains the entry of the table as it is written, with the
    dot of entries like [problem.solving] read as a dot: the reported
    names are the names of these entries. *)
Theorem X18_soft_skill_found_iff_entry_included (description x : jsstring) :
  In x (extractSoftSkills (toLowerCase description))
  <-> exists skill,
        In skill softSkills /\ x = softName skill
        /\ includes skill (toLowerCase description) = true.
Proof.
  unfold extractSoftSkills. cbn zeta. rewrite In_distinct, In_found. split.
  - intros (skill & Hs & Ht & ->). exists skill.
    rewrite (soft_test skill description Hs) in Ht. now repeat split.
  - intros (skill & Hs & -> & Hi). exists skill.
    rewrite (soft_test skill description Hs). now repeat split.
Qed.

Lemma step_consuming (p : N -> bool) : consuming 1 (step p).
Proof.
  intros x k z. unfold step. destruct (ahead x) as [| c s] eqn:E; [discriminate |].
  destruct (p c); [| discriminate]. intros H. eexists. split; [exact H |].
  cbn [ahead length]. lia.
Qed.

Lemma repLoop_consuming (n : nat) (body : mstate -> cont -> option mstate)
  (gs : list nat) (greedy : bool) :
  consuming n body ->
  forall fuel min max,
    consuming (match max with Some most => Nat.min min most | None => min end * n)
      (repLoop body gs greedy fuel min max).
Proof.
  intros Hb. induction fuel as [| fuel IH]; intros min max x k z; [discriminate |].
  cbn [repLoop].
  set (q := match max with Some most => Nat.min min most | None => min end).
  set (again := body _ _).
  assert (Hagain : max <> Some 0 -> again = Some z ->
            exists y, k y = Some z /\ length (ahead y) + q * n <= length (ahead x)).
  { subst again. intros Hmax H. apply Hb in H. destruct H as (y & H & Hy).
    cbn [ahead] in Hy.
    destruct (Nat.eqb min 0 && _); [discriminate |].
    apply IH in H. destruct H as (y' & H & Hy'). exists y'. split; [exact H |].
    subst q. destruct max as [[| most] |]; [congruence | |]; cbn [decMax option_map] in Hy'.
    - assert (Nat.min min (S most) <= S (Nat.min (pred min) (pred (S most)))) by lia.
      nia.
    - assert (min <= S (pred min)) by lia. nia. }
  assert (Hk : min = 0 \/ max = Some 0 -> k x = Some z ->
            exists y, k y = Some z /\ length (ahead y) + q * n <= length (ahead x)).
  { intros Hq H. exists x. split; [exact H |].
    assert (q = 0) by (subst q; destruct Hq as [-> | ->]; [now destruct max | lia]).
    nia. }
  destruct max as [[| most] |]; [apply Hk; now right | |];
    (destruct (Nat.eqb_spec min 0) as [E | E]; cbn [negb];
     [ destruct greedy;
       [ destruct again; [apply Hagain; discriminate | apply Hk; now left]
       | destruct (k x); [apply Hk; now left | apply Hagain; discriminate] ]
     | apply Hagain; discriminate ]).
Qed.

Lemma m_consuming (ic : bool) (r : regex) : consuming (minLen r) (m ic r).
Proof.
  induction r as [| c | neg ranges | | r1 IH1 r2 IH2 | r1 IH1 r2 IH2
                  | greedy min max r1 IH1 | i r1 IH1 | | |];
    intros x k z; cbn [m minLen].
  - intros H. exists x. split; [exact H | lia].
  - apply step_consuming.
  - apply step_consuming.
  - apply step_consuming.
  - intros H. apply IH1 in H. destruct H as (y & H & Hy).
    apply IH2 in H. destruct H as (y' & H & Hy'). exists y'. split; [exact H | lia].
  - destruct (m ic r1 x k) eqn:E.
    + intros [= <-]. apply IH1 in E. destruct E as (y & H & Hy).
      exists y. split; [exact H | lia].
    + intros H. apply IH2 in H. destruct H as (y & H & Hy).
      exists y. split; [exact H | lia].
  - apply repLoop_consuming, IH1.
  - intros H. apply IH1 in H. destruct H as (y & H & Hy).
    eexists. split; [exact H | exact Hy].
  - destruct (before x); [| discriminate]. intros H. exists x. split; [exact H | lia].
  - destruct (ahead x) eqn:E; [| discriminate]. intros H. exists x.
    split; [exact H | rewrite E; cbn; lia].
  - destruct (xorb _ _); [| discriminate]. intros H. exists x. split; [exact H | lia].
Qed.

Lemma atomsIn_any (ic : bool) (r : regex) : atomsIn ic (fun _ => true) r.
Proof. induction r; cbn [atomsIn]; auto. Qed.

(** A match has [minLen] units at least, and is the beginning of the
    text ahead. *)
Lemma matchHere_length (ic : bool) (r : regex) (bef s w : jsstring)
  (cs : list (nat * jsstring)) :
  matchHere ic r bef s = Some (w, cs) ->
  minLen r <= length w /\ exists rest, s = w ++ rest.
Proof.
  intros H.
  destruct (matchHere_sound ic (fun _ => true) r bef s w cs (atomsIn_any ic r) H)
    as [_ (rest & E)].
  split; [| now exists rest].
  unfold matchHere in H.
  destruct (m ic r (MState bef s []) Some) as [y |] eqn:Em; [| discriminate].
  pose proof Em as Em'.
  apply m_consuming in Em. destruct Em as (y' & [= ->] & Hy). cbn [ahead] in Hy.
  apply (m_sound ic (fun _ => true) r (atomsIn_any ic r)) in Em'.
  destruct Em' as (y' & (v & B & A & _) & [= ->]). cbn [before ahead] in B, A.
  injection H as Hw _.
  assert (Ew : rev (firstn (length (before y) - length bef) (before y)) = v).
  { rewrite B, length_app, length_rev, Nat.add_sub.
    rewrite <- (length_rev v), firstn_app, Nat.sub_diag, firstn_all.
    cbn [firstn]. now rewrite app_nil_r, rev_involutive. }
  rewrite Ew in Hw. subst v. rewrite A, length_app in Hy. lia.
Qed.

Lemma terminator_cases (c : N) : terminator c = true -> c = 46%N \/ c = 33%N \/ c = 63%N.
Proof.
  unfold terminator, inRanges.
  cbn [chars lit list_ascii_of_string map existsb one fst snd N_of_ascii].
  intros H. repeat (apply orb_true_iff in H; destruct H as [H | H]);
    try discriminate H;
    apply andb_true_iff in H; destruct H as [H1 H2];
    apply N.leb_le in H1, H2; cbn in H1, H2; lia.
Qed.

Lemma not_terminator_class (d : N) :
  clsMatch true true (chars ".!?") d = true -> negb (terminator d) = true.
Proof.
  unfold clsMatch, terminator. intros H. apply negb_true_iff.
  destruct (inRanges (chars ".!?") d); [discriminate H | reflexivity].
Qed.

Lemma terminator_class (e : N) :
  clsMatch true false (chars ".!?") e = true -> terminator e = true.
Proof.
  unfold clsMatch. cbn [xorb]. intros H.
  apply orb_true_iff in H. destruct H as [H | H];
    [apply orb_true_iff in H; destruct H as [H | H]; [exact H |] |].
  - pose proof (terminator_cases _ H) as C. revert H C. unfold upperUnit.
    destruct (N.leb_spec 97 e) as [L1 | L1], (N.leb_spec e 122) as [L2 | L2];
      cbn [andb]; intros H' C; try exact H'; lia.
  - pose proof (terminator_cases _ H) as C. revert H C. unfold lowerLetter.
    destruct (N.leb_spec 65 e) as [L1 | L1], (N.leb_spec e 90) as [L2 | L2];
      cbn [andb]; intros H' C; try exact H'; lia.
Qed.

Lemma getCap_setCap (i : nat) (v : jsstring) (cs : list (nat * jsstring)) :
  getCap i (setCap i v cs) = Some v.
Proof. unfold getCap, setCap. cbn [find fst]. now rewrite Nat.eqb_refl. Qed.

Lemma taken (v bef : jsstring) :
  rev (firstn (length (rev v ++ bef) - length bef) (rev v ++ bef)) = v.
Proof.
  rewrite length_app, length_rev, Nat.add_sub.
  rewrite <- (length_rev v), firstn_app, Nat.sub_diag, firstn_all.
  cbn [firstn]. now rewrite app_nil_r, rev_involutive.
Qed.

(** The group of a sentence pattern captures one sentence. *)
Lemma sentence_capture (x z : mstate) :
  m true sentence x Some = Some z ->
  exists v, getCap 1 (caps z) = Some v /\ oneSentence v.
Proof.
  unfold sentence. cbn [m]. intros H.
  apply (m_sound true (fun c => negb (terminator c))) in H.
  2: { cbn [plus atomsIn]. exact not_terminator_class. }
  destruct H as (y & (u & B & A & F) & H).
  unfold step in H. destruct (ahead y) as [| e rest] eqn:E; [discriminate |].
  destruct (clsMatch true false (chars ".!?") e) eqn:Ee; [| discriminate].
  injection H as <-. cbn [caps].
  rewrite getCap_setCap. eexists. split; [reflexivity |].
  exists u, e. split; [| split; [now apply terminator_class | exact F]].
  change (match length (before x) with
          | 0 => S (length (before y))
          | S l => length (before y) - l
          end) with (length (e :: before y) - length (before x)).
  rewrite B.
  replace (e :: rev u ++ before x) with (rev (u ++ [e]) ++ before x)
    by now rewrite rev_app_distr.
  apply taken.
Qed.

Lemma reaches (ic : bool) (r : regex) (x : mstate) (k : cont) (z : mstate) :
  m ic r x k = Some z -> exists y, k y = Some z.
Proof.
  intros H. apply (m_sound ic (fun _ => true) r (atomsIn_any ic r)) in H.
  destruct H as (y & _ & H). now exists y.
Qed.

Lemma pattern_capture (a b c d : regex) (bef s w : jsstring)
  (cs : list (nat * jsstring)) :
  matchHere true (seqs [a; b; c; d; sentence]) bef s = Some (w, cs) ->
  exists v, getCap 1 cs = Some v /\ oneSentence v.
Proof.
  unfold matchHere. cbn [seqs m].
  destruct (m true a _ _) as [z |] eqn:H; [| discriminate].
  intros [= _ <-].
  apply reaches in H. destruct H as (y1 & H).
  apply reaches in H. destruct H as (y2 & H).
  apply reaches in H. destruct H as (y3 & H).
  apply reaches in H. destruct H as (y4 & H).
  now apply sentence_capture in H.
Qed.

Lemma execLoop_matches (ic : bool) (r : regex) (s : jsstring) :
  forall skip bef,
    Forall (fun res => exists bef' s', matchHere ic r bef' s' = Some res)
      (execLoop ic r skip bef s).
Proof.
  induction s as [| c s IH]; intros skip bef; cbn [execLoop]; [constructor |].
  destruct skip; [| apply IH].
  destruct (matchHere ic r bef (c :: s)) as [[w cs] |] eqn:E; [| apply IH].
  constructor; [| apply IH]. now exists bef, (c :: s).
Qed.

Lemma trimStart_keeps (P : N -> bool) (u : jsstring) :
  forallb P u = true -> forallb P (trimStart u) = true.
Proof.
  induction u as [| c u IH]; [reflexivity |]. cbn [trimStart forallb].
  intros H. destruct (isWhite c); [| exact H].
  apply andb_true_iff in H. now apply IH.
Qed.

Lemma trimStart_last (u : jsstring) (e : N) :
  isWhite e = false -> trimStart (u ++ [e]) = trimStart u ++ [e].
Proof.
  intros He. induction u as [| c u IH]; cbn [app trimStart].
  - now rewrite He.
  - destruct (isWhite c); [exact IH | reflexivity].
Qed.

Lemma trim_sentence (v : jsstring) : oneSentence v -> oneSentence (trim v).
Proof.
  intros (u & e & -> & He & Hu).
  assert (Hw : isWhite e = false).
  { apply terminator_cases in He. destruct He as [-> | [-> | ->]]; reflexivity. }
  exists (trimStart u), e. split; [| split; [exact He | now apply trimStart_keeps]].
  unfold trim. rewrite (trimStart_last u e Hw).
  apply DateFacts.trimEnd_fixed. rewrite rev_app_distr. cbn. exact Hw.
Qed.

Lemma sentencesOf_kept (patterns : list regex) (text : jsstring) :
  Forall (fun p => exists a b c d, p = seqs [a; b; c; d; sentence]) patterns ->
  Forall keptSentence (sentencesOf patterns text).
Proof.
  intros Hp. unfold sentencesOf. apply Forall_flat_map.
  revert Hp. apply Forall_impl. intros p (a & b & c & d & ->).
  apply Forall_flat_map.
  pose proof (execLoop_matches true (seqs [a; b; c; d; sentence]) text 0 []) as F.
  revert F. apply Forall_impl. intros [w cs] (bef' & s' & H).
  apply pattern_capture in H. destruct H as (v & Hv & Hs). cbn [snd].
  rewrite Hv.
  assert (Ev : orElse (Some v) [] = v).
  { destruct Hs as (u & e & -> & _). unfold orElse.
    destruct (u ++ [e]) eqn:E; [now destruct u | reflexivity]. }
  rewrite Ev.
  destruct ((10 <? length (trim v)) && (length (trim v) <? 200)) eqn:El;
    [| constructor].
  constructor; [| constructor].
  apply andb_true_iff in El. destruct El as [L1 L2].
  apply Nat.ltb_lt in L1, L2.
  split; [now apply trim_sentence |].
  split; [apply DateFacts.trim_idempotent | lia].
Qed.

Lemma requirement_shapes :
  Forall (fun p => exists a b c d, p = seqs [a; b; c; d; sentence])
    requirementPatterns.
Proof. unfold requirementPatterns. repeat constructor; repeat eexists. Qed.

Lemma responsibility_shapes :
  Forall (fun p => exists a b c d, p = seqs [a; b; c; d; sentence])
    responsibilityPatterns.
Proof. unfold responsibilityPatterns. repeat constructor; repeat eexists. Qed.

Lemma Forall_firstn {A : Type} (P : A -> Prop) (n : nat) (l : list A) :
  Forall P l -> Forall P (firstn n l).
Proof.
  intros H. revert n. induction H as [| a l Ha _ IH]; intros n;
    [destruct n; constructor |].
  destruct n; constructor; auto.
Qed.

(** X19: [extractResponsibilities] returns five entries at most, and each
    of them is one sentence: it ends with [.], [!] or [?] and holds no
    other of these, has no white space at either end, and has more than
    10 and less than 200 units. *)
Theorem X19_responsibilities_are_sentences (text : jsstring) :
  Forall keptSentence (extractResponsibilities text)
  /\ length (extractResponsibilities text) <= 5.
Proof.
  unfold extractResponsibilities. split.
  - apply Forall_firstn, sentencesOf_kept, responsibility_shapes.
  - apply firstn_le_length.
Qed.

(** X20: [extractRequirements] returns sentences found by its patterns,
    each of them one sentence as above, followed by five bullet lines at
    most, each without white space at either end and with more than 10
    and less than 150 units. *)
Theorem X20_requirements_are_sentences_and_lines (text : jsstring) :
  exists sentences lines,
    extractRequirements text = sentences ++ lines
    /\ Forall keptSentence sentences
    /\ Forall keptLine lines /\ length lines <= 5.
Proof.
  unfold extractRequirements. eexists. eexists. split; [reflexivity |].
  split; [apply sentencesOf_kept, requirement_shapes |].
  split; [| apply firstn_le_length].
  apply Forall_firstn. apply Forall_forall. intros b Hb.
  apply filter_In in Hb. destruct Hb as [Hb Hl].
  apply in_map_iff in Hb. destruct Hb as (line & <- & _).
  apply andb_true_iff in Hl. destruct Hl as [L1 L2].
  apply Nat.ltb_lt in L1, L2.
  split; [apply DateFacts.trim_idempotent | lia].
Qed.

(** No sentence pattern has an empty match. *)
Lemma sentence_patterns_consume (p : regex) (bef s w : jsstring)
  (cs : list (nat * jsstring)) :
  In p (requirementPatterns ++ responsibilityPatterns) ->
  matchHere true p bef s = Some (w, cs) -> w <> [].
Proof.
  intros Hp H. apply matchHere_length in H. destruct H as [H _].
  assert (L : forallb (fun p => 1 <=? minLen p)
                (requirementPatterns ++ responsibilityPatterns) = true)
    by (vm_compute; reflexivity).
  rewrite forallb_forall in L. specialize (L p Hp). apply Nat.leb_le in L.
  destruct w; [cbn in H; lia | discriminate].
Qed.

Lemma scan_units (ic : bool) (r : regex) (Q : N -> bool) :
  forall s skip bef acc,
    forallb Q s = true ->
    Forall (fun w => forallb Q w = true) (matchesOf (scan ic r skip bef acc s)).
Proof.
  induction s as [| c s IH]; intros skip bef acc Hs; cbn [scan].
  - destruct skip; [| constructor].
    destruct (matchHere ic r bef []) as [[w cs] |] eqn:E; [| constructor].
    apply matchHere_length in E. destruct E as [_ (rest & E)].
    destruct w; [| discriminate E]. cbn. now constructor.
  - assert (Hs' : forallb Q s = true).
    { cbn [forallb] in Hs. now apply andb_true_iff in Hs. }
    destruct skip as [| j]; [| now apply IH].
    destruct (matchHere ic r bef (c :: s)) as [[w cs] |] eqn:E; [| now apply IH].
    apply matchHere_length in E. destruct E as [_ (rest & E)].
    assert (Hw : forallb Q w = true).
    { rewrite E, forallb_app in Hs. now apply andb_true_iff in Hs. }
    destruct w as [| a w']; cbn [matchesOf flat_map app]; constructor;
      try exact Hw; now apply IH.
Qed.

Lemma wordRe_atoms : atomsIn false isWordChar wordRe.
Proof.
  unfold wordRe, plus. cbn [seqs atomsIn]. repeat split.
  intros d. unfold clsMatch, wordRanges, inRanges, isWordChar.
  cbn [xorb app existsb digitRanges upperRanges lowerRanges one fst snd].
  intros H. rewrite orb_false_r in H.
  destruct ((48 <=? d) && (d <=? 57))%N; [reflexivity |].
  destruct ((65 <=? d) && (d <=? 90))%N; [reflexivity |].
  destruct ((97 <=? d) && (d <=? 122))%N; [reflexivity |].
  cbn [orb] in *. rewrite orb_false_r in H.
  apply andb_true_iff in H. destruct H as [H1 H2].
  apply N.leb_le in H1, H2. apply N.eqb_eq. lia.
Qed.

(** The words that [extractKeywords] reads are made of lower-case
    letters, digits and [_]. *)
Lemma words_units (text : jsstring) :
  Forall (fun w => forallb keywordUnit w = true)
    match matchAll false wordRe (toLowerCase text) with
    | Some l => l
    | None => []
    end.
Proof.
  destruct (matchAll false wordRe (toLowerCase text)) as [l |] eqn:E;
    [| constructor].
  pose proof (matchAll_sound false isWordChar wordRe _ _ wordRe_atoms E) as F1.
  assert (F2 : Forall (fun w => forallb notUpper w = true) l).
  { unfold matchAll in E.
    pose proof (scan_units false wordRe notUpper (toLowerCase text) 0 [] []
                  (toLowerCase_lowered text)) as F.
    destruct (matchesOf _); [discriminate |]. now injection E as <-. }
  rewrite Forall_forall in *. intros w Hw. unfold keywordUnit.
  specialize (F1 w Hw). specialize (F2 w Hw).
  rewrite forallb_forall in *. intros c Hc.
  now rewrite (F1 c Hc), (F2 c Hc).
Qed.

Lemma keys_bump (w : jsstring) (freq : list (jsstring * nat)) :
  map fst (bump w freq)
  = if Extractor.member w (map fst freq) then map fst freq
    else map fst freq ++ [w].
Proof.
  induction freq as [| [v n] freq IH]; [reflexivity |].
  cbn [bump map fst Extractor.member existsb].
  destruct (str_eqb v w) eqn:E.
  - apply ExtractorFacts.str_eqb_eq in E. subst v.
    assert (E : str_eqb w w = true) by now apply ExtractorFacts.str_eqb_eq.
    now rewrite E.
  - assert (E' : str_eqb w v = false).
    { destruct (str_eqb w v) eqn:E'; [| reflexivity].
      apply ExtractorFacts.str_eqb_eq in E'. subst v.
      assert (E'' : str_eqb w w = true) by now apply ExtractorFacts.str_eqb_eq.
      congruence. }
    rewrite E'. cbn [orb map fst]. rewrite IH. unfold Extractor.member.
    destruct (existsb (str_eqb w) (map fst freq)); reflexivity.
Qed.

Lemma keys_bump_inv (w : jsstring) (freq : list (jsstring * nat))
  (all : list jsstring) :
  In w all ->
  NoDup (map fst freq) /\ incl (map fst freq) all ->
  NoDup (map fst (bump w freq)) /\ incl (map fst (bump w freq)) all.
Proof.
  intros Hw [N I]. rewrite keys_bump.
  destruct (Extractor.member w (map fst freq)) eqn:E; [now split |].
  split.
  - apply NoDup_app; [exact N | repeat constructor; intros [] |].
    intros x Hx [<- | []]. apply ExtractorFacts.member_In in Hx. congruence.
  - apply incl_app; [exact I |]. intros x [<- | []]. exact Hw.
Qed.

Lemma count_keys (pk all : list jsstring) (freq : list (jsstring * nat)) :
  incl pk all ->
  NoDup (map fst freq) /\ incl (map fst freq) all ->
  let result :=
    fold_left (fun freq word =>
                 if str_eqb word (lit "__proto__") then freq else bump word freq)
      pk freq in
  NoDup (map fst result) /\ incl (map fst result) all.
Proof.
  revert freq. induction pk as [| w pk IH]; intros freq Hpk H; [exact H |].
  cbn [fold_left]. apply IH.
  - intros x Hx. apply Hpk. now right.
  - destruct (str_eqb w (lit "__proto__")); [exact H |].
    apply keys_bump_inv; [apply Hpk; now left | exact H].
Qed.

Lemma insertIndex_perm (e : jsstring * nat) (l : list (jsstring * nat)) :
  Permutation (insertIndex e l) (e :: l).
Proof.
  induction l as [| f l IH]; [apply Permutation_refl |]. cbn [insertIndex].
  destruct (_ <? _)%N; [apply Permutation_refl |].
  apply perm_trans with (f :: e :: l); [now apply perm_skip | apply perm_swap].
Qed.

Lemma sortIndex_perm (l : list (jsstring * nat)) :
  Permutation (fold_right insertIndex [] l) l.
Proof.
  induction l as [| e l IH]; [apply perm_nil |]. cbn [fold_right].
  apply perm_trans with (e :: fold_right insertIndex [] l);
    [apply insertIndex_perm | now apply perm_skip].
Qed.

Lemma partition_perm {A : Type} (f : A -> bool) (l : list A) :
  Permutation (filter f l ++ filter (fun e => negb (f e)) l) l.
Proof.
  induction l as [| a l IH]; [apply perm_nil |]. cbn [filter].
  destruct (f a); cbn [negb app].
  - now apply perm_skip.
  - apply Permutation_sym, Permutation_cons_app, Permutation_sym, IH.
Qed.

(** [Object.entries] lists every entry once. *)
Lemma entries_perm (freq : list (jsstring * nat)) :
  Permutation (entries freq) freq.
Proof.
  unfold entries.
  apply perm_trans with
    (filter (fun e => isArrayIndex (fst e)) freq
     ++ filter (fun e => negb (isArrayIndex (fst e))) freq).
  - apply Permutation_app_tail, sortIndex_perm.
  - apply (partition_perm (fun e => isArrayIndex (fst e))).
Qed.

Lemma insertScored_perm (x : scored) (l : list scored) :
  Permutation (insertScored x l) (x :: l).
Proof.
  induction l as [| y l IH]; [apply Permutation_refl |]. cbn [insertScored].
  destruct (goesBefore x y); [apply Permutation_refl |].
  apply perm_trans with (y :: x :: l); [now apply perm_skip | apply perm_swap].
Qed.

Lemma sortScored_perm_acc (l acc : list scored) :
  Permutation (fold_left (fun sorted x => insertScored x sorted) l acc)
    (acc ++ l).
Proof.
  revert acc. induction l as [| x l IH]; intros acc; cbn [fold_left].
  - rewrite app_nil_r. apply Permutation_refl.
  - apply perm_trans with (insertScored x acc ++ l); [apply IH |].
    apply perm_trans with ((x :: acc) ++ l).
    + apply Permutation_app_tail, insertScored_perm.
    + cbn [app]. apply Permutation_cons_app, Permutation_refl.
Qed.

(** The sort lists every element once. *)
Lemma sortScored_perm (l : list scored) : Permutation (sortScored l) l.
Proof. apply (sortScored_perm_acc l []). Qed.

Lemma word_scoreOf (l : list (jsstring * nat)) :
  map word (map scoreOf l) = map fst l.
Proof.
  rewrite map_map. apply map_ext. intros [w n]. reflexivity.
Qed.

Lemma NoDup_firstn {A : Type} (n : nat) (l : list A) :
  NoDup l -> NoDup (firstn n l).
Proof.
  intros H. rewrite <- (firstn_skipn n l) in H.
  now apply NoDup_app_remove_r in H.
Qed.

Lemma incl_firstn {A : Type} (n : nat) (l : list A) : incl (firstn n l) l.
Proof.
  intros x Hx. rewrite <- (firstn_skipn n l). apply in_or_app. now left.
Qed.

(** The words of the result, whichever way they are sorted. *)
Lemma keywords_sorted (sortNaN : list scored -> list scored) (text : jsstring) :
  (forall l, Permutation (sortNaN l) l) ->
  exists pk sorted,
    extractKeywords sortNaN text = map word (firstn 25 sorted)
    /\ pk = filter potentialKeyword
              match matchAll false wordRe (toLowerCase text) with
              | Some l => l
              | None => []
              end
    /\ Permutation sorted (map scoreOf (entries (count pk))).
Proof.
  intros Hs. unfold extractKeywords. cbn zeta.
  set (pk := filter potentialKeyword _).
  exists pk. eexists. split; [reflexivity |]. split; [reflexivity |].
  destruct (Extractor.member (lit "constructor") pk);
    [apply Hs | apply sortScored_perm].
Qed.

(** X21: the keywords that [extractKeywords] returns, for every text and
    in whatever order the engine leaves an array that it sorts with a
    comparison function that is not consistent (the case of a text with
    the word [constructor]), are 25 at most, are distinct, and each of
    them passes the filter of the function (four units or more, no stop
    word, and a technical term, a word with a digit or [_], or a word of
    more than six units) and is made of lower-case letters, digits and
    [_]. *)
Theorem X21_keywords_are_distinct_words (sortNaN : list scored -> list scored)
  (text : jsstring) :
  (forall l, Permutation (sortNaN l) l) ->
  length (extractKeywords sortNaN text) <= 25
  /\ NoDup (extractKeywords sortNaN text)
  /\ Forall keptKeyword (extractKeywords sortNaN text).
Proof.
  intros Hs.
  destruct (keywords_sorted sortNaN text Hs) as (pk & sorted & -> & Epk & Hp0).
  set (freq := count pk) in *.
  assert (Hk : NoDup (map fst freq) /\ incl (map fst freq) pk).
  { apply (count_keys pk pk []); [apply incl_refl |].
    split; [constructor | intros x []]. }
  destruct Hk as [Hn Hi].
  assert (Hp : Permutation (map word sorted) (map fst freq)).
  { apply perm_trans with (map word (map scoreOf (entries freq))).
    - now apply Permutation_map.
    - rewrite word_scoreOf. apply Permutation_map, entries_perm. }
  rewrite <- firstn_map. split; [| split].
  - apply firstn_le_length.
  - apply NoDup_firstn. revert Hn. apply Permutation_NoDup.
    now apply Permutation_sym.
  - apply Forall_forall. intros w Hw. apply incl_firstn in Hw.
    apply (Permutation_in _ Hp), Hi in Hw.
    subst pk. apply filter_In in Hw. destruct Hw as [Hw Hpk].
    split; [exact Hpk |].
    pose proof (words_units text) as F. rewrite Forall_forall in F.
    now apply F.
Qed.

Lemma X21_witness :
  length (extractKeywords (fun l => l)
            (lit "A constructor of Python services")) <= 25
  /\ NoDup (extractKeywords (fun l => l)
              (lit "A constructor of Python services"))
  /\ Forall keptKeyword
       (extractKeywords (fun l => l) (lit "A constructor of Python services")).
Proof.
  apply (X21_keywords_are_distinct_words (fun l => l)
           (lit "A constructor of Python services")).
  intros l. reflexivity.
Defined.

Lemma agree_all :
  forallb (fun k => forallb (agrees k) (seq 0 106)) (seq 0 26) = true.
Proof. vm_compute. reflexivity. Qed.

Lemma in_range (n bound : nat) : n < bound -> In n (seq 0 bound).
Proof. intros H. apply in_seq. lia. Qed.

(** On the sizes that the analysis can reach the doubles give the score
    of exact arithmetic. *)
Lemma score_agrees (k t : nat) :
  k <= 25 -> t <= 105 -> scoreFor k t = Some (exactScore k t).
Proof.
  intros Hk Ht. pose proof agree_all as H.
  rewrite forallb_forall in H. specialize (H k (in_range k 26 ltac:(lia))).
  rewrite forallb_forall in H. specialize (H t (in_range t 106 ltac:(lia))).
  unfold agrees in H. destruct (scoreFor k t) as [s |]; [| discriminate H].
  apply Z.eqb_eq in H. now subst s.
Qed.

Lemma exactScore_bounds (k t : nat) : (0 <= exactScore k t <= 100)%Z.
Proof. unfold exactScore. lia. Qed.

(** X22: for 25 keywords at most and 105 technical skills at most, the
    sizes that [extractKeywords] and [extractTechnicalSkills] can return,
    [calculateATSScore] returns the score that its formula gives in exact
    decimal arithmetic (the rounding of the doubles, of 1.4 for one, never
    changes the rounded score), an integer from 0 to 100. *)
Theorem X22_ats_score_is_the_exact_one (keywords technicalSkills : list jsstring) :
  length keywords <= 25 -> length technicalSkills <= 105 ->
  calculateATSScore keywords technicalSkills
  = Some (exactScore (length keywords) (length technicalSkills))
  /\ (0 <= exactScore (length keywords) (length technicalSkills) <= 100)%Z.
Proof.
  intros Hk Ht. split; [| apply exactScore_bounds].
  change (calculateATSScore keywords technicalSkills)
    with (scoreFor (length keywords) (length technicalSkills)).
  now apply score_agrees.
Qed.

Lemma X22_witness :
  calculateATSScore [lit "python"; lit "developer"; lit "machine"]
    [lit "python"]
  = Some (exactScore 3 1)
  /\ (0 <= exactScore 3 1 <= 100)%Z.
Proof.
  apply (X22_ats_score_is_the_exact_one
           [lit "python"; lit "developer"; lit "machine"] [lit "python"]);
    cbn; lia.
Defined.

Lemma keywords_length (sortNaN : list scored -> list scored) (text : jsstring) :
  length (extractKeywords sortNaN text) <= 25.
Proof.
  unfold extractKeywords. cbn zeta. rewrite length_map. apply firstn_le_length.
Qed.

Lemma technical_length (text : jsstring) :
  length (extractTechnicalSkills text) <= 105.
Proof.
  change 105 with (length (map technicalName technicalSkills)).
  apply NoDup_incl_length; [apply NoDup_distinct | apply found_in_table].
Qed.

Lemma found_soft (text : jsstring) :
  incl (extractSoftSkills text) (map softName softSkills).
Proof.
  intros x Hx. apply In_distinct, In_found in Hx.
  destruct Hx as (skill & Hs & _ & ->). now apply in_map.
Qed.

(** A technical skill and a soft skill never have the same name. *)
Lemma skills_apart (text : jsstring) :
  NoDup (extractTechnicalSkills text ++ extractSoftSkills text).
Proof.
  apply NoDup_app; [apply NoDup_distinct | apply NoDup_distinct |].
  intros x Ht Hs. apply found_in_table in Ht. apply found_soft in Hs.
  assert (D : forallb (fun name =>
                         negb (Extractor.member name (map softName softSkills)))
                (map technicalName technicalSkills) = true)
    by (vm_compute; reflexivity).
  rewrite forallb_forall in D. specialize (D x Ht).
  apply negb_true_iff in D. apply ExtractorFacts.member_In in Hs. congruence.
Qed.

(** X23: every analysis that [analyzeJobDescription] returns, whatever
    the description and the title, whatever the lower-casing of the
    engine does to the description and in whatever order its sort leaves
    the keywords of a text with the word [constructor], has skills
    without a duplicate, 25 keywords at most, an experience level that is
    one of the three labels, an ATS score that is an integer from 0 to
    100, and exactly eight recommendations. *)
Theorem X23_analysis_is_well_formed (lowerCase : jsstring -> jsstring)
  (sortNaN : list scored -> list scored) (description : jsstring)
  (title : option jsstring) :
  let a := analyzeJobDescription lowerCase sortNaN description title in
  NoDup (skills a)
  /\ length (keywords a) <= 25
  /\ Extractor.member (experienceLevel a) [seniorLevel; midLevel; juniorLevel]
     = true
  /\ (exists score, atsScore a = Some score /\ (0 <= score <= 100)%Z)
  /\ length (recommendations a) = 8.
Proof.
  unfold analyzeJobDescription. cbn zeta.
  cbn [skills keywords experienceLevel atsScore recommendations].
  set (text := lowerCase description).
  pose proof (keywords_length sortNaN text) as Hk.
  pose proof (technical_length text) as Ht.
  pose proof (level_range text title) as Hl.
  split; [apply skills_apart |]. split; [exact Hk |]. split.
  { destruct Hl as [-> | [-> | ->]]; reflexivity. }
  split.
  - exists (exactScore (length (extractKeywords sortNaN text))
              (length (extractTechnicalSkills text))).
    split; [| apply exactScore_bounds].
    change (calculateATSScore (extractKeywords sortNaN text)
              (extractTechnicalSkills text))
      with (scoreFor (length (extractKeywords sortNaN text))
              (length (extractTechnicalSkills text))).
    now apply score_agrees.
  - rewrite (recommendations_core _ _ _ Hl), length_firstn.
    destruct (core_shape (extractTechnicalSkills text)
                (extractSoftSkills text) _ frontendAdvice
                Hl (or_introl eq_refl)) as [Hlen _].
    cbn zeta in Hlen. lia.
Qed.

End JobFacts.

(* ================================================================== *)
(** * The PDF routes: file name and section list *)
(* ================================================================== *)

Module PdfFacts.
Import Renderer Validator Pdf JobFacts.
Unset Implicit Arguments.

Lemma matchHere_ClsNeg (ranges : list (N * N)) (bef s : jsstring) :
  matchHere false (Cls true ranges) bef s
  = unitMatch (fun c => negb (inRanges ranges c)) s.
Proof.
  unfold matchHere, unitMatch. cbn [m]. unfold step. cbn [ahead].
  destruct s as [| c s]; [reflexivity |].
  unfold clsMatch. cbn [xorb]. 
  destruct (inRanges ranges c); cbn [negb xorb]; [reflexivity |].
  cbn [before caps length]. rewrite EscapeFacts.one_more. reflexivity.
Qed.

Lemma strip_units (raw : jsstring) :
  forallb safeUnit (replaceAll false unsafeRe (fun _ => []) raw) = true.
Proof.
  unfold unsafeRe.
  rewrite (@EscapeFacts.replaceAll_unit _
             (fun c => negb (inRanges (JobAnalysis.wordRanges ++ spaceRanges
                                       ++ chars "-") c))
             (fun _ => []) raw
             (fun bef s => matchHere_ClsNeg _ bef s)).
  induction raw as [| c raw IH]; [reflexivity |]. cbn [flat_map].
  rewrite forallb_app, IH, andb_true_r.
  unfold safeUnit.
  destruct (inRanges _ c) eqn:E; cbn [negb forallb]; [now rewrite E | reflexivity].
Qed.

(** Where [\s+] does not match, the unit ahead is no white space. *)
Lemma spaces_miss (bef : jsstring) (c : N) (s' : jsstring) :
  matchHere false spacesRe bef (c :: s') = None -> notSpace c = true.
Proof.
  unfold notSpace. destruct (inRanges spaceRanges c) eqn:E; [| reflexivity].
  unfold matchHere, spacesRe, plus, space.
  cbn [m repLoop ahead Nat.add Nat.eqb negb before caps groupsOf andb].
  unfold step at 1. cbn [ahead]. unfold clsMatch at 1. cbn [xorb]. rewrite E.
  cbn [length repLoop pred decMax option_map Nat.eqb negb].
  match goal with
  | |- context [match ?again with Some z => Some z | None => Some ?y end] =>
      destruct again
  end; discriminate.
Qed.

Lemma spaces_hit (bef s w : jsstring) (cs : list (nat * jsstring)) :
  matchHere false spacesRe bef s = Some (w, cs) -> w <> [].
Proof.
  intros H. apply matchHere_length in H. destruct H as [H _].
  cbn in H. destruct w; [cbn in H; lia | discriminate].
Qed.

(** The stretches between the matches of a pattern that has no empty
    match are made of units at which the pattern does not match. *)
Lemma scan_between (ic : bool) (r : regex) (P Q : N -> bool) :
  (forall bef s w cs, matchHere ic r bef s = Some (w, cs) -> w <> []) ->
  (forall bef c s', matchHere ic r bef (c :: s') = None -> Q c = true) ->
  forall s skip bef acc,
    forallb P s = true ->
    forallb (fun c => P c && Q c) acc = true ->
    Forall (pieceUnits (fun c => P c && Q c)) (scan ic r skip bef acc s).
Proof.
  intros Hit Miss. induction s as [| c s IH]; intros skip bef acc Hs Hacc;
    cbn [scan].
  - assert (Hrev : forallb (fun c => P c && Q c) (rev acc) = true).
    { rewrite forallb_forall in *. intros x Hx. apply Hacc. now apply in_rev. }
    destruct skip; [| repeat constructor; exact Hrev].
    destruct (matchHere ic r bef []) as [[w cs] |]; repeat constructor; exact Hrev.
  - cbn [forallb] in Hs. apply andb_true_iff in Hs. destruct Hs as [Hc Hs].
    assert (Hrev : forallb (fun c => P c && Q c) (rev acc) = true).
    { rewrite forallb_forall in *. intros x Hx. apply Hacc. now apply in_rev. }
    destruct skip as [| j]; [| now apply IH].
    destruct (matchHere ic r bef (c :: s)) as [[w cs] |] eqn:E.
    + destruct w as [| a w']; [now apply Hit in E |].
      constructor; [exact Hrev |]. constructor; [exact I |]. now apply IH.
    + apply IH; [exact Hs |]. cbn [forallb].
      now rewrite Hc, (Miss _ _ _ E), Hacc.
Qed.

Lemma squeeze_units (t : jsstring) :
  forallb safeUnit t = true ->
  forallb fileUnit (replaceAll false spacesRe (fun _ => lit "_") t) = true.
Proof.
  intros Ht. unfold replaceAll.
  pose proof (scan_between false spacesRe safeUnit notSpace spaces_hit spaces_miss
                t 0 [] [] Ht eq_refl) as F.
  induction F as [| e l He _ IH]; [reflexivity |]. cbn [flat_map].
  rewrite forallb_app, IH, andb_true_r.
  destruct e as [piece | w]; [| reflexivity]. cbn [pieceUnits] in He.
  rewrite forallb_forall in *. intros c Hc. specialize (He c Hc).
  apply andb_true_iff in He. destruct He as [Hs Hn].
  unfold safeUnit, notSpace in *. apply negb_true_iff in Hn.
  unfold inRanges in Hs. rewrite !existsb_app in Hs.
  fold (inRanges JobAnalysis.wordRanges c) in Hs.
  fold (inRanges spaceRanges c) in Hs. rewrite Hn in Hs.
  cbn [orb] in Hs. unfold fileUnit.
  apply orb_true_iff in Hs. destruct Hs as [Hs | Hs].
  - apply orb_true_iff. left.
    revert Hs. unfold inRanges, JobAnalysis.wordRanges, isWordChar.
    cbn [app existsb digitRanges upperRanges lowerRanges one fst snd].
    intros H. rewrite orb_false_r in H.
    destruct ((48 <=? c) && (c <=? 57))%N; [reflexivity |].
    destruct ((65 <=? c) && (c <=? 90))%N; [reflexivity |].
    destruct ((97 <=? c) && (c <=? 122))%N; [reflexivity |].
    cbn [orb] in *. rewrite orb_false_r in H.
    apply andb_true_iff in H. destruct H as [H1 H2].
    apply N.leb_le in H1, H2. apply N.eqb_eq. lia.
  - apply orb_true_iff. right. revert Hs.
    cbn [chars lit list_ascii_of_string map existsb one fst snd N_of_ascii].
    rewrite orb_false_r. intros H.
    apply andb_true_iff in H. destruct H as [H1 H2].
    apply N.leb_le in H1, H2. cbn in H1, H2. apply N.eqb_eq. lia.
Qed.

Lemma trim_units (P : N -> bool) (s : jsstring) :
  forallb P s = true -> forallb P (trim s) = true.
Proof.
  intros H. unfold trim, trimEnd.
  assert (R : forall l, forallb P l = true -> forallb P (rev l) = true).
  { intros l Hl. rewrite forallb_forall in *. intros x Hx. apply Hl.
    now apply in_rev. }
  apply R, trimStart_keeps, R, trimStart_keeps, H.
Qed.

Lemma sanitized_units (raw : jsstring) (dflt : string) :
  forallb fileUnit (lit dflt) = true -> lit dflt <> [] ->
  forallb fileUnit (sanitized raw dflt) = true /\ sanitized raw dflt <> [].
Proof.
  intros Hd Hn. unfold sanitized, orElse.
  set (out := replaceAll false spacesRe _ _).
  assert (Ho : forallb fileUnit out = true).
  { apply squeeze_units, trim_units, strip_units. }
  destruct (nonEmpty out) eqn:E; [| now split].
  split; [exact Ho |]. intros ->. discriminate E.
Qed.

(** X24: The download name that [buildPdfFilename] returns is
    [<name>_Resume_<company>_<day>.pdf], where the two parts are not empty
    and hold letters, digits, [_] and [-] only: whatever the resume's name
    and the company are, they bring no white space, no dot, no slash and
    no quote into the file name. *)
Theorem X24_pdf_filename_parts_are_safe (timestamp company f : jsstring)
  (resume : ResumeData.t) :
  buildPdfFilename timestamp resume company = Ok f ->
  exists name firm,
    f = name ++ lit "_Resume_" ++ firm ++ lit "_" ++ timestamp ++ lit ".pdf"
    /\ name <> [] /\ firm <> []
    /\ forallb fileUnit name = true /\ forallb fileUnit firm = true.
Proof.
  unfold buildPdfFilename.
  destruct (ResumeData.personalInfo resume) as [p |]; [| discriminate].
  intros [= <-].
  destruct (sanitized_units (orElse (PersonalInfo.name p) (lit "Resume")) "Resume"
              eq_refl) as [N1 N2]; [discriminate |].
  destruct (sanitized_units company "General" eq_refl) as [C1 C2];
    [discriminate |].
  eexists. eexists. split; [reflexivity |]. now repeat split.
Qed.

Lemma X24_witness :
  buildPdfFilename (lit "2024-05-17") blankSummary (lit "  ***  ")
  = Ok (lit "Ada_Lovelace_PhD_Resume_General_2024-05-17.pdf")
  /\ exists name firm,
       lit "Ada_Lovelace_PhD_Resume_General_2024-05-17.pdf"
       = name ++ lit "_Resume_" ++ firm ++ lit "_" ++ lit "2024-05-17"
         ++ lit ".pdf"
       /\ name <> [] /\ firm <> []
       /\ forallb fileUnit name = true /\ forallb fileUnit firm = true.
Proof.
  split; [vm_compute; reflexivity |].
  apply (X24_pdf_filename_parts_are_safe (lit "2024-05-17") (lit "  ***  ") _
           blankSummary).
  vm_compute. reflexivity.
Defined.

(** The section list as a function of its seven tests. *)
Lemma pushed_names (b1 b2 b3 b4 b5 b6 b7 : bool) :
  let l := pushName b1 "summary" ++ pushName b2 "experience"
           ++ pushName b3 "education" ++ pushName b4 "skills"
           ++ pushName b5 "projects" ++ pushName b6 "certifications"
           ++ pushName b7 "awards" in
  l = filter (fun name => Extractor.member name l) sectionNames
  /\ listed "summary" l = b1 /\ listed "experience" l = b2
  /\ listed "education" l = b3 /\ listed "skills" l = b4
  /\ listed "projects" l = b5 /\ listed "certifications" l = b6
  /\ listed "awards" l = b7.
Proof.
  destruct b1, b2, b3, b4, b5, b6, b7; vm_compute; repeat split.
Qed.

Lemma hasAny_hasItems {A : Type} (a : option (list A)) :
  hasAny a = hasItems a.
Proof. now destruct a as [[| x l] |]. Qed.

Lemma length_hasItems {A : Type} (l : list A) :
  (0 <? length l) = hasItems (Some l).
Proof. now destruct l. Qed.

Ltac rendered build :=
  unfold build;
  match goal with |- context [hasItems ?e] => destruct (hasItems e) end;
  reflexivity.

Lemma experience_rendered (e : option (list Experience.t)) :
  nonEmpty (buildExperienceSection e) = hasItems e.
Proof. rendered buildExperienceSection. Qed.

Lemma education_rendered (e : option (list Education.t)) :
  nonEmpty (buildEducationSection e) = hasItems e.
Proof. rendered buildEducationSection. Qed.

Lemma skills_rendered (s : option (list Skill.t)) :
  nonEmpty (buildSkillsSection s) = hasItems s.
Proof. rendered buildSkillsSection. Qed.

Lemma certifications_rendered (c : option (list Certification.t)) :
  nonEmpty (buildCertificationsSection c) = hasItems c.
Proof. rendered buildCertificationsSection. Qed.

Lemma awards_rendered (a : option (list Award.t)) :
  nonEmpty (buildAwardsSection a) = hasItems a.
Proof. rendered buildAwardsSection. Qed.

Lemma projects_rendered (p : option (list Project.t)) (s : jsstring) :
  buildProjectsSection p = Ok s -> nonEmpty s = hasItems p.
Proof.
  unfold buildProjectsSection. destruct (hasItems p); cbn [negb].
  - destruct (mapM projectEntry (itemsOf p)); [| discriminate].
    cbn. now intros [= <-].
  - now intros [= <-].
Qed.

Lemma summary_rendered (s : option jsstring) :
  nonEmpty (buildSummary s) = truthy (trimOpt s).
Proof.
  unfold buildSummary. now destruct (truthy (trimOpt s)).
Qed.

Lemma blank_is_trimmed_away (s : option jsstring) :
  truthy (trimOpt s) = true -> truthy s = true.
Proof.
  destruct s as [[| c s] |]; cbn; try discriminate; reflexivity.
Qed.

(** X25: When [getResumeSections] returns, its list holds the seven section
    names in their fixed order, each at most once, and it names the
    sections that the renderer writes for the same record: experience,
    education, skills, projects, certifications and awards are listed
    exactly when their LaTeX section is not empty.  For the summary the
    two differ in one direction only: a rendered summary is always
    listed, a listed one may be blank and then is not rendered. *)
Theorem X25_listed_sections_are_the_rendered_ones (r : ResumeData.t)
  (l : list jsstring) :
  getResumeSections r = Ok l ->
  l = filter (fun name => Extractor.member name l) sectionNames
  /\ listed "experience" l
     = nonEmpty (buildExperienceSection (ResumeData.experience r))
  /\ listed "education" l
     = nonEmpty (buildEducationSection (ResumeData.education r))
  /\ listed "skills" l = nonEmpty (buildSkillsSection (ResumeData.skills r))
  /\ (forall s, buildProjectsSection (ResumeData.projects r) = Ok s ->
                listed "projects" l = nonEmpty s)
  /\ listed "certifications" l
     = nonEmpty (buildCertificationsSection (ResumeData.certifications r))
  /\ listed "awards" l = nonEmpty (buildAwardsSection (ResumeData.awards r))
  /\ listed "summary" l = truthy (ResumeData.summary r)
  /\ (nonEmpty (buildSummary (ResumeData.summary r)) = true ->
      listed "summary" l = true).
Proof.
  unfold getResumeSections.
  destruct (ResumeData.experience r) as [e |] eqn:Ee; [| discriminate].
  destruct (ResumeData.education r) as [d |] eqn:Ed; [| discriminate].
  destruct (ResumeData.skills r) as [k |] eqn:Ek; [| discriminate].
  cbn [lengthOf bind]. intros [= <-].
  rewrite experience_rendered, education_rendered, skills_rendered,
    certifications_rendered, awards_rendered, summary_rendered.
  rewrite !length_hasItems, !hasAny_hasItems.
  destruct (pushed_names (truthy (ResumeData.summary r)) (hasItems (Some e))
              (hasItems (Some d)) (hasItems (Some k))
              (hasItems (ResumeData.projects r))
              (hasItems (ResumeData.certifications r))
              (hasItems (ResumeData.awards r)))
    as (F & L1 & L2 & L3 & L4 & L5 & L6 & L7).
  repeat split; try assumption.
  - intros s Hs. rewrite (projects_rendered _ _ Hs). exact L5.
  - intros H. rewrite L1. now apply blank_is_trimmed_away.
Qed.

Lemma X25_witness :
  getResumeSections blankSummary = Ok (map lit ["summary"; "experience"]%string)
  /\ listed "summary" (map lit ["summary"; "experience"]%string) = true
  /\ buildSummary (ResumeData.summary blankSummary) = [].
Proof.
  split; [vm_compute; reflexivity |].
  split; [| vm_compute; reflexivity].
  destruct (X25_listed_sections_are_the_rendered_ones blankSummary
              (map lit ["summary"; "experience"]%string))
    as (_ & _ & _ & _ & _ & _ & _ & H & _).
  - vm_compute. reflexivity.
  - rewrite H. vm_compute. reflexivity.
Defined.

(** X26: On a validated record [getResumeSections] always returns, and
    validation changes nothing in the list: the raw record either gives
    the same list or, lacking its experience, education or skills array,
    makes the function throw a TypeError. *)
Theorem X26_validation_only_removes_the_TypeError (r : ResumeData.t) :
  exists l,
    getResumeSections (validateResumeData r) = Ok l
    /\ (getResumeSections r = Ok l
        \/ (getResumeSections r = Throw TypeError
            /\ (ResumeData.experience r = None
                \/ ResumeData.education r = None
                \/ ResumeData.skills r = None))).
Proof.
  destruct r as [p s e d k j c a]. unfold getResumeSections, validateResumeData.
  cbn [ResumeData.experience ResumeData.education ResumeData.skills
       ResumeData.projects ResumeData.certifications ResumeData.awards
       ResumeData.summary].
  assert (H : forall (A : Type) (o : option (list A)),
             hasAny (orEmpty o) = hasAny o) by (intros A [x |]; reflexivity).
  rewrite !H.
  destruct e as [e |], d as [d |], k as [k |]; cbn [orEmpty lengthOf bind];
    eexists; (split; [reflexivity |]);
    first [ left; reflexivity | right; split; [reflexivity | tauto] ].
Qed.

End PdfFacts.

(* ================================================================== *)
(** * A template without the begin marker *)
(* ================================================================== *)

Module TemplateFacts.
Import Renderer.
Unset Implicit Arguments.

(** X27: A template that lacks [\begin{document}] is not used at all: the
    result is the default preamble, the begin marker, the generated body
    and the end marker, with nothing after it.  Text of the template,
    also an end marker and what follows it, never reaches the output;
    the call throws only where building the body throws. *)
Theorem X27_template_without_begin_marker_is_ignored (r : ResumeData.t)
  (T : jsstring) :
  includes beginDelimiter T = false ->
  generateLatexFromResume r T
  = rmap (fun body =>
            getDefaultPreamble ++ beginDelimiter ++ nl ++ body ++ nl
            ++ endDelimiter)
      (buildLatexBody r).
Proof.
  intros H. unfold generateLatexFromResume. rewrite H.
  cbn [nth_error orElse nonEmpty].
  assert (E : (if includes endDelimiter T
               then join endDelimiter (skipn 1 (split endDelimiter []))
               else []) = []).
  { destruct (includes endDelimiter T); reflexivity. }
  rewrite E. cbn [nonEmpty]. unfold rmap. reflexivity.
Qed.

Lemma X27_witness :
  generateLatexFromResume nameOnly (lit "\title{Mine}\end{document} notes")
  = rmap (fun body =>
            getDefaultPreamble ++ beginDelimiter ++ nl ++ body ++ nl
            ++ endDelimiter)
      (buildLatexBody nameOnly).
Proof.
  apply (X27_template_without_begin_marker_is_ignored nameOnly
           (lit "\title{Mine}\end{document} notes")).
  vm_compute. reflexivity.
Defined.

End TemplateFacts.

(* ================================================================== *)
(** * The escaper on the leaf strings *)
(* ================================================================== *)

Module LeafFacts.
Import Renderer.
Unset Implicit Arguments.

Lemma collapse_app (a b : jsstring) :
  lastCR a && headLF b = false ->
  collapseNewlines (a ++ b) = collapseNewlines a ++ collapseNewlines b.
Proof.
  induction a as [| c a IH]; intros H; [reflexivity |].
  cbn [app collapseNewlines].
  destruct a as [| d a].
  - cbn [app lastCR] in *. destruct (c =? LF)%N; [reflexivity |].
    destruct b as [| e b]; cbn [headLF] in H.
    + rewrite andb_false_r. reflexivity.
    + cbn [collapseNewlines app]. destruct (c =? CR)%N; cbn [andb] in *.
      * rewrite H. reflexivity.
      * reflexivity.
  - change (lastCR (c :: d :: a)) with (lastCR (d :: a)) in H.
    specialize (IH H). cbn [app] in *.
    destruct (c =? LF)%N; [now rewrite IH |].
    destruct ((c =? CR)%N && (d =? LF)%N); rewrite IH; reflexivity.
Qed.

Lemma escapeText_app (a b : jsstring) :
  lastCR a && headLF b = false ->
  escapeText (a ++ b) = escapeText a ++ escapeText b.
Proof.
  intros H. rewrite !EscapeFacts.escapeText_units, collapse_app by exact H.
  apply flat_map_app.
Qed.

Section Contexts.
Variable shown : jsstring -> jsstring.
Variable ok : jsstring -> bool.

Lemma shownIn_hole : shownIn shown ok shown.
Proof. exists [], []. intros s _. now rewrite app_nil_r. Qed.

Lemma shownIn_first (b : jsstring) : shownIn shown ok (fun s => shown s ++ b).
Proof. exists [], b. reflexivity. Qed.

Lemma shownIn_after (a : jsstring) (f : jsstring -> jsstring) :
  shownIn shown ok f -> shownIn shown ok (fun s => a ++ f s).
Proof.
  intros (pre & post & H). exists (a ++ pre), post. intros s Hs.
  now rewrite (H s Hs), app_assoc.
Qed.

Lemma shownIn_before (b : jsstring) (f : jsstring -> jsstring) :
  shownIn shown ok f -> shownIn shown ok (fun s => f s ++ b).
Proof.
  intros (pre & post & H). exists pre, (post ++ b). intros s Hs.
  now rewrite (H s Hs), <- !app_assoc.
Qed.

Lemma shownIn_ext (f g : jsstring -> jsstring) :
  (forall s, ok s = true -> f s = g s) ->
  shownIn shown ok g -> shownIn shown ok f.
Proof.
  intros E (pre & post & H). exists pre, post. intros s Hs.
  now rewrite (E s Hs), (H s Hs).
Qed.

Lemma shownIn_weaken (ok' : jsstring -> bool) (f : jsstring -> jsstring) :
  (forall s, ok' s = true -> ok s = true) ->
  shownIn shown ok f -> shownIn shown ok' f.
Proof.
  intros W (pre & post & H). exists pre, post. intros s Hs.
  apply H, W, Hs.
Qed.

Lemma join_middle (sep x : jsstring) (l1 l2 : list jsstring) :
  join sep (l1 ++ x :: l2)
  = (if 0 <? length l1 then join sep l1 ++ sep else [])
    ++ x ++ (if 0 <? length l2 then sep ++ join sep l2 else []).
Proof.
  induction l1 as [| y l1 IH].
  - cbn [app length Nat.ltb Nat.leb]. destruct l2 as [| z l2]; cbn [join length].
    + now rewrite app_nil_r.
    + reflexivity.
  - cbn [app length]. change (0 <? S (length l1)) with true. cbv iota.
    destruct l1 as [| y' l1].
    + cbn [app join] in *. cbn [length Nat.ltb Nat.leb] in IH. cbv iota in IH.
      cbn [app] in IH.
      destruct l2 as [| z l2]; cbn [join length Nat.ltb Nat.leb] in *;
        rewrite <- ?app_assoc; try rewrite app_nil_r; reflexivity.
    + change (join sep (y :: (y' :: l1) ++ x :: l2))
        with (y ++ sep ++ join sep ((y' :: l1) ++ x :: l2)).
      rewrite IH. change (0 <? length (y' :: l1)) with true. cbv iota.
      change (join sep (y :: y' :: l1)) with (y ++ sep ++ join sep (y' :: l1)).
      now rewrite <- !app_assoc.
Qed.

Lemma shownIn_join (sep : jsstring) (l1 l2 : list jsstring)
  (f : jsstring -> jsstring) :
  shownIn shown ok f -> shownIn shown ok (fun s => join sep (l1 ++ f s :: l2)).
Proof.
  intros H. apply shownIn_ext with
    (g := fun s => (if 0 <? length l1 then join sep l1 ++ sep else [])
                   ++ f s
                   ++ (if 0 <? length l2 then sep ++ join sep l2 else [])).
  - intros s _. apply join_middle.
  - now apply shownIn_after, shownIn_before.
Qed.

End Contexts.


(** Down a concatenation to the part that holds the leaf. *)
Ltac descend :=
  repeat match goal with
         | |- shownIn _ _ (fun s => ?a ++ @?f s) =>
             apply (shownIn_after _ _ a f)
         end.

Ltac hole := descend; first [ apply shownIn_hole | apply shownIn_first ].

(** From the entries to the sections. *)

Lemma hasItems_middle {A : Type} (l1 l2 : list A) (x : A) :
  hasItems (Some (l1 ++ x :: l2)) = true.
Proof. now destruct l1. Qed.

Lemma filterTruthy_middle (a b : list jsstring) (x : jsstring) :
  nonEmpty x = true ->
  filterTruthy (a ++ x :: b) = filterTruthy a ++ x :: filterTruthy b.
Proof.
  intros H. unfold filterTruthy. rewrite filter_app. cbn [filter].
  now rewrite H.
Qed.

Lemma pushIf_nonEmpty (x : jsstring) : nonEmpty x = true -> pushIf x = [x].
Proof. intros H. unfold pushIf. now rewrite H. Qed.

Section Lifting.
Variable shown : jsstring -> jsstring.
Variable ok : jsstring -> bool.

Lemma written_ok (f : jsstring -> jsstring) :
  shownIn shown ok f -> writtenAs shown ok (fun s => Ok (f s)).
Proof.
  intros (pre & post & H). right. exists pre, post. intros s Hs.
  now rewrite (H s Hs).
Qed.

Lemma written_ext (f g : jsstring -> result jsstring) :
  (forall s, ok s = true -> f s = g s) ->
  writtenAs shown ok g -> writtenAs shown ok f.
Proof.
  intros E [(e & H) | (pre & post & H)].
  - left. exists e. intros s Hs. now rewrite (E s Hs), (H s Hs).
  - right. exists pre, post. intros s Hs. now rewrite (E s Hs), (H s Hs).
Qed.

(** A builder that may throw, followed by code that puts its text into a
    text. *)
Lemma written_bind (build : jsstring -> result jsstring)
  (k : jsstring -> jsstring -> result jsstring) :
  writtenAs shown ok build ->
  (forall f, shownIn shown ok f -> writtenAs shown ok (fun s => k s (f s))) ->
  writtenAs shown ok (fun s => bind (build s) (k s)).
Proof.
  intros [(e & H) | (pre & post & H)] K.
  - left. exists e. intros s Hs. now rewrite (H s Hs).
  - apply written_ext with (g := fun s => k s (pre ++ shown s ++ post)).
    + intros s Hs. now rewrite (H s Hs).
    + apply K. apply shownIn_after, shownIn_first.
Qed.

Lemma sections_shown (a b : list jsstring) (f : jsstring -> jsstring) :
  shownIn shown ok f -> (forall s, ok s = true -> nonEmpty (f s) = true) ->
  shownIn shown ok
    (fun s => join (nl ++ nl) (filterTruthy (a ++ f s :: b))).
Proof.
  intros H Hn.
  apply shownIn_ext with
    (g := fun s => join (nl ++ nl) (filterTruthy a ++ f s :: filterTruthy b)).
  - intros s Hs. now rewrite filterTruthy_middle by now apply Hn.
  - now apply shownIn_join.
Qed.

(** From the body to the document. *)
Lemma render_written (R : jsstring -> ResumeData.t) (T : jsstring) :
  writtenAs shown ok (fun s => buildLatexBody (R s)) ->
  writtenAs shown ok (fun s => generateLatexFromResume (R s) T).
Proof.
  intros H. unfold generateLatexFromResume. cbn zeta.
  apply written_bind; [exact H |]. intros f Hf.
  destruct (nonEmpty _).
  - apply written_ok, shownIn_before.
    do 3 apply shownIn_after. now apply shownIn_before.
  - apply written_ok. do 3 apply shownIn_after. now apply shownIn_before.
Qed.

End Lifting.


Ltac projections :=
  cbn [ResumeData.personalInfo ResumeData.summary ResumeData.experience
       ResumeData.education ResumeData.skills ResumeData.projects
       ResumeData.certifications ResumeData.awards].

(** The body around one of its sections: [n] sections come between the
    header and the one that holds the leaf. *)
Tactic Notation "inBody" constr(Hf) constr(Hn) integer(n) :=
  unfold buildLatexBody; projections;
  match goal with
  | |- writtenAs _ _ (fun s => bind (buildHeader ?p) _) =>
      destruct (buildHeader p) as [h | e];
      [| left; exists e; reflexivity]
  end;
  cbn [bind];
  match goal with
  | |- writtenAs _ _ (fun s => bind (buildProjectsSection ?p) _) =>
      destruct (buildProjectsSection p) as [pr | e];
      [| left; exists e; reflexivity]
  end;
  cbn [bind];
  eapply written_ext;
  [ intros s Hs; rewrite (pushIf_nonEmpty _ (Hn s Hs));
    do n rewrite app_assoc; reflexivity
  | apply written_ok;
    match goal with
    | |- shownIn _ _ (fun s => join _ (filterTruthy (?a ++ [_] ++ ?b))) =>
        apply (sections_shown _ _ a b _ Hf Hn)
    | |- shownIn _ _ (fun s => join _ (filterTruthy (?a ++ [_]))) =>
        apply (sections_shown _ _ a [] _ Hf Hn)
    end ].

Section Bodies.
Variable shown : jsstring -> jsstring.
Variable ok : jsstring -> bool.

Lemma body_summary (r : ResumeData.t) (X : jsstring -> jsstring) :
  shownIn shown ok (fun s => buildSummary (Some (X s))) ->
  (forall s, ok s = true -> nonEmpty (buildSummary (Some (X s))) = true) ->
  writtenAs shown ok (fun s => buildLatexBody (putSummary r (X s))).
Proof. intros Hf Hn. unfold putSummary. inBody Hf Hn 0. Qed.

Lemma body_experience (r : ResumeData.t) (l1 l2 : list Experience.t)
  (E : jsstring -> Experience.t) :
  shownIn shown ok (fun s => buildExperienceSection (Some (l1 ++ E s :: l2))) ->
  (forall s, ok s = true ->
             nonEmpty (buildExperienceSection (Some (l1 ++ E s :: l2))) = true) ->
  writtenAs shown ok (fun s => buildLatexBody (putExperience r l1 (E s) l2)).
Proof. intros Hf Hn. unfold putExperience. inBody Hf Hn 1. Qed.

Lemma body_skills (r : ResumeData.t) (l1 l2 : list Skill.t)
  (E : jsstring -> Skill.t) :
  shownIn shown ok (fun s => buildSkillsSection (Some (l1 ++ E s :: l2))) ->
  (forall s, ok s = true ->
             nonEmpty (buildSkillsSection (Some (l1 ++ E s :: l2))) = true) ->
  writtenAs shown ok (fun s => buildLatexBody (putSkill r l1 (E s) l2)).
Proof. intros Hf Hn. unfold putSkill. inBody Hf Hn 3. Qed.

Lemma body_education (r : ResumeData.t) (l1 l2 : list Education.t)
  (E : jsstring -> Education.t) :
  shownIn shown ok (fun s => buildEducationSection (Some (l1 ++ E s :: l2))) ->
  (forall s, ok s = true ->
             nonEmpty (buildEducationSection (Some (l1 ++ E s :: l2))) = true) ->
  writtenAs shown ok (fun s => buildLatexBody (putEducation r l1 (E s) l2)).
Proof. intros Hf Hn. unfold putEducation. inBody Hf Hn 4. Qed.

Lemma body_certifications (r : ResumeData.t) (l1 l2 : list Certification.t)
  (E : jsstring -> Certification.t) :
  shownIn shown ok
    (fun s => buildCertificationsSection (Some (l1 ++ E s :: l2))) ->
  (forall s, ok s = true ->
             nonEmpty (buildCertificationsSection (Some (l1 ++ E s :: l2)))
             = true) ->
  writtenAs shown ok (fun s => buildLatexBody (putCertification r l1 (E s) l2)).
Proof. intros Hf Hn. unfold putCertification. inBody Hf Hn 5. Qed.

Lemma body_awards (r : ResumeData.t) (l1 l2 : list Award.t)
  (E : jsstring -> Award.t) :
  shownIn shown ok (fun s => buildAwardsSection (Some (l1 ++ E s :: l2))) ->
  (forall s, ok s = true ->
             nonEmpty (buildAwardsSection (Some (l1 ++ E s :: l2))) = true) ->
  writtenAs shown ok (fun s => buildLatexBody (putAward r l1 (E s) l2)).
Proof. intros Hf Hn. unfold putAward. inBody Hf Hn 6. Qed.

(** A builder that may throw and returns a text that is not empty. *)
Lemma written_bind_nonEmpty (build : jsstring -> result jsstring)
  (k : jsstring -> jsstring -> result jsstring) :
  writtenAs shown ok build ->
  (forall s h, ok s = true -> build s = Ok h -> nonEmpty h = true) ->
  (forall f, shownIn shown ok f ->
             (forall s, ok s = true -> nonEmpty (f s) = true) ->
             writtenAs shown ok (fun s => k s (f s))) ->
  writtenAs shown ok (fun s => bind (build s) (k s)).
Proof.
  intros [(e & H) | (pre & post & H)] Hn K.
  - left. exists e. intros s Hs. now rewrite (H s Hs).
  - apply written_ext with (g := fun s => k s (pre ++ shown s ++ post)).
    + intros s Hs. now rewrite (H s Hs).
    + apply K; [apply shownIn_after, shownIn_first |].
      intros s Hs. apply (Hn s _ Hs), (H s Hs).
Qed.

Lemma header_nonEmpty (p : option PersonalInfo.t) (h : jsstring) :
  buildHeader p = Ok h -> nonEmpty h = true.
Proof.
  unfold buildHeader. destruct p as [p |]; [| discriminate].
  destruct (linkPart _ _); [| discriminate].
  destruct (linkPart _ _); [| discriminate].
  destruct (linkPart _ _); [| discriminate].
  cbn [bind]. now intros [= <-].
Qed.

Lemma body_header (r : ResumeData.t) (P : jsstring -> PersonalInfo.t) :
  writtenAs shown ok (fun s => buildHeader (Some (P s))) ->
  writtenAs shown ok (fun s => buildLatexBody (putHeader r (P s))).
Proof.
  intros H. unfold putHeader, buildLatexBody. projections.
  apply written_bind_nonEmpty; [exact H | |].
  - intros s h _. apply header_nonEmpty.
  - intros f Hf Hn.
    destruct (buildProjectsSection _) as [pr | e];
      [| left; exists e; reflexivity].
    cbn [bind]. apply written_ok.
    match goal with
    | |- shownIn _ _ (fun s => join _ (filterTruthy ([_] ++ ?b))) =>
        apply (sections_shown _ _ [] b _ Hf Hn)
    end.
Qed.

Lemma projects_nonEmpty (l1 l2 : list Project.t) (p : Project.t)
  (x : jsstring) :
  buildProjectsSection (Some (l1 ++ p :: l2)) = Ok x -> nonEmpty x = true.
Proof.
  unfold buildProjectsSection. rewrite hasItems_middle. cbn [negb].
  destruct (mapM _ _); [| discriminate]. cbn [bind]. now intros [= <-].
Qed.

Lemma body_projects (r : ResumeData.t) (l1 l2 : list Project.t)
  (P : jsstring -> Project.t) :
  writtenAs shown ok (fun s => buildProjectsSection (Some (l1 ++ P s :: l2))) ->
  writtenAs shown ok (fun s => buildLatexBody (putProject r l1 (P s) l2)).
Proof.
  intros H. unfold putProject, buildLatexBody. projections.
  destruct (buildHeader _) as [h | e]; [| left; exists e; reflexivity].
  cbn [bind].
  apply written_bind_nonEmpty; [exact H | |].
  - intros s x _. apply projects_nonEmpty.
  - intros f Hf Hn. eapply written_ext.
    + intros s Hs. rewrite (pushIf_nonEmpty _ (Hn s Hs)).
      do 2 rewrite app_assoc. reflexivity.
    + apply written_ok.
      match goal with
      | |- shownIn _ _ (fun s => join _ (filterTruthy (?a ++ [_] ++ ?b))) =>
          apply (sections_shown _ _ a b _ Hf Hn)
      end.
Qed.

End Bodies.

(** From an entry to its section. *)
Ltac inSection build H :=
  eapply shownIn_ext;
  [ intros s _; unfold build; rewrite hasItems_middle; cbn [negb itemsOf];
    rewrite map_app; cbn [map]; reflexivity |];
  descend; apply shownIn_before; apply shownIn_join;
  exact H.

Section Sections.
Variable shown : jsstring -> jsstring.
Variable ok : jsstring -> bool.

Lemma summary_written (r : ResumeData.t) (X : jsstring -> jsstring) :
  (forall s, ok s = true -> nonEmpty (trim (X s)) = true) ->
  shownIn shown ok (fun s => escapeText (trim (X s))) ->
  writtenAs shown ok (fun s => buildLatexBody (putSummary r (X s))).
Proof.
  intros Hn H.
  assert (E : forall s, ok s = true ->
                buildSummary (Some (X s))
                = lit "\section{Professional Summary}" ++ nl
                  ++ lit "\small{" ++ escapeText (trim (X s)) ++ lit "}").
  { intros s Hs. unfold buildSummary. cbn [trimOpt option_map truthy].
    rewrite (Hn s Hs). reflexivity. }
  apply body_summary.
  - eapply shownIn_ext; [exact E |]. do 3 apply shownIn_after.
    now apply shownIn_before.
  - intros s Hs. now rewrite (E s Hs).
Qed.

Lemma experience_written (r : ResumeData.t) (l1 l2 : list Experience.t)
  (E : jsstring -> Experience.t) :
  shownIn shown ok (fun s => experienceEntry (E s)) ->
  writtenAs shown ok (fun s => buildLatexBody (putExperience r l1 (E s) l2)).
Proof.
  intros H. apply body_experience.
  - inSection buildExperienceSection H.
  - intros s _. now rewrite PdfFacts.experience_rendered, hasItems_middle.
Qed.

Lemma skills_written (r : ResumeData.t) (l1 l2 : list Skill.t)
  (E : jsstring -> Skill.t) :
  shownIn shown ok (fun s => skillLine (E s)) ->
  writtenAs shown ok (fun s => buildLatexBody (putSkill r l1 (E s) l2)).
Proof.
  intros H. apply body_skills.
  - inSection buildSkillsSection H.
  - intros s _. now rewrite PdfFacts.skills_rendered, hasItems_middle.
Qed.

Lemma education_written (r : ResumeData.t) (l1 l2 : list Education.t)
  (E : jsstring -> Education.t) :
  shownIn shown ok (fun s => educationEntry (E s)) ->
  writtenAs shown ok (fun s => buildLatexBody (putEducation r l1 (E s) l2)).
Proof.
  intros H. apply body_education.
  - inSection buildEducationSection H.
  - intros s _. now rewrite PdfFacts.education_rendered, hasItems_middle.
Qed.

Lemma certifications_written (r : ResumeData.t) (l1 l2 : list Certification.t)
  (E : jsstring -> Certification.t) :
  shownIn shown ok (fun s => certificationItem (E s)) ->
  writtenAs shown ok
    (fun s => buildLatexBody (putCertification r l1 (E s) l2)).
Proof.
  intros H. apply body_certifications.
  - inSection buildCertificationsSection H.
  - intros s _. now rewrite PdfFacts.certifications_rendered, hasItems_middle.
Qed.

Lemma awards_written (r : ResumeData.t) (l1 l2 : list Award.t)
  (E : jsstring -> Award.t) :
  shownIn shown ok (fun s => awardItem (E s)) ->
  writtenAs shown ok (fun s => buildLatexBody (putAward r l1 (E s) l2)).
Proof.
  intros H. apply body_awards.
  - inSection buildAwardsSection H.
  - intros s _. now rewrite PdfFacts.awards_rendered, hasItems_middle.
Qed.

Lemma mapM_middle {A B : Type} (f : A -> result B) (l1 l2 : list A) (x : A) :
  mapM f (l1 ++ x :: l2)
  = bind (mapM f l1) (fun a =>
      bind (f x) (fun b =>
        bind (mapM f l2) (fun c => Ok (a ++ b :: c)))).
Proof.
  induction l1 as [| y l1 IH]; cbn [app mapM bind].
  - destruct (f x); [| reflexivity]. cbn [bind].
    destruct (mapM f l2); reflexivity.
  - destruct (f y); [| reflexivity]. cbn [bind]. rewrite IH.
    destruct (mapM f l1); [| reflexivity]. cbn [bind].
    destruct (f x); [| reflexivity]. cbn [bind].
    destruct (mapM f l2); reflexivity.
Qed.

Lemma bind_assoc {A B C : Type} (c : result A) (k1 : A -> result B)
  (k2 : B -> result C) :
  bind (bind c k1) k2 = bind c (fun x => bind (k1 x) k2).
Proof. now destruct c. Qed.

Lemma projects_written (r : ResumeData.t) (l1 l2 : list Project.t)
  (P : jsstring -> Project.t) :
  writtenAs shown ok (fun s => projectEntry (P s)) ->
  writtenAs shown ok (fun s => buildLatexBody (putProject r l1 (P s) l2)).
Proof.
  intros H. apply body_projects.
  eapply written_ext.
  { intros s _. unfold buildProjectsSection. rewrite hasItems_middle.
    cbn [negb itemsOf]. rewrite mapM_middle. reflexivity. }
  destruct (mapM projectEntry l1) as [a | e]; [| left; exists e; reflexivity].
  cbn [bind].
  eapply written_ext; [intros s _; rewrite bind_assoc; reflexivity |].
  apply written_bind; [exact H |]. intros f Hf.
  destruct (mapM projectEntry l2) as [c | e]; [| left; exists e; reflexivity].
  cbn [bind]. apply written_ok.
  descend. apply shownIn_before. now apply shownIn_join.
Qed.

End Sections.


(** ** The leaves of the entries *)

Lemma orElse_same (s : jsstring) : orElse (Some s) [] = s.
Proof. now destruct s. Qed.

Lemma orElse_nonEmpty (s d : jsstring) :
  nonEmpty s = true -> orElse (Some s) d = s.
Proof. intros H. cbn [orElse]. now rewrite H. Qed.

Lemma notBlank_nonEmpty (s : jsstring) : notBlank s = true -> nonEmpty s = true.
Proof. now destruct s. Qed.

Lemma lastCR_app (a b : jsstring) : b <> [] -> lastCR (a ++ b) = lastCR b.
Proof.
  intros Hb. induction a as [| c a IH]; [reflexivity |].
  cbn [app]. destruct (a ++ b) eqn:E.
  - destruct a; [now destruct b | discriminate].
  - rewrite <- E at 1. cbn [lastCR]. rewrite <- IH, E. reflexivity.
Qed.

Lemma headOK_noLF (s : jsstring) : headOK s -> headLF s = false.
Proof.
  destruct s as [| c s]; [reflexivity |]. unfold headOK, headLF.
  intros H. destruct (N.eqb_spec c LF) as [-> | _]; [discriminate H | reflexivity].
Qed.

Lemma lastOK_noCR (s : jsstring) : headOK (rev s) -> lastCR s = false.
Proof.
  rewrite <- (rev_involutive s) at 2. destruct (rev s) as [| c t];
    [reflexivity |].
  cbn [rev headOK]. intros H. rewrite lastCR_app by discriminate.
  cbn [lastCR]. destruct (N.eqb_spec c CR) as [-> | _];
    [discriminate H | reflexivity].
Qed.

Lemma trim_seams (s : jsstring) :
  headLF (trim s) = false /\ lastCR (trim s) = false.
Proof.
  destruct (DateFacts.trim_ends s) as [H1 H2].
  split; [now apply headOK_noLF | now apply lastOK_noCR].
Qed.

(** The escaper on a text between two others. *)
Lemma escapeText_mid (a s b : jsstring) :
  lastCR a && headLF (s ++ b) = false -> lastCR s && headLF b = false ->
  escapeText (a ++ s ++ b) = escapeText a ++ escapeText s ++ escapeText b.
Proof.
  intros H1 H2. rewrite (escapeText_app a (s ++ b) H1).
  now rewrite (escapeText_app s b H2).
Qed.

Ltac fields :=
  cbn [Experience.company Experience.position Experience.location
       Experience.startDate Experience.endDate Experience.bullets
       Education.institution Education.degree Education.field
       Education.graduationDate Education.gpa Education.honors
       Skill.category Skill.skills
       Project.name Project.description Project.technologies Project.url
       Project.startDate Project.endDate
       Certification.name Certification.issuer Certification.date
       Certification.expiryDate Certification.credentialId
       Award.name Award.issuer Award.date Award.description
       PersonalInfo.name PersonalInfo.email PersonalInfo.phone
       PersonalInfo.location PersonalInfo.linkedin PersonalInfo.github
       PersonalInfo.website].

(** The date range with its start as the leaf, and with its end. *)
Lemma range_start (end_ : option jsstring) :
  shownIn (escaped trim) notBlank
    (fun s => escapeText (formatDateRange (Some s) end_)).
Proof.
  apply shownIn_ext with
    (g := fun s =>
      escapeText (trim s)
      ++ escapeText
           (if truthy (trimOpt end_)
            then [32; ENDASH; 32]%N ++ orElse (trimOpt end_) []
            else [32; ENDASH; 32]%N ++ lit "Present")).
  - intros s Hs. unfold formatDateRange. cbn [trimOpt option_map truthy].
    unfold notBlank in Hs. rewrite Hs. cbn [andb negb orElse]. rewrite Hs.
    assert (E : forall rest,
               escapeText (trim s ++ rest)
               = escapeText (trim s) ++ escapeText rest).
    { intros rest. apply escapeText_app. now rewrite (proj2 (trim_seams s)). }
    destruct (truthy (trimOpt end_)); cbn [negb]; apply E.
  - apply shownIn_first.
Qed.

Lemma range_end (start : option jsstring) :
  shownIn (escaped trim) notBlank
    (fun s => escapeText (formatDateRange start (Some s))).
Proof.
  apply shownIn_ext with
    (g := fun s =>
      escapeText
        (if truthy (trimOpt start)
         then orElse (trimOpt start) [] ++ [32; ENDASH; 32]%N
         else [])
      ++ escapeText (trim s)).
  - intros s Hs. unfold formatDateRange. cbn [trimOpt option_map truthy].
    unfold notBlank in Hs. rewrite Hs. cbn [andb negb orElse]. rewrite Hs.
    destruct (truthy (trimOpt start)); cbn [negb andb].
    + rewrite app_assoc. apply escapeText_app.
      rewrite (proj1 (trim_seams s)). apply andb_false_r.
    + reflexivity.
  - apply shownIn_after, shownIn_hole.
Qed.

(** The escaper on a list that is joined first. *)
Lemma joined_item (ok : jsstring -> bool) (l1 l2 : list jsstring) :
  shownIn (escaped same) ok
    (fun s => escapeText (join (lit ", ") (l1 ++ s :: l2))).
Proof.
  apply shownIn_ext with
    (g := fun s =>
      escapeText (if 0 <? length l1 then join (lit ", ") l1 ++ lit ", " else [])
      ++ escapeText s
      ++ escapeText
           (if 0 <? length l2 then lit ", " ++ join (lit ", ") l2 else [])).
  - intros s _. rewrite join_middle. apply escapeText_mid.
    + destruct (0 <? length l1); [| reflexivity].
      now rewrite lastCR_app by discriminate.
    + destruct (0 <? length l2); [| apply andb_false_r].
      apply andb_false_r.
  - apply shownIn_after, shownIn_first.
Qed.

(** The escaper on a text after a fixed one, and before one. *)
Lemma prefixed (ok : jsstring -> bool) (a : jsstring) :
  lastCR a = false ->
  shownIn (escaped same) ok (fun s => escapeText (a ++ s)).
Proof.
  intros H. apply shownIn_ext with (g := fun s => escapeText a ++ escapeText s).
  - intros s _. apply escapeText_app. now rewrite H.
  - apply shownIn_after, shownIn_hole.
Qed.

Lemma prefixed2 (ok : jsstring -> bool) (a b : jsstring) :
  lastCR (a ++ b) = false ->
  shownIn (escaped same) ok (fun s => escapeText (a ++ b ++ s)).
Proof.
  intros H. eapply shownIn_ext; [| apply (prefixed ok (a ++ b) H)].
  intros s _. cbv beta. now rewrite app_assoc.
Qed.

Lemma suffixed (ok : jsstring -> bool) (b : jsstring) :
  headLF b = false ->
  shownIn (escaped same) ok (fun s => escapeText (s ++ b)).
Proof.
  intros H. apply shownIn_ext with (g := fun s => escapeText s ++ escapeText b).
  - intros s _. apply escapeText_app. rewrite H. apply andb_false_r.
  - apply shownIn_first.
Qed.

(** The bullet lines with one of the items as the leaf. *)
Lemma bullets_item (b1 b2 : list jsstring) (fallback : jsstring) :
  shownIn (escaped trim) notBlank
    (fun s => toBulletLines (b1 ++ s :: b2) fallback).
Proof.
  apply shownIn_ext with
    (g := fun s =>
       join nl (map bulletLine (filterTruthy (map trim b1))
                ++ bulletLine (trim s)
                   :: map bulletLine (filterTruthy (map trim b2)))).
  - intros s Hs. unfold toBulletLines. rewrite map_app. cbn [map].
    rewrite (filterTruthy_middle _ _ _ Hs).
    replace (length _ =? 0) with false
      by (rewrite length_app; cbn [length]; symmetry; apply Nat.eqb_neq; lia).
    rewrite map_app. reflexivity.
  - apply shownIn_join. unfold bulletLine. cbn [escapeLatex].
    apply shownIn_after, shownIn_first.
Qed.

(** *** Experience *)

Lemma experience_company (p l sd ed : option jsstring)
  (b : option (list jsstring)) :
  shownIn (escaped same) nonEmpty
    (fun s => experienceEntry (Experience.mk (Some s) p l sd ed b)).
Proof.
  eapply shownIn_ext.
  { intros s Hs. unfold experienceEntry. fields.
    rewrite (orElse_nonEmpty _ _ Hs). cbn [escapeLatex]. reflexivity. }
  hole.
Qed.

Lemma experience_position (c l sd ed : option jsstring)
  (b : option (list jsstring)) :
  shownIn (escaped same) nonEmpty
    (fun s => experienceEntry (Experience.mk c (Some s) l sd ed b)).
Proof.
  eapply shownIn_ext.
  { intros s Hs. unfold experienceEntry. fields.
    rewrite (orElse_nonEmpty _ _ Hs). cbn [escapeLatex]. reflexivity. }
  hole.
Qed.

Lemma experience_location (c p sd ed : option jsstring)
  (b : option (list jsstring)) :
  shownIn (escaped same) any
    (fun s => experienceEntry (Experience.mk c p (Some s) sd ed b)).
Proof.
  eapply shownIn_ext.
  { intros s Hs. unfold experienceEntry. fields.
    rewrite orElse_same. cbn [escapeLatex]. reflexivity. }
  hole.
Qed.

Lemma experience_startDate (c p l ed : option jsstring)
  (b : option (list jsstring)) :
  shownIn (escaped trim) notBlank
    (fun s => experienceEntry (Experience.mk c p l (Some s) ed b)).
Proof.
  unfold experienceEntry. fields. cbn [escapeLatex].
  descend. apply shownIn_before, range_start.
Qed.

Lemma experience_endDate (c p l sd : option jsstring)
  (b : option (list jsstring)) :
  shownIn (escaped trim) notBlank
    (fun s => experienceEntry (Experience.mk c p l sd (Some s) b)).
Proof.
  unfold experienceEntry. fields. cbn [escapeLatex].
  descend. apply shownIn_before, range_end.
Qed.

Lemma experience_bullet (c p l sd ed : option jsstring)
  (b1 b2 : list jsstring) :
  shownIn (escaped trim) notBlank
    (fun s => experienceEntry
                (Experience.mk c p l sd ed (Some (b1 ++ s :: b2)))).
Proof.
  unfold experienceEntry. fields. cbn [itemsOf].
  descend. apply shownIn_before, bullets_item.
Qed.

(** [simp] brings the entry, for a leaf [s] that is [ok], into the form
    that the leaf lemma [found] is about. *)
Ltac leaf build simp found :=
  eapply shownIn_ext;
  [ intros s Hs; unfold build; fields; simp s Hs; cbn [escapeLatex];
    reflexivity |];
  descend;
  first [ apply shownIn_hole | apply shownIn_first | apply found
        | apply shownIn_before, found ].

Ltac byDefault s Hs := rewrite (orElse_nonEmpty _ _ Hs).
Ltac asItIs s Hs := idtac.
Ltac isThere s Hs := cbn [truthy]; rewrite Hs; cbn [orElse]; rewrite ?Hs.

(** *** Education *)

Lemma education_institution (d f g gpa : option jsstring)
  (h : option (list jsstring)) :
  shownIn (escaped same) nonEmpty
    (fun s => educationEntry (Education.mk (Some s) d f g gpa h)).
Proof. leaf educationEntry byDefault shownIn_hole. Qed.

Lemma education_degree (i f g gpa : option jsstring)
  (h : option (list jsstring)) :
  shownIn (escaped same) nonEmpty
    (fun s => educationEntry (Education.mk i (Some s) f g gpa h)).
Proof.
  leaf educationEntry byDefault
    (suffixed nonEmpty (if truthy f then lit " in " ++ orElse f [] else [])).
  now destruct (truthy f).
Qed.

Lemma education_field (i d g gpa : option jsstring)
  (h : option (list jsstring)) :
  shownIn (escaped same) nonEmpty
    (fun s => educationEntry (Education.mk i d (Some s) g gpa h)).
Proof.
  eapply shownIn_ext.
  { intros s Hs. unfold educationEntry. fields. isThere s Hs.
    cbn [escapeLatex]. reflexivity. }
  descend. apply shownIn_before, prefixed2.
  now rewrite lastCR_app by discriminate.
Qed.

Lemma education_graduationDate (i d f gpa : option jsstring)
  (h : option (list jsstring)) :
  shownIn (escaped same) nonEmpty
    (fun s => educationEntry (Education.mk i d f (Some s) gpa h)).
Proof. leaf educationEntry isThere shownIn_hole. Qed.

Lemma education_gpa (i d f g : option jsstring) (none : bool) :
  shownIn (escaped same) nonEmpty
    (fun s => educationEntry
                (Education.mk i d f g (Some s)
                   (if none then None else Some []))).
Proof.
  eapply shownIn_ext.
  { intros s Hs. unfold educationEntry. fields.
    replace (hasItems (if none then None else Some [])) with false
      by now destruct none.
    isThere s Hs. cbn [escapeLatex]. reflexivity. }
  descend. apply shownIn_before, prefixed. reflexivity.
Qed.

Lemma education_honor (i d f g gpa : option jsstring)
  (h1 h2 : list jsstring) :
  shownIn (escaped same) any
    (fun s => educationEntry
                (Education.mk i d f g gpa (Some (h1 ++ s :: h2)))).
Proof.
  eapply shownIn_ext.
  { intros s Hs. unfold educationEntry. fields. rewrite hasItems_middle.
    cbn [itemsOf escapeLatex]. reflexivity. }
  descend. apply shownIn_before, joined_item.
Qed.

(** *** Skills *)

Lemma skill_category (k : option (list jsstring)) :
  shownIn (escaped same) nonEmpty
    (fun s => skillLine (Skill.mk (Some s) k)).
Proof. leaf skillLine byDefault shownIn_hole. Qed.

Lemma skill_item (c : option jsstring) (k1 k2 : list jsstring) :
  shownIn (escaped same) any
    (fun s => skillLine (Skill.mk c (Some (k1 ++ s :: k2)))).
Proof.
  eapply shownIn_ext.
  { intros s Hs. unfold skillLine. fields. rewrite hasItems_middle.
    cbn [itemsOf escapeLatex]. reflexivity. }
  descend. apply shownIn_before, joined_item.
Qed.

(** *** Certifications and awards *)

Lemma meta_item (ok : jsstring -> bool) (prefix : jsstring)
  (a b : list jsstring) :
  lastCR prefix = false ->
  shownIn (escaped same) ok (fun s => metaText (a ++ (prefix ++ s) :: b)).
Proof.
  intros H. eapply shownIn_ext.
  { intros s _. unfold metaText.
    replace (0 <? length (a ++ (prefix ++ s) :: b)) with true
      by (rewrite length_app; cbn [length]; symmetry; apply Nat.ltb_lt; lia).
    rewrite map_app. cbn [map escapeLatex]. reflexivity. }
  apply shownIn_after, shownIn_before, shownIn_join, prefixed, H.
Qed.

Lemma metaPart_there (prefix : string) (s : jsstring) :
  nonEmpty s = true -> metaPart prefix (Some s) = [lit prefix ++ s].
Proof. intros H. unfold metaPart. cbn [truthy orElse]. now rewrite H. Qed.

Ltac inMeta build a prefix :=
  eapply shownIn_ext;
  [ intros s Hs; unfold build; fields; rewrite (metaPart_there prefix s Hs);
    reflexivity |];
  descend;
  first [ apply (meta_item nonEmpty (lit prefix) a)
        | apply shownIn_before, (meta_item nonEmpty (lit prefix) a) ];
  reflexivity.

Lemma certification_name (i d e c : option jsstring) :
  shownIn (escaped same) any
    (fun s => certificationItem (Certification.mk (Some s) i d e c)).
Proof. leaf certificationItem asItIs shownIn_hole. Qed.

Lemma certification_issuer (n d e c : option jsstring) :
  shownIn (escaped same) nonEmpty
    (fun s => certificationItem (Certification.mk n (Some s) d e c)).
Proof. inMeta certificationItem (@nil jsstring) "Issued by "%string. Qed.

Lemma certification_date (n i e c : option jsstring) :
  shownIn (escaped same) nonEmpty
    (fun s => certificationItem (Certification.mk n i (Some s) e c)).
Proof.
  inMeta certificationItem (metaPart "Issued by " i) EmptyString.
Qed.

Lemma certification_expiryDate (n i d c : option jsstring) :
  shownIn (escaped same) nonEmpty
    (fun s => certificationItem (Certification.mk n i d (Some s) c)).
Proof.
  eapply shownIn_ext.
  { intros s Hs. unfold certificationItem. fields.
    rewrite (metaPart_there "Expires " s Hs),
      (app_assoc (metaPart "Issued by " i)).
    reflexivity. }
  descend.
  apply (meta_item nonEmpty (lit "Expires ")
           (metaPart "Issued by " i ++ metaPart "" d)).
  reflexivity.
Qed.

Lemma certification_credentialId (n i d e : option jsstring) :
  shownIn (escaped same) nonEmpty
    (fun s => certificationItem (Certification.mk n i d e (Some s))).
Proof.
  eapply shownIn_ext.
  { intros s Hs. unfold certificationItem. fields.
    rewrite (metaPart_there "ID " s Hs).
    rewrite (app_assoc (metaPart "" d) (metaPart "Expires " e)).
    rewrite (app_assoc (metaPart "Issued by " i)).
    reflexivity. }
  descend.
  apply (meta_item nonEmpty (lit "ID ")
           (metaPart "Issued by " i ++ metaPart "" d ++ metaPart "Expires " e)
           []).
  reflexivity.
Qed.

Lemma award_name (i d x : option jsstring) :
  shownIn (escaped same) any
    (fun s => awardItem (Award.mk (Some s) i d x)).
Proof. leaf awardItem asItIs shownIn_hole. Qed.

Lemma award_issuer (n d x : option jsstring) :
  shownIn (escaped same) nonEmpty
    (fun s => awardItem (Award.mk n (Some s) d x)).
Proof. inMeta awardItem (@nil jsstring) EmptyString. Qed.

Lemma award_date (n i x : option jsstring) :
  shownIn (escaped same) nonEmpty
    (fun s => awardItem (Award.mk n i (Some s) x)).
Proof. inMeta awardItem (metaPart "" i) EmptyString. Qed.

Lemma award_description (n i d : option jsstring) :
  shownIn (escaped same) nonEmpty
    (fun s => awardItem (Award.mk n i d (Some s))).
Proof. leaf awardItem isThere shownIn_hole. Qed.

(** *** Projects *)

(** Where no line feed is ahead, [/\n+/] does not match. *)
Lemma newlines_miss (bef s : jsstring) :
  headLF s = false -> matchHere false newlinesRe bef s = None.
Proof.
  intros H. unfold matchHere, newlinesRe, plus.
  cbn [m repLoop ahead Nat.add Nat.eqb negb before caps groupsOf andb].
  destruct s as [| c s]; [reflexivity |].
  unfold step at 1. cbn [ahead]. unfold chrMatch at 1.
  cbn [headLF] in H. rewrite N.eqb_sym, H. reflexivity.
Qed.

(** Where a line feed is ahead, [/\n+/] matches line feeds. *)
Lemma newlines_hit (bef s : jsstring) :
  exists w cs, matchHere false newlinesRe bef (LF :: s) = Some (LF :: w, cs)
               /\ forallb (N.eqb LF) w = true /\ exists rest, s = w ++ rest.
Proof.
  destruct (matchHere false newlinesRe bef (LF :: s)) as [[w cs] |] eqn:E.
  - assert (A : atomsIn false (N.eqb LF) newlinesRe) by (intros d H; exact H).
    destruct (ConsumptionFacts.matchHere_sound _ _ _ _ _ _ _ A E)
      as (F & rest & Er).
    destruct (JobFacts.matchHere_length _ _ _ _ _ _ E) as [L _].
    destruct w as [| c w]; [cbn in L; lia |].
    cbn [app] in Er. injection Er as <- ->.
    cbn [forallb] in F. apply andb_true_iff in F. destruct F as [_ F].
    exists w, cs. split; [reflexivity |]. split; [exact F | now exists rest].
  - exfalso. revert E. unfold matchHere, newlinesRe, plus.
    cbn [m repLoop ahead Nat.add Nat.eqb negb before caps groupsOf andb].
    unfold step at 1. cbn [ahead]. unfold chrMatch at 1.
    rewrite N.eqb_refl.
    cbn [length repLoop pred decMax option_map Nat.eqb negb].
    match goal with
    | |- context [match ?again with Some z => Some z | None => Some ?y end] =>
        destruct again
    end; discriminate.
Qed.

Lemma scan_lines (s : jsstring) :
  forall skip bef acc,
    forallb (N.eqb LF) (firstn skip s) = true -> skip <= length s ->
    (0 < skip -> acc = []) ->
    filter nonEmpty (texts (scan false newlinesRe skip bef acc s))
    = filter nonEmpty (lfLines acc s).
Proof.
  induction s as [| c s IH]; intros skip bef acc F L A; cbn [scan lfLines].
  - cbn [length] in L. replace skip with 0 by lia.
    rewrite newlines_miss by reflexivity. reflexivity.
  - destruct skip as [| j].
    + destruct (N.eqb_spec c LF) as [-> | Hc].
      * destruct (newlines_hit bef s) as (w & cs & -> & Fw & rest & ->).
        cbn [texts flat_map app filter].
        change (flat_map _ ?l) with (texts l). f_equal.
        destruct (nonEmpty (rev acc)); [f_equal |];
          (apply IH;
           [ rewrite firstn_app, Nat.sub_diag, firstn_all; cbn [firstn];
             now rewrite app_nil_r
           | rewrite length_app; lia
           | reflexivity ]).
      * rewrite newlines_miss
          by (cbn [headLF]; now apply N.eqb_neq).
        apply IH; [reflexivity | lia | intros H; lia].
    + cbn [firstn forallb] in F. apply andb_true_iff in F.
      destruct F as [Fc F]. apply N.eqb_eq in Fc. subst c.
      rewrite N.eqb_refl. rewrite (A ltac:(lia)). cbn [rev filter nonEmpty].
      apply IH; [exact F | cbn [length] in L; lia | reflexivity].
Qed.

Lemma split_lines (s : jsstring) :
  filter nonEmpty (splitRe false newlinesRe s) = filter nonEmpty (lfLines [] s).
Proof.
  apply (scan_lines s 0 [] []); [reflexivity | lia | reflexivity].
Qed.

Lemma lfLines_one (s acc : jsstring) :
  noLF s = true -> lfLines acc s = [rev acc ++ s].
Proof.
  revert acc. induction s as [| c s IH]; intros acc H; cbn [lfLines].
  - now rewrite app_nil_r.
  - cbn [noLF] in H. apply andb_true_iff in H. destruct H as [Hc Hs].
    apply negb_true_iff in Hc. rewrite Hc, (IH _ Hs). cbn [rev].
    now rewrite <- app_assoc.
Qed.

Lemma lfLines_app (x y acc : jsstring) :
  lfLines acc (x ++ LF :: y) = lfLines acc x ++ lfLines [] y.
Proof.
  revert acc. induction x as [| c x IH]; intros acc; cbn [app lfLines].
  - now rewrite N.eqb_refl.
  - destruct (c =? LF)%N; [now rewrite IH | apply IH].
Qed.

Lemma lfLines_onLine (above below : option jsstring) (s : jsstring) :
  noLF s = true ->
  lfLines [] (onLine above s below)
  = match above with Some a => lfLines [] a | None => [] end
    ++ s :: match below with Some b => lfLines [] b | None => [] end.
Proof.
  intros H. unfold onLine.
  assert (E : lfLines [] (s ++ match below with
                                | Some b => LF :: b
                                | None => []
                                end)
              = s :: match below with Some b => lfLines [] b | None => [] end).
  { destruct below as [b |].
    - now rewrite lfLines_app, (lfLines_one _ _ H).
    - now rewrite app_nil_r, (lfLines_one _ _ H). }
  destruct above as [a |]; [| exact E].
  rewrite <- app_assoc. cbn [app]. now rewrite lfLines_app, E.
Qed.

Lemma trimmed_lines (l : list jsstring) :
  filterTruthy (map trim l) = filterTruthy (map trim (filter nonEmpty l)).
Proof.
  induction l as [| x l IH]; [reflexivity |]. cbn [map filter].
  destruct x as [| c x]; cbn [nonEmpty map]; unfold filterTruthy in *;
    cbn [filter]; now rewrite IH.
Qed.

Ltac inProject :=
  unfold projectEntry; fields;
  match goal with
  | |- context [linkPart ?u "Link"] =>
      destruct (linkPart u "Link") as [link | e];
      [| left; exists e; reflexivity]
  end;
  cbn [bind]; apply written_ok.

Lemma project_name (d : option jsstring) (t : option (list jsstring))
  (u sd ed : option jsstring) :
  writtenAs (escaped same) nonEmpty
    (fun s => projectEntry (Project.mk (Some s) d t u sd ed)).
Proof.
  inProject. eapply shownIn_ext.
  { intros s Hs. rewrite (orElse_nonEmpty _ _ Hs). cbn [escapeLatex].
    reflexivity. }
  hole.
Qed.

Lemma project_technology (n d : option jsstring) (t1 t2 : list jsstring)
  (u sd ed : option jsstring) :
  writtenAs (escaped same) any
    (fun s => projectEntry (Project.mk n d (Some (t1 ++ s :: t2)) u sd ed)).
Proof.
  inProject. eapply shownIn_ext.
  { intros s Hs. rewrite hasItems_middle. cbn [itemsOf escapeLatex].
    reflexivity. }
  descend. apply shownIn_before. descend. apply shownIn_before, joined_item.
Qed.

Lemma project_startDate (n d : option jsstring) (t : option (list jsstring))
  (u ed : option jsstring) :
  writtenAs (escaped trim) notBlank
    (fun s => projectEntry (Project.mk n d t u (Some s) ed)).
Proof.
  inProject. eapply shownIn_ext.
  { intros s Hs. cbn [truthy]. rewrite (notBlank_nonEmpty _ Hs).
    cbn [orb escapeLatex]. reflexivity. }
  descend. apply shownIn_before.
  apply (shownIn_join _ _ (lit " $|$ ") [] link), range_start.
Qed.

Lemma project_endDate (n d : option jsstring) (t : option (list jsstring))
  (u sd : option jsstring) :
  writtenAs (escaped trim) notBlank
    (fun s => projectEntry (Project.mk n d t u sd (Some s))).
Proof.
  inProject. eapply shownIn_ext.
  { intros s Hs. cbn [truthy]. rewrite (notBlank_nonEmpty _ Hs), orb_true_r.
    cbn [escapeLatex]. reflexivity. }
  descend. apply shownIn_before.
  apply (shownIn_join _ _ (lit " $|$ ") [] link), range_end.
Qed.

Lemma project_description (n : option jsstring) (above below : option jsstring)
  (t : option (list jsstring)) (u sd ed : option jsstring) :
  writtenAs (escaped trim) oneLine
    (fun s => projectEntry
                (Project.mk n (Some (onLine above s below)) t u sd ed)).
Proof.
  inProject.
  set (A := filterTruthy
              (map trim (filter nonEmpty
                           match above with
                           | Some a => lfLines [] a
                           | None => []
                           end))).
  set (B := filterTruthy
              (map trim (filter nonEmpty
                           match below with
                           | Some b => lfLines [] b
                           | None => []
                           end))).
  apply shownIn_ext with
    (g := fun s =>
       lit "      \resumeProjectHeading" ++ nl
       ++ lit "          {\textbf{"
       ++ escapeLatex (Some (orElse n (lit "Project Name"))) ++ lit "}"
       ++ (if hasItems t
           then lit " $|$ \emph{"
                ++ escapeLatex (Some (join (lit ", ") (itemsOf t))) ++ lit "}"
           else [])
       ++ lit "}{"
       ++ join (lit " $|$ ")
            ((if truthy sd || truthy ed
              then [escapeLatex (Some (formatDateRange sd ed))] else [])
             ++ link)
       ++ lit "}" ++ nl
       ++ lit "          \resumeItemListStart" ++ nl
       ++ toBulletLines (A ++ s :: B) projectFallback ++ nl
       ++ lit "          \resumeItemListEnd" ++ nl
       ++ lit "          \vspace{-13pt}").
  - intros s Hs. unfold oneLine in Hs. apply andb_true_iff in Hs.
    destruct Hs as [Hb Hl].
    assert (Hn : nonEmpty (onLine above s below) = true).
    { unfold onLine. pose proof (notBlank_nonEmpty _ Hb) as Hs.
      destruct s; [discriminate Hs |]. now destruct above as [[| ? ?] |]. }
    cbn [truthy]. rewrite Hn, (orElse_nonEmpty _ _ Hn).
    do 11 f_equal.
    rewrite trimmed_lines, split_lines, (lfLines_onLine _ _ _ Hl).
    rewrite filter_app. cbn [filter]. rewrite (notBlank_nonEmpty _ Hb).
    rewrite map_app. cbn [map]. rewrite (filterTruthy_middle _ _ _ Hb).
    fold A B. unfold toBulletLines. rewrite !map_app. cbn [map].
    now rewrite DateFacts.trim_idempotent.
  - descend. apply shownIn_before.
    apply shownIn_weaken with (ok := notBlank); [| apply bullets_item].
    intros s Hs. unfold oneLine in Hs. now apply andb_true_iff in Hs.
Qed.

(** *** The header *)

Lemma length_middle {A : Type} (a b : list A) (x : A) :
  (length (a ++ x :: b) =? 0) = false.
Proof. apply Nat.eqb_neq. rewrite length_app. cbn [length]. lia. Qed.

Ltac inHeader :=
  unfold buildHeader; fields;
  match goal with
  | |- context [linkPart ?u "LinkedIn"] =>
      destruct (linkPart u "LinkedIn") as [k1 | err];
      [| left; exists err; reflexivity]
  end;
  cbn [bind];
  match goal with
  | |- context [linkPart ?u "GitHub"] =>
      destruct (linkPart u "GitHub") as [k2 | err];
      [| left; exists err; reflexivity]
  end;
  cbn [bind];
  match goal with
  | |- context [linkPart ?u "Portfolio"] =>
      destruct (linkPart u "Portfolio") as [k3 | err];
      [| left; exists err; reflexivity]
  end;
  cbn [bind]; apply written_ok.

Lemma header_name (e p l li g w : option jsstring) :
  writtenAs (escaped trim) notBlank
    (fun s => buildHeader (Some (PersonalInfo.mk (Some s) e p l li g w))).
Proof.
  inHeader. eapply shownIn_ext.
  { intros s Hs. cbn [trimOpt option_map truthy]. unfold notBlank in Hs.
    rewrite Hs. rewrite (orElse_nonEmpty _ _ Hs). cbn [escapeLatex].
    reflexivity. }
  hole.
Qed.

Lemma header_location (n e p li g w : option jsstring) :
  writtenAs (escaped same) nonEmpty
    (fun s => buildHeader (Some (PersonalInfo.mk n e p (Some s) li g w))).
Proof.
  inHeader. eapply shownIn_ext.
  { intros s Hs. cbn [truthy]. rewrite Hs. cbn [escapeLatex].
    change ([escapeText s] ++ ?rest) with ([] ++ escapeText s :: rest).
    rewrite length_middle. reflexivity. }
  descend. apply shownIn_before, shownIn_join, shownIn_hole.
Qed.

Lemma header_phone (n e l li g w : option jsstring) :
  writtenAs (escaped same) nonEmpty
    (fun s => buildHeader (Some (PersonalInfo.mk n e (Some s) l li g w))).
Proof.
  inHeader. eapply shownIn_ext.
  { intros s Hs. cbn [truthy]. rewrite Hs. cbn [escapeLatex].
    change (?a ++ [escapeText s] ++ ?rest) with (a ++ escapeText s :: rest).
    rewrite length_middle. reflexivity. }
  descend. apply shownIn_before, shownIn_join, shownIn_hole.
Qed.

Lemma header_email (n p l li g w : option jsstring) :
  writtenAs linked nonEmpty
    (fun s => buildHeader (Some (PersonalInfo.mk n (Some s) p l li g w))).
Proof.
  inHeader. eapply shownIn_ext.
  { intros s Hs. cbn [truthy]. rewrite Hs. rewrite (orElse_nonEmpty _ _ Hs).
    cbn [escapeLatex].
    replace (href (lit "mailto:" ++ trim s) (escapeText (trim s)))
      with (lit "\href{mailto:" ++ linked s ++ lit "}")
      by (unfold href, linked; now rewrite <- !app_assoc).
    rewrite (app_assoc (if truthy l then _ else _)).
    change (?a ++ [?x] ++ ?rest) with (a ++ x :: rest).
    rewrite length_middle. reflexivity. }
  descend. apply shownIn_before, shownIn_join, shownIn_after, shownIn_first.
Qed.


Section Render.
Variable shown : jsstring -> jsstring.
Variable ok : jsstring -> bool.
Variable r : ResumeData.t.
Variable T : jsstring.

Lemma render_header (P : jsstring -> PersonalInfo.t) :
  writtenAs shown ok (fun s => buildHeader (Some (P s))) ->
  writtenAs shown ok (fun s => generateLatexFromResume (putHeader r (P s)) T).
Proof. intros H. now apply render_written, body_header. Qed.

Lemma render_experience (l1 l2 : list Experience.t)
  (E : jsstring -> Experience.t) :
  shownIn shown ok (fun s => experienceEntry (E s)) ->
  writtenAs shown ok
    (fun s => generateLatexFromResume (putExperience r l1 (E s) l2) T).
Proof. intros H. now apply render_written, experience_written. Qed.

Lemma render_project (l1 l2 : list Project.t) (P : jsstring -> Project.t) :
  writtenAs shown ok (fun s => projectEntry (P s)) ->
  writtenAs shown ok
    (fun s => generateLatexFromResume (putProject r l1 (P s) l2) T).
Proof. intros H. now apply render_written, projects_written. Qed.

Lemma render_skill (l1 l2 : list Skill.t) (E : jsstring -> Skill.t) :
  shownIn shown ok (fun s => skillLine (E s)) ->
  writtenAs shown ok
    (fun s => generateLatexFromResume (putSkill r l1 (E s) l2) T).
Proof. intros H. now apply render_written, skills_written. Qed.

Lemma render_education (l1 l2 : list Education.t)
  (E : jsstring -> Education.t) :
  shownIn shown ok (fun s => educationEntry (E s)) ->
  writtenAs shown ok
    (fun s => generateLatexFromResume (putEducation r l1 (E s) l2) T).
Proof. intros H. now apply render_written, education_written. Qed.

Lemma render_certification (l1 l2 : list Certification.t)
  (E : jsstring -> Certification.t) :
  shownIn shown ok (fun s => certificationItem (E s)) ->
  writtenAs shown ok
    (fun s => generateLatexFromResume (putCertification r l1 (E s) l2) T).
Proof. intros H. now apply render_written, certifications_written. Qed.

Lemma render_award (l1 l2 : list Award.t) (E : jsstring -> Award.t) :
  shownIn shown ok (fun s => awardItem (E s)) ->
  writtenAs shown ok
    (fun s => generateLatexFromResume (putAward r l1 (E s) l2) T).
Proof. intros H. now apply render_written, awards_written. Qed.

End Render.

Lemma render_summary (r : ResumeData.t) (T : jsstring) :
  writtenAs (escaped trim) notBlank
    (fun s => generateLatexFromResume (putSummary r s) T).
Proof.
  apply render_written, summary_written; [now intros s Hs |].
  apply shownIn_hole.
Qed.

(** What the shape tells apart: no text around a leaf that is escaped
    once is, for every leaf, a text around the leaf as it is, or around
    the leaf escaped twice. *)
Lemma shape_tells (pre post pre' post' : jsstring) :
  ~ (forall s, nonEmpty s = true ->
               pre ++ escapeText s ++ post = pre' ++ s ++ post')
  /\ ~ (forall s, nonEmpty s = true ->
                  pre ++ escapeText s ++ post
                  = pre' ++ escapeText (escapeText s) ++ post').
Proof.
  split; intros H;
    pose proof (H (lit "a") eq_refl) as Ha;
    pose proof (H (lit "&") eq_refl) as Hb;
    apply (f_equal (@length N)) in Ha, Hb;
    rewrite !length_app in Ha, Hb;
    change (length (escapeText (lit "a"))) with 1 in Ha;
    change (length (escapeText (lit "&"))) with 2 in Hb.
  - cbn [length lit list_ascii_of_string map] in Ha, Hb. lia.
  - change (length (escapeText (escapeText (lit "a")))) with 1 in Ha.
    change (length (escapeText (escapeText (lit "&")))) with 20 in Hb.
    lia.
Qed.

End LeafFacts.

(* ================================================================== *)
(** * The claim about the escaper *)
(* ================================================================== *)

Module LeafClaims.
Import Renderer LeafFacts.
Unset Implicit Arguments.


End LeafClaims.
